(** * CBOR codec of cardano-go (internal/cbor): decoder and header encoding

    A shallow embedding of [internal/cbor/decode.go] together with the
    header encoder exercised by [internal/cbor/encode_test.go].

    Go values reached through [reflect.Value] are modelled by [rvalue]: a
    static type, a value and the settable flag.  A decoding function that
    mutates its target in Go returns the target's new value here.  Reads
    past the end of the input and writes through an unsettable
    [reflect.Value] are run-time panics in Go and are the result [Panic]
    here.  Recursion of the Go code is bounded by a fuel argument; the
    result [OutOfFuel] only says that the bound was too small. *)

From Stdlib Require Import ZArith List String Ascii Bool Lia DecimalString.
From Stdlib Require Import Strings.Byte.
Import ListNotations.
Local Open Scope string_scope.
Local Open Scope list_scope.
Local Open Scope Z_scope.

Set Implicit Arguments.
Set Warnings "-register-all".

(** ** Results and the decoder monad *)

Inductive result (A : Type) : Type :=
| Done (a : A)
| Panic
| OutOfFuel.
Arguments Panic {A}.
Arguments OutOfFuel {A}.

(** ** Go types *)

(** Predeclared scalar types.  [int] and [uint] are 64 bits wide. *)
Inductive basic : Type :=
| BBool
| BInt | BInt8 | BInt16 | BInt32 | BInt64
| BUint | BUint8 | BUint16 | BUint32 | BUint64
| BFloat32 | BFloat64
| BString.

Inductive Kind : Type :=
| KBool
| KInt | KInt8 | KInt16 | KInt32 | KInt64
| KUint | KUint8 | KUint16 | KUint32 | KUint64
| KFloat32 | KFloat64
| KArray | KInterface | KMap | KPtr | KSlice | KString | KStruct.

(** A Go field of a struct type, as [reflect.Type.Field] sees it. *)
Record gofield_ (T : Type) : Type := GoField {
  gfName : string;
  gfExported : bool;
  gfType : T
}.

(** A resolved CBOR field: [field] of the struct field resolver.  [idx] is
    the access path through embedded structs. *)
Record field_ (T : Type) : Type := Field {
  name : string;
  nameAsInt : Z;
  keyAsInt : bool;
  idx : list nat;
  typ : T
}.

(** Method set of a defined type, as far as the decoder inspects it:
    whether the pointer type implements [cbor.Unmarshaler] and
    [encoding.BinaryUnmarshaler]. *)
Record methods : Type := Methods {
  hasUnmarshalCBOR : bool;
  hasUnmarshalBinary : bool
}.

Definition noMethods : methods := Methods false false.

Inductive gotype : Type :=
| TBasic (b : basic)
| TDefined (tname : string) (m : methods) (under : gotype)
| TArray (n : nat) (e : gotype)
| TSlice (e : gotype)
| TMap (k e : gotype)
| TPtr (e : gotype)
| TStruct (tname : string) (m : methods) (gofields : list (gofield_ gotype))
          (toArray : bool) (fields : list (field_ gotype)) (err : option string)
| TEmptyIface
| TIface (tname : string)
| TTime
| TBigInt
| TTag
| TByteString.

Abbreviation gofield := (gofield_ gotype).
Abbreviation field := (field_ gotype).

Definition basicKind (b : basic) : Kind :=
  match b with
  | BBool => KBool
  | BInt => KInt | BInt8 => KInt8 | BInt16 => KInt16 | BInt32 => KInt32 | BInt64 => KInt64
  | BUint => KUint | BUint8 => KUint8 | BUint16 => KUint16 | BUint32 => KUint32
  | BUint64 => KUint64
  | BFloat32 => KFloat32 | BFloat64 => KFloat64
  | BString => KString
  end.

(** [reflect.Type.Kind]. *)
Fixpoint kindOf (t : gotype) : Kind :=
  match t with
  | TBasic b => basicKind b
  | TDefined _ _ u => kindOf u
  | TArray _ _ => KArray
  | TSlice _ => KSlice
  | TMap _ _ => KMap
  | TPtr _ => KPtr
  | TStruct _ _ _ _ _ _ => KStruct
  | TEmptyIface | TIface _ => KInterface
  | TTime | TBigInt | TTag => KStruct
  | TByteString => KString
  end.

(** The underlying type of a defined type. *)
Fixpoint underlying (t : gotype) : gotype :=
  match t with
  | TDefined _ _ u => underlying u
  | _ => t
  end.

Definition basic_eqb (a b : basic) : bool :=
  match a, b with
  | BBool, BBool | BInt, BInt | BInt8, BInt8 | BInt16, BInt16 | BInt32, BInt32
  | BInt64, BInt64 | BUint, BUint | BUint8, BUint8 | BUint16, BUint16
  | BUint32, BUint32 | BUint64, BUint64 | BFloat32, BFloat32 | BFloat64, BFloat64
  | BString, BString => true
  | _, _ => false
  end.

Definition Kind_eqb (a b : Kind) : bool :=
  match a, b with
  | KBool, KBool | KInt, KInt | KInt8, KInt8 | KInt16, KInt16 | KInt32, KInt32
  | KInt64, KInt64 | KUint, KUint | KUint8, KUint8 | KUint16, KUint16
  | KUint32, KUint32 | KUint64, KUint64 | KFloat32, KFloat32 | KFloat64, KFloat64
  | KArray, KArray | KInterface, KInterface | KMap, KMap | KPtr, KPtr
  | KSlice, KSlice | KString, KString | KStruct, KStruct => true
  | _, _ => false
  end.

(** Identity of types ([==] on [reflect.Type]).  Defined types, struct
    types and interface types are identified by their declared name. *)
Fixpoint gotype_eqb (a b : gotype) : bool :=
  match a, b with
  | TBasic x, TBasic y => basic_eqb x y
  | TDefined n _ _, TDefined n' _ _ => String.eqb n n'
  | TArray n e, TArray n' e' => Nat.eqb n n' && gotype_eqb e e'
  | TSlice e, TSlice e' => gotype_eqb e e'
  | TMap k e, TMap k' e' => gotype_eqb k k' && gotype_eqb e e'
  | TPtr e, TPtr e' => gotype_eqb e e'
  | TStruct n _ _ _ _ _, TStruct n' _ _ _ _ _ => String.eqb n n'
  | TEmptyIface, TEmptyIface => true
  | TIface n, TIface n' => String.eqb n n'
  | TTime, TTime | TBigInt, TBigInt | TTag, TTag | TByteString, TByteString => true
  | _, _ => false
  end.

Definition Zstr (z : Z) : string := NilZero.string_of_int (Z.to_int z).

Definition basicString (b : basic) : string :=
  match b with
  | BBool => "bool"
  | BInt => "int" | BInt8 => "int8" | BInt16 => "int16" | BInt32 => "int32"
  | BInt64 => "int64"
  | BUint => "uint" | BUint8 => "uint8" | BUint16 => "uint16" | BUint32 => "uint32"
  | BUint64 => "uint64"
  | BFloat32 => "float32" | BFloat64 => "float64"
  | BString => "string"
  end.

(** [reflect.Type.String]. *)
Fixpoint typeString (t : gotype) : string :=
  match t with
  | TBasic b => basicString b
  | TDefined n _ _ => n
  | TArray n e => "[" ++ Zstr (Z.of_nat n) ++ "]" ++ typeString e
  | TSlice e => "[]" ++ typeString e
  | TMap k e => "map[" ++ typeString k ++ "]" ++ typeString e
  | TPtr e => "*" ++ typeString e
  | TStruct n _ _ _ _ _ => n
  | TEmptyIface => "interface {}"
  | TIface n => n
  | TTime => "time.Time"
  | TBigInt => "big.Int"
  | TTag => "cbor.Tag"
  | TByteString => "cbor.ByteString"
  end.

(** ** IEEE 754 bit patterns

    Floating-point values are carried as their bit patterns.  The
    conversions between widths and from integers are those of the Go
    compiler (round to nearest, ties to even). *)

Record fmt : Type := Fmt { ebits : Z; mbits : Z }.

Definition binary16 : fmt := Fmt 5 10.
Definition binary32 : fmt := Fmt 8 23.
Definition binary64 : fmt := Fmt 11 52.

Definition bias (f : fmt) : Z := 2 ^ (ebits f - 1) - 1.

Inductive fval : Type :=
| FNaN (sign : bool) (payload : Z)
| FInf (sign : bool)
| FFin (sign : bool) (m e : Z).

Definition decodeF (f : fmt) (bits : Z) : fval :=
  let s := Z.testbit bits (ebits f + mbits f) in
  let e := Z.land (Z.shiftr bits (mbits f)) (2 ^ ebits f - 1) in
  let m := Z.land bits (2 ^ mbits f - 1) in
  if e =? 2 ^ ebits f - 1 then (if m =? 0 then FInf s else FNaN s m)
  else if e =? 0 then FFin s m (1 - bias f - mbits f)
  else FFin s (m + 2 ^ mbits f) (e - bias f - mbits f).

(** [m / 2^k] rounded to nearest, ties to even. *)
Definition roundShiftr (m k : Z) : Z :=
  if k <=? 0 then Z.shiftl m (- k)
  else
    let q := Z.shiftr m k in
    let r := m - Z.shiftl q k in
    let half := 2 ^ (k - 1) in
    if r <? half then q
    else if half <? r then q + 1
    else if Z.odd q then q + 1 else q.

Definition signBit (f : fmt) (s : bool) : Z :=
  if s then 2 ^ (ebits f + mbits f) else 0.

Definition infBits (f : fmt) : Z := Z.shiftl (2 ^ ebits f - 1) (mbits f).

Definition encodeF (f : fmt) (from : fmt) (v : fval) : Z :=
  match v with
  | FNaN s p =>
      let p' := if mbits from <=? mbits f then Z.shiftl p (mbits f - mbits from)
                else Z.shiftr p (mbits from - mbits f) in
      signBit f s + infBits f + Z.lor p' (2 ^ (mbits f - 1))
  | FInf s => signBit f s + infBits f
  | FFin s m e =>
      if m =? 0 then signBit f s
      else
        let E := Z.log2 m + e in
        let emin := 1 - bias f in
        let q := (if E <? emin then emin else E) - mbits f in
        let M := roundShiftr m (q - e) in
        let mag := (if E <? emin then 0 else Z.shiftl (E + bias f - 1) (mbits f)) + M in
        signBit f s + (if infBits f <=? mag then infBits f else mag)
  end.

Definition convertF (from to : fmt) (bits : Z) : Z := encodeF to from (decodeF from bits).

(** [float64(val)] for an unsigned and for a signed 64-bit integer. *)
Definition float64OfUint (val : Z) : Z := encodeF binary64 binary64 (FFin false val 0).
Definition float64OfInt (val : Z) : Z := encodeF binary64 binary64 (FFin (val <? 0) (Z.abs val) 0).

Definition isNaN (f : fmt) (bits : Z) : bool :=
  match decodeF f bits with FNaN _ _ => true | _ => false end.

Definition isInf (f : fmt) (bits : Z) : bool :=
  match decodeF f bits with FInf _ => true | _ => false end.

(** [==] on floating-point values of one width. *)
Definition floatEq (f : fmt) (a b : Z) : bool :=
  negb (isNaN f a) && negb (isNaN f b) &&
  ((a =? b) || ((Z.land a (2 ^ (ebits f + mbits f) - 1) =? 0)
                && (Z.land b (2 ^ (ebits f + mbits f) - 1) =? 0))).

(** [reflect.Value.OverflowFloat] for a [float32] destination:
    [math.MaxFloat32 < |x| && |x| <= math.MaxFloat64]. *)
Definition overflowFloat32 (bits : Z) : bool :=
  let mag := Z.land bits (2 ^ 63 - 1) in
  (0x47EFFFFFE0000000 <? mag) && (mag <? 0x7FF0000000000000).

(** ** Go values *)

(** A [time.Time] is the struct that Go's [==] compares: the wall and
    ext words and the location pointer.  A time without monotonic clock
    reading holds the nanoseconds in [wall] and the seconds since year 1
    in [ext].  The locations the decoder meets are nil (UTC),
    [time.Local], and the location [time.Parse] allocates for an offset
    that is neither, a fresh pointer at every call. *)
Inductive goloc : Type :=
| LocUTC
| LocLocal
| LocFixed (offset : Z).

Record gotime : Type := MkTime { tWall : Z; tExt : Z; tLoc : goloc }.

(** [time.Time{}]. *)
Definition TimeZero : gotime := MkTime 0 0 LocUTC.

(** A slice is nil or a window of length [len] on a backing array; the
    length of the backing array is the capacity.  A pointer owns its
    pointee.  An interface value is nil or a dynamic type with a value. *)
Inductive goval : Type :=
| VBool (b : bool)
| VInt (z : Z)
| VUint (z : Z)
| VFloat32 (bits : Z)
| VFloat64 (bits : Z)
| VString (s : string)
| VArray (l : list goval)
| VSlice (s : option (list goval * nat))
| VMap (m : option (list (goval * goval)))
| VPtr (p : option goval)
| VStruct (l : list goval)
| VIface (x : option (gotype * goval))
| VTime (t : gotime)
| VBigInt (z : Z)
| VTag (num : Z) (content : option (gotype * goval)).

(** A value of type [any]: nil, or a dynamic type and its value. *)
Definition any : Type := option (gotype * goval).

(** [==] on locations: pointer equality; the location of a fixed zone is
    a fresh pointer, equal to no location met before. *)
Definition goloc_eqb (a b : goloc) : bool :=
  match a, b with
  | LocUTC, LocUTC => true
  | LocLocal, LocLocal => true
  | _, _ => false
  end.

(** [==] on [time.Time]: field by field. *)
Definition gotime_eqb (a b : gotime) : bool :=
  (tWall a =? tWall b) && (tExt a =? tExt b) && goloc_eqb (tLoc a) (tLoc b).

(** [==] on comparable Go values, the equality of map keys.  Pointers are
    equal when both are nil: every pointer the decoder makes is fresh. *)
Fixpoint goval_eqb (a b : goval) : bool :=
  let fix all2 (l l' : list goval) : bool :=
    match l, l' with
    | [], [] => true
    | x :: r, y :: r' => goval_eqb x y && all2 r r'
    | _, _ => false
    end in
  let anyEq (x y : option (gotype * goval)) : bool :=
    match x, y with
    | None, None => true
    | Some (t, v), Some (t', v') => gotype_eqb t t' && goval_eqb v v'
    | _, _ => false
    end in
  match a, b with
  | VBool x, VBool y => Bool.eqb x y
  | VInt x, VInt y => x =? y
  | VUint x, VUint y => x =? y
  | VFloat32 x, VFloat32 y => floatEq binary32 x y
  | VFloat64 x, VFloat64 y => floatEq binary64 x y
  | VString x, VString y => String.eqb x y
  | VArray l, VArray l' => all2 l l'
  | VPtr None, VPtr None => true
  | VStruct l, VStruct l' => all2 l l'
  | VIface x, VIface y => anyEq x y
  | VTime x, VTime y => gotime_eqb x y
  | VTag n c, VTag n' c' => (n =? n') && anyEq c c'
  | _, _ => false
  end.

Definition any_eqb (x y : any) : bool := goval_eqb (VIface x) (VIface y).

(** The zero value of a type ([reflect.Zero]). *)
Fixpoint zeroValue (t : gotype) : goval :=
  match t with
  | TBasic BBool => VBool false
  | TBasic (BInt | BInt8 | BInt16 | BInt32 | BInt64) => VInt 0
  | TBasic (BUint | BUint8 | BUint16 | BUint32 | BUint64) => VUint 0
  | TBasic BFloat32 => VFloat32 0
  | TBasic BFloat64 => VFloat64 0
  | TBasic BString => VString ""
  | TDefined _ _ u => zeroValue u
  | TArray n e => VArray (repeat (zeroValue e) n)
  | TSlice _ => VSlice None
  | TMap _ _ => VMap None
  | TPtr _ => VPtr None
  | TStruct _ _ gf _ _ _ => VStruct (map (fun g => zeroValue (gfType g)) gf)
  | TEmptyIface | TIface _ => VIface None
  | TTime => VTime TimeZero
  | TBigInt => VBigInt 0
  | TTag => VTag 0 None
  | TByteString => VString ""
  end.

(** ** Errors *)

Inductive error : Type :=
| InvalidUnmarshalError (s : string)
| UnmarshalTypeError (CBORType GoType StructFieldName errorMsg : string)
| DupMapKeyError (Key : any) (Index : Z)
| UnknownFieldError (Index : Z)
| SemanticError (s : string)
| WrongTagError (RegisteredType : gotype) (RegisteredTagNum TagNum : list Z)
| IndefiniteLengthError (t : Z)
| TagsMdError
| errorString (s : string).

(** ** Decoding modes *)

Inductive DupMapKeyMode : Type := DupMapKeyQuiet | DupMapKeyEnforcedAPF.
Inductive IndefLengthMode : Type := IndefLengthAllowed | IndefLengthForbidden.
Inductive TagsMode : Type := TagsAllowed | TagsForbidden.
Inductive IntDecMode : Type := IntDecConvertNone | IntDecConvertSigned.
Inductive MapKeyByteStringMode : Type := MapKeyByteStringFail | MapKeyByteStringWrap.
Inductive DecTagMode : Type := DecTagIgnored | DecTagOptional | DecTagRequired.

Definition ExtraDecErrorNone : Z := 0.
Definition ExtraDecErrorUnknownField : Z := 1.

(** A registered tag: the tag numbers (outermost first), the content type
    and the decoding option of the registration. *)
Record tagItem : Type := TagItem {
  num : list Z;
  contentType : gotype;
  DecTag : DecTagMode
}.

(** [tagItem.equalTagNum]. *)
Fixpoint eqTagNums (a b : list Z) : bool :=
  match a, b with
  | [], [] => true
  | x :: r, y :: r' => (x =? y) && eqTagNums r r'
  | _, _ => false
  end.

Definition equalTagNum (t : tagItem) (nums : list Z) : bool := eqTagNums (num t) nums.

(** The interface [tagProvider] of the tag registry. *)
Record tagProvider : Type := TagProvider {
  getTagItemFromType : gotype -> option tagItem;
  getTypeFromTagNum : list Z -> option gotype
}.

Record decMode : Type := DecModeOf {
  tags : option tagProvider;
  dupMapKey : DupMapKeyMode;
  timeTag : DecTagMode;
  maxNestedLevels : Z;
  maxArrayElements : Z;
  maxMapPairs : Z;
  indefLength : IndefLengthMode;
  tagsMd : TagsMode;
  intDec : IntDecMode;
  mapKeyByteString : MapKeyByteStringMode;
  extraReturnErrors : Z;
  defaultMapType : option gotype
}.

Definition defaultMaxArrayElements : Z := 131072.
Definition defaultMaxMapPairs : Z := 131072.

(** [DecOptions{}.decMode()]: every option at its zero value. *)
Definition defaultDecMode : decMode :=
  {| tags := None;
     dupMapKey := DupMapKeyQuiet;
     timeTag := DecTagIgnored;
     maxNestedLevels := 32;
     maxArrayElements := defaultMaxArrayElements;
     maxMapPairs := defaultMaxMapPairs;
     indefLength := IndefLengthAllowed;
     tagsMd := TagsAllowed;
     intDec := IntDecConvertNone;
     mapKeyByteString := MapKeyByteStringFail;
     extraReturnErrors := ExtraDecErrorNone;
     defaultMapType := None |}.

(** ** The decoder *)

Record decoder : Type := Decoder {
  data : list byte;
  off : Z;
  dm : decMode
}.

Definition setOff (d : decoder) (o : Z) : decoder :=
  {| data := data d; off := o; dm := dm d |}.

(** A computation on the decoder: it reads [data] and [dm] and moves [off]. *)
Definition M (A : Type) : Type := decoder -> result (A * decoder).

Definition ret {A} (a : A) : M A := fun d => Done (a, d).

Definition bind {A B} (m : M A) (k : A -> M B) : M B :=
  fun d => match m d with
           | Done (a, d') => k a d'
           | Panic => Panic
           | OutOfFuel => OutOfFuel
           end.

Definition panic {A} : M A := fun _ => Panic.
Definition outOfFuel {A} : M A := fun _ => OutOfFuel.
Definition getOff : M Z := fun d => Done (off d, d).
Definition putOff (o : Z) : M unit := fun d => Done (tt, setOff d o).
Definition getDm : M decMode := fun d => Done (dm d, d).

Declare Scope dec_scope.
Delimit Scope dec_scope with dec.
Notation "x <- m ;; k" := (bind m (fun x => k))
  (at level 61, m at next level, right associativity) : dec_scope.
Notation "' p <- m ;; k" := (bind m (fun p => k))
  (at level 61, p pattern, m at next level, right associativity) : dec_scope.
Notation "m ;;; k" := (bind m (fun _ => k))
  (at level 61, right associativity) : dec_scope.
Local Open Scope dec_scope.

Definition u8 (b : byte) : Z := Z.of_N (Byte.to_N b).

(** [d.data[i]]: out of range is a run-time panic. *)
Definition byteAt (i : Z) : M Z :=
  fun d => if i <? 0 then Panic
           else match nth_error (data d) (Z.to_nat i) with
                | Some b => Done (u8 b, d)
                | None => Panic
                end.

(** [d.data[i:j]], under the assumption [cap(d.data) = len(d.data)]. *)
Definition bytesAt (i j : Z) : M (list byte) :=
  fun d => if (i <? 0) || (j <? i) || (Z.of_nat (List.length (data d)) <? j) then Panic
           else Done (firstn (Z.to_nat (j - i)) (skipn (Z.to_nat i) (data d)), d).

(** [int(val)] for a [uint64]: two's complement on 64 bits. *)
Definition toInt (val : Z) : Z := if val <? 2 ^ 63 then val else val - 2 ^ 64.

(** [int64(val)] for a [uint64]. *)
Definition toInt64 (val : Z) : Z := toInt val.

Definition MaxInt64 : Z := 2 ^ 63 - 1.

(** Big-endian value of a byte sequence. *)
Definition bigEndian (l : list byte) : Z :=
  fold_left (fun acc b => acc * 256 + u8 b) l 0.

(** Go's [int] arithmetic wraps around on 64 bits. *)
Definition wrapInt (z : Z) : Z := toInt (z mod 2 ^ 64).

(** ** Times *)

Definition unixToInternal : Z := (1969 * 365 + 1969 / 4 - 1969 / 100 + 1969 / 400) * 86400.

(** [time.Unix(sec, nsec)]: the nanoseconds are brought into
    [0, 1e9), the seconds wrap around as [int64], the location is
    [time.Local]. *)
Definition TimeUnix (sec nsec : Z) : gotime :=
  let '(sec, nsec) :=
    if (nsec <? 0) || (1000000000 <=? nsec) then
      let n := Z.quot nsec 1000000000 in
      let sec := wrapInt (sec + n) in
      let nsec := nsec - n * 1000000000 in
      if nsec <? 0 then (wrapInt (sec - 1), nsec + 1000000000) else (sec, nsec)
    else (sec, nsec) in
  MkTime nsec (wrapInt (sec + unixToInternal)) LocLocal.

(** The integer [m * 2^e] cut towards zero. *)
Definition truncMag (m e : Z) : Z :=
  if 0 <=? e then Z.shiftl m e else Z.shiftr m (- e).

(** [int64(x)] for a finite float64 [(-1)^s * m * 2^e]: the value cut
    towards zero when that is an [int64]; otherwise the result depends on
    the implementation and is [other]. *)
Definition int64OfFloat (other : Z) (s : bool) (m e : Z) : Z :=
  let mag := truncMag m e in
  let z := if s then - mag else mag in
  if (- 2 ^ 63 <=? z) && (z <=? MaxInt64) then z else other.

(** [f1, f2 := math.Modf(c); time.Unix(int64(f1), int64(f2*1e9))] for a
    finite float64 [c]: [f1] is the integer part and [f2] the fraction,
    both exact and with the sign of [c]; the product is rounded to
    float64. *)
Definition timeOfFloat (int64OfBig : Z -> Z) (c : Z) : gotime :=
  match decodeF binary64 c with
  | FFin s m e =>
      let f1 := truncMag m e in
      let fm := if 0 <=? e then 0 else Z.land m (2 ^ (- e) - 1) in
      let sec := int64OfFloat (int64OfBig (encodeF binary64 binary64 (FFin s f1 0))) s f1 0 in
      let nsec :=
        match decodeF binary64 (encodeF binary64 binary64 (FFin s (fm * 1000000000) e)) with
        | FFin s' m' e' => int64OfFloat 0 s' m' e'
        | _ => 0
        end in
      TimeUnix sec nsec
  | _ => TimeZero
  end.

(** ** CBOR major types *)

Definition cborTypePositiveInt : Z := 0x00.
Definition cborTypeNegativeInt : Z := 0x20.
Definition cborTypeByteString : Z := 0x40.
Definition cborTypeTextString : Z := 0x60.
Definition cborTypeArray : Z := 0x80.
Definition cborTypeMap : Z := 0xa0.
Definition cborTypeTag : Z := 0xc0.
Definition cborTypePrimitives : Z := 0xe0.

(** [cborType.String]. *)
Definition cborTypeString (t : Z) : string :=
  if t =? cborTypePositiveInt then "positive integer"
  else if t =? cborTypeNegativeInt then "negative integer"
  else if t =? cborTypeByteString then "byte string"
  else if t =? cborTypeTextString then "UTF-8 text string"
  else if t =? cborTypeArray then "array"
  else if t =? cborTypeMap then "map"
  else if t =? cborTypeTag then "tag"
  else if t =? cborTypePrimitives then "primitives"
  else "Invalid type " ++ Zstr t.

Definition selfDescribedCBORTagNum : Z := 55799.

(** ** Reading heads and skipping items *)

(** [getHead] assumes data is well-formed, and does not perform bounds
    checking: a read past the end panics. *)
Definition getHead : M (Z * Z * Z) :=
  o <- getOff ;;
  b <- byteAt o ;;
  let t := Z.land b 0xe0 in
  let ai := Z.land b 0x1f in
  let val := ai in
  putOff (o + 1) ;;;
  o <- getOff ;;
  if ai <? 24 then ret (t, ai, val)
  else if ai =? 24 then
    v <- byteAt o ;; putOff (o + 1) ;;; ret (t, ai, v)
  else if ai =? 25 then
    bs <- bytesAt o (o + 2) ;; putOff (o + 2) ;;; ret (t, ai, bigEndian bs)
  else if ai =? 26 then
    bs <- bytesAt o (o + 4) ;; putOff (o + 4) ;;; ret (t, ai, bigEndian bs)
  else if ai =? 27 then
    bs <- bytesAt o (o + 8) ;; putOff (o + 8) ;;; ret (t, ai, bigEndian bs)
  else ret (t, ai, val).

(** [foundBreak] consumes the break code when it is next. *)
Definition foundBreak : M bool :=
  o <- getOff ;;
  b <- byteAt o ;;
  if b =? 0xff then putOff (o + 1) ;;; ret true else ret false.

Definition nextCBORType : M Z :=
  o <- getOff ;; b <- byteAt o ;; ret (Z.land b 0xe0).

Definition nextCBORNil : M bool :=
  o <- getOff ;; b <- byteAt o ;; ret ((b =? 0xf6) || (b =? 0xf7)).

(** A [for] loop of the decoder: [cond i s] is evaluated before each
    round; the body continues with a new state, or returns from the
    enclosing function.  The result is [inl s] when the condition ended
    the loop and [inr r] when the body returned [r]. *)
Fixpoint forLoop {S R : Type} (n : nat) (cond : Z -> S -> M bool)
    (body : Z -> S -> M (S + R)) (i : Z) (s : S) : M (S + R) :=
  c <- cond i s ;;
  if negb c then ret (inl s)
  else match n with
       | O => outOfFuel
       | Datatypes.S n' =>
           r <- body i s ;;
           match r with
           | inl s' => forLoop n' cond body (i + 1) s'
           | inr x => ret (inr x)
           end
       end.

(** The loop condition shared by the array and map decoders:
    [(hasSize && i < count) || (!hasSize && !d.foundBreak())]. *)
Definition more (hasSize : bool) (count i : Z) : M bool :=
  if hasSize then ret (i <? count)
  else (b <- foundBreak ;; ret (negb b)).

Definition isStringArrayMap (t : Z) : bool :=
  (t =? cborTypeByteString) || (t =? cborTypeTextString)
  || (t =? cborTypeArray) || (t =? cborTypeMap).

(** [skip] moves data offset to the next item.  It assumes data is
    well-formed, and does not perform bounds checking. *)
Fixpoint skip (fuel : nat) : M unit :=
  match fuel with
  | O => outOfFuel
  | Datatypes.S f =>
      '(t, ai, val) <- getHead ;;
      if (ai =? 31) && isStringArrayMap t then
        r <- forLoop f (fun _ _ => b <- foundBreak ;; ret (negb b))
               (fun _ _ => skip f ;;; ret (inl tt : unit + unit)) 0 tt ;;
        ret tt
      else if (t =? cborTypeByteString) || (t =? cborTypeTextString) then
        o <- getOff ;; putOff (wrapInt (o + toInt val))
      else if t =? cborTypeArray then
        r <- forLoop f (fun i _ => ret (i <? toInt val))
               (fun _ _ => skip f ;;; ret (inl tt : unit + unit)) 0 tt ;;
        ret tt
      else if t =? cborTypeMap then
        r <- forLoop f (fun i _ => ret (i <? wrapInt (toInt val * 2)))
               (fun _ _ => skip f ;;; ret (inl tt : unit + unit)) 0 tt ;;
        ret tt
      else if t =? cborTypeTag then skip f
      else ret tt
  end.

Definition numOfItemsUntilBreak (fuel : nat) : M Z :=
  savedOff <- getOff ;;
  r <- forLoop fuel (fun _ _ => b <- foundBreak ;; ret (negb b))
         (fun _ (i : Z) => skip fuel ;;; ret (inl (i + 1) : Z + unit)) 0 0 ;;
  putOff savedOff ;;;
  ret (match r with inl i => i | inr _ => 0 end).

(** [validBuiltinTag] checks that supported built-in tag numbers are
    followed by expected content types. *)
Definition validBuiltinTag (tagNum : Z) (contentHead : Z) : option error :=
  let t := Z.land contentHead 0xe0 in
  if tagNum =? 0 then
    if negb (t =? cborTypeTextString) then
      Some (errorString ("cbor: tag number 0 must be followed by text string, got "
                         ++ cborTypeString t))
    else None
  else if tagNum =? 1 then
    if negb (t =? cborTypePositiveInt) && negb (t =? cborTypeNegativeInt)
       && ((contentHead <? 0xf9) || (0xfb <? contentHead)) then
      Some (errorString
              ("cbor: tag number 1 must be followed by integer or floating-point number, got "
               ++ cborTypeString t))
    else None
  else if (tagNum =? 2) || (tagNum =? 3) then
    if negb (t =? cborTypeByteString) then
      Some (errorString ("cbor: tag number 2 or 3 must be followed by byte string, got "
                         ++ cborTypeString t))
    else None
  else None.

(** Input bytes written in hexadecimal, as [hexDecode] of the tests. *)
Definition hexDigit (c : ascii) : Z :=
  let n := Z.of_nat (nat_of_ascii c) in
  if (48 <=? n) && (n <=? 57) then n - 48
  else if (97 <=? n) && (n <=? 102) then n - 87
  else if (65 <=? n) && (n <=? 70) then n - 55
  else 0.

Definition byteOfZ (z : Z) : byte :=
  match Byte.of_N (Z.to_N (z mod 256)) with Some b => b | None => x00 end.

Fixpoint hexDecode (s : string) : list byte :=
  match s with
  | String a (String b r) => byteOfZ (hexDigit a * 16 + hexDigit b) :: hexDecode r
  | _ => []
  end.

Definition newDecoder (bs : list byte) (m : decMode) : decoder :=
  {| data := bs; off := 0; dm := m |}.

(** ** Type descriptors *)

Inductive specialType : Type :=
| specialTypeNone
| specialTypeUnmarshalerIface
| specialTypeEmptyIface
| specialTypeIface
| specialTypeTag
| specialTypeTime.

(** [reflect.Type.Elem] and [reflect.Type.Key]. *)
Definition elemOf (t : gotype) : gotype :=
  match underlying t with
  | TArray _ e | TSlice e | TMap _ e | TPtr e => e
  | u => u
  end.

Definition keyOf (t : gotype) : gotype :=
  match underlying t with
  | TMap k _ => k
  | u => u
  end.

(** Modelled from the spec: the type resolver ([getTypeInfo], not among
    the sources) caches per type its kind, the type and kind under all
    pointers, and the special-kind classification.  A descriptor is
    represented by the type it describes; [nonPtrType], [nonPtrKind] and
    [spclType] are its fields. *)
Fixpoint nonPtrType (t : gotype) : gotype :=
  match t with
  | TPtr e => nonPtrType e
  | TDefined _ _ u =>
      match kindOf u with
      | KPtr => nonPtrType u
      | _ => t
      end
  | _ => t
  end.

Definition nonPtrKind (t : gotype) : Kind := kindOf (nonPtrType t).

(** Whether the pointer to [t] implements [cbor.Unmarshaler]. *)
Definition ptrImplementsUnmarshaler (t : gotype) : bool :=
  match t with
  | TDefined _ m _ | TStruct _ m _ _ _ _ => hasUnmarshalCBOR m
  | _ => false
  end.

(** Whether the pointer to [t] implements [encoding.BinaryUnmarshaler]. *)
Definition ptrImplementsBinaryUnmarshaler (t : gotype) : bool :=
  match t with
  | TDefined _ m _ | TStruct _ m _ _ _ _ => hasUnmarshalBinary m
  | TTime => true
  | _ => false
  end.

Definition spclType (t : gotype) : specialType :=
  let n := nonPtrType t in
  match kindOf n with
  | KInterface =>
      match underlying n with
      | TEmptyIface => specialTypeEmptyIface
      | _ => specialTypeIface
      end
  | _ =>
      match n with
      | TTag => specialTypeTag
      | TTime => specialTypeTime
      | _ => if ptrImplementsUnmarshaler n then specialTypeUnmarshalerIface
             else specialTypeNone
      end
  end.

(** Modelled from the spec: the struct field resolver
    ([getDecodingStructType], not among the sources) yields per struct
    type the ordered list of serializable fields, the struct-to-array
    marker and a resolution error.  The resolved output is carried by the
    struct type. *)
Record structType : Type := StructType {
  stFields : list field;
  stToArray : bool;
  stErr : option string
}.

Definition getDecodingStructType (t : gotype) : structType :=
  match underlying t with
  | TStruct _ _ _ ta fs e => StructType fs ta e
  | _ => StructType [] false None
  end.

Definition goFieldsOf (t : gotype) : list gofield :=
  match underlying t with
  | TStruct _ _ gf _ _ _ => gf
  | _ => []
  end.

(** ** reflect.Value *)

Record rvalue : Type := RV {
  rtype : gotype;
  rval : goval;
  canSet : bool
}.

Definition rKind (v : rvalue) : Kind := kindOf (rtype v).

(** [reflect.Value.IsNil], on a pointer, slice, map or interface. *)
Definition IsNil (v : rvalue) : bool :=
  match rval v with
  | VPtr None | VSlice None | VMap None | VIface None => true
  | _ => false
  end.

(** Results of functions that do not touch the decoder. *)
Definition rbind {A B} (r : result A) (k : A -> result B) : result B :=
  match r with
  | Done a => k a
  | Panic => Panic
  | OutOfFuel => OutOfFuel
  end.

Definition lift {A} (r : result A) : M A :=
  fun d => match r with
           | Done a => Done (a, d)
           | Panic => Panic
           | OutOfFuel => OutOfFuel
           end.

(** [v.Set(x)] and its typed variants: a write through an unsettable
    value panics. *)
Definition setVal (v : rvalue) (x : goval) : result rvalue :=
  if canSet v then Done (RV (rtype v) x true) else Panic.

(** [v.Set(reflect.ValueOf(x))] for a non-nil [x] of type [any]: the
    destination is an interface, or has the dynamic type of [x]. *)
Definition setAny (v : rvalue) (xt : gotype) (xv : goval) : result rvalue :=
  match rKind v with
  | KInterface => setVal v (VIface (Some (xt, xv)))
  | _ => if gotype_eqb (rtype v) xt then setVal v xv else Panic
  end.

(** [v.Elem()] on a non-nil pointer or interface.  The pointee of a
    pointer is addressable; the value held by an interface is not. *)
Definition Elem (v : rvalue) : option rvalue :=
  match rval v with
  | VPtr (Some x) => Some (RV (elemOf (rtype v)) x true)
  | VIface (Some (t, x)) => Some (RV t x false)
  | _ => None
  end.

Definition isIntKind (k : Kind) : bool :=
  match k with KInt | KInt8 | KInt16 | KInt32 | KInt64 => true | _ => false end.

Definition isUintKind (k : Kind) : bool :=
  match k with KUint | KUint8 | KUint16 | KUint32 | KUint64 => true | _ => false end.

Definition isFloatKind (k : Kind) : bool :=
  match k with KFloat32 | KFloat64 => true | _ => false end.

Definition kindBits (k : Kind) : Z :=
  match k with
  | KInt8 | KUint8 => 8
  | KInt16 | KUint16 => 16
  | KInt32 | KUint32 | KFloat32 => 32
  | _ => 64
  end.

(** [v.OverflowInt(x)] and [v.OverflowUint(x)]. *)
Definition OverflowInt (v : rvalue) (x : Z) : bool :=
  let b := kindBits (rKind v) in
  (x <? - 2 ^ (b - 1)) || (2 ^ (b - 1) - 1 <? x).

Definition OverflowUint (v : rvalue) (x : Z) : bool :=
  2 ^ kindBits (rKind v) - 1 <? x.

(** [v.OverflowFloat(x)]. *)
Definition OverflowFloat (v : rvalue) (bits : Z) : bool :=
  match rKind v with
  | KFloat32 => overflowFloat32 bits
  | _ => false
  end.

(** [v.SetFloat(x)]: a [float32] destination stores the rounded value. *)
Definition SetFloat (v : rvalue) (bits : Z) : result rvalue :=
  match rKind v with
  | KFloat32 => setVal v (VFloat32 (convertF binary64 binary32 bits))
  | _ => setVal v (VFloat64 bits)
  end.

Definition isNilableKind (k : Kind) : bool :=
  match k with KSlice | KMap | KInterface | KPtr => true | _ => false end.

Definition typeErr (t : Z) (goType : gotype) (msg : string) : error :=
  UnmarshalTypeError (cborTypeString t) (typeString goType) "" msg.

(** ** The fill functions *)

Definition fillNil (t : Z) (v : rvalue) : result (rvalue * option error) :=
  match rKind v with
  | KSlice | KMap | KInterface | KPtr =>
      rbind (setVal v (zeroValue (rtype v))) (fun v' => Done (v', None))
  | _ => Done (v, None)
  end.

Definition fillPositiveInt (t : Z) (val : Z) (v : rvalue) : result (rvalue * option error) :=
  if isIntKind (rKind v) then
    if MaxInt64 <? val then
      Done (v, Some (typeErr t (rtype v) (Zstr val ++ " overflows " ++ typeString (rtype v))))
    else if OverflowInt v (toInt64 val) then
      Done (v, Some (typeErr t (rtype v) (Zstr val ++ " overflows " ++ typeString (rtype v))))
    else rbind (setVal v (VInt (toInt64 val))) (fun v' => Done (v', None))
  else if isUintKind (rKind v) then
    if OverflowUint v val then
      Done (v, Some (typeErr t (rtype v) (Zstr val ++ " overflows " ++ typeString (rtype v))))
    else rbind (setVal v (VUint val)) (fun v' => Done (v', None))
  else if isFloatKind (rKind v) then
    rbind (SetFloat v (float64OfUint val)) (fun v' => Done (v', None))
  else if gotype_eqb (rtype v) TBigInt then
    rbind (setVal v (VBigInt val)) (fun v' => Done (v', None))
  else Done (v, Some (typeErr t (rtype v) "")).

Definition fillNegativeInt (t : Z) (val : Z) (v : rvalue) : result (rvalue * option error) :=
  if isIntKind (rKind v) then
    if OverflowInt v val then
      Done (v, Some (typeErr t (rtype v) (Zstr val ++ " overflows " ++ typeString (rtype v))))
    else rbind (setVal v (VInt val)) (fun v' => Done (v', None))
  else if isFloatKind (rKind v) then
    rbind (SetFloat v (float64OfInt val)) (fun v' => Done (v', None))
  else if gotype_eqb (rtype v) TBigInt then
    rbind (setVal v (VBigInt val)) (fun v' => Done (v', None))
  else Done (v, Some (typeErr t (rtype v) "")).

Definition fillBool (t : Z) (val : bool) (v : rvalue) : result (rvalue * option error) :=
  match rKind v with
  | KBool => rbind (setVal v (VBool val)) (fun v' => Done (v', None))
  | _ => Done (v, Some (typeErr t (rtype v) ""))
  end.

Definition fillTextString (t : Z) (val : list byte) (v : rvalue)
  : result (rvalue * option error) :=
  match rKind v with
  | KString => rbind (setVal v (VString (string_of_list_byte val))) (fun v' => Done (v', None))
  | _ => Done (v, Some (typeErr t (rtype v) ""))
  end.

(** [utf8.Valid]. *)
Fixpoint utf8Valid (l : list byte) : bool :=
  let cont (b : byte) (lo hi : Z) : bool := (lo <=? u8 b) && (u8 b <=? hi) in
  match l with
  | [] => true
  | b0 :: r =>
      let x := u8 b0 in
      if x <? 0x80 then utf8Valid r
      else if (0xC2 <=? x) && (x <=? 0xDF) then
        match r with
        | b1 :: r1 => cont b1 0x80 0xBF && utf8Valid r1
        | _ => false
        end
      else if (0xE0 <=? x) && (x <=? 0xEF) then
        match r with
        | b1 :: b2 :: r2 =>
            cont b1 (if x =? 0xE0 then 0xA0 else 0x80) (if x =? 0xED then 0x9F else 0xBF)
            && cont b2 0x80 0xBF && utf8Valid r2
        | _ => false
        end
      else if (0xF0 <=? x) && (x <=? 0xF4) then
        match r with
        | b1 :: b2 :: b3 :: r3 =>
            cont b1 (if x =? 0xF0 then 0x90 else 0x80) (if x =? 0xF4 then 0x8F else 0xBF)
            && cont b2 0x80 0xBF && cont b3 0x80 0xBF && utf8Valid r3
        | _ => false
        end
      else false
  end.

(** [isHashableValue] on [reflect.ValueOf(x)] for [x] of type [any]; the
    invalid value of a nil [x] has no kind and is hashable. *)
Fixpoint isHashableValue (t : gotype) (v : goval) {struct v} : bool :=
  match kindOf t with
  | KSlice | KMap => false
  | KStruct =>
      match t with
      | TTag =>
          match v with
          | VTag _ (Some (ct, cv)) => isHashableValue ct cv
          | _ => true
          end
      | TBigInt => false
      | _ => true
      end
  | _ => true
  end.

Definition isHashableAny (x : any) : bool :=
  match x with
  | Some (t, v) => isHashableValue t v
  | None => true
  end.

Definition isImmutableKind (k : Kind) : bool :=
  match k with
  | KBool
  | KInt | KInt8 | KInt16 | KInt32 | KInt64
  | KUint | KUint8 | KUint16 | KUint32 | KUint64
  | KFloat32 | KFloat64
  | KString => true
  | _ => false
  end.

(** ** Go maps *)

Fixpoint mapLookup (m : list (goval * goval)) (k : goval) : option goval :=
  match m with
  | [] => None
  | (k', e) :: r => if goval_eqb k' k then Some e else mapLookup r k
  end.

Fixpoint mapInsert (m : list (goval * goval)) (k e : goval) : list (goval * goval) :=
  match m with
  | [] => [(k, e)]
  | (k', e') :: r => if goval_eqb k' k then (k', e) :: r else (k', e') :: mapInsert r k e
  end.

Definition mapHas (m : list (goval * goval)) (k : goval) : bool :=
  match mapLookup m k with Some _ => true | None => false end.

(** A set of keys of type [any] ([map[any]bool], [map[any]struct{}]). *)
Definition keySet : Type := list any.

Definition keySetHas (s : keySet) (k : any) : bool := existsb (any_eqb k) s.

Definition keySetAdd (s : keySet) (k : any) : keySet :=
  if keySetHas s k then s else s ++ [k].

Definition keySetDelete (s : keySet) (k : any) : keySet :=
  filter (fun x => negb (any_eqb k x)) s.

(** [l[i] = x] on a list; out of range is left to the caller. *)
Fixpoint setNth {A} (i : nat) (x : A) (l : list A) : list A :=
  match l, i with
  | [], _ => []
  | _ :: r, O => x :: r
  | a :: r, Datatypes.S i' => a :: setNth i' x r
  end.

(** ** Struct fields *)

(** [v.Field(n)]: settable when the struct is and the field is exported. *)
Definition FieldOf (v : rvalue) (n : nat) : option rvalue :=
  match rval v, nth_error (goFieldsOf (rtype v)) n with
  | VStruct l, Some g =>
      match nth_error l n with
      | Some x => Some (RV (gfType g) x (canSet v && gfExported g))
      | None => None
      end
  | _, _ => None
  end.

Definition putField (v : rvalue) (n : nat) (x : goval) : goval :=
  match rval v with
  | VStruct l => VStruct (setNth n x l)
  | o => o
  end.

(** Modelled from the spec: [getFieldValue] (not among the sources) walks
    the access path of a field; a nil embedded pointer on the way is
    allocated when it can be set, and otherwise the field is not reached
    and an error is reported.  The result is the struct after the walk,
    the field reached with the function that stores a new field value
    into the struct, and the error. *)
Fixpoint getFieldValue (v : rvalue) (idx : list nat)
  : result (goval * option (rvalue * (goval -> goval)) * option error) :=
  match idx with
  | [] => Done (rval v, Some (v, fun x => x), None)
  | n :: rest =>
      match FieldOf v n with
      | None => Panic
      | Some fv =>
          match rest with
          | [] => Done (rval v, Some (fv, putField v n), None)
          | _ :: _ =>
              let into (pointee : rvalue) (wrap : goval -> goval) :=
                rbind (getFieldValue pointee rest) (fun '(pv, o, e) =>
                  Done (putField v n (wrap pv),
                        match o with
                        | Some (f, put) => Some (f, fun x => putField v n (wrap (put x)))
                        | None => None
                        end, e)) in
              match rKind fv, kindOf (elemOf (rtype fv)) with
              | KPtr, KStruct =>
                  match rval fv with
                  | VPtr (Some x) =>
                      into (RV (elemOf (rtype fv)) x true) (fun y => VPtr (Some y))
                  | _ =>
                      if canSet fv then
                        into (RV (elemOf (rtype fv)) (zeroValue (elemOf (rtype fv))) true)
                             (fun y => VPtr (Some y))
                      else
                        Done (rval v, None,
                              Some (errorString
                                      ("cbor: cannot set embedded pointer to unexported struct: "
                                       ++ typeString (rtype fv))))
                  end
              | _, _ => into fv (fun y => y)
              end
          end
      end
  end.

(** ** The decoder proper *)

(** Functions of the Go standard library, and the methods of user types
    the decoder calls: [strings.EqualFold]; [time.Parse] with the layout
    [time.RFC3339] (the time, or the text of the error); the conversion
    [int64(x)] of a float64 outside the [int64] range, which Go leaves
    to the implementation; [strconv.FormatFloat(x, 'E', -1, 64)]; the methods [UnmarshalCBOR] and
    [UnmarshalBinary] of a type, which take the receiver's value and the
    bytes and give the receiver's new value and the error; and
    [reflect.Type.Implements]. *)
Record golib : Type := GoLib {
  libEqualFold : string -> string -> bool;
  libTimeParse : string -> gotime + string;
  libInt64OfFloat : Z -> Z;
  libFormatFloat : Z -> string;
  libUnmarshalCBOR : gotype -> goval -> list byte -> goval * option error;
  libUnmarshalBinary : gotype -> goval -> list byte -> goval * option error;
  libImplements : gotype -> gotype -> bool
}.

Section Decode.

Variable lib : golib.

Local Abbreviation EqualFold := (libEqualFold lib).
Local Abbreviation timeParse := (libTimeParse lib).
Local Abbreviation int64OfBig := (libInt64OfFloat lib).
Local Abbreviation FormatFloat := (libFormatFloat lib).
Local Abbreviation UnmarshalCBOR := (libUnmarshalCBOR lib).
Local Abbreviation UnmarshalBinary := (libUnmarshalBinary lib).
Local Abbreviation Implements := (libImplements lib).

Definition withVal (v : rvalue) (x : goval) : rvalue := RV (rtype v) x (canSet v).

Definition fillFloat (t : Z) (val : Z) (v : rvalue) : result (rvalue * option error) :=
  if isFloatKind (rKind v) then
    if OverflowFloat v val then
      Done (v, Some (typeErr t (rtype v)
                       (FormatFloat val ++ " overflows " ++ typeString (rtype v))))
    else rbind (SetFloat v val) (fun v' => Done (v', None))
  else Done (v, Some (typeErr t (rtype v) "")).

Definition bytesVal (val : list byte) : goval :=
  VSlice (Some (map (fun b => VUint (u8 b)) val, List.length val)).

(** [v.Bytes()] of a byte slice. *)
Definition bytesOfVal (v : goval) : list byte :=
  match v with
  | VSlice (Some (l, n)) =>
      map (fun x => match x with VUint z => byteOfZ z | _ => x00 end) (firstn n l)
  | _ => []
  end.

Definition typeByteSlice : gotype := TSlice (TBasic BUint8).

Definition fillByteString (t : Z) (val : list byte) (v : rvalue)
  : result (rvalue * option error) :=
  if ptrImplementsBinaryUnmarshaler (rtype v) then
    if canSet v then
      let '(x, e) := UnmarshalBinary (rtype v) (rval v) val in
      Done (withVal v x, e)
    else Done (v, Some (errorString ("cbor: cannot set new value for "
                                     ++ typeString (rtype v))))
  else
    match rKind v, kindOf (elemOf (rtype v)) with
    | KSlice, KUint8 => rbind (setVal v (bytesVal val)) (fun v' => Done (v', None))
    | KArray, KUint8 =>
        match rval v with
        | VArray l =>
            let vLen := List.length l in
            if canSet v || Nat.eqb vLen 0 then
              Done (withVal v
                      (VArray (map (fun b => VUint (u8 b)) (firstn vLen val)
                               ++ repeat (VUint 0) (vLen - List.length val))), None)
            else Panic
        | _ => Panic
        end
    | _, _ => Done (v, Some (typeErr t (rtype v) ""))
    end.

(** The functions that call each other recursively, at one level of
    fuel: [parseToValue] returns the new value of its target. *)
Record Rec : Type := MkRec {
  parseToValueR : gotype -> rvalue -> M (goval * option error);
  parseR : bool -> M (any * option error)
}.

(** [f] bounds the loops and the skipping at this level; [R] are the
    recursive calls. *)
Variable f : nat.
Variable R : Rec.

Definition firstErr (err lastErr : option error) : option error :=
  match err with
  | Some _ => err
  | None => lastErr
  end.

(** [for d.nextCBORType() == cborTypeTag { _, _, num := d.getHead();
    tagNums = append(tagNums, num) }]. *)
Definition collectTagNums (tagNums : list Z) : M (list Z) :=
  r <- forLoop f (fun _ _ => t <- nextCBORType ;; ret (t =? cborTypeTag))
         (fun _ (acc : list Z) =>
            '(_, _, n) <- getHead ;; ret (inl (acc ++ [n]) : list Z + unit))
         0 tagNums ;;
  ret (match r with inl l => l | inr _ => tagNums end).

(** Strip self-described CBOR tag number. *)
Definition stripSelfDescribed : M unit :=
  r <- forLoop f (fun _ _ => t <- nextCBORType ;; ret (t =? cborTypeTag))
         (fun _ _ =>
            o <- getOff ;;
            '(_, _, tagNum) <- getHead ;;
            if negb (tagNum =? selfDescribedCBORTagNum)
            then putOff o ;;; ret (inr tt : unit + unit)
            else ret (inl tt))
         0 tt ;;
  ret tt.

(** Check validity of supported built-in tags. *)
Definition checkBuiltinTag : M (option error) :=
  t <- nextCBORType ;;
  if t =? cborTypeTag then
    o <- getOff ;;
    '(_, _, tagNum) <- getHead ;;
    o' <- getOff ;;
    h <- byteAt o' ;;
    match validBuiltinTag tagNum h with
    | Some e => skip f ;;; ret (Some e)
    | None => putOff o ;;; ret None
    end
  else ret None.

(** [parseByteString] parses CBOR encoded byte string. *)
Definition parseByteString : M (list byte) :=
  '(_, ai, val) <- getHead ;;
  if negb (ai =? 31) then
    if toInt val <? 0 then panic
    else
      o <- getOff ;;
      b <- bytesAt o (o + toInt val) ;;
      putOff (o + toInt val) ;;;
      ret b
  else
    r <- forLoop f (fun _ _ => b <- foundBreak ;; ret (negb b))
           (fun _ (b : list byte) =>
              '(_, _, val) <- getHead ;;
              o <- getOff ;;
              x <- bytesAt o (o + toInt val) ;;
              putOff (o + toInt val) ;;;
              ret (inl (b ++ x) : list byte + unit))
           0 [] ;;
    ret (match r with inl b => b | inr _ => [] end).

(** [parseTextString] parses CBOR encoded text string. *)
Definition parseTextString : M (list byte * option error) :=
  '(_, ai, val) <- getHead ;;
  if negb (ai =? 31) then
    o <- getOff ;;
    b <- bytesAt o (o + toInt val) ;;
    putOff (o + toInt val) ;;;
    if negb (utf8Valid b) then ret ([], Some (SemanticError "cbor: invalid UTF-8 string"))
    else ret (b, None)
  else
    r <- forLoop f (fun _ _ => b <- foundBreak ;; ret (negb b))
           (fun _ (b : list byte) =>
              '(_, _, val) <- getHead ;;
              o <- getOff ;;
              x <- bytesAt o (o + toInt val) ;;
              putOff (o + toInt val) ;;;
              if negb (utf8Valid x) then
                forLoop f (fun _ _ => b <- foundBreak ;; ret (negb b))
                  (fun _ _ => skip f ;;; ret (inl tt : unit + unit)) 0 tt ;;;
                ret (inr (SemanticError "cbor: invalid UTF-8 string"))
              else ret (inl (b ++ x)))
           0 [] ;;
    ret (match r with
         | inl b => (b, None)
         | inr e => ([], Some e)
         end).

Definition typeUint64 : gotype := TBasic BUint64.
Definition typeInt64 : gotype := TBasic BInt64.
Definition typeFloat64 : gotype := TBasic BFloat64.
Definition typeString_ : gotype := TBasic BString.
Definition typeBool : gotype := TBasic BBool.

Definition parseToTime : M (gotime * option error) :=
  t <- nextCBORType ;;
  m <- getDm ;;
  pre <- (if t =? cborTypeTag then
            match timeTag m with
            | DecTagIgnored =>
                r <- forLoop f (fun _ (t : Z) => ret (t =? cborTypeTag))
                       (fun _ _ => getHead ;;; t' <- nextCBORType ;; ret (inl t' : Z + unit))
                       0 t ;;
                ret (inl (match r with inl t' => t' | inr _ => t end))
            | _ =>
                '(_, _, tagNum) <- getHead ;;
                if negb (tagNum =? 0) && negb (tagNum =? 1) then
                  skip f ;;;
                  ret (inr (errorString ("cbor: wrong tag number for time.Time, got "
                                         ++ Zstr (toInt tagNum) ++ ", expect 0 or 1")))
                else ret (inl t)
            end
          else
            match timeTag m with
            | DecTagRequired =>
                skip f ;;;
                ret (inr (UnmarshalTypeError (cborTypeString t) (typeString TTime) ""
                            "expect CBOR tag value"))
            | _ => ret (inl t)
            end) ;;
  match pre with
  | inr e => ret (TimeZero, Some e)
  | inl t =>
      '(content, err) <- parseR R false ;;
      match err with
      | Some e => ret (TimeZero, Some e)
      | None =>
          match content with
          | None => ret (TimeZero, None)
          | Some (TBasic BUint64, VUint c) => ret (TimeUnix (toInt64 c) 0, None)
          | Some (TBasic BInt64, VInt c) => ret (TimeUnix c 0, None)
          | Some (TBasic BFloat64, VFloat64 c) =>
              if isNaN binary64 c || isInf binary64 c then ret (TimeZero, None)
              else ret (timeOfFloat int64OfBig c, None)
          | Some (TBasic BString, VString c) =>
              match timeParse c with
              | inl tm => ret (tm, None)
              | inr msg =>
                  ret (TimeZero,
                       Some (errorString ("cbor: cannot set " ++ c ++ " for time.Time: " ++ msg)))
              end
          | Some _ =>
              ret (TimeZero, Some (UnmarshalTypeError (cborTypeString t) (typeString TTime) "" ""))
          end
      end
  end.

Definition parseToTag (v : rvalue) : M (rvalue * option error) :=
  isNil <- nextCBORNil ;;
  if isNil then skip f ;;; ret (v, None)
  else
    t <- nextCBORType ;;
    if negb (t =? cborTypeTag) then
      skip f ;;;
      ret (v, Some (UnmarshalTypeError (cborTypeString t) (typeString TTag) "" ""))
    else
      '(_, _, num) <- getHead ;;
      '(content, err) <- parseR R false ;;
      match err with
      | Some e => ret (v, Some e)
      | None => v' <- lift (setAny v TTag (VTag num content)) ;; ret (v', None)
      end.

(** [parseToUnmarshaler] parses CBOR data to value implementing
    Unmarshaler interface. *)
Definition parseToUnmarshaler (v : rvalue) : M (rvalue * option error) :=
  isNil <- nextCBORNil ;;
  if isNil && Kind_eqb (rKind v) KPtr && IsNil v then skip f ;;; ret (v, None)
  else
    let call (recvT : gotype) (recv : goval) (put : goval -> goval) :=
      start <- getOff ;;
      skip f ;;;
      o <- getOff ;;
      b <- bytesAt start o ;;
      let '(x, e) := UnmarshalCBOR recvT recv b in
      ret (withVal v (put x), e) in
    let fail (t : gotype) :=
      skip f ;;;
      ret (v, Some (errorString ("cbor: failed to assert " ++ typeString t
                                 ++ " as cbor.Unmarshaler"))) in
    if negb (Kind_eqb (rKind v) KPtr) then
      if canSet v then
        if ptrImplementsUnmarshaler (rtype v)
        then call (rtype v) (rval v) (fun x => x)
        else fail (TPtr (rtype v))
      else fail (rtype v)
    else
      match rval v with
      | VPtr (Some x) =>
          if ptrImplementsUnmarshaler (elemOf (rtype v))
          then call (elemOf (rtype v)) x (fun y => VPtr (Some y))
          else fail (rtype v)
      | _ => fail (rtype v)
      end.

(** The skipping of the rest of a map after an abort:
    [for ; cond; i++ { d.skip(); d.skip() }]. *)
Definition skipRestOfMap (hasSize : bool) (count i : Z) : M unit :=
  forLoop f (fun i _ => more hasSize count i)
    (fun _ _ => skip f ;;; skip f ;;; ret (inl tt : unit + unit)) i tt ;;;
  ret tt.

Definition typeAnySlice : gotype := TSlice TEmptyIface.
Definition typeAnyMap : gotype := TMap TEmptyIface TEmptyIface.

(** One round of the loop of [parseArray]. *)
Definition parseArrayIter (i : Z) (s : list goval * option error)
  : M ((list goval * option error) + unit) :=
  let '(v, err) := s in
  '(e, lastErr) <- parseR R true ;;
  match lastErr with
  | Some _ => ret (inl (v, firstErr err lastErr))
  | None =>
      if (i <? 0) || (Z.of_nat (List.length v) <=? i) then panic
      else ret (inl (setNth (Z.to_nat i) (VIface e) v, err))
  end.

Definition parseArray : M (any * option error) :=
  '(_, ai, val) <- getHead ;;
  let hasSize := negb (ai =? 31) in
  count <- (if hasSize then ret (toInt val) else numOfItemsUntilBreak f) ;;
  if count <? 0 then panic
  else
    r <- forLoop f (fun i _ => more hasSize count i) parseArrayIter 0
           (repeat (VIface None) (Z.to_nat count), None) ;;
    match r with
    | inl (v, err) => ret (Some (typeAnySlice, VSlice (Some (v, Z.to_nat count))), err)
    | inr _ => panic
    end.

(** State of the loop of [parseMap]: the map, the first error and the
    number of keys after the previous round. *)
Record parseMapState : Type := PMS {
  pmM : list (goval * goval);
  pmErr : option error;
  pmKeyCount : Z
}.

(** Wrap byte string if enabled: a key that is a [[]byte] becomes a
    [ByteString] under [MapKeyByteStringWrap]. *)
Definition wrapByteString (m : decMode) (k : any) : any :=
  match k, mapKeyByteString m with
  | Some (t, x), MapKeyByteStringWrap =>
      if gotype_eqb t typeByteSlice
      then Some (TByteString, VString (string_of_list_byte (bytesOfVal x)))
      else k
  | _, _ => k
  end.

(** One round of the loop of [parseMap]; [inr] is the return from inside
    the loop at a duplicate key. *)
Definition parseMapIter (hasSize : bool) (count : Z) (i : Z) (s : parseMapState)
  : M (parseMapState + (list (goval * goval) * option error)) :=
  m <- getDm ;;
  '(k, lastErr) <- parseR R true ;;
  match lastErr with
  | Some _ =>
      skip f ;;;
      ret (inl (PMS (pmM s) (firstErr (pmErr s) lastErr) (pmKeyCount s)))
  | None =>
      let k := wrapByteString m k in
      if negb (isHashableAny k) then
        skip f ;;;
        ret (inl (PMS (pmM s)
                    (firstErr (pmErr s)
                       (Some (errorString
                                ("cbor: invalid map key type: "
                                 ++ match k with Some (t, _) => typeString t | None => "" end))))
                    (pmKeyCount s)))
      else
        '(e, lastErr) <- parseR R true ;;
        match lastErr with
        | Some _ => ret (inl (PMS (pmM s) (firstErr (pmErr s) lastErr) (pmKeyCount s)))
        | None =>
            let m1 := mapInsert (pmM s) (VIface k) (VIface e) in
            match dupMapKey m with
            | DupMapKeyEnforcedAPF =>
                let newKeyCount := Z.of_nat (List.length m1) in
                if newKeyCount =? pmKeyCount s then
                  skipRestOfMap hasSize count (i + 1) ;;;
                  ret (inr (mapInsert m1 (VIface k) (VIface None),
                            Some (DupMapKeyError k i)))
                else ret (inl (PMS m1 (pmErr s) newKeyCount))
            | DupMapKeyQuiet => ret (inl (PMS m1 (pmErr s) (pmKeyCount s)))
            end
        end
  end.

Definition parseMap : M (any * option error) :=
  '(_, ai, val) <- getHead ;;
  let hasSize := negb (ai =? 31) in
  let count := toInt val in
  r <- forLoop f (fun i _ => more hasSize count i) (parseMapIter hasSize count) 0
         (PMS [] None 0) ;;
  match r with
  | inl s => ret (Some (typeAnyMap, VMap (Some (pmM s))), pmErr s)
  | inr (m, err) => ret (Some (typeAnyMap, VMap (Some m)), err)
  end.

(** [parse] parses CBOR data and returns value in default Go type. *)
Definition parse (skipSelfDescribedTag : bool) : M (any * option error) :=
  (if skipSelfDescribedTag then stripSelfDescribed else ret tt) ;;;
  be <- checkBuiltinTag ;;
  match be with
  | Some e => ret (None, Some e)
  | None =>
      t <- nextCBORType ;;
      m <- getDm ;;
      if t =? cborTypePositiveInt then
        '(_, _, val) <- getHead ;;
        match intDec m with
        | IntDecConvertNone => ret (Some (typeUint64, VUint val), None)
        | IntDecConvertSigned =>
            if MaxInt64 <? val then
              ret (None, Some (UnmarshalTypeError (cborTypeString t) (typeString typeInt64) ""
                                 (Zstr val ++ " overflows Go's int64")))
            else ret (Some (typeInt64, VInt (toInt64 val)), None)
        end
      else if t =? cborTypeNegativeInt then
        '(_, _, val) <- getHead ;;
        if MaxInt64 <? val then ret (Some (TBigInt, VBigInt (- (val + 1))), None)
        else ret (Some (typeInt64, VInt (Z.lxor (-1) (toInt64 val))), None)
      else if t =? cborTypeByteString then
        b <- parseByteString ;; ret (Some (typeByteSlice, bytesVal b), None)
      else if t =? cborTypeTextString then
        '(b, err) <- parseTextString ;;
        match err with
        | Some e => ret (None, Some e)
        | None => ret (Some (typeString_, VString (string_of_list_byte b)), None)
        end
      else if t =? cborTypeTag then
        tagOff <- getOff ;;
        '(_, _, tagNum) <- getHead ;;
        contentOff <- getOff ;;
        if (tagNum =? 0) || (tagNum =? 1) then
          putOff tagOff ;;;
          '(tm, err) <- parseToTime ;;
          ret (Some (TTime, VTime tm), err)
        else if tagNum =? 2 then
          b <- parseByteString ;; ret (Some (TBigInt, VBigInt (bigEndian b)), None)
        else if tagNum =? 3 then
          b <- parseByteString ;; ret (Some (TBigInt, VBigInt (- (bigEndian b + 1))), None)
        else
          reg <- match tags m with
                 | Some tp =>
                     tagNums <- collectTagNums [tagNum] ;;
                     ret (getTypeFromTagNum tp tagNums)
                 | None => ret None
                 end ;;
          match reg with
          | Some registeredType =>
              putOff tagOff ;;;
              '(x, err) <- parseToValueR R registeredType
                             (RV registeredType (zeroValue registeredType) true) ;;
              match err with
              | Some e => ret (None, Some e)
              | None => ret (Some (registeredType, x), None)
              end
          | None =>
              putOff contentOff ;;;
              '(content, err) <- parseR R false ;;
              match err with
              | Some e => ret (None, Some e)
              | None => ret (Some (TTag, VTag tagNum content), None)
              end
          end
      else if t =? cborTypePrimitives then
        '(_, ai, val) <- getHead ;;
        if (ai <? 20) || (ai =? 24) then ret (Some (typeUint64, VUint val), None)
        else if (ai =? 20) || (ai =? 21) then ret (Some (typeBool, VBool (ai =? 21)), None)
        else if (ai =? 22) || (ai =? 23) then ret (None, None)
        else if ai =? 25 then
          ret (Some (typeFloat64, VFloat64 (convertF binary16 binary64 (val mod 2 ^ 16))), None)
        else if ai =? 26 then
          ret (Some (typeFloat64, VFloat64 (convertF binary32 binary64 (val mod 2 ^ 32))), None)
        else if ai =? 27 then ret (Some (typeFloat64, VFloat64 val), None)
        else ret (None, None)
      else if t =? cborTypeArray then parseArray
      else if t =? cborTypeMap then
        match defaultMapType m with
        | Some mt =>
            '(x, err) <- parseToValueR R mt (RV (TPtr mt) (VPtr (Some (zeroValue mt))) false) ;;
            match err with
            | Some e => ret (None, Some e)
            | None =>
                match x with
                | VPtr (Some y) => ret (Some (mt, y), None)
                | _ => panic
                end
            end
        | None => parseMap
        end
      else ret (None, None)
  end.

(** [v.Index(i)] of a slice: out of range panics; the element is
    addressable. *)
Definition sliceIndex (v : rvalue) (i : Z) : result rvalue :=
  match rval v with
  | VSlice (Some (l, n)) =>
      if (i <? 0) || (Z.of_nat n <=? i) then Panic
      else match nth_error l (Z.to_nat i) with
           | Some x => Done (RV (elemOf (rtype v)) x true)
           | None => Panic
           end
  | _ => Panic
  end.

Definition sliceStore (v : rvalue) (i : Z) (x : goval) : rvalue :=
  match rval v with
  | VSlice (Some (l, n)) => withVal v (VSlice (Some (setNth (Z.to_nat i) x l, n)))
  | _ => v
  end.

Definition sliceCap (v : rvalue) : Z :=
  match rval v with
  | VSlice (Some (l, _)) => Z.of_nat (List.length l)
  | _ => 0
  end.

(** [v.SetLen(n)]. *)
Definition SetLen (v : rvalue) (n : Z) : result rvalue :=
  match rval v with
  | VSlice (Some (l, _)) =>
      if canSet v && (0 <=? n) && (n <=? Z.of_nat (List.length l))
      then Done (withVal v (VSlice (Some (l, Z.to_nat n))))
      else Panic
  | VSlice None => if canSet v && (n =? 0) then Done v else Panic
  | _ => Panic
  end.

(** One round of the loop of [parseArrayToSlice]. *)
Definition parseArrayToSliceIter (tInfo : gotype) (i : Z) (s : rvalue * option error)
  : M ((rvalue * option error) + unit) :=
  let '(v, err) := s in
  e <- lift (sliceIndex v i) ;;
  '(x, lastErr) <- parseToValueR R (elemOf (nonPtrType tInfo)) e ;;
  ret (inl (sliceStore v i x, firstErr err lastErr)).

Definition parseArrayToSlice (v : rvalue) (tInfo : gotype) : M (rvalue * option error) :=
  '(_, ai, val) <- getHead ;;
  let hasSize := negb (ai =? 31) in
  count <- (if hasSize then ret (toInt val) else numOfItemsUntilBreak f) ;;
  v <- (if IsNil v || (sliceCap v <? count) || (count =? 0) then
          if count <? 0 then panic
          else lift (setVal v (VSlice (Some (repeat (zeroValue (elemOf (nonPtrType tInfo)))
                                               (Z.to_nat count), Z.to_nat count))))
        else ret v) ;;
  v <- lift (SetLen v count) ;;
  r <- forLoop f (fun i _ => more hasSize count i) (parseArrayToSliceIter tInfo) 0 (v, None) ;;
  match r with
  | inl s => ret s
  | inr _ => panic
  end.

(** [v.Index(i)] of an array: as settable as the array. *)
Definition arrayIndex (v : rvalue) (i : nat) : result rvalue :=
  match rval v with
  | VArray l =>
      match nth_error l i with
      | Some x => Done (RV (elemOf (rtype v)) x (canSet v))
      | None => Panic
      end
  | _ => Panic
  end.

Definition arrayStore (v : rvalue) (i : nat) (x : goval) : rvalue :=
  match rval v with
  | VArray l => withVal v (VArray (setNth i x l))
  | _ => v
  end.

Definition arrayLen (v : rvalue) : nat :=
  match rval v with
  | VArray l => List.length l
  | _ => O
  end.

(** One round of the loop of [parseArrayToArray]; the state is the
    array, the index [gi] and the first error. *)
Definition parseArrayToArrayIter (tInfo : gotype) (ci : Z) (s : rvalue * nat * option error)
  : M ((rvalue * nat * option error) + unit) :=
  let '(v, gi, err) := s in
  if (gi <? arrayLen v)%nat then
    e <- lift (arrayIndex v gi) ;;
    '(x, lastErr) <- parseToValueR R (elemOf (nonPtrType tInfo)) e ;;
    ret (inl (arrayStore v gi x, Datatypes.S gi, firstErr err lastErr))
  else skip f ;;; ret (inl (v, gi, err)).

Definition parseArrayToArray (v : rvalue) (tInfo : gotype) : M (rvalue * option error) :=
  '(_, ai, val) <- getHead ;;
  let hasSize := negb (ai =? 31) in
  let count := toInt val in
  r <- forLoop f (fun i _ => more hasSize count i) (parseArrayToArrayIter tInfo) 0
         (v, O, None) ;;
  match r with
  | inl (v, gi, err) =>
      if (gi <? arrayLen v)%nat then
        match rval v with
        | VArray l =>
            if canSet v then
              ret (withVal v (VArray (firstn gi l
                                      ++ repeat (zeroValue (elemOf (nonPtrType tInfo)))
                                           (arrayLen v - gi))), err)
            else panic
        | _ => panic
        end
      else ret (v, err)
  | inr _ => panic
  end.

(** State of the loop of [parseMapToMap]. *)
Record mapToMapState : Type := MMS {
  mmV : rvalue;
  mmKeyValue : option rvalue;
  mmEleValue : option rvalue;
  mmKeyType : gotype;
  mmErr : option error;
  mmKeyCount : Z;
  mmExistingKeys : keySet
}.

Definition mapEntries (v : rvalue) : list (goval * goval) :=
  match rval v with
  | VMap (Some m) => m
  | _ => []
  end.

(** [v.SetMapIndex(k, e)]: assignment to an entry of a nil map panics. *)
Definition SetMapIndex (v : rvalue) (k e : goval) : result rvalue :=
  match rval v with
  | VMap (Some m) => Done (withVal v (VMap (Some (mapInsert m k e))))
  | _ => Panic
  end.

(** [v.Interface()]. *)
Definition Interface (v : rvalue) : any :=
  match rKind v, rval v with
  | KInterface, VIface x => x
  | _, x => Some (rtype v, x)
  end.

(** The value a map key or element is decoded into: a new one on the
    first round, the previous one afterwards, reset to the zero value
    unless its kind is immutable. *)
Definition scratch (cur : option rvalue) (t : gotype) (reuse : bool) : rvalue :=
  match cur with
  | None => RV t (zeroValue t) true
  | Some x => if negb reuse then withVal x (zeroValue t) else x
  end.

(** Wrap byte string if enabled: whether the key, of type [any], holds a
    [[]byte] to wrap, and the key after the wrapping. *)
Definition wrapsKey (m : decMode) (keyIsInterfaceType : bool) (keyValue : rvalue) : bool :=
  keyIsInterfaceType &&
  match Elem keyValue, mapKeyByteString m with
  | Some e, MapKeyByteStringWrap => gotype_eqb (rtype e) typeByteSlice
  | _, _ => false
  end.

Definition wrappedKey (wrapIt : bool) (keyValue : rvalue) : rvalue :=
  if wrapIt then
    withVal keyValue
      (VIface (Some (TByteString,
                     VString (string_of_list_byte
                                (bytesOfVal (match Elem keyValue with
                                             | Some e => rval e
                                             | None => VSlice None
                                             end))))))
  else keyValue.

(** Detect if CBOR map key can be used as Go map key. *)
Definition unhashableKey (keyIsInterfaceType : bool) (keyType : gotype) (keyValue : rvalue)
  : bool :=
  keyIsInterfaceType && negb (gotype_eqb keyType TByteString) &&
  match Elem keyValue with
  | Some e => negb (isHashableValue (rtype e) (rval e))
  | None => false
  end.

(** One round of the loop of [parseMapToMap]; [inr] is the return from
    inside the loop at a duplicate key. *)
Definition parseMapToMapIter (tInfo : gotype) (hasSize : bool) (count : Z)
    (i : Z) (s : mapToMapState) : M (mapToMapState + (rvalue * option error)) :=
  let keyTypeInfo := keyOf (nonPtrType tInfo) in
  let elemTypeInfo := elemOf (nonPtrType tInfo) in
  let eleType := elemTypeInfo in
  let reuseKey := isImmutableKind (kindOf keyTypeInfo) in
  let reuseEle := isImmutableKind (kindOf elemTypeInfo) in
  let keyIsInterfaceType := gotype_eqb keyTypeInfo TEmptyIface in
  m <- getDm ;;
  let keyValue := scratch (mmKeyValue s) (mmKeyType s) reuseKey in
  '(kx, lastErr) <- parseToValueR R keyTypeInfo keyValue ;;
  let keyValue := withVal keyValue kx in
  match lastErr with
  | Some _ =>
      skip f ;;;
      ret (inl (MMS (mmV s) (Some keyValue) (mmEleValue s) (mmKeyType s)
                  (firstErr (mmErr s) lastErr) (mmKeyCount s) (mmExistingKeys s)))
  | None =>
      let wrapIt := wrapsKey m keyIsInterfaceType keyValue in
      let keyValue := wrappedKey wrapIt keyValue in
      let keyType := if wrapIt then rtype keyValue else mmKeyType s in
      if unhashableKey keyIsInterfaceType keyType keyValue then
        skip f ;;;
        ret (inl (MMS (mmV s) (Some keyValue) (mmEleValue s) keyType
                    (firstErr (mmErr s)
                       (Some (errorString
                                ("cbor: invalid map key type: "
                                 ++ match Elem keyValue with
                                    | Some e => typeString (rtype e)
                                    | None => ""
                                    end))))
                    (mmKeyCount s) (mmExistingKeys s)))
      else
        let eleValue := scratch (mmEleValue s) eleType reuseEle in
        '(ex, lastErr) <- parseToValueR R elemTypeInfo eleValue ;;
        let eleValue := withVal eleValue ex in
        match lastErr with
        | Some _ =>
            ret (inl (MMS (mmV s) (Some keyValue) (Some eleValue) keyType
                        (firstErr (mmErr s) lastErr) (mmKeyCount s) (mmExistingKeys s)))
        | None =>
            v <- lift (SetMapIndex (mmV s) (rval keyValue) (rval eleValue)) ;;
            match dupMapKey m with
            | DupMapKeyEnforcedAPF =>
                let newKeyCount := Z.of_nat (List.length (mapEntries v)) in
                if newKeyCount =? mmKeyCount s then
                  let kvi := Interface keyValue in
                  if negb (keySetHas (mmExistingKeys s) kvi) then
                    v <- lift (SetMapIndex v (rval keyValue) (zeroValue eleType)) ;;
                    skipRestOfMap hasSize count (i + 1) ;;;
                    ret (inr (v, Some (DupMapKeyError kvi i)))
                  else
                    ret (inl (MMS v (Some keyValue) (Some eleValue) keyType (mmErr s)
                                newKeyCount (keySetDelete (mmExistingKeys s) kvi)))
                else
                  ret (inl (MMS v (Some keyValue) (Some eleValue) keyType (mmErr s)
                              newKeyCount (mmExistingKeys s)))
            | DupMapKeyQuiet =>
                ret (inl (MMS v (Some keyValue) (Some eleValue) keyType (mmErr s)
                            (mmKeyCount s) (mmExistingKeys s)))
            end
        end
  end.

Definition parseMapToMap (v : rvalue) (tInfo : gotype) : M (rvalue * option error) :=
  '(_, ai, val) <- getHead ;;
  let hasSize := negb (ai =? 31) in
  let count := toInt val in
  v <- (if IsNil v then lift (setVal v (VMap (Some []))) else ret v) ;;
  let keyType := keyOf (nonPtrType tInfo) in
  let keyCount := Z.of_nat (List.length (mapEntries v)) in
  m <- getDm ;;
  let existingKeys :=
    match dupMapKey m with
    | DupMapKeyEnforcedAPF =>
        map (fun kv => Interface (RV keyType (fst kv) false)) (mapEntries v)
    | DupMapKeyQuiet => []
    end in
  r <- forLoop f (fun i _ => more hasSize count i) (parseMapToMapIter tInfo hasSize count) 0
         (MMS v None None keyType None keyCount existingKeys) ;;
  match r with
  | inl s => ret (mmV s, mmErr s)
  | inr x => ret x
  end.

(** [typeError.StructFieldName = s] when the error is an
    [*UnmarshalTypeError]. *)
Definition withStructFieldName (e : error) (s : string) : error :=
  match e with
  | UnmarshalTypeError c g _ m => UnmarshalTypeError c g s m
  | _ => e
  end.

Definition annotate (lastErr : option error) (s : string) : option error :=
  match lastErr with
  | Some e => Some (withStructFieldName e s)
  | None => None
  end.

(** Get field value by index, and decode into it.  The result is the
    struct after the round and the first error of the round, annotated
    with [fieldName] when [err] is still nil. *)
Definition decodeField (v : rvalue) (fld : field) (fieldName : string) (err : option error)
  : M (rvalue * option error) :=
  r <- (match idx fld with
        | [n] =>
            match FieldOf v n with
            | Some fv => ret (rval v, Some (fv, putField v n), None)
            | None => panic
            end
        | path => lift (getFieldValue v path)
        end) ;;
  let '(sv, o, lastErr) := r in
  let err := firstErr err lastErr in
  match o with
  | None => skip f ;;; ret (withVal v sv, err)
  | Some (fv, put) =>
      '(x, lastErr) <- parseToValueR R (typ fld) fv ;;
      ret (withVal v (put x),
           match err with
           | Some _ => err
           | None => annotate lastErr fieldName
           end)
  end.

(** One round of the loop of [parseArrayToStruct]. *)
Definition parseArrayToStructIter (tInfo : gotype) (fields : list field)
    (i : Z) (s : rvalue * option error) : M ((rvalue * option error) + unit) :=
  let '(v, err) := s in
  if i <? 0 then panic
  else
    match nth_error fields (Z.to_nat i) with
    | None => panic
    | Some fld =>
        r <- decodeField v fld (typeString tInfo ++ "." ++ name fld) err ;;
        ret (inl r)
    end.

Definition parseArrayToStruct (v : rvalue) (tInfo : gotype) : M (rvalue * option error) :=
  let structType := getDecodingStructType (nonPtrType tInfo) in
  match stErr structType with
  | Some e => ret (v, Some (errorString e))
  | None =>
      if negb (stToArray structType) then
        t <- nextCBORType ;;
        skip f ;;;
        ret (v, Some (typeErr t (nonPtrType tInfo)
                        "cannot decode CBOR array to struct without toarray option"))
      else
        start <- getOff ;;
        '(t, ai, val) <- getHead ;;
        let hasSize := negb (ai =? 31) in
        count <- (if hasSize then ret (toInt val) else numOfItemsUntilBreak f) ;;
        if negb (count =? Z.of_nat (List.length (stFields structType))) then
          putOff start ;;;
          skip f ;;;
          ret (v, Some (typeErr t tInfo
                          "cannot decode CBOR array to struct with different number of elements"))
        else
          r <- forLoop f (fun i _ => more hasSize count i)
                 (parseArrayToStructIter tInfo (stFields structType)) 0 (v, None) ;;
          match r with
          | inl s => ret s
          | inr _ => panic
          end
  end.

(** Search of the first field not matched yet that satisfies [cond]:
    [for i := 0; i < len(fields); i++ { if !foundFldIdx[i] && cond(fields[i])
    { ...; break } }]. *)
Fixpoint findFld (cond : field -> bool) (fields : list field) (foundFldIdx : list bool)
    (i : nat) : option (nat * field) :=
  match fields with
  | [] => None
  | fld :: rest =>
      if negb (nth i foundFldIdx false) && cond fld then Some (i, fld)
      else findFld cond rest foundFldIdx (Datatypes.S i)
  end.

Definition exactMatch (key : string) (fld : field) : bool :=
  Nat.eqb (String.length (name fld)) (String.length key) && String.eqb (name fld) key.

Definition foldMatch (key : string) (fld : field) : bool :=
  Nat.eqb (String.length (name fld)) (String.length key) && EqualFold (name fld) key.

Definition intMatch (nameAsInt_ : Z) (fld : field) : bool :=
  keyAsInt fld && (nameAsInt fld =? nameAsInt_).

(** The field a text-string key selects, with the updated marks: a field
    with exact match, else a field with case-insensitive match. *)
Definition matchTextKey (fields : list field) (foundFldIdx : list bool) (key : string)
  : option field * list bool :=
  match findFld (exactMatch key) fields foundFldIdx O with
  | Some (i, fld) => (Some fld, setNth i true foundFldIdx)
  | None =>
      match findFld (foldMatch key) fields foundFldIdx O with
      | Some (i, fld) => (Some fld, setNth i true foundFldIdx)
      | None => (None, foundFldIdx)
      end
  end.

Definition matchIntKey (fields : list field) (foundFldIdx : list bool) (n : Z)
  : option field * list bool :=
  match findFld (intMatch n) fields foundFldIdx O with
  | Some (i, fld) => (Some fld, setNth i true foundFldIdx)
  | None => (None, foundFldIdx)
  end.

(** State of the loop of [parseMapToStruct]. *)
Record mapToStructState : Type := MSS {
  msV : rvalue;
  msFound : list bool;
  msMapKeys : keySet;
  msKeyCount : Z;
  msErr : option error
}.

Definition errOnUnknownField (m : decMode) : bool :=
  0 <? Z.land (extraReturnErrors m) ExtraDecErrorUnknownField.

(** The key of one map entry: either the round ends ([continue]) with a
    new first error, or the key selects a field ([f], nil when none),
    with the key [k] for the duplicate detection. *)
Definition parseStructKey (fields : list field) (s : mapToStructState)
  : M (option error + (option field * any * list bool * option error)) :=
  m <- getDm ;;
  let enforced := match dupMapKey m with DupMapKeyEnforcedAPF => true | _ => false end in
  t <- nextCBORType ;;
  if t =? cborTypeTextString then
    '(keyBytes, lastErr) <- parseTextString ;;
    match lastErr with
    | Some _ => skip f ;;; ret (inl (firstErr (msErr s) lastErr))
    | None =>
        let key := string_of_list_byte keyBytes in
        let '(fo, found) := matchTextKey fields (msFound s) key in
        ret (inr (fo, (if enforced then Some (typeString_, VString key) else None),
                  found, msErr s))
    end
  else if t <=? cborTypeNegativeInt then
    '(_, _, val) <- getHead ;;
    if negb (t =? cborTypePositiveInt) && (MaxInt64 <? val) then
      skip f ;;;
      ret (inl (firstErr (msErr s)
                  (Some (UnmarshalTypeError (cborTypeString t) (typeString typeInt64) ""
                           ("-1-" ++ Zstr val ++ " overflows Go's int64")))))
    else
      let nameAsInt_ :=
        if t =? cborTypePositiveInt then toInt64 val else Z.lxor (-1) (toInt64 val) in
      let '(fo, found) := matchIntKey fields (msFound s) nameAsInt_ in
      ret (inr (fo, (if enforced then Some (typeInt64, VInt nameAsInt_) else None),
                found, msErr s))
  else
    let err :=
      firstErr (msErr s)
        (Some (UnmarshalTypeError (cborTypeString t) (typeString typeString_) ""
                 ("map key is of type " ++ cborTypeString t
                  ++ " and cannot be used to match struct field name"))) in
    if enforced then
      '(k, lastErr) <- parseR R true ;;
      match lastErr with
      | Some _ => skip f ;;; ret (inl err)
      | None =>
          if negb (isHashableAny k) then skip f ;;; ret (inl err)
          else ret (inr (None, k, msFound s, err))
      end
    else skip f ;;; ret (inr (None, None, msFound s, err)).

(** One round of the loop of [parseMapToStruct]; [inr] is the return from
    inside the loop, at a duplicate key or at an unknown field. *)
Definition parseMapToStructIter (tInfo : gotype) (fields : list field)
    (hasSize : bool) (count : Z) (j : Z) (s : mapToStructState)
  : M (mapToStructState + (rvalue * option error)) :=
  m <- getDm ;;
  key <- parseStructKey fields s ;;
  match key with
  | inl err => ret (inl (MSS (msV s) (msFound s) (msMapKeys s) (msKeyCount s) err))
  | inr (fo, k, found, err) =>
      let mapKeys :=
        match dupMapKey m with
        | DupMapKeyEnforcedAPF => keySetAdd (msMapKeys s) k
        | DupMapKeyQuiet => msMapKeys s
        end in
      let newKeyCount :=
        match dupMapKey m with
        | DupMapKeyEnforcedAPF => Z.of_nat (List.length mapKeys)
        | DupMapKeyQuiet => msKeyCount s
        end in
      match dupMapKey m, newKeyCount =? msKeyCount s with
      | DupMapKeyEnforcedAPF, true =>
          skip f ;;;
          skipRestOfMap hasSize count (j + 1) ;;;
          ret (inr (msV s, Some (DupMapKeyError k j)))
      | _, _ =>
          match fo with
          | None =>
              if errOnUnknownField m then
                skip f ;;;
                skipRestOfMap hasSize count (j + 1) ;;;
                ret (inr (msV s, Some (UnknownFieldError j)))
              else
                skip f ;;;
                ret (inl (MSS (msV s) found mapKeys newKeyCount err))
          | Some fld =>
              '(v, err) <- decodeField (msV s) fld
                             (typeString (nonPtrType tInfo) ++ "." ++ name fld) err ;;
              ret (inl (MSS v found mapKeys newKeyCount err))
          end
      end
  end.

Definition parseMapToStruct (v : rvalue) (tInfo : gotype) : M (rvalue * option error) :=
  let structType := getDecodingStructType (nonPtrType tInfo) in
  match stErr structType with
  | Some e => ret (v, Some (errorString e))
  | None =>
      if stToArray structType then
        t <- nextCBORType ;;
        skip f ;;;
        ret (v, Some (typeErr t (nonPtrType tInfo)
                        "cannot decode CBOR map to struct with toarray option"))
      else
        '(_, ai, val) <- getHead ;;
        let hasSize := negb (ai =? 31) in
        let count := toInt val in
        let foundFldIdx := repeat false (List.length (stFields structType)) in
        r <- forLoop f (fun j _ => more hasSize count j)
               (parseMapToStructIter tInfo (stFields structType) hasSize count) 0
               (MSS v foundFldIdx [] 0 None) ;;
        match r with
        | inl s => ret (msV s, msErr s)
        | inr x => ret x
        end
  end.

(** The value of [v] again after a write into [v.Elem()]. *)
Definition rewrap (v : rvalue) (y : goval) : goval :=
  match rval v with
  | VPtr _ => VPtr (Some y)
  | VIface (Some (t, _)) => VIface (Some (t, y))
  | o => o
  end.

(** First step of [parseToValue], for a target whose descriptor is an
    interface with methods: use the value the interface holds, or create
    a value of the registered type when the data is a registered tag.
    The result is the value to decode into, its descriptor, and the
    function that gives the target's value back from the new value. *)
Definition ifaceStage (tInfo : gotype) (v : rvalue)
  : M (rvalue * gotype * (goval -> goval)) :=
  match spclType tInfo with
  | specialTypeIface =>
      if negb (IsNil v) then
        match Elem v with
        | Some e => ret (e, rtype e, rewrap v)
        | None => panic
        end
      else
        m <- getDm ;;
        match tags m with
        | None => ret (v, tInfo, fun y => y)
        | Some tp =>
            t <- nextCBORType ;;
            if t =? cborTypeTag then
              o <- getOff ;;
              tagNums <- collectTagNums [] ;;
              putOff o ;;;
              match getTypeFromTagNum tp tagNums with
              | Some registeredType =>
                  if Implements registeredType (nonPtrType tInfo)
                     || Implements (TPtr registeredType) (nonPtrType tInfo) then
                    match rKind v with
                    | KInterface =>
                        if canSet v then
                          ret (RV (TPtr registeredType)
                                 (VPtr (Some (zeroValue registeredType))) false,
                               registeredType,
                               fun y => VIface (Some (TPtr registeredType, y)))
                        else panic
                    | _ => panic
                    end
                  else ret (v, tInfo, fun y => y)
              | None => ret (v, tInfo, fun y => y)
              end
            else ret (v, tInfo, fun y => y)
        end
  | _ => ret (v, tInfo, fun y => y)
  end.

(** Create new value for the pointer [v] to point to:
    [for v.Kind() == reflect.Ptr { ... v = v.Elem() }].  [inr] is the
    return with an error at a nil pointer that cannot be set. *)
Fixpoint derefLoop (n : nat) (v : rvalue) (wrap : goval -> goval)
  : M ((rvalue * (goval -> goval)) + (goval * option error)) :=
  match rKind v with
  | KPtr =>
      match n with
      | O => outOfFuel
      | Datatypes.S n' =>
          if IsNil v then
            if negb (canSet v) then
              skip f ;;;
              ret (inr (wrap (rval v),
                        Some (errorString ("cbor: cannot set new value for "
                                           ++ typeString (rtype v)))))
            else
              derefLoop n' (RV (elemOf (rtype v)) (zeroValue (elemOf (rtype v))) true)
                (fun y => wrap (VPtr (Some y)))
          else
            match Elem v with
            | Some p => derefLoop n' p (fun y => wrap (VPtr (Some y)))
            | None => panic
            end
      end
  | _ => ret (inl (v, wrap))
  end.

(** Check registered tag number.  [Some e] is the return with an error. *)
Definition checkRegisteredTag (tInfo : gotype) : M (option error) :=
  m <- getDm ;;
  match match tags m with
        | Some tp => getTagItemFromType tp (nonPtrType tInfo)
        | None => None
        end with
  | None => ret None
  | Some tagItem =>
      t <- nextCBORType ;;
      if negb (t =? cborTypeTag) then
        match DecTag tagItem with
        | DecTagRequired =>
            skip f ;;;
            ret (Some (typeErr t tInfo "expect CBOR tag value"))
        | _ => ret None
        end
      else
        tagNums <- collectTagNums [] ;;
        if equalTagNum tagItem tagNums then ret None
        else
          skip f ;;;
          ret (Some (WrongTagError (contentType tagItem) (num tagItem) tagNums))
  end.

(** The conversion of a bignum when the destination is neither a
    [big.Int] nor a slice or array. *)
Definition bigErr (t : Z) (tInfo : gotype) (bi : Z) (v : rvalue) : error :=
  typeErr t (nonPtrType tInfo) (Zstr bi ++ " overflows " ++ typeString (rtype v)).

(** The [switch t] of [parseToValue]. *)
Definition parseByType (tInfo : gotype) (v : rvalue) : M (rvalue * option error) :=
  t <- nextCBORType ;;
  if t =? cborTypePositiveInt then
    '(_, _, val) <- getHead ;; lift (fillPositiveInt t val v)
  else if t =? cborTypeNegativeInt then
    '(_, _, val) <- getHead ;;
    if MaxInt64 <? val then
      let bi := - (val + 1) in
      if gotype_eqb (nonPtrType tInfo) TBigInt then
        v' <- lift (setAny v TBigInt (VBigInt bi)) ;; ret (v', None)
      else ret (v, Some (typeErr t (nonPtrType tInfo) (Zstr bi ++ " overflows Go's int64")))
    else lift (fillNegativeInt t (Z.lxor (-1) (toInt64 val)) v)
  else if t =? cborTypeByteString then
    b <- parseByteString ;;
    if gotype_eqb (rtype v) TByteString then
      '(rb, err) <- lift (fillByteString t b (RV typeByteSlice (VSlice (Some ([], O))) true)) ;;
      match err with
      | Some e => ret (v, Some e)
      | None =>
          v' <- lift (setAny v TByteString
                        (VString (string_of_list_byte (bytesOfVal (rval rb))))) ;;
          ret (v', None)
      end
    else lift (fillByteString t b v)
  else if t =? cborTypeTextString then
    '(b, err) <- parseTextString ;;
    match err with
    | Some e => ret (v, Some e)
    | None => lift (fillTextString t b v)
    end
  else if t =? cborTypePrimitives then
    '(_, ai, val) <- getHead ;;
    if (ai <? 20) || (ai =? 24) then lift (fillPositiveInt t val v)
    else if (ai =? 20) || (ai =? 21) then lift (fillBool t (ai =? 21) v)
    else if (ai =? 22) || (ai =? 23) then lift (fillNil t v)
    else if ai =? 25 then lift (fillFloat t (convertF binary16 binary64 (val mod 2 ^ 16)) v)
    else if ai =? 26 then lift (fillFloat t (convertF binary32 binary64 (val mod 2 ^ 32)) v)
    else if ai =? 27 then lift (fillFloat t val v)
    else ret (v, None)
  else if t =? cborTypeTag then
    '(_, _, tagNum) <- getHead ;;
    if tagNum =? 2 then
      b <- parseByteString ;;
      let bi := bigEndian b in
      if gotype_eqb (nonPtrType tInfo) TBigInt then
        v' <- lift (setAny v TBigInt (VBigInt bi)) ;; ret (v', None)
      else
        match nonPtrKind tInfo with
        | KSlice | KArray => lift (fillByteString t b v)
        | _ =>
            if bi <? 2 ^ 64 then lift (fillPositiveInt t bi v)
            else ret (v, Some (bigErr t tInfo bi v))
        end
    else if tagNum =? 3 then
      b <- parseByteString ;;
      let bi := - (bigEndian b + 1) in
      if gotype_eqb (nonPtrType tInfo) TBigInt then
        v' <- lift (setAny v TBigInt (VBigInt bi)) ;; ret (v', None)
      else
        match nonPtrKind tInfo with
        | KSlice | KArray => lift (fillByteString t b v)
        | _ =>
            if - 2 ^ 63 <=? bi then lift (fillNegativeInt t bi v)
            else ret (v, Some (bigErr t tInfo bi v))
        end
    else
      '(x, err) <- parseToValueR R tInfo v ;;
      ret (withVal v x, err)
  else if t =? cborTypeArray then
    match nonPtrKind tInfo with
    | KSlice => parseArrayToSlice v tInfo
    | KArray => parseArrayToArray v tInfo
    | KStruct => parseArrayToStruct v tInfo
    | _ => skip f ;;; ret (v, Some (typeErr t (nonPtrType tInfo) ""))
    end
  else if t =? cborTypeMap then
    match nonPtrKind tInfo with
    | KStruct => parseMapToStruct v tInfo
    | KMap => parseMapToMap v tInfo
    | _ => skip f ;;; ret (v, Some (typeErr t (nonPtrType tInfo) ""))
    end
  else ret (v, None).

(** The [switch tInfo.spclType] of [parseToValue]; [None] when the
    descriptor is of no special type handled there. *)
Definition parseSpecial (tInfo : gotype) (v : rvalue) : option (M (rvalue * option error)) :=
  match spclType tInfo with
  | specialTypeEmptyIface =>
      Some ('(iv, err) <- parseR R false ;;
            match iv with
            | Some (t, x) => v' <- lift (setAny v t x) ;; ret (v', err)
            | None => ret (v, err)
            end)
  | specialTypeTag => Some (parseToTag v)
  | specialTypeTime =>
      Some (isNil <- nextCBORNil ;;
            if isNil then skip f ;;; ret (v, None)
            else
              '(tm, err) <- parseToTime ;;
              match err with
              | Some e => ret (v, Some e)
              | None => v' <- lift (setAny v TTime (VTime tm)) ;; ret (v', None)
              end)
  | specialTypeUnmarshalerIface => Some (parseToUnmarshaler v)
  | _ => None
  end.

(** What [parseToValue] does with the value [v] it ends up decoding
    into, once pointers are followed. *)
Definition parseInto (tInfo : gotype) (v : rvalue) : M (rvalue * option error) :=
  stripSelfDescribed ;;;
  be <- checkBuiltinTag ;;
  match be with
  | Some e => ret (v, Some e)
  | None =>
      match parseSpecial tInfo v with
      | Some m => m
      | None =>
          re <- checkRegisteredTag tInfo ;;
          match re with
          | Some e => ret (v, Some e)
          | None => parseByType tInfo v
          end
      end
  end.

(** [parseToValue] decodes CBOR data to value.  It assumes data is
    well-formed, and does not perform bounds checking. *)
Definition parseToValue (tInfo : gotype) (v : rvalue) : M (goval * option error) :=
  '(v1, tInfo1, wrap1) <- ifaceStage tInfo v ;;
  isNil <- nextCBORNil ;;
  r <- (if negb isNil then derefLoop f v1 wrap1 else ret (inl (v1, wrap1))) ;;
  match r with
  | inr x => ret x
  | inl (v2, wrap2) =>
      '(v3, err) <- parseInto tInfo1 v2 ;;
      ret (wrap2 (rval v3), err)
  end.

End Decode.

(** The decoding functions at a given fuel. *)
Fixpoint decoders (lib : golib) (fuel : nat) : Rec :=
  match fuel with
  | O => MkRec (fun _ _ => outOfFuel) (fun _ => outOfFuel)
  | Datatypes.S f =>
      let R := decoders lib f in
      MkRec (parseToValue lib f R) (parse lib f R)
  end.

(** A decoding mode is created with a library of the functions above. *)
Definition parseToValueF (lib : golib) (fuel : nat) : gotype -> rvalue -> M (goval * option error) :=
  parseToValueR (decoders lib fuel).

Definition parseF (lib : golib) (fuel : nat) : bool -> M (any * option error) :=
  parseR (decoders lib fuel).

(** [decoder.value]: [v] is the argument of [Unmarshal], of type [any];
    [valid] is the well-formedness pass [d.valid()].  The result is the
    value of [v] afterwards and the error. *)
Definition value (lib : golib) (valid : M (option error)) (fuel : nat) (v : any)
  : M (any * option error) :=
  match v with
  | None => ret (v, Some (InvalidUnmarshalError "cbor: Unmarshal(nil)"))
  | Some (t, x) =>
      let rv := RV t x false in
      if negb (Kind_eqb (rKind rv) KPtr) then
        ret (v, Some (InvalidUnmarshalError
                        ("cbor: Unmarshal(non-pointer " ++ typeString t ++ ")")))
      else if IsNil rv then
        ret (v, Some (InvalidUnmarshalError ("cbor: Unmarshal(nil " ++ typeString t ++ ")")))
      else
        o <- getOff ;;
        err <- valid ;;
        putOff o ;;;
        match err with
        | Some e => ret (v, Some e)
        | None =>
            match Elem rv with
            | None => panic
            | Some rv' =>
                '(x', err) <- parseToValueF lib fuel (rtype rv') rv' ;;
                ret (Some (t, rewrap rv x'), err)
            end
        end
  end.

(** [Unmarshal] of a decoding mode, given its well-formedness pass. *)
Definition Unmarshal (lib : golib) (valid : M (option error)) (fuel : nat)
    (m : decMode) (bs : list byte) (v : any) : result (any * option error) :=
  match value lib valid fuel v (newDecoder bs m) with
  | Done (r, _) => Done r
  | Panic => Panic
  | OutOfFuel => OutOfFuel
  end.

(** ** The well-formedness pass *)

Definition errUnexpectedEOF : error := errorString "unexpected EOF".
Definition errEOF : error := errorString "EOF".

Definition remaining : M Z :=
  fun d => Done (Z.of_nat (List.length (data d)) - off d, d).

(** Modelled from the spec: the head of an item with header consistency
    checked ([validHead], not among the sources): the argument bytes are
    present, the additional information is not reserved, and an
    indefinite length is used only where it exists. *)
Definition validHead : M (error + (Z * Z * Z)) :=
  r <- remaining ;;
  if r <=? 0 then ret (inl errUnexpectedEOF)
  else
    o <- getOff ;;
    b <- byteAt o ;;
    let t := Z.land b 0xe0 in
    let ai := Z.land b 0x1f in
    let need := if ai <? 24 then 0 else if ai =? 24 then 1 else if ai =? 25 then 2
                else if ai =? 26 then 4 else if ai =? 27 then 8 else 0 in
    if r - 1 <? need then ret (inl errUnexpectedEOF)
    else if (28 <=? ai) && (ai <=? 30) then
      ret (inl (errorString ("cbor: invalid additional information " ++ Zstr ai
                             ++ " for type " ++ cborTypeString t)))
    else if (ai =? 31)
            && ((t =? cborTypePositiveInt) || (t =? cborTypeNegativeInt)
                || (t =? cborTypeTag)) then
      ret (inl (errorString ("cbor: invalid additional information " ++ Zstr ai
                             ++ " for type " ++ cborTypeString t)))
    else if (ai =? 31) && (t =? cborTypePrimitives) then
      ret (inl (errorString "cbor: unexpected break code"))
    else
      '(t, ai, val) <- getHead ;;
      if (t =? cborTypePrimitives) && (ai =? 24) && (val <? 32) then
        ret (inl (errorString ("cbor: invalid simple value " ++ Zstr val
                               ++ " for type " ++ cborTypeString t)))
      else ret (inr (t, ai, val)).

Definition exceededNesting (m : decMode) : error :=
  errorString ("cbor: exceeded max nested level " ++ Zstr (maxNestedLevels m)).

Definition exceededElements (m : decMode) (t : Z) : error :=
  if t =? cborTypeArray then
    errorString ("cbor: exceeded max number of elements " ++ Zstr (maxArrayElements m)
                 ++ " for CBOR array")
  else
    errorString ("cbor: exceeded max number of key-value pairs " ++ Zstr (maxMapPairs m)
                 ++ " for CBOR map").

(** The condition of a loop over the pieces of an item of indefinite
    length: the loop goes on unless the break code is next, which is then
    consumed; at the end of the input it goes on, for the round to report
    the missing break. *)
Definition untilBreak {S : Type} : Z -> S -> M bool :=
  fun _ _ =>
    r <- remaining ;;
    if r <=? 0 then ret true
    else b <- foundBreak ;; ret (negb b).

Definition lengthOverflow (t val : Z) : error :=
  errorString ("cbor: " ++ cborTypeString t ++ " length " ++ Zstr val
               ++ " is too large, causing integer overflow").

(** Modelled from the spec: one chunk of a string of indefinite length
    of type [t]: a string of the same type, of definite length, whose
    bytes are there. *)
Definition validChunk (t : Z) : Z -> unit -> M (unit + error) :=
  fun _ _ =>
    h <- validHead ;;
    match h with
    | inl e => ret (inr e)
    | inr (t', ai', val') =>
        r <- remaining ;;
        if negb (t' =? t) then
          ret (inr (errorString ("cbor: wrong element type " ++ cborTypeString t'
                                 ++ " for indefinite-length " ++ cborTypeString t)))
        else if ai' =? 31 then
          ret (inr (errorString ("cbor: indefinite-length " ++ cborTypeString t
                                 ++ " chunk is not definite-length")))
        else if (toInt val' <? 0) || (r <? toInt val') then ret (inr errUnexpectedEOF)
        else o <- getOff ;; putOff (o + toInt val') ;;; ret (inl tt)
    end.

(** Modelled from the spec: one item of an array or map of definite
    length, checked by [item]; the state is the deepest nesting reached. *)
Definition validItem (item : M (error + Z)) : Z -> Z -> M (Z + error) :=
  fun _ maxDepth =>
    x <- item ;;
    match x with
    | inl e => ret (inr e)
    | inr dpt => ret (inl (Z.max maxDepth dpt))
    end.

(** Modelled from the spec: one item of an array or map of indefinite
    length, which may have [most] items; the state is the deepest nesting
    reached and the number of items so far. *)
Definition validItemIndef (item : M (error + Z)) (most : Z) (tooMany : error)
  : Z -> Z * Z -> M (Z * Z + error) :=
  fun i st =>
    if most <=? i then ret (inr tooMany)
    else
      x <- item ;;
      match x with
      | inl e => ret (inr e)
      | inr dpt => ret (inl (Z.max (fst st) dpt, i + 1))
      end.

(** Modelled from the spec: the structural well-formedness pass
    ([valid], not among the sources): header consistency, indefinite
    terminators, nesting within the maximum, element counts within the
    maximum.  [validInternal] checks one item at nesting [depth] and gives
    the deepest nesting reached, or the error. *)
Fixpoint validInternal (fuel : nat) (depth : Z) : M (error + Z) :=
  match fuel with
  | O => outOfFuel
  | Datatypes.S f =>
      h <- validHead ;;
      m <- getDm ;;
      match h with
      | inl e => ret (inl e)
      | inr (t, ai, val) =>
          if (t =? cborTypeByteString) || (t =? cborTypeTextString) then
            if ai =? 31 then
              match indefLength m with
              | IndefLengthForbidden => ret (inl (IndefiniteLengthError t))
              | IndefLengthAllowed =>
                  (* chunks of the same type, of definite length, up to the break *)
                  r <- forLoop f untilBreak (validChunk t) 0 tt ;;
                  match r with
                  | inl _ => ret (inr depth)
                  | inr e => ret (inl e)
                  end
              end
            else
              r <- remaining ;;
              if toInt val <? 0 then ret (inl (lengthOverflow t val))
              else if r <? toInt val then ret (inl errUnexpectedEOF)
              else o <- getOff ;; putOff (o + toInt val) ;;; ret (inr depth)
          else if (t =? cborTypeArray) || (t =? cborTypeMap) then
            let depth := depth + 1 in
            if maxNestedLevels m <? depth then ret (inl (exceededNesting m))
            else
              let limit := if t =? cborTypeArray then maxArrayElements m else maxMapPairs m in
              let per := if t =? cborTypeArray then 1 else 2 in
              if ai =? 31 then
                match indefLength m with
                | IndefLengthForbidden => ret (inl (IndefiniteLengthError t))
                | IndefLengthAllowed =>
                    (* items up to the break; a map has an even number of them *)
                    r <- forLoop f untilBreak
                           (validItemIndef (validInternal f depth) (limit * per)
                              (exceededElements m t))
                           0 (depth, 0) ;;
                    match r with
                    | inl (dpt, n) =>
                        if (t =? cborTypeMap) && Z.odd n
                        then ret (inl (errorString "cbor: unexpected break code"))
                        else ret (inr dpt)
                    | inr e => ret (inl e)
                    end
                end
              else if toInt val <? 0 then ret (inl (lengthOverflow t val))
              else if limit <? toInt val then ret (inl (exceededElements m t))
              else
                r <- forLoop f (fun i _ => ret (i <? toInt val * per))
                       (validItem (validInternal f depth)) 0 depth ;;
                match r with
                | inl dpt => ret (inr dpt)
                | inr e => ret (inl e)
                end
          else if t =? cborTypeTag then
            match tagsMd m with
            | TagsForbidden => ret (inl TagsMdError)
            | TagsAllowed =>
                let depth := depth + 1 in
                if maxNestedLevels m <? depth then ret (inl (exceededNesting m))
                else validInternal f depth
            end
          else ret (inr depth)
      end
  end.

(** [valid] checks whether the CBOR data is complete and well-formed. *)
Definition valid (fuel : nat) : M (option error) :=
  r <- remaining ;;
  if r =? 0 then ret (Some errEOF)
  else
    x <- validInternal fuel 0 ;;
    match x with
    | inl e => ret (Some e)
    | inr _ => ret None
    end.

(** ** Header encoding *)

(** [binary.BigEndian.PutUint16], [PutUint32], [PutUint64]: the [w] low
    bytes of [n], most significant first. *)
Fixpoint putUint (w : nat) (n : Z) : list byte :=
  match w with
  | O => []
  | Datatypes.S w' => byteOfZ (Z.shiftr n (8 * Z.of_nat w')) :: putUint w' n
  end.

(** [encodeCborHeader] of the tests ([encode_test.go]): the header the
    tests expect the encoder to emit for major type [t] and argument [n]. *)
Definition encodeCborHeader (t : Z) (n : Z) : list byte :=
  if n <=? 23 then [byteOfZ (Z.lor t n)]
  else if n <=? 255 then [byteOfZ (Z.lor t 24); byteOfZ n]
  else if n <=? 65535 then byteOfZ (Z.lor t 25) :: putUint 2 n
  else if n <=? 4294967295 then byteOfZ (Z.lor t 26) :: putUint 4 n
  else byteOfZ (Z.lor t 27) :: putUint 8 n.

(** The header forms of CBOR: the additional information and the number
    of argument bytes that follow the initial byte. *)
Definition headForms : list (Z * nat) := [(24, 1%nat); (25, 2%nat); (26, 4%nat); (27, 8%nat)].

(** Whether an argument of [w] bytes represents [n]; with no argument
    byte the value sits in the initial byte and is at most 23. *)
Definition represents (w : nat) (n : Z) : bool :=
  match w with
  | O => n <=? 23
  | _ => n <? 2 ^ (8 * Z.of_nat w)
  end.

(** Modelled from the spec: the encoder's header writer ([encodeHead] of
    encode.go, not among the sources) emits for integers and for all
    lengths the minimal header width that represents the value. *)
Definition encodeHead (t : Z) (n : Z) : list byte :=
  if represents 0 n then [byteOfZ (Z.lor t n)]
  else
    match find (fun form => represents (snd form) n) headForms with
    | Some (ai, w) => byteOfZ (Z.lor t ai) :: putUint w n
    | None => []
    end.

(** Modelled from the spec: the encoding of an integer value: major type
    0 with the value, or major type 1 with [-1 - v] for a negative one. *)
Definition encodeInt (v : Z) : list byte :=
  if 0 <=? v then encodeHead cborTypePositiveInt v
  else encodeHead cborTypeNegativeInt (-1 - v).

(** ** A library instance *)

Definition asciiLower (c : ascii) : ascii :=
  let n := nat_of_ascii c in
  if (65 <=? n)%nat && (n <=? 90)%nat then ascii_of_nat (n + 32) else c.

(** [strings.EqualFold] on ASCII strings. *)
Fixpoint asciiEqualFold (s t : string) : bool :=
  match s, t with
  | EmptyString, EmptyString => true
  | String a s', String b t' => Ascii.eqb (asciiLower a) (asciiLower b) && asciiEqualFold s' t'
  | _, _ => false
  end.

Definition digitOf (c : ascii) : option Z :=
  let n := Z.of_nat (nat_of_ascii c) in
  if (48 <=? n) && (n <=? 57) then Some (n - 48) else None.

Fixpoint numberOf (acc : Z) (l : list ascii) : option Z :=
  match l with
  | [] => Some acc
  | c :: r =>
      match digitOf c with
      | Some k => numberOf (acc * 10 + k) r
      | None => None
      end
  end.

Definition isLeap (y : Z) : bool :=
  ((y mod 4 =? 0) && negb (y mod 100 =? 0)) || (y mod 400 =? 0).

Definition daysIn (y m : Z) : Z :=
  if m =? 2 then (if isLeap y then 29 else 28)
  else if (m =? 4) || (m =? 6) || (m =? 9) || (m =? 11) then 30 else 31.

(** Days from 1970-01-01 to the civil date. *)
Definition daysFromCivil (y m d : Z) : Z :=
  let y' := if m <=? 2 then y - 1 else y in
  let era := y' / 400 in
  let yoe := y' - era * 400 in
  let doy := (153 * (if 2 <? m then m - 3 else m + 9) + 2) / 5 + d - 1 in
  era * 146097 + (yoe * 365 + yoe / 4 - yoe / 100 + doy) - 719468.

(** [time.Parse(time.RFC3339, s)] on texts of the form
    [YYYY-MM-DDThh:mm:ssZ]; the instance reads no other form. *)
Definition parseUTC (s : string) : gotime + string :=
  let bad := inr (String.append "parsing time " s) in
  match list_ascii_of_string s with
  | [y1; y2; y3; y4; c1; m1; m2; c2; d1; d2; c3; h1; h2; c4; n1; n2; c5; s1; s2; c6] =>
      if Ascii.eqb c1 "-" && Ascii.eqb c2 "-" && Ascii.eqb c3 "T"
         && Ascii.eqb c4 ":" && Ascii.eqb c5 ":" && Ascii.eqb c6 "Z" then
        match numberOf 0 [y1; y2; y3; y4], numberOf 0 [m1; m2], numberOf 0 [d1; d2],
              numberOf 0 [h1; h2], numberOf 0 [n1; n2], numberOf 0 [s1; s2] with
        | Some y, Some m, Some d, Some h, Some n, Some sec =>
            if (1 <=? m) && (m <=? 12) && (1 <=? d) && (d <=? daysIn y m)
               && (h <? 24) && (n <? 60) && (sec <? 60) then
              inl (MkTime 0 (daysFromCivil y m d * 86400 + h * 3600 + n * 60 + sec
                             + unixToInternal) LocUTC)
            else bad
        | _, _, _, _, _, _ => bad
        end
      else bad
  | _ => bad
  end.

(** The library for programs over ASCII field names whose types declare
    no methods, on amd64: text dates are read in the form
    [YYYY-MM-DDThh:mm:ssZ], a float64 outside the [int64] range converts
    to the least [int64], and the methods of user types, which no type
    has, do nothing. *)
Definition asciiLib : golib :=
  {| libEqualFold := asciiEqualFold;
     libTimeParse := parseUTC;
     libInt64OfFloat := fun _ => - 2 ^ 63;
     libFormatFloat := fun bits => Zstr bits;
     libUnmarshalCBOR := fun _ v _ => (v, None);
     libUnmarshalBinary := fun _ v _ => (v, None);
     libImplements := fun _ _ => false |}.

Definition enforcedDecMode : decMode :=
  {| tags := None;
     dupMapKey := DupMapKeyEnforcedAPF;
     timeTag := DecTagIgnored;
     maxNestedLevels := 32;
     maxArrayElements := defaultMaxArrayElements;
     maxMapPairs := defaultMaxMapPairs;
     indefLength := IndefLengthAllowed;
     tagsMd := TagsAllowed;
     intDec := IntDecConvertNone;
     mapKeyByteString := MapKeyByteStringFail;
     extraReturnErrors := ExtraDecErrorNone;
     defaultMapType := None |}.

Definition strictDecMode : decMode :=
  {| tags := None;
     dupMapKey := DupMapKeyQuiet;
     timeTag := DecTagIgnored;
     maxNestedLevels := 32;
     maxArrayElements := defaultMaxArrayElements;
     maxMapPairs := defaultMaxMapPairs;
     indefLength := IndefLengthAllowed;
     tagsMd := TagsAllowed;
     intDec := IntDecConvertNone;
     mapKeyByteString := MapKeyByteStringFail;
     extraReturnErrors := ExtraDecErrorUnknownField;
     defaultMapType := None |}.

Definition enforcedStrictDecMode : decMode :=
  {| tags := None;
     dupMapKey := DupMapKeyEnforcedAPF;
     timeTag := DecTagIgnored;
     maxNestedLevels := 32;
     maxArrayElements := defaultMaxArrayElements;
     maxMapPairs := defaultMaxMapPairs;
     indefLength := IndefLengthAllowed;
     tagsMd := TagsAllowed;
     intDec := IntDecConvertNone;
     mapKeyByteString := MapKeyByteStringFail;
     extraReturnErrors := ExtraDecErrorUnknownField;
     defaultMapType := None |}.

Definition signedDecMode : decMode :=
  {| tags := None;
     dupMapKey := DupMapKeyQuiet;
     timeTag := DecTagIgnored;
     maxNestedLevels := 32;
     maxArrayElements := defaultMaxArrayElements;
     maxMapPairs := defaultMaxMapPairs;
     indefLength := IndefLengthAllowed;
     tagsMd := TagsAllowed;
     intDec := IntDecConvertSigned;
     mapKeyByteString := MapKeyByteStringFail;
     extraReturnErrors := ExtraDecErrorNone;
     defaultMapType := None |}.

(** [Unmarshal(data, &x)] for [x] of type [t] holding [v], with the
    well-formedness pass above. *)
Definition unmarshalInto (m : decMode) (hex : string) (t : gotype) (v : goval)
  : result (any * option error) :=
  Unmarshal asciiLib (valid 64) 64 m (hexDecode hex) (Some (TPtr t, VPtr (Some v))).

Definition tInt : gotype := TBasic BInt.

(** [type T struct { A int; B string }]. *)
Definition structAB : gotype :=
  TStruct "T" noMethods
    [GoField "A" true tInt; GoField "B" true typeString_]
    false
    [Field "A" 0 false [O] tInt; Field "B" 0 false [1%nat] typeString_]
    None.

(** The error of the field resolver for a field with the [keyasint]
    option whose name [n] is no integer. *)
Definition keyAsIntError (n : string) : string :=
  let q := String (ascii_of_nat 34) EmptyString in
  "cbor: failed to parse field name " ++ q ++ n ++ q
  ++ " to int (strconv.Atoi: parsing " ++ q ++ n ++ q ++ ": invalid syntax)".

(** [type U struct { X int `cbor:"x,keyasint"` }], a struct type whose
    fields do not resolve. *)
Definition structU : gotype :=
  TStruct "U" noMethods [GoField "X" true tInt] false
    [Field "x" 0 true [O] tInt] (Some (keyAsIntError "x")).

(** [type S struct { A U; B int }]. *)
Definition structS : gotype :=
  TStruct "S" noMethods [GoField "A" true structU; GoField "B" true tInt] false
    [Field "A" 0 false [O] structU; Field "B" 0 false [1%nat] tInt] None.

(** The header widths CBOR offers: the number of argument bytes. *)
Definition headWidths : list nat := [0; 1; 2; 4; 8]%nat.

(** The eight major types. *)
Definition majorTypes : list Z :=
  [cborTypePositiveInt; cborTypeNegativeInt; cborTypeByteString; cborTypeTextString;
   cborTypeArray; cborTypeMap; cborTypeTag; cborTypePrimitives].

(** The tag set with one registration, as made by [TagSet.Add]. *)
Definition tagSetOf (item : tagItem) : tagProvider :=
  {| getTagItemFromType :=
       fun t => if gotype_eqb t (contentType item) then Some item else None;
     getTypeFromTagNum :=
       fun nums => if equalTagNum item nums then Some (contentType item) else None |}.

(** The decoding mode of [DecOptions{}.DecModeWithTags(tags)], where
    [tags] registers the struct [T] with the tag number 100 and
    [DecTagRequired]. *)
Definition requiredTagDecMode : decMode :=
  {| tags := Some (tagSetOf (TagItem [100] structAB DecTagRequired));
     dupMapKey := DupMapKeyQuiet;
     timeTag := DecTagIgnored;
     maxNestedLevels := 32;
     maxArrayElements := defaultMaxArrayElements;
     maxMapPairs := defaultMaxMapPairs;
     indefLength := IndefLengthAllowed;
     tagsMd := TagsAllowed;
     intDec := IntDecConvertNone;
     mapKeyByteString := MapKeyByteStringFail;
     extraReturnErrors := ExtraDecErrorNone;
     defaultMapType := None |}.

(** [type P struct { _ struct{} `cbor:",toarray"`; X int; Y int }]. *)
Definition structP : gotype :=
  TStruct "P" noMethods
    [GoField "_" false (TStruct "struct {}" noMethods [] false [] None);
     GoField "X" true tInt; GoField "Y" true tInt]
    true
    [Field "X" 0 false [1%nat] tInt; Field "Y" 0 false [2%nat] tInt]
    None.

(** [type Q struct { _ struct{} `cbor:",toarray"`; X int `cbor:"x,keyasint"` }],
    a struct-to-array type whose fields do not resolve. *)
Definition structQ : gotype :=
  TStruct "Q" noMethods
    [GoField "_" false (TStruct "struct {}" noMethods [] false [] None);
     GoField "X" true tInt]
    true
    [Field "x" 0 true [1%nat] tInt]
    (Some (keyAsIntError "x")).

(** * Predicates and functions of the statements *)

(** The field found by one pass: the first field, in the order of the
    resolved fields, that is not matched yet and satisfies [cond]. *)
Definition firstUnmatched (cond : field -> bool) (fields : list field) (found : list bool)
    (i : nat) (fld : field) : Prop :=
  nth_error fields i = Some fld /\ nth i found false = false /\ cond fld = true
  /\ forall j fld', (j < i)%nat -> nth_error fields j = Some fld' ->
                    nth j found false = false -> cond fld' = false.

Definition noneUnmatched (cond : field -> bool) (fields : list field) (found : list bool)
  : Prop :=
  forall j fld', nth_error fields j = Some fld' -> nth j found false = false ->
                 cond fld' = false.


Definition noneFree (P : field -> Prop) (fields : list field) (found : list bool) : Prop :=
  forall j fld', nth_error fields j = Some fld' -> nth j found false = false -> ~ P fld'.


(** The names a text key stands for: the key itself, and, without regard
    to case, a name that has the length of the key in bytes and that
    [strings.EqualFold] equates with it. *)
Definition sameName (key : string) (fld : field) : Prop := name fld = key.

Definition sameNameFolded (lib : golib) (key : string) (fld : field) : Prop :=
  String.length (name fld) = String.length key /\ libEqualFold lib (name fld) key = true.


(** The next byte of the input is [b]. *)
Definition nextByte (d : decoder) (b : Z) : Prop := byteAt (off d) d = Done (b, d).

(** [null] and [undefined]. *)
Definition isNilByte (b : Z) : Prop := b = 0xf6 \/ b = 0xf7.

(** The registered tag of a type that a decoding mode requires, if any. *)
Definition requiredTag (m : decMode) (t : gotype) : bool :=
  match tags m with
  | Some tp =>
      match getTagItemFromType tp (nonPtrType t) with
      | Some item => match DecTag item with DecTagRequired => true | _ => false end
      | None => false
      end
  | None => false
  end.

(** What [parse] gives for an unsigned integer [val], per [IntDec]. *)
Definition genericUint (m : decMode) (val : Z) : any * option error :=
  match intDec m with
  | IntDecConvertNone => (Some (typeUint64, VUint val), None)
  | IntDecConvertSigned =>
      if MaxInt64 <? val then
        (None, Some (UnmarshalTypeError "positive integer" "int64" ""
                       (Zstr val ++ " overflows Go's int64")))
      else (Some (typeInt64, VInt val), None)
  end.

(** What [parse] gives for a negative integer of argument [val], the
    integer [-1 - val]. *)
Definition genericNegInt (val : Z) : any * option error :=
  if MaxInt64 <? val then (Some (TBigInt, VBigInt (-1 - val)), None)
  else (Some (typeInt64, VInt (-1 - val)), None).

(** A computation that leaves the input and the mode as they are. *)
Definition pres {A : Type} (m : M A) : Prop :=
  forall d a d', m d = Done (a, d') -> data d' = data d /\ dm d' = dm d.

(** The item count of the array that is next: the count of its head, or
    for an indefinite length the number of items up to the break. *)
Definition arrayCount (f : nat) : M Z :=
  '(_, ai, val) <- getHead ;;
  if negb (ai =? 31) then ret (toInt val) else numOfItemsUntilBreak f.

Definition countMismatch (tInfo : gotype) : error :=
  UnmarshalTypeError "array" (typeString tInfo) ""
    "cannot decode CBOR array to struct with different number of elements".

(** The key set and the key count of [parseMapToStruct] after the key [k]
    is recorded, and whether the duplicate detection fires at [k]. *)
Definition keysAfter (m : decMode) (s : mapToStructState) (k : any) : keySet :=
  match dupMapKey m with
  | DupMapKeyEnforcedAPF => keySetAdd (msMapKeys s) k
  | DupMapKeyQuiet => msMapKeys s
  end.

Definition countAfter (m : decMode) (s : mapToStructState) (k : any) : Z :=
  match dupMapKey m with
  | DupMapKeyEnforcedAPF => Z.of_nat (List.length (keySetAdd (msMapKeys s) k))
  | DupMapKeyQuiet => msKeyCount s
  end.

Definition dupFires (m : decMode) (s : mapToStructState) (k : any) : bool :=
  match dupMapKey m with
  | DupMapKeyEnforcedAPF => countAfter m s k =? msKeyCount s
  | DupMapKeyQuiet => false
  end.

(** The field an integer key stands for: one with the [keyasint] option
    and the key as its number. *)
Definition sameNumber (n : Z) (fld : field) : Prop :=
  keyAsInt fld = true /\ nameAsInt fld = n.

(** The errors recorded for a key that cannot name a field: a key that
    is neither a text string nor an integer, and a negative integer below
    the [int64] range. *)
Definition keyTypeError (t : Z) : error :=
  UnmarshalTypeError (cborTypeString t) "string" ""
    ("map key is of type " ++ cborTypeString t
     ++ " and cannot be used to match struct field name").

Definition keyOverflowError (val : Z) : error :=
  UnmarshalTypeError "negative integer" "int64" ""
    ("-1-" ++ Zstr val ++ " overflows Go's int64").

(** The rest of a round of [parseMapToStruct] for a key [k] that selects
    no field and is no duplicate, [err] being the first error so far:
    under [ExtraDecErrorUnknownField] the value and the rest of the map
    are skipped and [UnknownFieldError] with the index of the entry is
    returned; otherwise the value is skipped and the loop goes on. *)
Definition unknownFieldRound (f : nat) (m : decMode) (hasSize : bool) (count j : Z)
    (s : mapToStructState) (k : any) (err : option error)
  : M (mapToStructState + (rvalue * option error)) :=
  if errOnUnknownField m then
    skip f ;;;
    skipRestOfMap f hasSize count (j + 1) ;;;
    ret (inr (msV s, Some (UnknownFieldError j)))
  else
    skip f ;;;
    ret (inl (MSS (msV s) (msFound s) (keysAfter m s k) (countAfter m s k) err)).

(** The rest of a round for a key that cannot be used, with its error
    [e]: the value is skipped, [e] is recorded unless an earlier error
    is, and the loop goes on whatever the policies. *)
Definition unusableKeyRound (f : nat) (s : mapToStructState) (e : error)
  : M (mapToStructState + (rvalue * option error)) :=
  skip f ;;;
  ret (inl (MSS (msV s) (msFound s) (msMapKeys s) (msKeyCount s)
              (firstErr (msErr s) (Some e)))).

(** A result of a loop or of one of its rounds, with [g] applied to the
    state when the loop goes on; a return from inside the loop is left as
    it is. *)
Definition onContinue {S R : Type} (g : S -> S) (r : result ((S + R) * decoder))
  : result ((S + R) * decoder) :=
  match r with
  | Done (inl s, d) => Done (inl (g s), d)
  | other => other
  end.

(** The states of the loops with the error [e0] recorded before theirs. *)
Definition after2 {A : Type} (e0 : option error) (s : A * option error) : A * option error :=
  (fst s, firstErr e0 (snd s)).

Definition after3 {A B : Type} (e0 : option error) (s : A * B * option error)
  : A * B * option error :=
  (fst s, firstErr e0 (snd s)).

Definition afterPMS (e0 : option error) (s : parseMapState) : parseMapState :=
  PMS (pmM s) (firstErr e0 (pmErr s)) (pmKeyCount s).

Definition afterMMS (e0 : option error) (s : mapToMapState) : mapToMapState :=
  MMS (mmV s) (mmKeyValue s) (mmEleValue s) (mmKeyType s) (firstErr e0 (mmErr s))
    (mmKeyCount s) (mmExistingKeys s).

Definition afterMSS (e0 : option error) (s : mapToStructState) : mapToStructState :=
  MSS (msV s) (msFound s) (msMapKeys s) (msKeyCount s) (firstErr e0 (msErr s)).

(** The key of a round after an earlier error [e0]. *)
Definition afterKey (e0 : option error)
    (r : result ((option error + (option field * any * list bool * option error)) * decoder))
  : result ((option error + (option field * any * list bool * option error)) * decoder) :=
  match r with
  | Done (inl e, d) => Done (inl (firstErr e0 e), d)
  | Done (inr (fo, k, found, e), d) => Done (inr (fo, k, found, firstErr e0 e), d)
  | other => other
  end.

(** ** Predicates and functions of the further properties *)

(** The number of argument bytes that follow an initial byte with the
    additional information [ai]. *)
Definition argBytes (ai : Z) : Z :=
  if ai =? 24 then 1 else if ai =? 25 then 2 else if ai =? 26 then 4
  else if ai =? 27 then 8 else 0.

(** What a fill function may do to its target [v]: the type and the
    settability stay, and with an error the value stays too, the error
    being an [UnmarshalTypeError] that names the CBOR type [t] and the Go
    type of the target. *)
Definition fillOutcome (t : Z) (v v' : rvalue) (oe : option error) : Prop :=
  rtype v' = rtype v /\ canSet v' = canSet v
  /\ match oe with
     | Some e => v' = v /\ exists msg, e = typeErr t (rtype v) msg
     | None => True
     end.

Definition overflowErr (t val : Z) (v : rvalue) : error :=
  typeErr t (rtype v) (Zstr val ++ " overflows " ++ typeString (rtype v)).

(** The targets a CBOR array or map cannot be decoded into, and what the
    error says: a target whose kind under its pointers is none of those
    the item can fill, a struct without the struct-to-array option for an
    array, a struct with that option for a map. *)
Definition shapeMismatch (t : Z) (tInfo : gotype) : option string :=
  let st := getDecodingStructType (nonPtrType tInfo) in
  if t =? cborTypeArray then
    match nonPtrKind tInfo with
    | KSlice | KArray => None
    | KStruct =>
        match stErr st with
        | Some _ => None
        | None =>
            if stToArray st then None
            else Some "cannot decode CBOR array to struct without toarray option"
        end
    | _ => Some ""
    end
  else if t =? cborTypeMap then
    match nonPtrKind tInfo with
    | KMap => None
    | KStruct =>
        match stErr st with
        | Some _ => None
        | None =>
            if stToArray st
            then Some "cannot decode CBOR map to struct with toarray option"
            else None
        end
    | _ => Some ""
    end
  else None.

(** The invariant of the loop of [parseArrayToArray] at the CBOR index
    [i]: the target is still an array of the length and type it had, and
    the Go index is [i], or the length of the array once that is
    reached. *)
Definition arrayLoopInv (v0 : rvalue) (n : nat) (i : Z) (s : rvalue * nat * option error)
  : Prop :=
  let '(v, gi, _) := s in
  0 <= i
  /\ (exists l, rval v = VArray l /\ List.length l = n)
  /\ rtype v = rtype v0 /\ canSet v = canSet v0
  /\ gi = Nat.min (Z.to_nat i) n.

(** The invariant of the loop of [parseArrayToSlice]: the target is a
    slice of the same length, capacity and type. *)
Definition sliceLoopInv (t : gotype) (c n : nat) (s : rvalue * option error) : Prop :=
  (exists l, rval (fst s) = VSlice (Some (l, n)) /\ List.length l = c)
  /\ rtype (fst s) = t.

(** The target of [parseMapToMap] during and after the loop: a map that
    is not nil, of the type [t], with every key of [m0]. *)
Definition mapInv (t : gotype) (m0 : list (goval * goval)) (v : rvalue) : Prop :=
  exists m, rval v = VMap (Some m) /\ rtype v = t
            /\ forall k, mapHas m0 k = true -> mapHas m k = true.

(** What an integer key selects among the resolved fields, with the
    marks before and after. *)
Definition intKeySelection (fields : list field) (found : list bool) (n : Z)
    (r : option field * list bool) : Prop :=
  match r with
  | (Some fld, found') =>
      exists i,
        found' = setNth i true found /\ nth i found' false = true
        /\ firstUnmatched (intMatch n) fields found i fld
        /\ keyAsInt fld = true /\ nameAsInt fld = n
  | (None, found') => found' = found /\ noneUnmatched (intMatch n) fields found
  end.

(** ** Decoding options *)

(** [DecOptions]: the modes are the Go integers they are declared as
    ([ExtraReturnErrors] an unsigned one), [DefaultMapType] is nil or a
    type. *)
Record DecOptions : Type := MkDecOptions {
  DupMapKey : Z;
  TimeTag : Z;
  MaxNestedLevels : Z;
  MaxArrayElements : Z;
  MaxMapPairs : Z;
  IndefLength : Z;
  TagsMd : Z;
  IntDec : Z;
  MapKeyByteString : Z;
  ExtraReturnErrors : Z;
  DefaultMapType : option gotype
}.

(** The struct [decMode] as [DecOptions.decMode] fills it, with the modes
    as the integers of the options and no tags; the record [decMode]
    above is its reading by the decoder, which compares the modes with
    their constants. *)
Record decModeFields : Type := MkDecModeFields {
  fDupMapKey : Z;
  fTimeTag : Z;
  fMaxNestedLevels : Z;
  fMaxArrayElements : Z;
  fMaxMapPairs : Z;
  fIndefLength : Z;
  fTagsMd : Z;
  fIntDec : Z;
  fMapKeyByteString : Z;
  fExtraReturnErrors : Z;
  fDefaultMapType : option gotype
}.

Definition maxDupMapKeyMode : Z := 2.
Definition maxIndefLengthMode : Z := 2.
Definition maxTagsMode : Z := 2.
Definition maxIntDec : Z := 2.
Definition maxMapKeyByteString : Z := 2.
Definition maxExtraDecError : Z := 2.

Definition minMaxArrayElements : Z := 16.
Definition maxMaxArrayElements : Z := 2147483647.
Definition minMaxMapPairs : Z := 16.
Definition maxMaxMapPairs : Z := 2147483647.

(** The [valid] methods of the modes of decode.go: [m < max]. *)
Definition modeValid (max m : Z) : bool := m <? max.

(** The check of one limit: zero is replaced by the default, a value
    outside the range is an error. *)
Definition checkLimit (what : string) (x def lo hi : Z) (range : string) : error + Z :=
  if x =? 0 then inr def
  else if (x <? lo) || (hi <? x) then
    inl (errorString ("cbor: invalid " ++ what ++ " " ++ Zstr x ++ " (range is " ++ range ++ ")"))
  else inr x.

Definition invalidMode (what : string) (m : Z) : error :=
  errorString ("cbor: invalid " ++ what ++ " " ++ Zstr m).

(** [DecOptions.decMode].  [timeTagValid] is [DecTagMode.valid], a method
    declared with the tags. *)
Definition DecOptions_decMode (timeTagValid : Z -> bool) (opts : DecOptions)
  : error + decModeFields :=
  if negb (modeValid maxDupMapKeyMode (DupMapKey opts)) then
    inl (invalidMode "DupMapKey" (DupMapKey opts))
  else if negb (timeTagValid (TimeTag opts)) then
    inl (invalidMode "TimeTag" (TimeTag opts))
  else if negb (modeValid maxIndefLengthMode (IndefLength opts)) then
    inl (invalidMode "IndefLength" (IndefLength opts))
  else if negb (modeValid maxTagsMode (TagsMd opts)) then
    inl (invalidMode "TagsMd" (TagsMd opts))
  else if negb (modeValid maxIntDec (IntDec opts)) then
    inl (invalidMode "IntDec" (IntDec opts))
  else if negb (modeValid maxMapKeyByteString (MapKeyByteString opts)) then
    inl (invalidMode "MapKeyByteString" (MapKeyByteString opts))
  else
    match checkLimit "MaxNestedLevels" (MaxNestedLevels opts) 32 4 256 "[4, 256]" with
    | inl e => inl e
    | inr nested =>
        match checkLimit "MaxArrayElements" (MaxArrayElements opts) defaultMaxArrayElements
                minMaxArrayElements maxMaxArrayElements
                ("[" ++ Zstr minMaxArrayElements ++ ", " ++ Zstr maxMaxArrayElements ++ "]") with
        | inl e => inl e
        | inr elements =>
            match checkLimit "MaxMapPairs" (MaxMapPairs opts) defaultMaxMapPairs
                    minMaxMapPairs maxMaxMapPairs
                    ("[" ++ Zstr minMaxMapPairs ++ ", " ++ Zstr maxMaxMapPairs ++ "]") with
            | inl e => inl e
            | inr pairs =>
                if negb (modeValid maxExtraDecError (ExtraReturnErrors opts)) then
                  inl (invalidMode "ExtraReturnErrors" (ExtraReturnErrors opts))
                else
                  match DefaultMapType opts with
                  | Some t =>
                      if negb (Kind_eqb (kindOf t) KMap) then
                        inl (errorString ("cbor: invalid DefaultMapType " ++ typeString t))
                      else
                        inr (MkDecModeFields (DupMapKey opts) (TimeTag opts) nested elements
                               pairs (IndefLength opts) (TagsMd opts) (IntDec opts)
                               (MapKeyByteString opts) (ExtraReturnErrors opts) (Some t))
                  | None =>
                      inr (MkDecModeFields (DupMapKey opts) (TimeTag opts) nested elements
                             pairs (IndefLength opts) (TagsMd opts) (IntDec opts)
                             (MapKeyByteString opts) (ExtraReturnErrors opts) None)
                  end
            end
        end
    end.

(** [decMode.DecOptions]: the options a mode was made with.  It does not
    give [DefaultMapType] back. *)
Definition decMode_DecOptions (dm : decModeFields) : DecOptions :=
  {| DupMapKey := fDupMapKey dm;
     TimeTag := fTimeTag dm;
     MaxNestedLevels := fMaxNestedLevels dm;
     MaxArrayElements := fMaxArrayElements dm;
     MaxMapPairs := fMaxMapPairs dm;
     IndefLength := fIndefLength dm;
     TagsMd := fTagsMd dm;
     IntDec := fIntDec dm;
     MapKeyByteString := fMapKeyByteString dm;
     ExtraReturnErrors := fExtraReturnErrors dm;
     DefaultMapType := None |}.

(** ** Well-formed data items *)

(** The limits of a decoding mode made by [DecOptions.decMode]. *)
Definition limitsValid (m : decMode) : Prop :=
  4 <= maxNestedLevels m <= 256
  /\ 16 <= maxArrayElements m <= 2147483647
  /\ 16 <= maxMapPairs m <= 2147483647.

(** The head of a data item: the initial byte [b], which holds the major
    type [t] and the additional information [ai], and the argument bytes
    [args] that the additional information announces; the argument [val]
    is the additional information itself below 24 and the big-endian
    value of the argument bytes otherwise.  The additional information
    28 to 30 is reserved, and 31 is no head of this form. *)
Definition isHead (b : byte) (args : list byte) (t ai val : Z) : Prop :=
  t = Z.land (u8 b) 0xe0 /\ ai = Z.land (u8 b) 0x1f /\ ai < 28
  /\ Z.of_nat (List.length args) = argBytes ai
  /\ val = (if ai <? 24 then ai else bigEndian args).

(** The initial byte of an item of indefinite length of major type [t]. *)
Definition isIndefinite (b : byte) (t : Z) : Prop :=
  t = Z.land (u8 b) 0xe0 /\ Z.land (u8 b) 0x1f = 31.

Definition breakCode : byte := byteOfZ 0xff.

(** A chunk of a string of indefinite length of major type [t]: a string
    of that type of definite length. *)
Definition isChunk (t : Z) (c : list byte) : Prop :=
  exists b args ai val payload,
    c = b :: args ++ payload /\ isHead b args t ai val
    /\ Z.of_nat (List.length payload) = val.

(** [wellFormed m depth bs]: the bytes [bs] are one data item, complete
    and well-formed, that stays within the limits of the mode [m] when it
    stands at the nesting level [depth]: an integer, a simple value or a
    float (a simple value in one argument byte is at least 32); a string
    with its bytes; a string of indefinite length, chunks of its type up
    to the break; an array of as many items as its argument says, a map
    of twice as many; an array or a map of indefinite length, items up to
    the break, an even number for a map; a tag with its content.  Arrays,
    maps and tags stand one level deeper than the item around them and no
    deeper than [maxNestedLevels]; an array has at most
    [maxArrayElements] items, a map at most [maxMapPairs] pairs;
    indefinite lengths and tags must be allowed by the mode. *)
Inductive wellFormed (m : decMode) : Z -> list byte -> Prop :=
| wf_scalar (depth : Z) (b : byte) (args : list byte) (t ai val : Z) :
    isHead b args t ai val ->
    t = cborTypePositiveInt \/ t = cborTypeNegativeInt \/ t = cborTypePrimitives ->
    ~ (t = cborTypePrimitives /\ ai = 24 /\ val < 32) ->
    wellFormed m depth (b :: args)
| wf_string (depth : Z) (b : byte) (args : list byte) (t ai val : Z) (payload : list byte) :
    isHead b args t ai val ->
    t = cborTypeByteString \/ t = cborTypeTextString ->
    Z.of_nat (List.length payload) = val ->
    wellFormed m depth (b :: args ++ payload)
| wf_chunks (depth : Z) (b : byte) (t : Z) (chunks : list (list byte)) :
    isIndefinite b t ->
    t = cborTypeByteString \/ t = cborTypeTextString ->
    indefLength m = IndefLengthAllowed ->
    Forall (isChunk t) chunks ->
    wellFormed m depth (b :: List.concat chunks ++ [breakCode])
| wf_array (depth : Z) (b : byte) (args : list byte) (ai val : Z)
    (items : list (list byte)) :
    isHead b args cborTypeArray ai val ->
    depth + 1 <= maxNestedLevels m ->
    Z.of_nat (List.length items) = val -> val <= maxArrayElements m ->
    Forall (wellFormed m (depth + 1)) items ->
    wellFormed m depth (b :: args ++ List.concat items)
| wf_map (depth : Z) (b : byte) (args : list byte) (ai val : Z)
    (items : list (list byte)) :
    isHead b args cborTypeMap ai val ->
    depth + 1 <= maxNestedLevels m ->
    Z.of_nat (List.length items) = 2 * val -> val <= maxMapPairs m ->
    Forall (wellFormed m (depth + 1)) items ->
    wellFormed m depth (b :: args ++ List.concat items)
| wf_array_indef (depth : Z) (b : byte) (items : list (list byte)) :
    isIndefinite b cborTypeArray ->
    indefLength m = IndefLengthAllowed ->
    depth + 1 <= maxNestedLevels m ->
    Z.of_nat (List.length items) <= maxArrayElements m ->
    Forall (wellFormed m (depth + 1)) items ->
    wellFormed m depth (b :: List.concat items ++ [breakCode])
| wf_map_indef (depth : Z) (b : byte) (pairs : Z) (items : list (list byte)) :
    isIndefinite b cborTypeMap ->
    indefLength m = IndefLengthAllowed ->
    depth + 1 <= maxNestedLevels m ->
    Z.of_nat (List.length items) = 2 * pairs -> pairs <= maxMapPairs m ->
    Forall (wellFormed m (depth + 1)) items ->
    wellFormed m depth (b :: List.concat items ++ [breakCode])
| wf_tag (depth : Z) (b : byte) (args : list byte) (ai val : Z) (content : list byte) :
    isHead b args cborTypeTag ai val ->
    tagsMd m = TagsAllowed ->
    depth + 1 <= maxNestedLevels m ->
    wellFormed m (depth + 1) content ->
    wellFormed m depth (b :: args ++ content).

(** The bytes of [bs] from the offset [o] up to the offset [o']. *)
Definition slice (bs : list byte) (o o' : Z) : list byte :=
  firstn (Z.to_nat (o' - o)) (skipn (Z.to_nat o) bs).

(** * Properties *)

(** ** The definitions at work *)

Example float16_1_5 : convertF binary16 binary64 0x3e00 = 0x3FF8000000000000.
Proof. reflexivity. Qed.

Example float64_to_32 : convertF binary64 binary32 0x3FF8000000000000 = 0x3FC00000.
Proof. reflexivity. Qed.

Example float64_of_big : float64OfUint (2 ^ 64 - 1) = 0x43F0000000000000.
Proof. reflexivity. Qed.

Example float16_subnormal : convertF binary16 binary64 0x0001 = 0x3E70000000000000.
Proof. reflexivity. Qed.

Example float64_of_neg : float64OfInt (-3) = 0xC008000000000000.
Proof. reflexivity. Qed.

Example skip_nested :
  skip 10 (newDecoder (hexDecode "8301820203820405ff") defaultDecMode)
  = Done (tt, setOff (newDecoder (hexDecode "8301820203820405ff") defaultDecMode) 8).
Proof. reflexivity. Qed.

Example getHead_uint16 :
  getHead (newDecoder (hexDecode "190100") defaultDecMode)
  = Done ((0, 25, 256), setOff (newDecoder (hexDecode "190100") defaultDecMode) 3).
Proof. reflexivity. Qed.

Example numOfItems_indef :
  numOfItemsUntilBreak 10 (setOff (newDecoder (hexDecode "9f018202039f0405ffff") defaultDecMode) 1)
  = Done (3, setOff (newDecoder (hexDecode "9f018202039f0405ffff") defaultDecMode) 1).
Proof. reflexivity. Qed.

Example valid_ok :
  valid 10 (newDecoder (hexDecode "8301820203820405") defaultDecMode)
  = Done (None, setOff (newDecoder (hexDecode "8301820203820405") defaultDecMode) 8).
Proof. reflexivity. Qed.

Example valid_truncated :
  valid 10 (newDecoder (hexDecode "83018202") defaultDecMode)
  = Done (Some errUnexpectedEOF, setOff (newDecoder (hexDecode "83018202") defaultDecMode) 4).
Proof. reflexivity. Qed.

Example valid_unterminated :
  valid 10 (newDecoder (hexDecode "9f0102") defaultDecMode)
  = Done (Some errUnexpectedEOF, setOff (newDecoder (hexDecode "9f0102") defaultDecMode) 3).
Proof. reflexivity. Qed.

Example valid_nesting :
  valid 10 (newDecoder (hexDecode "8181818181") 
              {| tags := None; dupMapKey := DupMapKeyQuiet; timeTag := DecTagIgnored;
                 maxNestedLevels := 4; maxArrayElements := defaultMaxArrayElements;
                 maxMapPairs := defaultMaxMapPairs; indefLength := IndefLengthAllowed;
                 tagsMd := TagsAllowed; intDec := IntDecConvertNone;
                 mapKeyByteString := MapKeyByteStringFail;
                 extraReturnErrors := ExtraDecErrorNone; defaultMapType := None |})
  = Done (Some (errorString "cbor: exceeded max nested level 4"),
          setOff (newDecoder (hexDecode "8181818181")
              {| tags := None; dupMapKey := DupMapKeyQuiet; timeTag := DecTagIgnored;
                 maxNestedLevels := 4; maxArrayElements := defaultMaxArrayElements;
                 maxMapPairs := defaultMaxMapPairs; indefLength := IndefLengthAllowed;
                 tagsMd := TagsAllowed; intDec := IntDecConvertNone;
                 mapKeyByteString := MapKeyByteStringFail;
                 extraReturnErrors := ExtraDecErrorNone; defaultMapType := None |}) 5).
Proof. reflexivity. Qed.

Example unmarshal_struct :
  unmarshalInto defaultDecMode "a26161016142626869" structAB (zeroValue structAB)
  = Done (Some (TPtr structAB, VPtr (Some (VStruct [VInt 1; VString "hi"]))), None).
Proof. vm_compute. reflexivity. Qed.

Example unmarshal_slice :
  unmarshalInto defaultDecMode "83010203" (TSlice tInt) (VSlice None)
  = Done (Some (TPtr (TSlice tInt),
                VPtr (Some (VSlice (Some ([VInt 1; VInt 2; VInt 3], 3%nat))))), None).
Proof. vm_compute. reflexivity. Qed.

Example unmarshal_truncated :
  unmarshalInto defaultDecMode "830102" (TSlice tInt) (VSlice None)
  = Done (Some (TPtr (TSlice tInt), VPtr (Some (VSlice None))), Some errUnexpectedEOF).
Proof. vm_compute. reflexivity. Qed.

(** ** Laws of the decoder primitives *)

Lemma u8_byteOfZ (z : Z) : u8 (byteOfZ z) = z mod 256.
Proof.
  unfold u8, byteOfZ.
  assert (H : 0 <= z mod 256 < 256) by (apply Z.mod_pos_bound; lia).
  destruct (Byte.of_N (Z.to_N (z mod 256))) as [b|] eqn:E.
  - apply Byte.to_of_N in E. rewrite E. rewrite Z2N.id; lia.
  - apply Byte.of_N_None_iff in E. lia.
Qed.

Lemma u8_range (b : byte) : 0 <= u8 b < 256.
Proof.
  unfold u8. pose proof (Byte.to_N_bounded b). lia.
Qed.

Lemma byteAt_inv (i : Z) (d d' : decoder) (b : Z) :
  byteAt i d = Done (b, d') -> d' = d /\ 0 <= b < 256.
Proof.
  unfold byteAt. destruct (i <? 0); [discriminate|].
  destruct (nth_error (data d) (Z.to_nat i)); [|discriminate].
  intros H. inversion H; subst. split; [reflexivity | apply u8_range].
Qed.

Lemma bytesAt_inv (i j : Z) (d d' : decoder) (bs : list byte) :
  bytesAt i j d = Done (bs, d') -> d' = d.
Proof.
  unfold bytesAt.
  destruct ((i <? 0) || (j <? i) || (Z.of_nat (List.length (data d)) <? j)); [discriminate|].
  intros H. inversion H; reflexivity.
Qed.

Lemma byteAt_nth (d : decoder) (i : Z) (b : byte) :
  0 <= i -> nth_error (data d) (Z.to_nat i) = Some b -> byteAt i d = Done (u8 b, d).
Proof.
  intros Hi Hn. unfold byteAt. destruct (Z.ltb_spec i 0); [lia|]. rewrite Hn. reflexivity.
Qed.

Lemma byteAt_setOff (i o : Z) (d : decoder) :
  byteAt i (setOff d o)
  = match byteAt i d with
    | Done (b, _) => Done (b, setOff d o)
    | Panic => Panic
    | OutOfFuel => OutOfFuel
    end.
Proof.
  unfold byteAt. cbn [setOff data]. destruct (i <? 0); [reflexivity|].
  destruct (nth_error (data d) (Z.to_nat i)); reflexivity.
Qed.

(** [getHead] in one piece: the initial byte, then the argument. *)
Lemma getHead_eq (d : decoder) :
  getHead d =
  match byteAt (off d) d with
  | Done (b, _) =>
      let t := Z.land b 0xe0 in
      let ai := Z.land b 0x1f in
      let d1 := setOff d (off d + 1) in
      if ai <? 24 then Done ((t, ai, ai), d1)
      else if ai =? 24 then
        match byteAt (off d + 1) d1 with
        | Done (v, _) => Done ((t, ai, v), setOff d (off d + 1 + 1))
        | Panic => Panic
        | OutOfFuel => OutOfFuel
        end
      else
        let arg (w : Z) :=
          match bytesAt (off d + 1) (off d + 1 + w) d1 with
          | Done (bs, _) => Done ((t, ai, bigEndian bs), setOff d (off d + 1 + w))
          | Panic => Panic
          | OutOfFuel => OutOfFuel
          end in
        if ai =? 25 then arg 2
        else if ai =? 26 then arg 4
        else if ai =? 27 then arg 8
        else Done ((t, ai, ai), d1)
  | Panic => Panic
  | OutOfFuel => OutOfFuel
  end.
Proof.
  unfold getHead, bind, getOff, putOff, ret.
  destruct (byteAt (off d) d) as [[b d']| |] eqn:E; [|reflexivity|reflexivity].
  apply byteAt_inv in E as [-> _]. cbn [off setOff data dm].
  destruct (Z.land b 31 <? 24); [reflexivity|].
  destruct (Z.land b 31 =? 24).
  { destruct (byteAt (off d + 1) (setOff d (off d + 1))) as [[v d']| |] eqn:E;
      [|reflexivity|reflexivity].
    apply byteAt_inv in E as [-> _]. reflexivity. }
  cbv zeta.
  destruct (Z.land b 31 =? 25).
  { destruct (bytesAt _ _ _) as [[v d']| |] eqn:E; [|reflexivity|reflexivity].
    apply bytesAt_inv in E as ->. reflexivity. }
  destruct (Z.land b 31 =? 26).
  { destruct (bytesAt _ _ _) as [[v d']| |] eqn:E; [|reflexivity|reflexivity].
    apply bytesAt_inv in E as ->. reflexivity. }
  destruct (Z.land b 31 =? 27).
  { destruct (bytesAt _ _ _) as [[v d']| |] eqn:E; [|reflexivity|reflexivity].
    apply bytesAt_inv in E as ->. reflexivity. }
  reflexivity.
Qed.

(** ** Properties of the header encoding *)

Lemma length_putUint (w : nat) (n : Z) : List.length (putUint w n) = w.
Proof. induction w; simpl; congruence. Qed.

Lemma fold_putUint (w : nat) (n acc : Z) :
  0 <= n ->
  fold_left (fun a b => a * 256 + u8 b) (putUint w n) acc
  = acc * 256 ^ Z.of_nat w + n mod 256 ^ Z.of_nat w.
Proof.
  intros Hn. revert acc. induction w as [|w IH]; intros acc.
  - simpl. rewrite Z.mod_1_r. lia.
  - cbn [putUint fold_left]. rewrite IH, u8_byteOfZ.
    rewrite Z.shiftr_div_pow2 by lia.
    replace (2 ^ (8 * Z.of_nat w)) with (256 ^ Z.of_nat w)
      by (rewrite Z.pow_mul_r by lia; reflexivity).
    rewrite Nat2Z.inj_succ, Z.pow_succ_r by lia.
    assert (Hp : 0 < 256 ^ Z.of_nat w) by (apply Z.pow_pos_nonneg; lia).
    rewrite (Z.mul_comm 256 (256 ^ Z.of_nat w)).
    rewrite (Z.rem_mul_r n (256 ^ Z.of_nat w) 256) by lia.
    ring.
Qed.

Lemma bigEndian_putUint (w : nat) (n : Z) :
  0 <= n < 256 ^ Z.of_nat w -> bigEndian (putUint w n) = n.
Proof.
  intros H. unfold bigEndian. rewrite fold_putUint by lia.
  rewrite Z.mod_small by lia. lia.
Qed.

Lemma encodeHead_oracle (t n : Z) :
  0 <= n < 2 ^ 64 -> encodeHead t n = encodeCborHeader t n.
Proof.
  intros H. unfold encodeHead, encodeCborHeader, headForms.
  cbn [find snd].
  change (represents 0 n) with (n <=? 23).
  change (represents 1 n) with (n <? 256).
  change (represents 2 n) with (n <? 65536).
  change (represents 4 n) with (n <? 4294967296).
  change (represents 8 n) with (n <? 18446744073709551616).
  change (2 ^ 64) with 18446744073709551616 in H.
  destruct (Z.leb_spec n 23); [reflexivity|].
  destruct (Z.leb_spec n 255); destruct (Z.ltb_spec n 256); try lia; [reflexivity|].
  destruct (Z.leb_spec n 65535); destruct (Z.ltb_spec n 65536); try lia; [reflexivity|].
  destruct (Z.leb_spec n 4294967295); destruct (Z.ltb_spec n 4294967296); try lia;
    [reflexivity|].
  destruct (Z.ltb_spec n 18446744073709551616); try lia. reflexivity.
Qed.

Lemma encodeHead_width (t n : Z) :
  0 <= n < 2 ^ 64 ->
  exists w, In w headWidths /\ represents w n = true
            /\ List.length (encodeHead t n) = Datatypes.S w
            /\ forall w', In w' headWidths -> represents w' n = true -> (w <= w')%nat.
Proof.
  intros H. unfold encodeHead, headForms.
  destruct (represents 0 n) eqn:E0.
  { exists O. split; [simpl; auto|]. split; [assumption|]. split; [reflexivity|].
    intros; lia. }
  cbn [find snd].
  destruct (represents 1 n) eqn:E1.
  { exists 1%nat. split; [simpl; auto 6|]. split; [assumption|].
    split; [simpl; rewrite ?length_putUint; reflexivity|].
    intros w' Hw Hr. simpl in Hw. intuition (subst; try lia; congruence). }
  destruct (represents 2 n) eqn:E2.
  { exists 2%nat. split; [simpl; auto 6|]. split; [assumption|].
    split; [simpl; rewrite ?length_putUint; reflexivity|].
    intros w' Hw Hr. simpl in Hw. intuition (subst; try lia; congruence). }
  destruct (represents 4 n) eqn:E4.
  { exists 4%nat. split; [simpl; auto 6|]. split; [assumption|].
    split; [simpl; rewrite ?length_putUint; reflexivity|].
    intros w' Hw Hr. simpl in Hw. intuition (subst; try lia; congruence). }
  destruct (represents 8 n) eqn:E8.
  { exists 8%nat. split; [simpl; auto 6|]. split; [assumption|].
    split; [simpl; rewrite ?length_putUint; reflexivity|].
    intros w' Hw Hr. simpl in Hw. intuition (subst; try lia; congruence). }
  exfalso. unfold represents in E8.
  change (2 ^ (8 * Z.of_nat 8)) with (2 ^ 64) in E8.
  apply Z.ltb_ge in E8. lia.
Qed.

Lemma bytesAt_mid (d : decoder) (pre mid rest : list byte) (i j : Z) :
  data d = pre ++ mid ++ rest ->
  i = Z.of_nat (List.length pre) ->
  j = i + Z.of_nat (List.length mid) ->
  bytesAt i j d = Done (mid, d).
Proof.
  intros Hd Hi Hj. unfold bytesAt. rewrite Hd.
  rewrite !length_app.
  replace ((i <? 0) || (j <? i) || (Z.of_nat (List.length pre + (List.length mid + List.length rest)) <? j))
    with false.
  2:{ symmetry. rewrite !orb_false_iff. repeat split; apply Z.ltb_ge; lia. }
  replace (Z.to_nat (j - i)) with (List.length mid) by lia.
  replace (Z.to_nat i) with (List.length pre) by lia.
  rewrite skipn_app, skipn_all, Nat.sub_diag. simpl.
  rewrite firstn_app, firstn_all, Nat.sub_diag. simpl. rewrite app_nil_r. reflexivity.
Qed.

Lemma head_byte (t ai : Z) :
  In t majorTypes -> 0 <= ai < 32 ->
  Z.land (u8 (byteOfZ (Z.lor t ai))) 0xe0 = t
  /\ Z.land (u8 (byteOfZ (Z.lor t ai))) 0x1f = ai.
Proof.
  intros Ht Hai. rewrite u8_byteOfZ.
  assert (Hc : In ai (map Z.of_nat (seq 0 32))).
  { apply in_map_iff. exists (Z.to_nat ai). split; [lia|]. apply in_seq. lia. }
  clear Hai. simpl in Ht, Hc.
  repeat (destruct Ht as [Ht|Ht]; [subst t|]); try contradiction;
    repeat (destruct Hc as [Hc|Hc]; [subst ai; split; reflexivity|]); contradiction.
Qed.

(** [getHead] reads back the major type and the argument of a header. *)
Lemma getHead_encodeHead (t n : Z) (rest : list byte) (m : decMode) :
  In t majorTypes -> 0 <= n < 2 ^ 64 ->
  exists ai,
    getHead (newDecoder (encodeHead t n ++ rest) m)
    = Done ((t, ai, n),
            setOff (newDecoder (encodeHead t n ++ rest) m)
              (Z.of_nat (List.length (encodeHead t n)))).
Proof.
  intros Ht Hn. unfold encodeHead, headForms.
  destruct (represents 0 n) eqn:E0.
  { change (represents 0 n) with (n <=? 23) in E0. apply Z.leb_le in E0.
    exists n. destruct (head_byte Ht (ai := n)) as [H1 H2]; [lia|].
    rewrite getHead_eq. cbn [newDecoder off data app].
    rewrite byteAt_nth with (b := byteOfZ (Z.lor t n)) by (try reflexivity; lia).
    cbv zeta. rewrite H1, H2.
    destruct (Z.ltb_spec n 24); [reflexivity | lia]. }
  cbn [find snd].
  assert (W : forall ai w, In (ai, w) headForms -> represents w n = true ->
            getHead (newDecoder ((byteOfZ (Z.lor t ai) :: putUint w n) ++ rest) m)
            = Done ((t, ai, n),
                    setOff (newDecoder ((byteOfZ (Z.lor t ai) :: putUint w n) ++ rest) m)
                      (Z.of_nat (List.length (byteOfZ (Z.lor t ai) :: putUint w n))))).
  { intros ai w Hin Hr.
    assert (Hai : 0 <= ai < 32).
    { pose proof Hin as Hin'. simpl in Hin'.
      destruct Hin' as [Hi|[Hi|[Hi|[Hi|[]]]]]; inversion Hi; subst; lia. }
    destruct (head_byte Ht Hai) as [H1 H2].
    set (bs := (byteOfZ (Z.lor t ai) :: putUint w n) ++ rest).
    assert (Hb : bytesAt (0 + 1) (0 + 1 + Z.of_nat w) (setOff (newDecoder bs m) (0 + 1))
                 = Done (putUint w n, setOff (newDecoder bs m) (0 + 1))).
    { apply bytesAt_mid with (pre := [byteOfZ (Z.lor t ai)]) (rest := rest);
        [reflexivity | reflexivity | rewrite length_putUint; reflexivity]. }
    assert (Hv : bigEndian (putUint w n) = n).
    { apply bigEndian_putUint. split; [lia|].
      pose proof Hin as Hin'. simpl in Hin'. unfold represents in Hr.
      replace (256 ^ Z.of_nat w) with (2 ^ (8 * Z.of_nat w))
        by (rewrite Z.pow_mul_r by lia; reflexivity).
      destruct Hin' as [Hi|[Hi|[Hi|[Hi|[]]]]]; inversion Hi; subst;
        apply Z.ltb_lt in Hr; exact Hr. }
    rewrite getHead_eq. cbn [newDecoder off].
    rewrite byteAt_nth with (b := byteOfZ (Z.lor t ai)) by (try reflexivity; lia).
    cbv zeta. rewrite H1, H2.
    cbn [List.length]. rewrite length_putUint.
    simpl in Hin.
    destruct Hin as [Hin|[Hin|[Hin|[Hin|[]]]]]; inversion Hin; subst ai w;
      cbn [Z.ltb Z.eqb Z.compare Pos.compare Pos.compare_cont Pos.eqb].
    - rewrite byteAt_nth with (b := byteOfZ (Z.shiftr n (8 * Z.of_nat 0)))
        by (try reflexivity; lia).
      rewrite u8_byteOfZ. change (8 * Z.of_nat 0) with 0. rewrite Z.shiftr_0_r.
      unfold represents in Hr. change (2 ^ (8 * Z.of_nat 1)) with 256 in Hr.
      apply Z.ltb_lt in Hr. rewrite Z.mod_small by lia. reflexivity.
    - change (Z.of_nat 2) with 2 in Hb. rewrite Hb, Hv. reflexivity.
    - change (Z.of_nat 4) with 4 in Hb. rewrite Hb, Hv. reflexivity.
    - change (Z.of_nat 8) with 8 in Hb. rewrite Hb, Hv. reflexivity. }
  destruct (represents 1 n) eqn:E1; [eexists; apply W; simpl; auto|].
  destruct (represents 2 n) eqn:E2; [eexists; apply W; simpl; auto|].
  destruct (represents 4 n) eqn:E4; [eexists; apply W; simpl; auto|].
  destruct (represents 8 n) eqn:E8; [eexists; apply W; simpl; auto 6|].
  exfalso. unfold represents in E8.
  change (2 ^ (8 * Z.of_nat 8)) with (2 ^ 64) in E8.
  apply Z.ltb_ge in E8. lia.
Qed.

(** C9.  For every integer value and every length (an argument [n] of a
    header of major type [t]) the encoder emits the header of minimal
    width that represents the value: the header is the one the tests
    expect ([encodeCborHeader]); its width is the least of the widths CBOR
    offers that represents [n]; the decoder's [getHead] reads [t] and [n]
    back from it; and 23, 24, 256 and 65536 encode to [17], [1818],
    [190100] and [1a00010000]. *)
Theorem encodeHead_minimal (t n : Z) (rest : list byte) (m : decMode) :
  In t majorTypes -> 0 <= n < 2 ^ 64 ->
  encodeHead t n = encodeCborHeader t n
  /\ (exists w, In w headWidths /\ represents w n = true
                /\ List.length (encodeHead t n) = Datatypes.S w
                /\ forall w', In w' headWidths -> represents w' n = true -> (w <= w')%nat)
  /\ (exists ai,
         getHead (newDecoder (encodeHead t n ++ rest) m)
         = Done ((t, ai, n),
                 setOff (newDecoder (encodeHead t n ++ rest) m)
                   (Z.of_nat (List.length (encodeHead t n)))))
  /\ encodeInt 23 = hexDecode "17"
  /\ encodeInt 24 = hexDecode "1818"
  /\ encodeInt 256 = hexDecode "190100"
  /\ encodeInt 65536 = hexDecode "1a00010000".
Proof.
  intros Ht Hn.
  split; [apply encodeHead_oracle; exact Hn|].
  split; [apply encodeHead_width; exact Hn|].
  split; [apply getHead_encodeHead; assumption|].
  repeat split; reflexivity.
Qed.

Lemma encodeHead_minimal_witness :
  In cborTypeArray majorTypes /\ 0 <= 256 < 2 ^ 64
  /\ encodeHead cborTypeArray 256 = encodeCborHeader cborTypeArray 256.
Proof.
  assert (Ht : In cborTypeArray majorTypes) by (simpl; auto 6).
  assert (Hn : 0 <= 256 < 2 ^ 64) by (split; [discriminate | reflexivity]).
  split; [exact Ht|]. split; [exact Hn|].
  exact (proj1 (encodeHead_minimal (t := cborTypeArray) (n := 256) [] defaultDecMode Ht Hn)).
Defined.

(** ** Matching of map keys to struct fields *)

Lemma exactMatch_eq (key : string) (fld : field) :
  exactMatch key fld = true <-> name fld = key.
Proof.
  unfold exactMatch. rewrite andb_true_iff, String.eqb_eq, Nat.eqb_eq.
  split; [tauto|]. intros <-. auto.
Qed.

Lemma findFld_Some (cond : field -> bool) (fields : list field) (found : list bool)
    (k i : nat) (fld : field) :
  findFld cond fields found k = Some (i, fld) ->
  (k <= i)%nat /\ nth_error fields (i - k) = Some fld
  /\ nth i found false = false /\ cond fld = true
  /\ forall j fld', (j < i - k)%nat -> nth_error fields j = Some fld' ->
                    nth (k + j) found false = false -> cond fld' = false.
Proof.
  revert k. induction fields as [|a rest IH]; intros k H; [discriminate|].
  cbn [findFld] in H.
  destruct (negb (nth k found false) && cond a) eqn:E.
  - inversion H; subst. apply andb_true_iff in E as [E1 E2].
    apply negb_true_iff in E1. rewrite Nat.sub_diag.
    repeat split; auto. intros j fld' Hj. lia.
  - apply IH in H as (Hk & Hn & Hf & Hc & Hall).
    split; [lia|]. split.
    { replace (i - k)%nat with (Datatypes.S (i - Datatypes.S k)) by lia. exact Hn. }
    split; [exact Hf|]. split; [exact Hc|].
    intros j fld' Hj Hnth Hu. destruct j as [|j].
    + simpl in Hnth. inversion Hnth; subst fld'. rewrite Nat.add_0_r in Hu.
      rewrite Hu in E. simpl in E. exact E.
    + simpl in Hnth. apply (Hall j fld'); [lia | exact Hnth |].
      replace (Datatypes.S k + j)%nat with (k + Datatypes.S j)%nat by lia. exact Hu.
Qed.

Lemma findFld_None (cond : field -> bool) (fields : list field) (found : list bool)
    (k : nat) :
  findFld cond fields found k = None ->
  forall j fld', nth_error fields j = Some fld' ->
                 nth (k + j) found false = false -> cond fld' = false.
Proof.
  revert k. induction fields as [|a rest IH]; intros k H j fld' Hnth Hu.
  - destruct j; discriminate.
  - cbn [findFld] in H.
    destruct (negb (nth k found false) && cond a) eqn:E; [discriminate|].
    destruct j as [|j].
    + simpl in Hnth. inversion Hnth; subst fld'. rewrite Nat.add_0_r in Hu.
      rewrite Hu in E. simpl in E. exact E.
    + simpl in Hnth. eapply (IH (Datatypes.S k) H); [exact Hnth|].
      replace (Datatypes.S k + j)%nat with (k + Datatypes.S j)%nat by lia. exact Hu.
Qed.

Lemma nth_setNth (i : nat) (l : list bool) :
  (i < List.length l)%nat -> nth i (setNth i true l) false = true.
Proof.
  revert i. induction l as [|a l IH]; intros i H; [simpl in H; lia|].
  destruct i; simpl; [reflexivity|]. apply IH. simpl in H. lia.
Qed.

Lemma findFld_first (cond : field -> bool) (fields : list field) (found : list bool) :
  match findFld cond fields found O with
  | Some (i, fld) => firstUnmatched cond fields found i fld
  | None => noneUnmatched cond fields found
  end.
Proof.
  destruct (findFld cond fields found O) as [[i fld]|] eqn:E.
  - apply findFld_Some in E as (_ & Hn & Hf & Hc & Hall).
    rewrite Nat.sub_0_r in Hn, Hall. repeat split; auto.
  - intros j fld' Hn Hu. eapply findFld_None; eauto.
Qed.






Lemma foldMatch_eq (lib : golib) (key : string) (fld : field) :
  foldMatch lib key fld = true <-> sameNameFolded lib key fld.
Proof.
  unfold foldMatch, sameNameFolded. rewrite andb_true_iff, Nat.eqb_eq. tauto.
Qed.


(** The round of [parseMapToStruct] at a text-string key of valid UTF-8
    reads the key and selects its field with [matchTextKey]. *)
Lemma parseStructKey_text (lib : golib) (f : nat) (R : Rec) (fields : list field)
    (s : mapToStructState) (d d1 : decoder) (keyBytes : list byte) :
  nextCBORType d = Done (cborTypeTextString, d) ->
  parseTextString f d = Done ((keyBytes, None), d1) ->
  parseStructKey lib f R fields s d
  = Done (inr (fst (matchTextKey lib fields (msFound s) (string_of_list_byte keyBytes)),
               match dupMapKey (dm d) with
               | DupMapKeyEnforcedAPF =>
                   Some (typeString_, VString (string_of_list_byte keyBytes))
               | DupMapKeyQuiet => None
               end,
               snd (matchTextKey lib fields (msFound s) (string_of_list_byte keyBytes)),
               msErr s), d1).
Proof.
  intros Hn Hp. unfold parseStructKey. unfold bind at 1. unfold getDm. unfold bind at 1.
  rewrite Hn. change (cborTypeTextString =? cborTypeTextString) with true. cbv iota.
  unfold bind at 1. rewrite Hp.
  destruct (matchTextKey lib fields (msFound s) (string_of_list_byte keyBytes)) as [fo found'].
  cbn [fst snd]. unfold ret. destruct (dupMapKey (dm d)); reflexivity.
Qed.



(** The exact pass comes first: the key [A] selects the field [A] and
    not the field [a] declared before it; and a key is matched without
    regard to case only when no free field has its name. *)
Example exact_before_folded :
  let fields := [Field "a" 0 false [O] tInt; Field "A" 0 false [1%nat] tInt] in
  matchTextKey asciiLib fields [false; false] "A" = (Some (Field "A" 0 false [1%nat] tInt), [false; true])
  /\ matchTextKey asciiLib fields [false; true] "A" = (Some (Field "a" 0 false [O] tInt), [true; true])
  /\ matchTextKey asciiLib fields [true; true] "A" = (None, [true; true]).
Proof. repeat split. Qed.

Lemma nextCBORType_next (d : decoder) (b : Z) :
  nextByte d b -> nextCBORType d = Done (Z.land b 0xe0, d).
Proof. intros H. unfold nextCBORType, bind, getOff, ret. rewrite H. reflexivity. Qed.

Lemma nextCBORNil_next (d : decoder) (b : Z) :
  nextByte d b -> nextCBORNil d = Done ((b =? 0xf6) || (b =? 0xf7), d).
Proof. intros H. unfold nextCBORNil, bind, getOff, ret. rewrite H. reflexivity. Qed.

Lemma nextCBORNil_inv (d d' : decoder) (r : bool) :
  nextCBORNil d = Done (r, d') ->
  d' = d /\ exists b, nextByte d b /\ r = ((b =? 0xf6) || (b =? 0xf7)).
Proof.
  unfold nextCBORNil, bind, getOff, ret.
  destruct (byteAt (off d) d) as [[b d1]| |] eqn:E; [|discriminate|discriminate].
  apply byteAt_inv in E as E'. destruct E' as [-> _].
  intros H. inversion H; subst. split; [reflexivity|]. exists b. split; [exact E | reflexivity].
Qed.

Lemma nextCBORType_inv (d d' : decoder) (t : Z) :
  nextCBORType d = Done (t, d') ->
  d' = d /\ exists b, nextByte d b /\ t = Z.land b 0xe0.
Proof.
  unfold nextCBORType, bind, getOff, ret.
  destruct (byteAt (off d) d) as [[b d1]| |] eqn:E; [|discriminate|discriminate].
  apply byteAt_inv in E as E'. destruct E' as [-> _].
  intros H. inversion H; subst. split; [reflexivity|]. exists b. split; [exact E | reflexivity].
Qed.

Lemma nextByte_range (d : decoder) (b : Z) : nextByte d b -> 0 <= b < 256.
Proof. intros H. apply byteAt_inv in H. tauto. Qed.

Lemma getHead_next (d : decoder) (b : Z) :
  nextByte d b -> Z.land b 0x1f < 24 ->
  getHead d = Done ((Z.land b 0xe0, Z.land b 0x1f, Z.land b 0x1f), setOff d (off d + 1)).
Proof.
  intros H Hai. rewrite getHead_eq. rewrite H. cbv zeta.
  destruct (Z.ltb_spec (Z.land b 31) 24); [reflexivity | lia].
Qed.

(** A loop whose condition fails at once, and a loop that enters its
    body. *)
Lemma forLoop_stop {S R : Type} (n : nat) (cond : Z -> S -> M bool)
    (body : Z -> S -> M (S + R)) (i : Z) (s : S) (d d' : decoder) :
  cond i s d = Done (false, d') -> forLoop n cond body i s d = Done (inl s, d').
Proof. intros H. destruct n; simpl; unfold bind; rewrite H; reflexivity. Qed.

Lemma forLoop_step {S R : Type} (n : nat) (cond : Z -> S -> M bool)
    (body : Z -> S -> M (S + R)) (i : Z) (s : S) (d d' : decoder) :
  cond i s d = Done (true, d') ->
  forLoop (Datatypes.S n) cond body i s d
  = bind (body i s)
      (fun r => match r with
                | inl s' => forLoop n cond body (i + 1) s'
                | inr x => ret (inr x)
                end) d'.
Proof. intros H. simpl. unfold bind at 1. rewrite H. reflexivity. Qed.

(** The head of an item that is not a tag leaves the tag-handling steps
    of the decoder without effect. *)
Lemma stripSelfDescribed_notag (f : nat) (d : decoder) (b : Z) :
  nextByte d b -> Z.land b 0xe0 <> cborTypeTag -> stripSelfDescribed f d = Done (tt, d).
Proof.
  intros H Ht. unfold stripSelfDescribed. unfold bind at 1.
  rewrite forLoop_stop with (d' := d); [reflexivity|].
  unfold bind. rewrite (nextCBORType_next H). unfold ret.
  apply Z.eqb_neq in Ht. rewrite Ht. reflexivity.
Qed.

Lemma checkBuiltinTag_notag (f : nat) (d : decoder) (b : Z) :
  nextByte d b -> Z.land b 0xe0 <> cborTypeTag -> checkBuiltinTag f d = Done (None, d).
Proof.
  intros H Ht. unfold checkBuiltinTag. unfold bind at 1.
  rewrite (nextCBORType_next H). apply Z.eqb_neq in Ht. rewrite Ht. reflexivity.
Qed.

Lemma nilByte_of_true (b : Z) : (b =? 0xf6) || (b =? 0xf7) = true -> isNilByte b.
Proof.
  intros H. apply orb_true_iff in H as [H|H]; apply Z.eqb_eq in H; [left|right]; exact H.
Qed.

Lemma skip_nil (f : nat) (d : decoder) (b : Z) :
  nextByte d b -> isNilByte b -> skip (Datatypes.S f) d = Done (tt, setOff d (off d + 1)).
Proof.
  intros H Hb. cbn [skip]. unfold bind at 1.
  rewrite (getHead_next H) by (destruct Hb; subst b; reflexivity).
  destruct Hb; subst b; reflexivity.
Qed.

Lemma ifaceStage_other (lib : golib) (f : nat) (tInfo : gotype) (v : rvalue) (d : decoder) :
  spclType tInfo <> specialTypeIface ->
  ifaceStage lib f tInfo v d = Done ((v, tInfo, fun y => y), d).
Proof.
  intros H. unfold ifaceStage. destruct (spclType tInfo); try reflexivity. contradiction.
Qed.

Lemma checkRegisteredTag_notag (f : nat) (tInfo : gotype) (d : decoder) (b : Z) :
  nextByte d b -> Z.land b 0xe0 <> cborTypeTag -> requiredTag (dm d) tInfo = false ->
  checkRegisteredTag f tInfo d = Done (None, d).
Proof.
  intros H Ht Hr. unfold checkRegisteredTag, requiredTag in *.
  unfold bind at 1. unfold getDm.
  destruct (tags (dm d)) as [tp|]; [|reflexivity].
  destruct (getTagItemFromType tp (nonPtrType tInfo)) as [item|]; [|reflexivity].
  unfold bind at 1. rewrite (nextCBORType_next H).
  apply Z.eqb_neq in Ht. rewrite Ht. cbn [negb].
  destruct (DecTag item); try reflexivity. discriminate.
Qed.

Lemma nonPtrType_id (t : gotype) : kindOf t <> KPtr -> nonPtrType t = t.
Proof.
  destruct t; simpl; try reflexivity.
  - intros H. destruct (kindOf t); try reflexivity. contradiction.
  - intros H. contradiction.
Qed.

Lemma spclType_kind (t : gotype) :
  kindOf t <> KPtr -> kindOf t <> KInterface ->
  spclType t = specialTypeNone \/ spclType t = specialTypeTag
  \/ spclType t = specialTypeTime \/ spclType t = specialTypeUnmarshalerIface.
Proof.
  intros Hp Hi. unfold spclType. rewrite (nonPtrType_id _ Hp).
  destruct (kindOf t) eqn:E; try contradiction;
    destruct t; try (destruct (ptrImplementsUnmarshaler _)); auto.
Qed.

Lemma parseByType_nil (lib : golib) (f : nat) (R : Rec) (tInfo : gotype) (v : rvalue)
    (d : decoder) (b : Z) :
  nextByte d b -> isNilByte b ->
  parseByType lib f R tInfo v d = lift (fillNil cborTypePrimitives v) (setOff d (off d + 1)).
Proof.
  intros H Hb. unfold parseByType. unfold bind at 1.
  rewrite (nextCBORType_next H).
  assert (Ht : Z.land b 0xe0 = cborTypePrimitives) by (destruct Hb; subst b; reflexivity).
  rewrite Ht. cbn [cborTypePrimitives cborTypePositiveInt cborTypeNegativeInt
                   cborTypeByteString cborTypeTextString Z.eqb Pos.eqb].
  unfold bind at 1.
  rewrite (getHead_next H) by (destruct Hb; subst b; reflexivity).
  destruct Hb; subst b; reflexivity.
Qed.

Lemma nilByte_notag (b : Z) : isNilByte b -> Z.land b 0xe0 <> cborTypeTag.
Proof. intros [H|H]; subst b; discriminate. Qed.

Lemma parseInto_nil_plain (lib : golib) (f : nat) (R : Rec) (tInfo : gotype) (v : rvalue)
    (d : decoder) (b : Z) :
  nextByte d b -> isNilByte b ->
  spclType tInfo = specialTypeNone \/ spclType tInfo = specialTypeIface ->
  requiredTag (dm d) tInfo = false ->
  parseInto lib f R tInfo v d = lift (fillNil cborTypePrimitives v) (setOff d (off d + 1)).
Proof.
  intros H Hb Hs Hr. unfold parseInto. unfold bind at 1.
  rewrite (stripSelfDescribed_notag f H (nilByte_notag Hb)).
  unfold bind at 1. rewrite (checkBuiltinTag_notag f H (nilByte_notag Hb)).
  unfold parseSpecial. destruct Hs as [Hs|Hs]; rewrite Hs.
  - unfold bind at 1. rewrite (checkRegisteredTag_notag f tInfo H (nilByte_notag Hb) Hr).
    eapply parseByType_nil; eassumption.
  - unfold bind at 1. rewrite (checkRegisteredTag_notag f tInfo H (nilByte_notag Hb) Hr).
    eapply parseByType_nil; eassumption.
Qed.

Lemma parseInto_nil_tag_time (lib : golib) (f : nat) (R : Rec) (tInfo : gotype) (v : rvalue)
    (d : decoder) (b : Z) :
  nextByte d b -> isNilByte b ->
  spclType tInfo = specialTypeTag \/ spclType tInfo = specialTypeTime ->
  parseInto lib (Datatypes.S f) R tInfo v d = Done ((v, None), setOff d (off d + 1)).
Proof.
  intros H Hb Hs. unfold parseInto. unfold bind at 1.
  rewrite (stripSelfDescribed_notag _ H (nilByte_notag Hb)).
  unfold bind at 1. rewrite (checkBuiltinTag_notag _ H (nilByte_notag Hb)).
  assert (Hn : (b =? 246) || (b =? 247) = true) by (destruct Hb; subst b; reflexivity).
  unfold parseSpecial. destruct Hs as [Hs|Hs]; rewrite Hs.
  - unfold parseToTag. unfold bind at 1. rewrite (nextCBORNil_next H), Hn.
    unfold bind. rewrite (skip_nil f H Hb). reflexivity.
  - unfold bind at 1. rewrite (nextCBORNil_next H), Hn.
    unfold bind. rewrite (skip_nil f H Hb). reflexivity.
Qed.

(** The generic decoder on [null] and [undefined]: no value. *)
Lemma parse_nil (lib : golib) (f : nat) (R : Rec) (skipTag : bool) (d : decoder) (b : Z) :
  nextByte d b -> isNilByte b ->
  parse lib f R skipTag d = Done ((None, None), setOff d (off d + 1)).
Proof.
  intros H Hb. unfold parse. unfold bind at 1.
  assert (Hs : (if skipTag then stripSelfDescribed f else ret tt) d = Done (tt, d)).
  { destruct skipTag; [apply (stripSelfDescribed_notag f H (nilByte_notag Hb)) | reflexivity]. }
  rewrite Hs. unfold bind at 1. rewrite (checkBuiltinTag_notag _ H (nilByte_notag Hb)).
  unfold bind at 1. rewrite (nextCBORType_next H).
  assert (Ht : Z.land b 0xe0 = cborTypePrimitives) by (destruct Hb; subst b; reflexivity).
  rewrite Ht. unfold bind at 1. unfold getDm.
  cbn [cborTypePrimitives cborTypePositiveInt cborTypeNegativeInt cborTypeTag
       cborTypeByteString cborTypeTextString Z.eqb Pos.eqb].
  unfold bind at 1.
  rewrite (getHead_next H) by (destruct Hb; subst b; reflexivity).
  destruct Hb; subst b; reflexivity.
Qed.

Lemma parseInto_nil_emptyIface (lib : golib) (f : nat) (tInfo : gotype) (v : rvalue)
    (d : decoder) (b : Z) :
  nextByte d b -> isNilByte b ->
  spclType tInfo = specialTypeEmptyIface ->
  parseInto lib (Datatypes.S f) (decoders lib (Datatypes.S f)) tInfo v d
  = Done ((v, None), setOff d (off d + 1)).
Proof.
  intros H Hb Hs. unfold parseInto. unfold bind at 1.
  rewrite (stripSelfDescribed_notag _ H (nilByte_notag Hb)).
  unfold bind at 1. rewrite (checkBuiltinTag_notag _ H (nilByte_notag Hb)).
  unfold parseSpecial. rewrite Hs.
  unfold bind at 1. cbn [decoders parseR].
  rewrite (parse_nil lib f (decoders lib f) false H Hb). reflexivity.
Qed.

(** The steps of [parseToValue] before [parseInto], at [null]. *)
Lemma parseToValue_nil (lib : golib) (f : nat) (R : Rec) (tInfo : gotype) (v : rvalue)
    (d : decoder) (b : Z) :
  nextByte d b -> isNilByte b -> spclType tInfo <> specialTypeIface ->
  parseToValue lib f R tInfo v d
  = bind (parseInto lib f R tInfo v) (fun '(v3, err) => ret (rval v3, err)) d.
Proof.
  intros H Hb Hs. unfold parseToValue. unfold bind at 1.
  rewrite (@ifaceStage_other lib f tInfo v d Hs).
  unfold bind at 1. rewrite (nextCBORNil_next H).
  assert (Hn : (b =? 246) || (b =? 247) = true) by (destruct Hb; subst b; reflexivity).
  rewrite Hn. reflexivity.
Qed.

Lemma fillNil_other (t : Z) (v : rvalue) :
  isNilableKind (rKind v) = false -> fillNil t v = Done (v, None).
Proof. unfold fillNil. destruct (rKind v); simpl; intros H; try reflexivity; discriminate. Qed.

Lemma fillNil_nilable (t : Z) (v : rvalue) :
  isNilableKind (rKind v) = true -> canSet v = true ->
  fillNil t v = Done (RV (rtype v) (zeroValue (rtype v)) true, None).
Proof.
  unfold fillNil, setVal. intros H Hc. rewrite Hc.
  destruct (rKind v); simpl in *; try discriminate; reflexivity.
Qed.

(** C10 (amended).  Decoding [null] or [undefined] into a target that is
    not of pointer, slice, map or interface kind returns no error and
    leaves the target unchanged, when the target's type has no
    [UnmarshalCBOR] method and no registered tag that is required. *)
Theorem null_into_other_unchanged (lib : golib) (fuel : nat) (v : rvalue) (d : decoder) :
  nextCBORNil d = Done (true, d) ->
  isNilableKind (rKind v) = false ->
  spclType (rtype v) <> specialTypeUnmarshalerIface ->
  requiredTag (dm d) (rtype v) = false ->
  parseToValueF lib (Datatypes.S (Datatypes.S fuel)) (rtype v) v d
  = Done ((rval v, None), setOff d (off d + 1)).
Proof.
  intros Hn Hk Hu Hr.
  apply nextCBORNil_inv in Hn as (_ & b & H & Hb). symmetry in Hb.
  apply nilByte_of_true in Hb.
  assert (Hp : kindOf (rtype v) <> KPtr) by (unfold rKind in Hk; intros E; rewrite E in Hk; discriminate).
  assert (Hi : kindOf (rtype v) <> KInterface)
    by (unfold rKind in Hk; intros E; rewrite E in Hk; discriminate).
  unfold parseToValueF. cbn [decoders parseToValueR].
  assert (Hni : spclType (rtype v) <> specialTypeIface).
  { destruct (spclType_kind (rtype v) Hp Hi) as [Hs|[Hs|[Hs|Hs]]]; rewrite Hs; discriminate. }
  erewrite parseToValue_nil by eassumption. unfold bind.
  destruct (spclType_kind (rtype v) Hp Hi) as [Hs|[Hs|[Hs|Hs]]].
  - erewrite parseInto_nil_plain by eauto.
    rewrite (fillNil_other _ v Hk). reflexivity.
  - erewrite parseInto_nil_tag_time by eauto. reflexivity.
  - erewrite parseInto_nil_tag_time by eauto. reflexivity.
  - contradiction.
Qed.

Lemma null_into_other_unchanged_witness :
  let v := RV structAB (VStruct [VInt 7; VString "x"]) true in
  let d := newDecoder (hexDecode "f6") defaultDecMode in
  nextCBORNil d = Done (true, d)
  /\ isNilableKind (rKind v) = false
  /\ spclType (rtype v) <> specialTypeUnmarshalerIface
  /\ requiredTag (dm d) (rtype v) = false
  /\ parseToValueF asciiLib 2 (rtype v) v d = Done ((rval v, None), setOff d (off d + 1)).
Proof.
  intros v d.
  assert (H1 : nextCBORNil d = Done (true, d)) by reflexivity.
  assert (H2 : isNilableKind (rKind v) = false) by reflexivity.
  assert (H3 : spclType (rtype v) <> specialTypeUnmarshalerIface) by discriminate.
  assert (H4 : requiredTag (dm d) (rtype v) = false) by reflexivity.
  refine (conj H1 (conj H2 (conj H3 (conj H4 _)))).
  exact (@null_into_other_unchanged asciiLib 0%nat v d H1 H2 H3 H4).
Defined.

(** C10 as stated fails: with the struct [T] registered under a required
    tag, decoding [null] into a [T] returns an error. *)
Lemma null_into_tagged_struct_errors :
  unmarshalInto requiredTagDecMode "f6" structAB (zeroValue structAB)
  = Done (Some (TPtr structAB, VPtr (Some (zeroValue structAB))),
          Some (UnmarshalTypeError "primitives" "T" "" "expect CBOR tag value")).
Proof. vm_compute. reflexivity. Qed.

Lemma zeroValue_nil (t : gotype) :
  In (kindOf t) [KPtr; KSlice; KMap] -> IsNil (RV t (zeroValue t) true) = true.
Proof.
  induction t; simpl; intros H; try reflexivity;
    try (destruct b; simpl in H; intuition discriminate);
    try (intuition discriminate).
  apply IHt in H. exact H.
Qed.

Lemma derefLoop_nil_step (n f : nat) (v : rvalue) (wrap : goval -> goval) (d : decoder) :
  rKind v = KPtr -> IsNil v = true -> canSet v = true ->
  derefLoop f (Datatypes.S n) v wrap d
  = derefLoop f n (RV (elemOf (rtype v)) (zeroValue (elemOf (rtype v))) true)
      (fun y => wrap (VPtr (Some y))) d.
Proof.
  intros Hk Hn Hc. cbn [derefLoop]. rewrite Hk, Hn, Hc. reflexivity.
Qed.

Lemma derefLoop_done (n f : nat) (v : rvalue) (wrap : goval -> goval) (d : decoder) :
  rKind v <> KPtr -> derefLoop f n v wrap d = Done (inl (v, wrap), d).
Proof.
  intros Hk. destruct n; cbn [derefLoop]; destruct (rKind v); try reflexivity; contradiction.
Qed.

(** C3 (amended).  When the next item is [null] or [undefined]: a
    settable target of pointer, slice or map kind whose type descriptor
    has no special classification and no registered tag that is required
    is set to nil, with no error; a target whose descriptor is the empty
    interface keeps its value, with no error.  When the next item is not
    [null] or [undefined] and the target is a nil pointer that can be set,
    the pointer is allocated and the item is decoded into the zero value
    it points to. *)
Theorem null_and_pointer_targets (lib : golib) (fuel : nat) :
  (forall v d,
      nextCBORNil d = Done (true, d) ->
      canSet v = true -> In (rKind v) [KPtr; KSlice; KMap] ->
      spclType (rtype v) = specialTypeNone ->
      requiredTag (dm d) (rtype v) = false ->
      parseToValueF lib (Datatypes.S (Datatypes.S fuel)) (rtype v) v d
      = Done ((zeroValue (rtype v), None), setOff d (off d + 1))
      /\ IsNil (RV (rtype v) (zeroValue (rtype v)) true) = true)
  /\ (forall v d,
         nextCBORNil d = Done (true, d) ->
         spclType (rtype v) = specialTypeEmptyIface ->
         parseToValueF lib (Datatypes.S (Datatypes.S fuel)) (rtype v) v d
         = Done ((rval v, None), setOff d (off d + 1)))
  /\ (forall t d,
         nextCBORNil d = Done (false, d) ->
         kindOf t <> KPtr -> spclType (TPtr t) <> specialTypeIface ->
         parseToValueF lib (Datatypes.S (Datatypes.S fuel)) (TPtr t)
           (RV (TPtr t) (VPtr None) true) d
         = bind (parseInto lib (Datatypes.S fuel) (decoders lib (Datatypes.S fuel)) (TPtr t)
                   (RV t (zeroValue t) true))
             (fun '(v3, err) => ret (VPtr (Some (rval v3)), err)) d).
Proof.
  split; [|split].
  - intros v d Hn Hc Hk Hs Hr.
    apply nextCBORNil_inv in Hn as (_ & b & H & Hb). symmetry in Hb.
    apply nilByte_of_true in Hb.
    split; [|apply zeroValue_nil; exact Hk].
    unfold parseToValueF. cbn [decoders parseToValueR].
    erewrite parseToValue_nil by (try eassumption; rewrite Hs; discriminate).
    unfold bind. erewrite parseInto_nil_plain by eauto.
    rewrite fillNil_nilable; [reflexivity | | exact Hc].
    simpl in Hk. destruct Hk as [Hk|[Hk|[Hk|[]]]]; rewrite <- Hk; reflexivity.
  - intros v d Hn Hs.
    apply nextCBORNil_inv in Hn as (_ & b & H & Hb). symmetry in Hb.
    apply nilByte_of_true in Hb.
    unfold parseToValueF. cbn [decoders parseToValueR].
    erewrite parseToValue_nil by (try eassumption; rewrite Hs; discriminate).
    unfold bind. erewrite parseInto_nil_emptyIface by eauto. reflexivity.
  - intros t d Hn Hk Hs.
    unfold parseToValueF. cbn [decoders parseToValueR].
    unfold parseToValue. unfold bind at 1.
    rewrite (@ifaceStage_other lib _ (TPtr t) _ d Hs).
    unfold bind at 1. rewrite Hn. cbn [negb]. unfold bind at 1.
    rewrite derefLoop_nil_step by reflexivity.
    rewrite derefLoop_done by exact Hk.
    reflexivity.
Qed.

Lemma null_and_pointer_targets_witness :
  let v := RV (TPtr tInt) (VPtr (Some (VInt 1))) true in
  let d := newDecoder (hexDecode "f6") defaultDecMode in
  nextCBORNil d = Done (true, d)
  /\ canSet v = true /\ In (rKind v) [KPtr; KSlice; KMap]
  /\ spclType (rtype v) = specialTypeNone
  /\ requiredTag (dm d) (rtype v) = false
  /\ parseToValueF asciiLib 2 (rtype v) v d = Done ((VPtr None, None), setOff d (off d + 1)).
Proof.
  intros v d.
  assert (H1 : nextCBORNil d = Done (true, d)) by reflexivity.
  assert (H2 : canSet v = true) by reflexivity.
  assert (H3 : In (rKind v) [KPtr; KSlice; KMap]) by (left; reflexivity).
  assert (H4 : spclType (rtype v) = specialTypeNone) by reflexivity.
  assert (H5 : requiredTag (dm d) (rtype v) = false) by reflexivity.
  refine (conj H1 (conj H2 (conj H3 (conj H4 (conj H5 _))))).
  exact (proj1 (proj1 (null_and_pointer_targets asciiLib 0) v d H1 H2 H3 H4 H5)).
Defined.

(** C3 as stated fails for a target of interface kind: decoding [null]
    into an empty interface that holds a value leaves the value in place. *)
Lemma null_into_interface_keeps_value :
  unmarshalInto defaultDecMode "f6" TEmptyIface (VIface (Some (tInt, VInt 5)))
  = Done (Some (TPtr TEmptyIface, VPtr (Some (VIface (Some (tInt, VInt 5))))), None).
Proof. vm_compute. reflexivity. Qed.

(** ** Integers into a generic target *)

Lemma notPrimitives_notNil (b : Z) :
  Z.land b 0xe0 <> cborTypePrimitives -> (b =? 0xf6) || (b =? 0xf7) = false.
Proof.
  intros H. apply orb_false_iff. split; apply Z.eqb_neq; intros E; subst b; apply H; reflexivity.
Qed.

Lemma toInt64_small (val : Z) : (MaxInt64 <? val) = false -> toInt64 val = val.
Proof.
  intros H. apply Z.ltb_ge in H. unfold toInt64, toInt, MaxInt64 in *.
  destruct (Z.ltb_spec val (2 ^ 63)); [reflexivity | lia].
Qed.

Lemma bind_getHead_ext {A : Type} (k k' : Z * Z * Z -> M A) (d : decoder) :
  (forall r d', k r d' = k' r d') -> bind getHead k d = bind getHead k' d.
Proof.
  intros H. unfold bind. destruct (getHead d) as [[r d']| |]; [apply H | reflexivity | reflexivity].
Qed.

Lemma parse_positive (lib : golib) (f : nat) (R : Rec) (skipTag : bool) (d : decoder) (b : Z) :
  nextByte d b -> Z.land b 0xe0 = cborTypePositiveInt ->
  parse lib f R skipTag d
  = bind getHead (fun '(_, _, val) => ret (genericUint (dm d) val)) d.
Proof.
  intros H Ht.
  assert (Hnt : Z.land b 0xe0 <> cborTypeTag) by (rewrite Ht; discriminate).
  unfold parse. unfold bind at 1.
  assert (Hs : (if skipTag then stripSelfDescribed f else ret tt) d = Done (tt, d)).
  { destruct skipTag; [apply (stripSelfDescribed_notag f H Hnt) | reflexivity]. }
  rewrite Hs. unfold bind at 1. rewrite (checkBuiltinTag_notag _ H Hnt).
  unfold bind at 1. rewrite (nextCBORType_next H), Ht.
  unfold bind at 1. unfold getDm. cbn [cborTypePositiveInt Z.eqb].
  apply bind_getHead_ext. intros [[t ai] val] d'. unfold genericUint.
  destruct (intDec (dm d)); [reflexivity|].
  destruct (MaxInt64 <? val) eqn:E; [reflexivity|].
  rewrite (toInt64_small _ E). reflexivity.
Qed.

Lemma parse_negative (lib : golib) (f : nat) (R : Rec) (skipTag : bool) (d : decoder) (b : Z) :
  nextByte d b -> Z.land b 0xe0 = cborTypeNegativeInt ->
  parse lib f R skipTag d
  = bind getHead (fun '(_, _, val) => ret (genericNegInt val)) d.
Proof.
  intros H Ht.
  assert (Hnt : Z.land b 0xe0 <> cborTypeTag) by (rewrite Ht; discriminate).
  unfold parse. unfold bind at 1.
  assert (Hs : (if skipTag then stripSelfDescribed f else ret tt) d = Done (tt, d)).
  { destruct skipTag; [apply (stripSelfDescribed_notag f H Hnt) | reflexivity]. }
  rewrite Hs. unfold bind at 1. rewrite (checkBuiltinTag_notag _ H Hnt).
  unfold bind at 1. rewrite (nextCBORType_next H), Ht.
  unfold bind at 1. unfold getDm. cbn [cborTypePositiveInt cborTypeNegativeInt Z.eqb Pos.eqb].
  apply bind_getHead_ext. intros [[t ai] val] d'. unfold genericNegInt.
  destruct (MaxInt64 <? val) eqn:E.
  - replace (- (val + 1)) with (-1 - val) by ring. reflexivity.
  - rewrite (toInt64_small _ E). rewrite Z.lxor_m1_l. unfold Z.lnot.
    replace (Z.pred (- val)) with (-1 - val) by lia. reflexivity.
Qed.

(** Decoding into a settable target of type [any], when the next item is
    not [null], a tag, or an item [parse] has already read. *)
Lemma parseToValue_any (lib : golib) (f : nat) (v : rvalue) (d : decoder) (b : Z) :
  nextByte d b -> Z.land b 0xe0 <> cborTypeTag -> Z.land b 0xe0 <> cborTypePrimitives ->
  rtype v = TEmptyIface -> canSet v = true ->
  parseToValueF lib (Datatypes.S (Datatypes.S f)) TEmptyIface v d
  = bind (parse lib f (decoders lib f) false)
      (fun '(iv, err) => ret (match iv with
                              | Some x => VIface (Some x)
                              | None => rval v
                              end, err)) d.
Proof.
  intros H Hnt Hnp Ht Hc.
  unfold parseToValueF. cbn [decoders parseToValueR].
  unfold parseToValue. unfold bind at 1.
  rewrite ifaceStage_other by discriminate.
  unfold bind at 1. rewrite (nextCBORNil_next H), (notPrimitives_notNil _ Hnp). cbn [negb].
  unfold bind at 1. rewrite derefLoop_done by (unfold rKind; rewrite Ht; discriminate).
  cbv beta iota. unfold parseInto. unfold bind at 1. unfold bind at 1.
  rewrite (stripSelfDescribed_notag _ H Hnt).
  unfold bind at 1. rewrite (checkBuiltinTag_notag _ H Hnt).
  cbn [parseSpecial spclType nonPtrType kindOf underlying parseR decoders].
  unfold bind.
  destruct (parse lib f (decoders lib f) false d) as [[[iv err] d']| |];
    [|reflexivity|reflexivity].
  destruct iv as [[t x]|]; [|reflexivity].
  unfold setAny, setVal, rKind. rewrite Ht, Hc. reflexivity.
Qed.

(** C8.  Into a generic (empty-interface) target, a CBOR unsigned integer
    decodes to a [uint64] under [IntDecConvertNone]; under
    [IntDecConvertSigned] it decodes to an [int64], and an error is
    returned (and the target left as it was) exactly when the value is
    above the largest [int64]; a CBOR negative integer decodes to an
    [int64], or to a [big.Int] when it is below the least [int64]. *)
Theorem generic_integers (lib : golib) (fuel : nat) (v : rvalue) (d : decoder) (b : Z) :
  nextByte d b -> rtype v = TEmptyIface -> canSet v = true ->
  (Z.land b 0xe0 = cborTypePositiveInt ->
   parseToValueF lib (Datatypes.S (Datatypes.S fuel)) TEmptyIface v d
   = bind getHead
       (fun '(_, _, val) =>
          ret (match intDec (dm d) with
               | IntDecConvertNone => (VIface (Some (typeUint64, VUint val)), None)
               | IntDecConvertSigned =>
                   if MaxInt64 <? val then
                     (rval v, Some (UnmarshalTypeError "positive integer" "int64" ""
                                      (Zstr val ++ " overflows Go's int64")))
                   else (VIface (Some (typeInt64, VInt val)), None)
               end)) d)
  /\ (Z.land b 0xe0 = cborTypeNegativeInt ->
      parseToValueF lib (Datatypes.S (Datatypes.S fuel)) TEmptyIface v d
      = bind getHead
          (fun '(_, _, val) =>
             ret (if MaxInt64 <? val
                  then (VIface (Some (TBigInt, VBigInt (-1 - val))), None)
                  else (VIface (Some (typeInt64, VInt (-1 - val))), None))) d).
Proof.
  intros H Ht Hc. split; intros Hb.
  - rewrite (parseToValue_any lib fuel v H) by (try assumption; rewrite Hb; discriminate).
    unfold bind at 1. rewrite (parse_positive lib fuel _ false H Hb).
    unfold bind. destruct (getHead d) as [[[[t ai] val] d']| |]; [|reflexivity|reflexivity].
    unfold ret, genericUint. destruct (intDec (dm d)); [reflexivity|].
    destruct (MaxInt64 <? val); reflexivity.
  - rewrite (parseToValue_any lib fuel v H) by (try assumption; rewrite Hb; discriminate).
    unfold bind at 1. rewrite (parse_negative lib fuel _ false H Hb).
    unfold bind. destruct (getHead d) as [[[[t ai] val] d']| |]; [|reflexivity|reflexivity].
    unfold ret, genericNegInt. destruct (MaxInt64 <? val); reflexivity.
Qed.

Lemma generic_integers_witness :
  let v := RV TEmptyIface (VIface None) true in
  let d := newDecoder (hexDecode "1bffffffffffffffff") signedDecMode in
  nextByte d 0x1b /\ rtype v = TEmptyIface /\ canSet v = true
  /\ Z.land 0x1b 0xe0 = cborTypePositiveInt
  /\ parseToValueF asciiLib 2 TEmptyIface v d
     = Done ((VIface None,
              Some (UnmarshalTypeError "positive integer" "int64" ""
                      "18446744073709551615 overflows Go's int64")),
             setOff d 9).
Proof.
  intros v d.
  assert (H1 : nextByte d 0x1b) by reflexivity.
  assert (H2 : rtype v = TEmptyIface) by reflexivity.
  assert (H3 : canSet v = true) by reflexivity.
  assert (H4 : Z.land 0x1b 0xe0 = cborTypePositiveInt) by reflexivity.
  refine (conj H1 (conj H2 (conj H3 (conj H4 _)))).
  rewrite (proj1 (generic_integers asciiLib 0 v H1 H2 H3) H4).
  reflexivity.
Defined.

(** ** The decoder only moves its offset *)

Lemma pres_ret {A : Type} (a : A) : pres (ret a).
Proof. intros d x d' H. inversion H; subst. auto. Qed.

Lemma pres_bind {A B : Type} (m : M A) (k : A -> M B) :
  pres m -> (forall a, pres (k a)) -> pres (bind m k).
Proof.
  intros Hm Hk d b d' H. unfold bind in H.
  destruct (m d) as [[a d1]| |] eqn:E; try discriminate.
  apply Hm in E as [E1 E2]. apply Hk in H as [H1 H2]. split; congruence.
Qed.

Lemma pres_getOff : pres getOff.
Proof. intros d x d' H. inversion H; subst. auto. Qed.

Lemma pres_getDm : pres getDm.
Proof. intros d x d' H. inversion H; subst. auto. Qed.

Lemma pres_putOff (o : Z) : pres (putOff o).
Proof. intros d x d' H. inversion H; subst. auto. Qed.

Lemma pres_byteAt (i : Z) : pres (byteAt i).
Proof. intros d x d' H. apply byteAt_inv in H as [-> _]. auto. Qed.

Lemma pres_bytesAt (i j : Z) : pres (bytesAt i j).
Proof. intros d x d' H. apply bytesAt_inv in H as ->. auto. Qed.

Lemma pres_if {A : Type} (c : bool) (m1 m2 : M A) : pres m1 -> pres m2 -> pres (if c then m1 else m2).
Proof. destruct c; auto. Qed.

Lemma pres_panic {A : Type} : pres (@panic A).
Proof. intros d x d' H. discriminate. Qed.

Lemma pres_outOfFuel {A : Type} : pres (@outOfFuel A).
Proof. intros d x d' H. discriminate. Qed.

Lemma pres_lift {A : Type} (r : result A) : pres (lift r).
Proof. intros d x d' H. unfold lift in H. destruct r; inversion H; subst. auto. Qed.

Ltac pres_tac :=
  repeat first
    [ apply pres_ret | apply pres_getOff | apply pres_getDm | apply pres_putOff
    | apply pres_byteAt | apply pres_bytesAt | apply pres_panic | apply pres_outOfFuel
    | apply pres_lift
    | apply pres_bind; [|intros]
    | apply pres_if
    | match goal with
      | |- pres (let '(_, _) := ?x in _) => destruct x
      | |- pres (match ?x with _ => _ end) => destruct x
      end
    | assumption ].

Lemma pres_getHead : pres getHead.
Proof. unfold getHead. pres_tac. Qed.

Lemma pres_foundBreak : pres foundBreak.
Proof. unfold foundBreak. pres_tac. Qed.

Lemma pres_nextCBORType : pres nextCBORType.
Proof. unfold nextCBORType. pres_tac. Qed.

Lemma pres_nextCBORNil : pres nextCBORNil.
Proof. unfold nextCBORNil. pres_tac. Qed.

Lemma pres_forLoop {S R : Type} (n : nat) (cond : Z -> S -> M bool)
    (body : Z -> S -> M (S + R)) :
  (forall i s, pres (cond i s)) -> (forall i s, pres (body i s)) ->
  forall i s, pres (forLoop n cond body i s).
Proof.
  intros Hc Hb. induction n as [|n IH]; intros i s; cbn [forLoop].
  - apply pres_bind; [apply Hc|]. intros c. destruct c; cbn [negb]; pres_tac.
  - apply pres_bind; [apply Hc|]. intros c. destruct c; cbn [negb]; [|pres_tac].
    apply pres_bind; [apply Hb|]. intros [s'|x]; [apply IH | pres_tac].
Qed.

Lemma pres_more (hasSize : bool) (count i : Z) : pres (more hasSize count i).
Proof. unfold more. destruct hasSize; [pres_tac|]. apply pres_bind; [apply pres_foundBreak|]. intros; pres_tac. Qed.

Lemma pres_skip (fuel : nat) : pres (skip fuel).
Proof.
  induction fuel as [|f IH]; cbn [skip]; [apply pres_outOfFuel|].
  apply pres_bind; [apply pres_getHead|]. intros [[t ai] val].
  assert (L : forall (cond : Z -> unit -> M bool), (forall i s, pres (cond i s)) ->
              pres (r <- forLoop f cond (fun _ _ => skip f ;;; ret (inl tt : unit + unit)) 0 tt ;;
                    ret tt)).
  { intros cond Hc. apply pres_bind; [|intros; apply pres_ret].
    apply pres_forLoop; [exact Hc|]. intros. apply pres_bind; [exact IH|]. intros; pres_tac. }
  repeat (apply pres_if).
  - apply L. intros. apply pres_bind; [apply pres_foundBreak|]. intros; pres_tac.
  - pres_tac.
  - apply L. intros. pres_tac.
  - apply L. intros. pres_tac.
  - exact IH.
  - pres_tac.
Qed.

Lemma setOff_same (d d' : decoder) :
  data d' = data d -> dm d' = dm d -> setOff d' (off d) = d.
Proof. destruct d, d'. simpl. intros -> ->. reflexivity. Qed.

Lemma numOfItemsUntilBreak_inv (f : nat) (d d' : decoder) (n : Z) :
  numOfItemsUntilBreak f d = Done (n, d') -> d' = d.
Proof.
  unfold numOfItemsUntilBreak, bind, getOff, putOff, ret. intros H.
  destruct (forLoop _ _ _ _ _ _) as [[r d1]| |] eqn:E; try discriminate.
  inversion H; subst. apply setOff_same.
  - eapply (pres_forLoop (S := Z) (R := unit)); [| |exact E].
    + intros. apply pres_bind; [apply pres_foundBreak|]. intros; pres_tac.
    + intros. apply pres_bind; [apply pres_skip|]. intros; pres_tac.
  - eapply (pres_forLoop (S := Z) (R := unit)); [| |exact E].
    + intros. apply pres_bind; [apply pres_foundBreak|]. intros; pres_tac.
    + intros. apply pres_bind; [apply pres_skip|]. intros; pres_tac.
Qed.

(** ** Arrays into struct-to-array structs *)

Lemma parseArrayToStruct_eq (f : nat) (R : Rec) (v : rvalue) (tInfo : gotype) (d : decoder) :
  stErr (getDecodingStructType (nonPtrType tInfo)) = None ->
  stToArray (getDecodingStructType (nonPtrType tInfo)) = true ->
  nextCBORType d = Done (cborTypeArray, d) ->
  parseArrayToStruct f R v tInfo d
  = match arrayCount f d with
    | Done (count, d1) =>
        if count =? Z.of_nat (List.length (stFields (getDecodingStructType (nonPtrType tInfo))))
        then
          bind (forLoop f
                  (fun i _ =>
                     more (negb (match getHead d with
                                 | Done ((_, ai, _), _) => ai =? 31
                                 | _ => false
                                 end)) count i)
                  (parseArrayToStructIter f R tInfo
                     (stFields (getDecodingStructType (nonPtrType tInfo)))) 0 (v, None))
            (fun r => match r with
                      | inl s => ret s
                      | inr _ => panic
                      end) d1
        else bind (skip f) (fun _ => ret (v, Some (countMismatch tInfo))) d
    | Panic => Panic
    | OutOfFuel => OutOfFuel
    end.
Proof.
  intros He Ha Ht. unfold parseArrayToStruct, arrayCount. rewrite He, Ha. cbn [negb].
  unfold bind, getOff.
  apply nextCBORType_inv in Ht as (_ & b & Hb & Hb').
  destruct (getHead d) as [[[[t ai] val] d0]| |] eqn:Eg; [|reflexivity|reflexivity].
  assert (Et : t = cborTypeArray).
  { rewrite getHead_eq in Eg. rewrite Hb in Eg. cbv zeta in Eg.
    repeat match type of Eg with
           | (if ?c then _ else _) = _ => destruct c
           | match ?x with _ => _ end = _ => destruct x as [[? ?]| |]
           end; inversion Eg; subst; auto. }
  pose proof (pres_getHead _ Eg) as [Hd0 Hm0].
  assert (Hcount : forall (P : result (Z * decoder) -> Prop),
            (forall count d1, data d1 = data d -> dm d1 = dm d -> P (Done (count, d1))) ->
            P Panic -> P OutOfFuel ->
            P ((if negb (ai =? 31) then ret (toInt val) else numOfItemsUntilBreak f) d0)).
  { intros P HP Hp Ho. destruct (negb (ai =? 31)).
    - apply HP; assumption.
    - destruct (numOfItemsUntilBreak f d0) as [[c d1]| |] eqn:En; auto.
      apply numOfItemsUntilBreak_inv in En. subst d1. apply HP; assumption. }
  apply Hcount; [|reflexivity|reflexivity].
  intros count d1 Hd1 Hm1.
  destruct (count =? _); cbn [negb].
  - reflexivity.
  - unfold putOff. rewrite (setOff_same d d1 Hd1 Hm1).
    subst t. reflexivity.
Qed.

(** C6 (amended).  For an array decoded into a struct marked
    struct-to-array: when the fields of the struct type do not resolve,
    the error of the resolution is returned, whatever the item count, and
    the struct is left as it was; otherwise the array is decoded field by
    field only when its item count equals the number of the struct's
    fields, and at any other count the array is skipped whole, the struct
    is left as it was, and an [UnmarshalTypeError] is returned.  A decode
    without error implies that the fields resolve and the counts are
    equal. *)
Theorem toarray_count_mismatch (f : nat) (R : Rec) (v : rvalue) (tInfo : gotype)
    (d d1 : decoder) (count : Z) :
  stToArray (getDecodingStructType (nonPtrType tInfo)) = true ->
  nextCBORType d = Done (cborTypeArray, d) ->
  arrayCount f d = Done (count, d1) ->
  let nfields := Z.of_nat (List.length (stFields (getDecodingStructType (nonPtrType tInfo)))) in
  (forall e, stErr (getDecodingStructType (nonPtrType tInfo)) = Some e ->
             exists d', parseArrayToStruct f R v tInfo d = Done ((v, Some (errorString e)), d'))
  /\ (stErr (getDecodingStructType (nonPtrType tInfo)) = None ->
      count <> nfields ->
      parseArrayToStruct f R v tInfo d
      = bind (skip f) (fun _ => ret (v, Some (countMismatch tInfo))) d)
  /\ (forall v' d', parseArrayToStruct f R v tInfo d = Done ((v', None), d') ->
                    stErr (getDecodingStructType (nonPtrType tInfo)) = None
                    /\ count = nfields).
Proof.
  intros Ha Ht Hc nfields.
  destruct (stErr (getDecodingStructType (nonPtrType tInfo))) as [e0|] eqn:He.
  - split; [|split].
    + intros e E. inversion E; subst e0. exists d.
      unfold parseArrayToStruct. rewrite He. reflexivity.
    + discriminate.
    + intros v' d' H. unfold parseArrayToStruct in H. rewrite He in H. discriminate.
  - rewrite (parseArrayToStruct_eq f R v tInfo He Ha Ht). rewrite Hc.
    split; [discriminate|]. split.
    + intros _ Hne. apply Z.eqb_neq in Hne. fold nfields. rewrite Hne. reflexivity.
    + intros v' d' H. split; [reflexivity|]. fold nfields in H.
      destruct (Z.eqb_spec count nfields) as [E|E]; [exact E|].
      exfalso. unfold bind in H. destruct (skip f d) as [[u d2]| |]; discriminate.
Qed.

Lemma toarray_count_mismatch_witness :
  let v := RV structP (zeroValue structP) true in
  let d := newDecoder (hexDecode "83010203") defaultDecMode in
  stToArray (getDecodingStructType (nonPtrType structP)) = true
  /\ nextCBORType d = Done (cborTypeArray, d)
  /\ arrayCount 5 d = Done (3, setOff d 1)
  /\ stErr (getDecodingStructType (nonPtrType structP)) = None
  /\ 3 <> Z.of_nat (List.length (stFields (getDecodingStructType (nonPtrType structP))))
  /\ parseArrayToStruct 5 (decoders asciiLib 5) v structP d
     = Done ((v, Some (countMismatch structP)), setOff d 4).
Proof.
  intros v d.
  assert (H2 : stToArray (getDecodingStructType (nonPtrType structP)) = true) by reflexivity.
  assert (H3 : nextCBORType d = Done (cborTypeArray, d)) by reflexivity.
  assert (H4 : arrayCount 5 d = Done (3, setOff d 1)) by reflexivity.
  assert (H1 : stErr (getDecodingStructType (nonPtrType structP)) = None) by reflexivity.
  assert (H5 : 3 <> Z.of_nat (List.length (stFields (getDecodingStructType
                                                     (nonPtrType structP)))))
    by discriminate.
  refine (conj H2 (conj H3 (conj H4 (conj H1 (conj H5 _))))).
  rewrite (proj1 (proj2 (toarray_count_mismatch 5 (decoders asciiLib 5) v structP H2 H3 H4))
             H1 H5).
  reflexivity.
Defined.

(** C6 as stated fails for a struct-to-array type whose fields do not
    resolve: an array of another item count than the number of fields is
    answered with the error of the resolution, which is no
    [UnmarshalTypeError]. *)
Lemma toarray_unresolved_plain_error :
  unmarshalInto defaultDecMode "820102" structQ (VStruct [VStruct []; VInt 7])
  = Done (Some (TPtr structQ, VPtr (Some (VStruct [VStruct []; VInt 7]))),
          Some (errorString (keyAsIntError "x"))).
Proof. vm_compute. reflexivity. Qed.

Example unmarshal_toarray_short :
  unmarshalInto defaultDecMode "8101" structP (VStruct [VStruct []; VInt 7; VInt 8])
  = Done (Some (TPtr structP, VPtr (Some (VStruct [VStruct []; VInt 7; VInt 8]))),
          Some (countMismatch structP)).
Proof. vm_compute. reflexivity. Qed.

Example unmarshal_toarray_exact :
  unmarshalInto defaultDecMode "820102" structP (VStruct [VStruct []; VInt 7; VInt 8])
  = Done (Some (TPtr structP, VPtr (Some (VStruct [VStruct []; VInt 1; VInt 2]))), None).
Proof. vm_compute. reflexivity. Qed.

(** ** Map keys against struct fields: unknown and duplicate keys *)

(** One round of [parseMapToStruct] once the key is read. *)
Lemma parseMapToStructIter_key (lib : golib) (f : nat) (R : Rec) (tInfo : gotype)
    (fields : list field) (hasSize : bool) (count j : Z) (s : mapToStructState)
    (d d1 : decoder) (fo : option field) (k : any) (found : list bool) (err : option error) :
  parseStructKey lib f R fields s d = Done (inr (fo, k, found, err), d1) ->
  parseMapToStructIter lib f R tInfo fields hasSize count j s d
  = if dupFires (dm d) s k then
      bind (skip f)
        (fun _ => bind (skipRestOfMap f hasSize count (j + 1))
                    (fun _ => ret (inr (msV s, Some (DupMapKeyError k j))))) d1
    else
      match fo with
      | None =>
          if errOnUnknownField (dm d) then
            bind (skip f)
              (fun _ => bind (skipRestOfMap f hasSize count (j + 1))
                          (fun _ => ret (inr (msV s, Some (UnknownFieldError j))))) d1
          else
            bind (skip f)
              (fun _ => ret (inl (MSS (msV s) found (keysAfter (dm d) s k)
                                    (countAfter (dm d) s k) err))) d1
      | Some fld =>
          bind (decodeField f R (msV s) fld
                  (typeString (nonPtrType tInfo) ++ "." ++ name fld) err)
            (fun '(v, err) => ret (inl (MSS v found (keysAfter (dm d) s k)
                                          (countAfter (dm d) s k) err))) d1
      end.
Proof.
  intros Hk. unfold parseMapToStructIter. unfold bind at 1. unfold getDm.
  unfold bind at 1. rewrite Hk. unfold dupFires, keysAfter, countAfter.
  destruct (dupMapKey (dm d)).
  - destruct fo; [reflexivity|]. destruct (errOnUnknownField (dm d)); reflexivity.
  - destruct (Z.of_nat (List.length (keySetAdd (msMapKeys s) k)) =? msKeyCount s);
      [reflexivity|].
    destruct fo; [reflexivity|]. destruct (errOnUnknownField (dm d)); reflexivity.
Qed.

(** A search finds nothing when no free field has the property its test
    decides. *)
Lemma findFld_noneFree (cond : field -> bool) (P : field -> Prop) (fields : list field)
    (found : list bool) :
  (forall x, cond x = true <-> P x) ->
  noneFree P fields found -> findFld cond fields found O = None.
Proof.
  intros HP Hn. pose proof (findFld_first cond fields found) as Hf.
  destruct (findFld cond fields found O) as [[i fld]|]; [|reflexivity].
  destruct Hf as (Hi & Hu & Hc & _). exfalso.
  exact (Hn i fld Hi Hu (proj1 (HP fld) Hc)).
Qed.

Lemma intMatch_eq (n : Z) (fld : field) : intMatch n fld = true <-> sameNumber n fld.
Proof. unfold intMatch, sameNumber. rewrite andb_true_iff, Z.eqb_eq. tauto. Qed.

Lemma matchTextKey_noneFree (lib : golib) (fields : list field) (found : list bool)
    (key : string) :
  noneFree (sameName key) fields found -> noneFree (sameNameFolded lib key) fields found ->
  matchTextKey lib fields found key = (None, found).
Proof.
  intros H1 H2. unfold matchTextKey.
  rewrite (findFld_noneFree _ (exactMatch_eq key) H1).
  rewrite (findFld_noneFree _ (foldMatch_eq lib key) H2). reflexivity.
Qed.

Lemma matchIntKey_noneFree (fields : list field) (found : list bool) (n : Z) :
  noneFree (sameNumber n) fields found -> matchIntKey fields found n = (None, found).
Proof.
  intros H. unfold matchIntKey. rewrite (findFld_noneFree _ (intMatch_eq n) H). reflexivity.
Qed.

(** A round whose key ends it: the loop goes on with the error. *)
Lemma parseMapToStructIter_skip (lib : golib) (f : nat) (R : Rec) (tInfo : gotype)
    (fields : list field) (hasSize : bool) (count j : Z) (s : mapToStructState)
    (d d1 : decoder) (e : error) :
  parseStructKey lib f R fields s d
  = bind (skip f) (fun _ => ret (inl (firstErr (msErr s) (Some e)))) d1 ->
  parseMapToStructIter lib f R tInfo fields hasSize count j s d = unusableKeyRound f s e d1.
Proof.
  intros Hk. unfold parseMapToStructIter, unusableKeyRound. unfold bind at 1. unfold getDm.
  unfold bind at 1. rewrite Hk. unfold bind, ret.
  destruct (skip f d1) as [[u d2]| |]; reflexivity.
Qed.

(** A round whose key selects no field and is no duplicate. *)
Lemma parseMapToStructIter_unknown (lib : golib) (f : nat) (R : Rec) (tInfo : gotype)
    (fields : list field) (hasSize : bool) (count j : Z) (s : mapToStructState)
    (d d1 : decoder) (k : any) (err : option error) :
  parseStructKey lib f R fields s d = Done (inr (None, k, msFound s, err), d1) ->
  dupFires (dm d) s k = false ->
  parseMapToStructIter lib f R tInfo fields hasSize count j s d
  = unknownFieldRound f (dm d) hasSize count j s k err d1.
Proof.
  intros Hk Hd. erewrite parseMapToStructIter_key by exact Hk. rewrite Hd.
  unfold unknownFieldRound. destruct (errOnUnknownField (dm d)); reflexivity.
Qed.

(** The keys that cannot be used, and the keys of other types. *)
Lemma parseStructKey_badtext (lib : golib) (f : nat) (R : Rec) (fields : list field)
    (s : mapToStructState) (d d1 : decoder) (keyBytes : list byte) (e : error) :
  nextCBORType d = Done (cborTypeTextString, d) ->
  parseTextString f d = Done ((keyBytes, Some e), d1) ->
  parseStructKey lib f R fields s d
  = bind (skip f) (fun _ => ret (inl (firstErr (msErr s) (Some e)))) d1.
Proof.
  intros Hn Hp. unfold parseStructKey. unfold bind at 1. unfold getDm. unfold bind at 1.
  rewrite Hn. change (cborTypeTextString =? cborTypeTextString) with true. cbv iota.
  unfold bind at 1. rewrite Hp. reflexivity.
Qed.

Lemma parseStructKey_int (lib : golib) (f : nat) (R : Rec) (fields : list field)
    (s : mapToStructState) (d d1 : decoder) (t ai val : Z) :
  nextCBORType d = Done (t, d) ->
  getHead d = Done ((t, ai, val), d1) ->
  t = cborTypePositiveInt \/ (t = cborTypeNegativeInt /\ val <= MaxInt64) ->
  let n := if t =? cborTypePositiveInt then toInt64 val else -1 - val in
  parseStructKey lib f R fields s d
  = Done (inr (fst (matchIntKey fields (msFound s) n),
               match dupMapKey (dm d) with
               | DupMapKeyEnforcedAPF => Some (typeInt64, VInt n)
               | DupMapKeyQuiet => None
               end, snd (matchIntKey fields (msFound s) n), msErr s), d1).
Proof.
  intros Hn Hg Ht n. unfold parseStructKey. unfold bind at 1. unfold getDm. unfold bind at 1.
  rewrite Hn.
  assert (E1 : (t =? cborTypeTextString) = false) by (destruct Ht as [->|[-> _]]; reflexivity).
  assert (E2 : (t <=? cborTypeNegativeInt) = true) by (destruct Ht as [->|[-> _]]; reflexivity).
  rewrite E1, E2. cbv iota. unfold bind at 1. rewrite Hg.
  assert (E3 : (negb (t =? cborTypePositiveInt) && (MaxInt64 <? val)) = false).
  { destruct Ht as [->|[-> Hv]]; [reflexivity|].
    apply andb_false_iff. right. apply Z.ltb_ge. exact Hv. }
  rewrite E3.
  assert (E4 : (if t =? cborTypePositiveInt then toInt64 val else Z.lxor (-1) (toInt64 val)) = n).
  { unfold n. destruct (t =? cborTypePositiveInt) eqn:E; [reflexivity|].
    destruct Ht as [->|[-> Hv]]; [discriminate|].
    rewrite Z.lxor_m1_l. unfold Z.lnot, toInt64, toInt.
    destruct (Z.ltb_spec val (2 ^ 63)); [lia|]. unfold MaxInt64 in Hv. lia. }
  rewrite E4.
  destruct (matchIntKey fields (msFound s) n) as [fo found']. cbn [fst snd]. unfold ret.
  destruct (dupMapKey (dm d)); reflexivity.
Qed.

Lemma parseStructKey_negbig (lib : golib) (f : nat) (R : Rec) (fields : list field)
    (s : mapToStructState) (d d1 : decoder) (ai val : Z) :
  nextCBORType d = Done (cborTypeNegativeInt, d) ->
  getHead d = Done ((cborTypeNegativeInt, ai, val), d1) ->
  MaxInt64 < val ->
  parseStructKey lib f R fields s d
  = bind (skip f) (fun _ => ret (inl (firstErr (msErr s) (Some (keyOverflowError val))))) d1.
Proof.
  intros Hn Hg Hv. unfold parseStructKey. unfold bind at 1. unfold getDm. unfold bind at 1.
  rewrite Hn. change (cborTypeNegativeInt =? cborTypeTextString) with false.
  change (cborTypeNegativeInt <=? cborTypeNegativeInt) with true. cbv iota.
  unfold bind at 1. rewrite Hg.
  change (cborTypeNegativeInt =? cborTypePositiveInt) with false. cbn [negb andb].
  apply Z.ltb_lt in Hv. rewrite Hv. reflexivity.
Qed.

(** The major types that are neither text string nor integer. *)
Lemma other_key_type (d : decoder) (t : Z) :
  nextCBORType d = Done (t, d) ->
  t <> cborTypeTextString -> t <> cborTypePositiveInt -> t <> cborTypeNegativeInt ->
  (t =? cborTypeTextString) = false /\ (t <=? cborTypeNegativeInt) = false.
Proof.
  intros Hn H1 H2 H3. apply nextCBORType_inv in Hn as (_ & b & Hb & ->).
  apply nextByte_range in Hb.
  split; [apply Z.eqb_neq; exact H1|]. apply Z.leb_gt.
  assert (Hc : In b (map Z.of_nat (seq 0 256))).
  { apply in_map_iff. exists (Z.to_nat b). split; [lia|]. apply in_seq. lia. }
  clear Hb.
  assert (G : forall l, In b l ->
              Forall (fun x => Z.land x 0xe0 = cborTypePositiveInt
                               \/ Z.land x 0xe0 = cborTypeNegativeInt
                               \/ cborTypeNegativeInt < Z.land x 0xe0) l ->
              cborTypeNegativeInt < Z.land b 0xe0).
  { intros l Hin Hall. rewrite Forall_forall in Hall. destruct (Hall b Hin) as [E|[E|E]];
      [contradiction|contradiction|exact E]. }
  apply (G _ Hc). clear. vm_compute.
  repeat (constructor; [first [left; reflexivity | right; left; reflexivity
                              | right; right; reflexivity]|]).
  constructor.
Qed.

Lemma parseStructKey_other (lib : golib) (f : nat) (R : Rec) (fields : list field)
    (s : mapToStructState) (d : decoder) (t : Z) :
  nextCBORType d = Done (t, d) ->
  t <> cborTypeTextString -> t <> cborTypePositiveInt -> t <> cborTypeNegativeInt ->
  let err := firstErr (msErr s) (Some (keyTypeError t)) in
  parseStructKey lib f R fields s d
  = match dupMapKey (dm d) with
    | DupMapKeyQuiet => bind (skip f) (fun _ => ret (inr (None, None, msFound s, err))) d
    | DupMapKeyEnforcedAPF =>
        bind (parseR R true)
          (fun '(k, lastErr) =>
             match lastErr with
             | Some _ => bind (skip f) (fun _ => ret (inl err))
             | None =>
                 if negb (isHashableAny k) then bind (skip f) (fun _ => ret (inl err))
                 else ret (inr (None, k, msFound s, err))
             end) d
    end.
Proof.
  intros Hn H1 H2 H3 err. destruct (@other_key_type d t Hn H1 H2 H3) as [E1 E2].
  unfold parseStructKey. unfold bind at 1. unfold getDm. unfold bind at 1.
  rewrite Hn, E1, E2. cbv iota.
  destruct (dupMapKey (dm d)); reflexivity.
Qed.

(** C7 (amended).  An entry of a map decoded into a struct whose key
    selects no field, by the form of the key.  A text-string key of valid
    UTF-8 and an integer key not below the [int64] range (a positive one
    above it stands for the number [int64(val)]), with no free field of
    that name or number and not reported as a duplicate: by
    default the value is skipped, no error is recorded and the loop goes
    on; under [ExtraDecErrorUnknownField] the value and the rest of the
    map are skipped and [UnknownFieldError] with the index of the entry
    is returned.  A text-string key of invalid UTF-8 and a negative
    integer key below the [int64] range: the value is skipped, the error
    of the key is recorded unless an earlier error is, and the loop goes
    on under either policy.  A key of another type: an
    [UnmarshalTypeError] is recorded unless an earlier error is; without
    duplicate detection the key is skipped and the entry is handled as
    one of an unknown field; with it the key is decoded, and the entry is
    handled as one of an unknown field when the key decodes to a hashable
    value that is no duplicate, while a key that fails to decode or is
    not hashable has its value skipped and the loop goes on. *)
Theorem unknown_field_policy (lib : golib) (f : nat) (R : Rec) (tInfo : gotype)
    (fields : list field) (hasSize : bool) (count j : Z) (s : mapToStructState)
    (d : decoder) (t : Z) :
  nextCBORType d = Done (t, d) ->
  let round := parseMapToStructIter lib f R tInfo fields hasSize count j s d in
  let recorded (k : goval) (kt : gotype) : any :=
    match dupMapKey (dm d) with
    | DupMapKeyEnforcedAPF => Some (kt, k)
    | DupMapKeyQuiet => None
    end in
  (t = cborTypeTextString ->
   forall keyBytes d1,
     parseTextString f d = Done ((keyBytes, None), d1) ->
     let key := string_of_list_byte keyBytes in
     noneFree (sameName key) fields (msFound s) ->
     noneFree (sameNameFolded lib key) fields (msFound s) ->
     dupFires (dm d) s (recorded (VString key) typeString_) = false ->
     round = unknownFieldRound f (dm d) hasSize count j s (recorded (VString key) typeString_)
               (msErr s) d1)
  /\ (t = cborTypeTextString ->
      forall keyBytes e d1,
        parseTextString f d = Done ((keyBytes, Some e), d1) ->
        round = unusableKeyRound f s e d1)
  /\ (forall ai val d1,
        getHead d = Done ((t, ai, val), d1) ->
        t = cborTypePositiveInt \/ (t = cborTypeNegativeInt /\ val <= MaxInt64) ->
        let n := if t =? cborTypePositiveInt then toInt64 val else -1 - val in
        noneFree (sameNumber n) fields (msFound s) ->
        dupFires (dm d) s (recorded (VInt n) typeInt64) = false ->
        round = unknownFieldRound f (dm d) hasSize count j s (recorded (VInt n) typeInt64)
                  (msErr s) d1)
  /\ (t = cborTypeNegativeInt ->
      forall ai val d1,
        getHead d = Done ((t, ai, val), d1) -> MaxInt64 < val ->
        round = unusableKeyRound f s (keyOverflowError val) d1)
  /\ (t <> cborTypeTextString -> t <> cborTypePositiveInt -> t <> cborTypeNegativeInt ->
      let err := firstErr (msErr s) (Some (keyTypeError t)) in
      (dupMapKey (dm d) = DupMapKeyQuiet ->
       round = bind (skip f)
                 (fun _ => unknownFieldRound f (dm d) hasSize count j s None err) d)
      /\ (dupMapKey (dm d) = DupMapKeyEnforcedAPF ->
          forall k lastErr d1,
            parseR R true d = Done ((k, lastErr), d1) ->
            (lastErr <> None \/ isHashableAny k = false ->
             round = unusableKeyRound f s (keyTypeError t) d1)
            /\ (lastErr = None -> isHashableAny k = true -> dupFires (dm d) s k = false ->
                round = unknownFieldRound f (dm d) hasSize count j s k err d1))).
Proof.
  intros Hn round recorded. subst round.
  split; [|split; [|split; [|split]]].
  - intros -> keyBytes d1 Hp key Hx Hf Hd.
    apply parseMapToStructIter_unknown; [|exact Hd].
    rewrite (@parseStructKey_text lib f R fields s d d1 keyBytes Hn Hp).
    fold key. rewrite (@matchTextKey_noneFree lib fields (msFound s) key Hx Hf). reflexivity.
  - intros -> keyBytes e d1 Hp.
    apply parseMapToStructIter_skip. eapply parseStructKey_badtext; eassumption.
  - intros ai val d1 Hg Ht n Hx Hd.
    apply parseMapToStructIter_unknown; [|exact Hd].
    rewrite (@parseStructKey_int lib f R fields s d d1 t ai val Hn Hg Ht).
    fold n. rewrite (@matchIntKey_noneFree fields (msFound s) n Hx). reflexivity.
  - intros -> ai val d1 Hg Hv.
    apply parseMapToStructIter_skip. eapply parseStructKey_negbig; eassumption.
  - intros H1 H2 H3 err.
    pose proof (@parseStructKey_other lib f R fields s d t Hn H1 H2 H3) as Hk. cbv zeta in Hk.
    fold err in Hk. split.
    + intros Hq. rewrite Hq in Hk.
      unfold parseMapToStructIter. unfold bind at 1. unfold getDm. unfold bind at 1.
      rewrite Hk.
      match goal with
      | |- _ = bind ?m ?k ?d0 =>
          change (bind m k d0)
            with (match m d0 with
                  | Done (a, d') => k a d'
                  | Panic => Panic
                  | OutOfFuel => OutOfFuel
                  end)
      end.
      unfold bind at 1.
      destruct (skip f d) as [[u d1]| |] eqn:Es; [|reflexivity|reflexivity].
      unfold ret at 1. cbv iota beta. rewrite Hq.
      unfold unknownFieldRound, keysAfter, countAfter. rewrite Hq.
      destruct (errOnUnknownField (dm d)); reflexivity.
    + intros He k lastErr d1 Hp. rewrite He in Hk.
      unfold bind at 1 in Hk. rewrite Hp in Hk. split.
      * intros Hc. apply parseMapToStructIter_skip. rewrite Hk.
        destruct lastErr as [e|]; [reflexivity|].
        destruct Hc as [Hc|Hc]; [congruence|]. rewrite Hc. reflexivity.
      * intros -> Hh Hd. apply parseMapToStructIter_unknown; [|exact Hd].
        rewrite Hk, Hh. reflexivity.
Qed.

Lemma unknown_field_policy_witness :
  let s := MSS (RV structAB (zeroValue structAB) true) [false; false] [] 0 None in
  let d := setOff (newDecoder (hexDecode "a13bffffffffffffffff01") strictDecMode) 1 in
  let fields := stFields (getDecodingStructType structAB) in
  nextCBORType d = Done (cborTypeNegativeInt, d)
  /\ getHead d = Done ((cborTypeNegativeInt, 27, 18446744073709551615), setOff d 10)
  /\ MaxInt64 < 18446744073709551615
  /\ parseMapToStructIter asciiLib 5 (decoders asciiLib 5) structAB fields true 1 0 s d
     = Done (inl (MSS (msV s) [false; false] [] 0
                    (Some (keyOverflowError 18446744073709551615))), setOff d 11).
Proof.
  intros s d fields.
  assert (H1 : nextCBORType d = Done (cborTypeNegativeInt, d)) by reflexivity.
  assert (H2 : getHead d = Done ((cborTypeNegativeInt, 27, 18446744073709551615), setOff d 10))
    by reflexivity.
  assert (H3 : MaxInt64 < 18446744073709551615) by reflexivity.
  refine (conj H1 (conj H2 (conj H3 _))).
  rewrite (proj1 (proj2 (proj2 (proj2
             (@unknown_field_policy asciiLib 5 (decoders asciiLib 5) structAB fields true 1 0
                s d cborTypeNegativeInt H1))))
             eq_refl 27 18446744073709551615 (setOff d 10) H2 H3).
  reflexivity.
Defined.

(** C7 as stated fails for a key that is neither a text string nor an
    integer: under the default policy the key [true] matches no field and
    the decode returns an error. *)
Lemma unknown_bool_key_errors :
  unmarshalInto defaultDecMode "a1f501" structAB (zeroValue structAB)
  = Done (Some (TPtr structAB, VPtr (Some (zeroValue structAB))),
          Some (UnmarshalTypeError "primitives" "string" ""
                  "map key is of type primitives and cannot be used to match struct field name")).
Proof. vm_compute. reflexivity. Qed.

(** Keys that select no field, with [ExtraDecErrorUnknownField]: a text
    key gives [UnknownFieldError]; a negative integer below the [int64]
    range, a text key of invalid UTF-8 and, with duplicate detection, a
    key that is not hashable give the error of the key. *)
Example unknown_text_key_strict :
  unmarshalInto strictDecMode "a1617a01" structAB (zeroValue structAB)
  = Done (Some (TPtr structAB, VPtr (Some (zeroValue structAB))), Some (UnknownFieldError 0)).
Proof. vm_compute. reflexivity. Qed.

Example unknown_bool_key_strict :
  unmarshalInto strictDecMode "a1f501" structAB (zeroValue structAB)
  = Done (Some (TPtr structAB, VPtr (Some (zeroValue structAB))), Some (UnknownFieldError 0)).
Proof. vm_compute. reflexivity. Qed.

Example overflowing_key_strict :
  unmarshalInto strictDecMode "a13bffffffffffffffff01" structAB (zeroValue structAB)
  = Done (Some (TPtr structAB, VPtr (Some (zeroValue structAB))),
          Some (keyOverflowError 18446744073709551615)).
Proof. vm_compute. reflexivity. Qed.

Example invalid_text_key_strict :
  unmarshalInto strictDecMode "a161ff01" structAB (zeroValue structAB)
  = Done (Some (TPtr structAB, VPtr (Some (zeroValue structAB))),
          Some (SemanticError "cbor: invalid UTF-8 string")).
Proof. vm_compute. reflexivity. Qed.

Example unhashable_key_enforced_strict :
  unmarshalInto enforcedStrictDecMode "a18001" structAB (zeroValue structAB)
  = Done (Some (TPtr structAB, VPtr (Some (zeroValue structAB))),
          Some (keyTypeError cborTypeArray)).
Proof. vm_compute. reflexivity. Qed.
(** ** Duplicate map keys *)

Lemma mapInsert_has (m : list (goval * goval)) (k e k0 : goval) :
  mapHas m k0 = true -> mapHas (mapInsert m k e) k0 = true.
Proof.
  unfold mapHas. induction m as [|[k' e'] m IH]; simpl; [discriminate|].
  destruct (goval_eqb k' k) eqn:E; simpl.
  - destruct (goval_eqb k' k0); auto.
  - destruct (goval_eqb k' k0); auto.
Qed.

(** C2.  Under [DupMapKeyEnforcedAPF] the map path misses a repeated key
    when the value of one of its two entries does not decode.  [parseMap]
    and [parseMapToMap] find a duplicate by the Go map not growing after
    the entry is stored, and an entry whose value fails is not stored:
    for [{a: "x", a: 1}] into [map[string]int] the decode returns the
    [UnmarshalTypeError] of the first value and stores [a: 1], and for
    [{a: 1, a: "x"}] likewise; [parseMapToStruct], which records the keys
    as they are read, returns [DupMapKeyError] at index 1 for the same
    entries. *)
Theorem duplicate_key_missed_after_bad_value :
  unmarshalInto enforcedDecMode "a261616178616101" (TMap typeString_ tInt) (VMap None)
  = Done (Some (TPtr (TMap typeString_ tInt), VPtr (Some (VMap (Some [(VString "a", VInt 1)])))),
          Some (UnmarshalTypeError "UTF-8 text string" "int" "" ""))
  /\ unmarshalInto enforcedDecMode "a261610161616178" (TMap typeString_ tInt) (VMap None)
     = Done (Some (TPtr (TMap typeString_ tInt),
                   VPtr (Some (VMap (Some [(VString "a", VInt 1)])))),
             Some (UnmarshalTypeError "UTF-8 text string" "int" "" ""))
  /\ unmarshalInto enforcedDecMode "a261616178616101" structAB (zeroValue structAB)
     = Done (Some (TPtr structAB, VPtr (Some (zeroValue structAB))),
             Some (DupMapKeyError (Some (typeString_, VString "a")) 1))
  /\ unmarshalInto enforcedDecMode "a261610161616178" structAB (zeroValue structAB)
     = Done (Some (TPtr structAB, VPtr (Some (VStruct [VInt 1; VString ""]))),
             Some (DupMapKeyError (Some (typeString_, VString "a")) 1)).
Proof. repeat split; vm_compute; reflexivity. Qed.

(** A map with two identical keys, under both policies and for the three
    kinds of target. *)
Example duplicate_key_enforced_map :
  unmarshalInto enforcedDecMode "a2616101616102" (TMap typeString_ tInt) (VMap None)
  = Done (Some (TPtr (TMap typeString_ tInt), VPtr (Some (VMap (Some [(VString "a", VInt 0)])))),
          Some (DupMapKeyError (Some (typeString_, VString "a")) 1)).
Proof. vm_compute. reflexivity. Qed.

Example duplicate_key_enforced_any :
  unmarshalInto enforcedDecMode "a2616101616102" TEmptyIface (VIface None)
  = Done (Some (TPtr TEmptyIface,
                VPtr (Some (VIface (Some (typeAnyMap,
                  VMap (Some [(VIface (Some (typeString_, VString "a")), VIface None)])))))),
          Some (DupMapKeyError (Some (typeString_, VString "a")) 1)).
Proof. vm_compute. reflexivity. Qed.

Example duplicate_key_enforced_struct :
  unmarshalInto enforcedDecMode "a2616101616102" structAB (zeroValue structAB)
  = Done (Some (TPtr structAB, VPtr (Some (VStruct [VInt 1; VString ""]))),
          Some (DupMapKeyError (Some (typeString_, VString "a")) 1)).
Proof. vm_compute. reflexivity. Qed.

Example duplicate_key_quiet_map :
  unmarshalInto defaultDecMode "a2616101616102" (TMap typeString_ tInt) (VMap None)
  = Done (Some (TPtr (TMap typeString_ tInt), VPtr (Some (VMap (Some [(VString "a", VInt 2)])))),
          None).
Proof. vm_compute. reflexivity. Qed.

Example duplicate_key_quiet_any :
  unmarshalInto defaultDecMode "a2616101616102" TEmptyIface (VIface None)
  = Done (Some (TPtr TEmptyIface,
                VPtr (Some (VIface (Some (typeAnyMap,
                  VMap (Some [(VIface (Some (typeString_, VString "a")),
                               VIface (Some (typeUint64, VUint 2)))])))))),
          None).
Proof. vm_compute. reflexivity. Qed.

Example duplicate_key_quiet_struct :
  unmarshalInto defaultDecMode "a2616101616102" structAB (zeroValue structAB)
  = Done (Some (TPtr structAB, VPtr (Some (VStruct [VInt 1; VString ""]))), None).
Proof. vm_compute. reflexivity. Qed.

(** Keys that are times: tag 1 with the integer 1 and tag 1 with the
    float 1.0 are the same [time.Time], hence one key; with the float 1.5
    they are two. *)
Example duplicate_key_times :
  (exists m, unmarshalInto enforcedDecMode "a2c10100c1f93c0001" TEmptyIface (VIface None)
             = Done (m, Some (DupMapKeyError (Some (TTime, VTime (TimeUnix 1 0))) 1)))
  /\ (exists m, unmarshalInto enforcedDecMode "a2c10100c1f93e0001" TEmptyIface (VIface None)
                = Done (m, None)).
Proof. split; eexists; vm_compute; reflexivity. Qed.

(** ** First error wins *)

Lemma forLoop_map {S R : Type} (g : S -> S) (n : nat) (cond : Z -> S -> M bool)
    (body : Z -> S -> M (S + R)) :
  (forall i s d, cond i (g s) d = cond i s d) ->
  (forall i s d, body i (g s) d = onContinue g (body i s d)) ->
  forall i s d, forLoop n cond body i (g s) d = onContinue g (forLoop n cond body i s d).
Proof.
  intros Hc Hb. induction n as [|n IH]; intros i s d; cbn [forLoop]; unfold bind;
    rewrite Hc; destruct (cond i s d) as [[c d1]| |]; try reflexivity;
    destruct c; cbn [negb]; try reflexivity.
  rewrite Hb. destruct (body i s d1) as [[[s'|x] d2]| |]; try reflexivity.
  cbn [onContinue]. apply IH.
Qed.

Lemma firstErr_assoc (a b c : option error) :
  firstErr (firstErr a b) c = firstErr a (firstErr b c).
Proof. destruct a; reflexivity. Qed.

Lemma firstErr_None_r (a : option error) : firstErr a None = a.
Proof. destruct a; reflexivity. Qed.

Lemma parseArrayIter_first (R : Rec) (e0 : option error) (i : Z)
    (s : list goval * option error) (d : decoder) :
  parseArrayIter R i (after2 e0 s) d = onContinue (after2 e0) (parseArrayIter R i s d).
Proof.
  destruct s as [v err]. unfold parseArrayIter, after2, bind, ret, panic. cbn [fst snd].
  destruct (parseR R true d) as [[[e le] d1]| |]; try reflexivity.
  destruct le; cbn [onContinue fst snd].
  - rewrite firstErr_assoc. reflexivity.
  - destruct ((i <? 0) || (Z.of_nat (List.length v) <=? i)); reflexivity.
Qed.

Lemma parseArrayToSliceIter_first (R : Rec) (tInfo : gotype) (e0 : option error) (i : Z)
    (s : rvalue * option error) (d : decoder) :
  parseArrayToSliceIter R tInfo i (after2 e0 s) d
  = onContinue (after2 e0) (parseArrayToSliceIter R tInfo i s d).
Proof.
  destruct s as [v err]. unfold parseArrayToSliceIter, after2, bind, ret, lift. cbn [fst snd].
  destruct (sliceIndex v i); try reflexivity.
  destruct (parseToValueR R _ a d) as [[[x le] d1]| |]; try reflexivity.
  cbn [onContinue fst snd]. rewrite firstErr_assoc. reflexivity.
Qed.

Lemma parseArrayToArrayIter_first (f : nat) (R : Rec) (tInfo : gotype) (e0 : option error)
    (i : Z) (s : rvalue * nat * option error) (d : decoder) :
  parseArrayToArrayIter f R tInfo i (after3 e0 s) d
  = onContinue (after3 e0) (parseArrayToArrayIter f R tInfo i s d).
Proof.
  destruct s as [[v gi] err]. unfold parseArrayToArrayIter, after3, bind, ret, lift.
  cbn [fst snd].
  destruct (gi <? arrayLen v)%nat.
  - destruct (arrayIndex v gi); try reflexivity.
    destruct (parseToValueR R _ a d) as [[[x le] d1]| |]; try reflexivity.
    cbn [onContinue fst snd]. rewrite firstErr_assoc. reflexivity.
  - destruct (skip f d) as [[u d1]| |]; reflexivity.
Qed.

Lemma decodeField_first (f : nat) (R : Rec) (v : rvalue) (fld : field) (nm : string)
    (e0 err : option error) (d : decoder) :
  decodeField f R v fld nm (firstErr e0 err) d
  = match decodeField f R v fld nm err d with
    | Done ((v', e'), d') => Done ((v', firstErr e0 e'), d')
    | Panic => Panic
    | OutOfFuel => OutOfFuel
    end.
Proof.
  unfold decodeField, bind.
  match goal with
  | |- context [match ?X d with _ => _ end] =>
      destruct (X d) as [[[[sv o] le] d1]| |]
  end; try reflexivity.
  destruct o as [[fv put]|].
  - destruct (parseToValueR R (typ fld) fv d1) as [[[x le'] d2]| |]; try reflexivity.
    unfold ret. destruct e0; reflexivity.
  - destruct (skip f d1) as [[u d2]| |]; try reflexivity.
    unfold ret. rewrite firstErr_assoc. reflexivity.
Qed.

Lemma parseArrayToStructIter_first (f : nat) (R : Rec) (tInfo : gotype) (fields : list field)
    (e0 : option error) (i : Z) (s : rvalue * option error) (d : decoder) :
  parseArrayToStructIter f R tInfo fields i (after2 e0 s) d
  = onContinue (after2 e0) (parseArrayToStructIter f R tInfo fields i s d).
Proof.
  destruct s as [v err]. unfold parseArrayToStructIter, after2. cbn [fst snd].
  destruct (i <? 0); [reflexivity|].
  destruct (nth_error fields (Z.to_nat i)) as [fld|]; [|reflexivity].
  unfold bind. rewrite decodeField_first.
  destruct (decodeField f R v fld _ err d) as [[[v' e'] d1]| |]; reflexivity.
Qed.

Lemma parseMapIter_first (f : nat) (R : Rec) (hasSize : bool) (count : Z)
    (e0 : option error) (i : Z) (s : parseMapState) (d : decoder) :
  parseMapIter f R hasSize count i (afterPMS e0 s) d
  = onContinue (afterPMS e0) (parseMapIter f R hasSize count i s d).
Proof.
  unfold parseMapIter, afterPMS, bind, getDm, ret. cbn [pmM pmErr pmKeyCount].
  destruct (parseR R true d) as [[[k le] d1]| |]; [|reflexivity|reflexivity].
  destruct le.
  - destruct (skip f d1) as [[u d2]| |]; try reflexivity.
    cbn [onContinue pmM pmErr pmKeyCount]. rewrite firstErr_assoc. reflexivity.
  - destruct (negb (isHashableAny (wrapByteString (dm d) k))).
    + destruct (skip f d1) as [[u d2]| |]; try reflexivity.
      cbn [onContinue pmM pmErr pmKeyCount]. rewrite firstErr_assoc. reflexivity.
    + destruct (parseR R true d1) as [[[e le] d2]| |]; [|reflexivity|reflexivity].
      destruct le.
      * cbn [onContinue pmM pmErr pmKeyCount]. rewrite firstErr_assoc. reflexivity.
      * destruct (dupMapKey (dm d)); [reflexivity|].
        match goal with |- context [if ?c then _ else _] => destruct c end;
          [|reflexivity].
        destruct (skipRestOfMap f hasSize count (i + 1) d2) as [[u d3]| |]; reflexivity.
Qed.

Lemma parseMapToMapIter_first (f : nat) (R : Rec) (tInfo : gotype) (hasSize : bool)
    (count : Z) (e0 : option error) (i : Z) (s : mapToMapState) (d : decoder) :
  parseMapToMapIter f R tInfo hasSize count i (afterMMS e0 s) d
  = onContinue (afterMMS e0) (parseMapToMapIter f R tInfo hasSize count i s d).
Proof.
  unfold parseMapToMapIter, afterMMS, bind, getDm, ret, lift.
  cbn [mmV mmKeyValue mmEleValue mmKeyType mmErr mmKeyCount mmExistingKeys].
  destruct (parseToValueR R _ _ d) as [[[kx le] d1]| |]; [|reflexivity|reflexivity].
  destruct le.
  - destruct (skip f d1) as [[u d2]| |]; try reflexivity.
    cbn [onContinue mmV mmKeyValue mmEleValue mmKeyType mmErr mmKeyCount mmExistingKeys].
    rewrite firstErr_assoc. reflexivity.
  - match goal with |- context [if unhashableKey ?a ?b ?c then _ else _] =>
      destruct (unhashableKey a b c) end.
    + destruct (skip f d1) as [[u d2]| |]; try reflexivity.
      cbn [onContinue mmV mmKeyValue mmEleValue mmKeyType mmErr mmKeyCount mmExistingKeys].
      rewrite firstErr_assoc. reflexivity.
    + destruct (parseToValueR R _ _ d1) as [[[ex le] d2]| |]; [|reflexivity|reflexivity].
      destruct le.
      * cbn [onContinue mmV mmKeyValue mmEleValue mmKeyType mmErr mmKeyCount
               mmExistingKeys].
        rewrite firstErr_assoc. reflexivity.
      * match goal with |- context [SetMapIndex ?a ?b ?c] =>
          destruct (SetMapIndex a b c) as [v1| |] end; [|reflexivity|reflexivity].
        destruct (dupMapKey (dm d)); [reflexivity|].
        match goal with |- context [if ?c then _ else _] => destruct c end;
          [|reflexivity].
        match goal with |- context [if ?c then _ else _] => destruct c end;
          [|reflexivity].
        match goal with |- context [SetMapIndex ?a ?b ?c] =>
          destruct (SetMapIndex a b c) as [v2| |] end; [|reflexivity|reflexivity].
        destruct (skipRestOfMap f hasSize count (i + 1) d2) as [[u d3]| |]; reflexivity.
Qed.

Lemma parseStructKey_first (lib : golib) (f : nat) (R : Rec) (fields : list field)
    (e0 : option error) (s : mapToStructState) (d : decoder) :
  parseStructKey lib f R fields (afterMSS e0 s) d
  = afterKey e0 (parseStructKey lib f R fields s d).
Proof.
  unfold parseStructKey, afterMSS, bind, getDm, ret.
  cbn [msV msFound msMapKeys msKeyCount msErr].
  destruct (nextCBORType d) as [[t d1]| |]; [|reflexivity|reflexivity].
  destruct (t =? cborTypeTextString).
  - destruct (parseTextString f d1) as [[[kb le] d2]| |]; [|reflexivity|reflexivity].
    destruct le.
    + destruct (skip f d2) as [[u d3]| |]; try reflexivity.
      cbn [afterKey]. rewrite firstErr_assoc. reflexivity.
    + destruct (matchTextKey lib fields (msFound s) (string_of_list_byte kb)); reflexivity.
  - destruct (t <=? cborTypeNegativeInt).
    + destruct (getHead d1) as [[[[t' ai] val] d2]| |]; [|reflexivity|reflexivity].
      match goal with |- context [if ?c then _ else _] => destruct c end.
      * destruct (skip f d2) as [[u d3]| |]; try reflexivity.
        cbn [afterKey]. rewrite firstErr_assoc. reflexivity.
      * match goal with |- context [matchIntKey ?a ?b ?c] =>
          destruct (matchIntKey a b c) end; reflexivity.
    + destruct (dupMapKey (dm d)).
      * destruct (skip f d1) as [[u d2]| |]; try reflexivity.
        cbn [afterKey]. rewrite firstErr_assoc. reflexivity.
      * destruct (parseR R true d1) as [[[k le] d2]| |]; [|reflexivity|reflexivity].
        destruct le.
        -- destruct (skip f d2) as [[u d3]| |]; try reflexivity.
           cbn [afterKey]. rewrite firstErr_assoc. reflexivity.
        -- destruct (negb (isHashableAny k)).
           ++ destruct (skip f d2) as [[u d3]| |]; try reflexivity.
              cbn [afterKey]. rewrite firstErr_assoc. reflexivity.
           ++ cbn [afterKey]. rewrite firstErr_assoc. reflexivity.
Qed.

Lemma parseMapToStructIter_first (lib : golib) (f : nat) (R : Rec) (tInfo : gotype)
    (fields : list field) (hasSize : bool) (count : Z) (e0 : option error) (j : Z)
    (s : mapToStructState) (d : decoder) :
  parseMapToStructIter lib f R tInfo fields hasSize count j (afterMSS e0 s) d
  = onContinue (afterMSS e0) (parseMapToStructIter lib f R tInfo fields hasSize count j s d).
Proof.
  pose proof (parseStructKey_first lib f R fields e0 s d) as Hk.
  destruct (parseStructKey lib f R fields s d) as [[[e|[[[fo k] found] err]] d1]| |] eqn:Ek;
    cbn [afterKey] in Hk.
  - unfold parseMapToStructIter, bind, getDm. rewrite Hk, Ek. reflexivity.
  - rewrite (@parseMapToStructIter_key _ _ _ tInfo _ hasSize count j _ _ _ _ _ _ _ Hk).
    rewrite (@parseMapToStructIter_key _ _ _ tInfo _ hasSize count j _ _ _ _ _ _ _ Ek).
    change (dupFires (dm d) (afterMSS e0 s) k) with (dupFires (dm d) s k).
    change (keysAfter (dm d) (afterMSS e0 s) k) with (keysAfter (dm d) s k).
    change (countAfter (dm d) (afterMSS e0 s) k) with (countAfter (dm d) s k).
    change (msV (afterMSS e0 s)) with (msV s).
    destruct (dupFires (dm d) s k).
    + unfold bind, ret. destruct (skip f d1) as [[u d2]| |]; try reflexivity.
      destruct (skipRestOfMap f hasSize count (j + 1) d2) as [[u' d3]| |]; reflexivity.
    + destruct fo as [fld|].
      * unfold bind. rewrite decodeField_first.
        destruct (decodeField f R (msV s) fld _ err d1) as [[[v' e'] d2]| |]; reflexivity.
      * unfold bind, ret. destruct (errOnUnknownField (dm d)).
        -- destruct (skip f d1) as [[u d2]| |]; try reflexivity.
           destruct (skipRestOfMap f hasSize count (j + 1) d2) as [[u' d3]| |]; reflexivity.
        -- destruct (skip f d1) as [[u d2]| |]; reflexivity.
  - unfold parseMapToStructIter, bind, getDm. rewrite Hk, Ek. reflexivity.
  - unfold parseMapToStructIter, bind, getDm. rewrite Hk, Ek. reflexivity.
Qed.

(** The returns from inside the loops. *)
Lemma parseMapIter_abort (f : nat) (R : Rec) (hasSize : bool) (count i : Z)
    (s : parseMapState) (d d' : decoder) (r : list (goval * goval) * option error) :
  parseMapIter f R hasSize count i s d = Done (inr r, d') ->
  dupMapKey (dm d) = DupMapKeyEnforcedAPF
  /\ (exists k, snd r = Some (DupMapKeyError k i))
  /\ exists d1, skipRestOfMap f hasSize count (i + 1) d1 = Done (tt, d').
Proof.
  intros H. unfold parseMapIter, bind, getDm, ret in H.
  destruct (parseR R true d) as [[[k le] d1]| |]; try discriminate.
  destruct le; [destruct (skip f d1) as [[u d2]| |]; discriminate|].
  destruct (negb (isHashableAny (wrapByteString (dm d) k)));
    [destruct (skip f d1) as [[u d2]| |]; discriminate|].
  destruct (parseR R true d1) as [[[e le] d2]| |]; try discriminate.
  destruct le; [discriminate|].
  destruct (dupMapKey (dm d)); [discriminate|].
  match type of H with context [if ?c then _ else _] => destruct c end; [|discriminate].
  destruct (skipRestOfMap f hasSize count (i + 1) d2) as [[[] d3]| |] eqn:Es;
    try discriminate.
  inversion H; subst. cbn [snd]. split; [reflexivity|]. split; eauto.
Qed.

Lemma parseMapToMapIter_abort (f : nat) (R : Rec) (tInfo : gotype) (hasSize : bool)
    (count i : Z) (s : mapToMapState) (d d' : decoder) (r : rvalue * option error) :
  parseMapToMapIter f R tInfo hasSize count i s d = Done (inr r, d') ->
  dupMapKey (dm d) = DupMapKeyEnforcedAPF
  /\ (exists k, snd r = Some (DupMapKeyError k i))
  /\ exists d1, skipRestOfMap f hasSize count (i + 1) d1 = Done (tt, d').
Proof.
  intros H. unfold parseMapToMapIter, bind, getDm, ret, lift in H.
  destruct (parseToValueR R _ _ d) as [[[kx le] d1]| |]; try discriminate.
  destruct le; [destruct (skip f d1) as [[u d2]| |]; discriminate|].
  match type of H with context [if unhashableKey ?a ?b ?c then _ else _] =>
    destruct (unhashableKey a b c) end;
    [destruct (skip f d1) as [[u d2]| |]; discriminate|].
  destruct (parseToValueR R _ _ d1) as [[[ex le] d2]| |]; try discriminate.
  destruct le; [discriminate|].
  match type of H with context [SetMapIndex ?a ?b ?c] =>
    destruct (SetMapIndex a b c) as [v1| |] end; try discriminate.
  destruct (dupMapKey (dm d)); [discriminate|].
  match type of H with context [if ?c then _ else _] => destruct c end; [|discriminate].
  match type of H with context [if ?c then _ else _] => destruct c end; [|discriminate].
  match type of H with context [SetMapIndex ?a ?b ?c] =>
    destruct (SetMapIndex a b c) as [v2| |] end; try discriminate.
  destruct (skipRestOfMap f hasSize count (i + 1) d2) as [[[] d3]| |] eqn:Es;
    try discriminate.
  inversion H; subst. cbn [snd]. split; [reflexivity|]. split; eauto.
Qed.

Lemma parseMapToStructIter_abort (lib : golib) (f : nat) (R : Rec) (tInfo : gotype)
    (fields : list field) (hasSize : bool) (count j : Z) (s : mapToStructState)
    (d d' : decoder) (r : rvalue * option error) :
  parseMapToStructIter lib f R tInfo fields hasSize count j s d = Done (inr r, d') ->
  ((dupMapKey (dm d) = DupMapKeyEnforcedAPF /\ exists k, snd r = Some (DupMapKeyError k j))
   \/ (errOnUnknownField (dm d) = true /\ snd r = Some (UnknownFieldError j)))
  /\ exists d1, skipRestOfMap f hasSize count (j + 1) d1 = Done (tt, d').
Proof.
  intros H.
  destruct (parseStructKey lib f R fields s d) as [[[e|[[[fo k] found] err]] d1]| |] eqn:Ek;
    try (unfold parseMapToStructIter, bind, getDm in H; rewrite Ek in H; discriminate).
  rewrite (@parseMapToStructIter_key _ _ _ tInfo _ hasSize count j _ _ _ _ _ _ _ Ek) in H.
  destruct (dupFires (dm d) s k) eqn:Ed.
  - unfold bind, ret in H. destruct (skip f d1) as [[u d2]| |]; try discriminate.
    destruct (skipRestOfMap f hasSize count (j + 1) d2) as [[[] d3]| |] eqn:Es;
      try discriminate.
    inversion H; subst. cbn [snd]. split; [left|eauto].
    unfold dupFires in Ed. destruct (dupMapKey (dm d)); [discriminate|]. split; eauto.
  - destruct fo as [fld|].
    + unfold bind in H.
      destruct (decodeField f R (msV s) fld _ err d1) as [[[v0 e0] d2]| |]; discriminate.
    + destruct (errOnUnknownField (dm d)).
      * unfold bind, ret in H. destruct (skip f d1) as [[u d2]| |]; try discriminate.
        destruct (skipRestOfMap f hasSize count (j + 1) d2) as [[[] d3]| |] eqn:Es;
          try discriminate.
        inversion H; subst. cbn [snd]. split; [right; split; reflexivity|eauto].
      * unfold bind in H. destruct (skip f d1) as [[u d2]| |]; discriminate.
Qed.

Lemma arrayIters_continue (f : nat) (R : Rec) (tInfo : gotype) (fields : list field)
    (i : Z) (d d' : decoder) (u : unit) :
  (forall s, parseArrayIter R i s d <> Done (inr u, d'))
  /\ (forall s, parseArrayToSliceIter R tInfo i s d <> Done (inr u, d'))
  /\ (forall s, parseArrayToArrayIter f R tInfo i s d <> Done (inr u, d'))
  /\ (forall s, parseArrayToStructIter f R tInfo fields i s d <> Done (inr u, d')).
Proof.
  split; [|split; [|split]].
  - intros [v err] H. unfold parseArrayIter, bind, ret, panic in H.
    destruct (parseR R true d) as [[[e le] d1]| |]; try discriminate.
    destruct le; [discriminate|].
    destruct ((i <? 0) || (Z.of_nat (List.length v) <=? i)); discriminate.
  - intros [v err] H. unfold parseArrayToSliceIter, bind, ret, lift in H.
    destruct (sliceIndex v i); try discriminate.
    destruct (parseToValueR R _ a d) as [[[x le] d1]| |]; discriminate.
  - intros [[v gi] err] H. unfold parseArrayToArrayIter, bind, ret, lift in H.
    destruct (gi <? arrayLen v)%nat.
    + destruct (arrayIndex v gi); try discriminate.
      destruct (parseToValueR R _ a d) as [[[x le] d1]| |]; discriminate.
    + destruct (skip f d) as [[u0 d1]| |]; discriminate.
  - intros [v err] H. unfold parseArrayToStructIter in H.
    destruct (i <? 0); [discriminate|].
    destruct (nth_error fields (Z.to_nat i)) as [fld|]; [|discriminate].
    unfold bind in H.
    destruct (decodeField f R v fld _ err d) as [[[v' e'] d1]| |]; discriminate.
Qed.

(** Each of the loops over the elements of an array, of a map or of the
    fields of a struct runs after an error [e0] exactly as it runs
    without one, and the error of the final state is [e0] if there is
    one, otherwise the first error of the later rounds ([firstErr]).  No
    round of an array loop returns from inside the loop.  A round of a
    map loop returns from inside the loop only with [DupMapKeyError]
    under [DupMapKeyEnforcedAPF] or, for a struct, with
    [UnknownFieldError] under [ExtraDecErrorUnknownField], in both cases
    carrying the index of the entry and after [skipRestOfMap] has skipped
    the remaining entries. *)
Lemma loops_keep_first_error (lib : golib) (f n : nat) (R : Rec) (tInfo : gotype)
    (fields : list field) (hasSize : bool) (count i : Z) (e0 : option error) (d : decoder) :
  (forall s,
      forLoop n (fun i _ => more hasSize count i) (parseArrayIter R) i (after2 e0 s) d
      = onContinue (after2 e0)
          (forLoop n (fun i _ => more hasSize count i) (parseArrayIter R) i s d))
  /\ (forall s,
         forLoop n (fun i _ => more hasSize count i) (parseArrayToSliceIter R tInfo) i
           (after2 e0 s) d
         = onContinue (after2 e0)
             (forLoop n (fun i _ => more hasSize count i) (parseArrayToSliceIter R tInfo) i
                s d))
  /\ (forall s,
         forLoop n (fun i _ => more hasSize count i) (parseArrayToArrayIter f R tInfo) i
           (after3 e0 s) d
         = onContinue (after3 e0)
             (forLoop n (fun i _ => more hasSize count i) (parseArrayToArrayIter f R tInfo) i
                s d))
  /\ (forall s,
         forLoop n (fun i _ => more hasSize count i)
           (parseArrayToStructIter f R tInfo fields) i (after2 e0 s) d
         = onContinue (after2 e0)
             (forLoop n (fun i _ => more hasSize count i)
                (parseArrayToStructIter f R tInfo fields) i s d))
  /\ (forall s,
         forLoop n (fun i _ => more hasSize count i) (parseMapIter f R hasSize count) i
           (afterPMS e0 s) d
         = onContinue (afterPMS e0)
             (forLoop n (fun i _ => more hasSize count i) (parseMapIter f R hasSize count) i
                s d))
  /\ (forall s,
         forLoop n (fun i _ => more hasSize count i)
           (parseMapToMapIter f R tInfo hasSize count) i (afterMMS e0 s) d
         = onContinue (afterMMS e0)
             (forLoop n (fun i _ => more hasSize count i)
                (parseMapToMapIter f R tInfo hasSize count) i s d))
  /\ (forall s,
         forLoop n (fun j _ => more hasSize count j)
           (parseMapToStructIter lib f R tInfo fields hasSize count) i (afterMSS e0 s) d
         = onContinue (afterMSS e0)
             (forLoop n (fun j _ => more hasSize count j)
                (parseMapToStructIter lib f R tInfo fields hasSize count) i s d))
  /\ (forall u d',
         (forall s, parseArrayIter R i s d <> Done (inr u, d'))
         /\ (forall s, parseArrayToSliceIter R tInfo i s d <> Done (inr u, d'))
         /\ (forall s, parseArrayToArrayIter f R tInfo i s d <> Done (inr u, d'))
         /\ (forall s, parseArrayToStructIter f R tInfo fields i s d <> Done (inr u, d')))
  /\ (forall s r d',
         parseMapIter f R hasSize count i s d = Done (inr r, d') ->
         dupMapKey (dm d) = DupMapKeyEnforcedAPF
         /\ (exists k, snd r = Some (DupMapKeyError k i))
         /\ exists d1, skipRestOfMap f hasSize count (i + 1) d1 = Done (tt, d'))
  /\ (forall s r d',
         parseMapToMapIter f R tInfo hasSize count i s d = Done (inr r, d') ->
         dupMapKey (dm d) = DupMapKeyEnforcedAPF
         /\ (exists k, snd r = Some (DupMapKeyError k i))
         /\ exists d1, skipRestOfMap f hasSize count (i + 1) d1 = Done (tt, d'))
  /\ (forall s r d',
         parseMapToStructIter lib f R tInfo fields hasSize count i s d = Done (inr r, d') ->
         ((dupMapKey (dm d) = DupMapKeyEnforcedAPF
           /\ exists k, snd r = Some (DupMapKeyError k i))
          \/ (errOnUnknownField (dm d) = true /\ snd r = Some (UnknownFieldError i)))
         /\ exists d1, skipRestOfMap f hasSize count (i + 1) d1 = Done (tt, d')).
Proof.
  repeat match goal with |- _ /\ _ => split end.
  - intros s. apply forLoop_map; [reflexivity|]. intros. apply parseArrayIter_first.
  - intros s. apply forLoop_map; [reflexivity|]. intros. apply parseArrayToSliceIter_first.
  - intros s. apply forLoop_map; [reflexivity|]. intros. apply parseArrayToArrayIter_first.
  - intros s. apply forLoop_map; [reflexivity|]. intros. apply parseArrayToStructIter_first.
  - intros s. apply forLoop_map; [reflexivity|]. intros. apply parseMapIter_first.
  - intros s. apply forLoop_map; [reflexivity|]. intros. apply parseMapToMapIter_first.
  - intros s. apply forLoop_map; [reflexivity|]. intros. apply parseMapToStructIter_first.
  - intros u d'. apply arrayIters_continue.
  - intros s r d'. apply parseMapIter_abort.
  - intros s r d'. apply parseMapToMapIter_abort.
  - intros s r d'. apply parseMapToStructIter_abort.
Qed.

(** C5.  An element whose struct type does not resolve is not skipped:
    [parseMapToStruct] and [parseArrayToStruct] return the error of the
    resolution before they read anything, so the loop around them goes on
    at the bytes of that element.  For [{A: {}, B: 5}] into
    [struct { A U; B int }] the next key is read at the value of [A], the
    entry of [B] is taken for its value, and [B], which would decode, is
    not filled; an element that fails for another reason is skipped and
    [B] is filled.  For the array [[_ {}]] of indefinite length into
    [[]U], which the well-formedness pass accepts, the loop runs past the
    length of the slice and the decode panics. *)
Theorem unresolved_element_not_skipped :
  unmarshalInto defaultDecMode "a26141a0614205" structS (zeroValue structS)
  = Done (Some (TPtr structS, VPtr (Some (VStruct [VStruct [VInt 0]; VInt 0]))),
          Some (errorString (keyAsIntError "x")))
  /\ unmarshalInto defaultDecMode "a261416178614205" structS (zeroValue structS)
     = Done (Some (TPtr structS, VPtr (Some (VStruct [VStruct [VInt 0]; VInt 5]))),
             Some (UnmarshalTypeError "UTF-8 text string" "U" "S.A" ""))
  /\ valid 64 (newDecoder (hexDecode "9fa0ff") defaultDecMode)
     = Done (None, setOff (newDecoder (hexDecode "9fa0ff") defaultDecMode) 3)
  /\ unmarshalInto defaultDecMode "9fa0ff" (TSlice structU) (VSlice None) = Panic.
Proof. repeat split; vm_compute; reflexivity. Qed.

(** Two of three elements fail to decode: the one in between is filled,
    and the error is that of the first. *)
Example first_error_slice :
  unmarshalInto defaultDecMode "83616102f5" (TSlice tInt) (VSlice None)
  = Done (Some (TPtr (TSlice tInt), VPtr (Some (VSlice (Some ([VInt 0; VInt 2; VInt 0], 3%nat))))),
          Some (UnmarshalTypeError "UTF-8 text string" "int" "" "")).
Proof. vm_compute. reflexivity. Qed.

Example first_error_struct :
  unmarshalInto defaultDecMode "a26161f561626178" structAB (zeroValue structAB)
  = Done (Some (TPtr structAB, VPtr (Some (VStruct [VInt 0; VString "x"]))),
          Some (UnmarshalTypeError "primitives" "int" "T.A" "")).
Proof. vm_compute. reflexivity. Qed.

(** * Further properties of the decoder *)

Unset Implicit Arguments.

(** ** Heads: ranges and bounds *)

Lemma land_head (b : Z) :
  0 <= b < 256 -> In (Z.land b 0xe0) majorTypes /\ 0 <= Z.land b 0x1f < 32.
Proof.
  intros Hb.
  assert (A : forallb (fun n => existsb (Z.eqb (Z.land (Z.of_nat n) 0xe0)) majorTypes
                                && (0 <=? Z.land (Z.of_nat n) 0x1f)
                                && (Z.land (Z.of_nat n) 0x1f <? 32))
                (seq 0 256) = true) by (vm_compute; reflexivity).
  rewrite forallb_forall in A.
  specialize (A (Z.to_nat b)). rewrite Z2Nat.id in A by lia.
  assert (Hin : In (Z.to_nat b) (seq 0 256)) by (apply in_seq; lia).
  apply A in Hin. apply andb_prop in Hin as [Hin H3]. apply andb_prop in Hin as [H1 H2].
  apply existsb_exists in H1 as [t [Ht E]]. apply Z.eqb_eq in E. subst t.
  split; [exact Ht | lia].
Qed.

Lemma bigEndian_range_acc (l : list byte) (acc : Z) :
  0 <= acc ->
  0 <= fold_left (fun a b => a * 256 + u8 b) l acc
    < (acc + 1) * 256 ^ Z.of_nat (List.length l).
Proof.
  revert acc. induction l as [|b l IH]; intros acc Ha; cbn [fold_left List.length].
  - change (256 ^ Z.of_nat 0) with 1. lia.
  - pose proof (u8_range b) as Hb.
    specialize (IH (acc * 256 + u8 b) ltac:(lia)).
    rewrite Nat2Z.inj_succ, Z.pow_succ_r by lia.
    set (p := 256 ^ Z.of_nat (List.length l)) in *.
    assert (0 < p) by (apply Z.pow_pos_nonneg; lia).
    nia.
Qed.

Lemma bigEndian_range (l : list byte) :
  0 <= bigEndian l < 256 ^ Z.of_nat (List.length l).
Proof.
  pose proof (@bigEndian_range_acc l 0 ltac:(lia)) as H. unfold bigEndian. lia.
Qed.

Lemma bytesAt_length (i j : Z) (d d' : decoder) (bs : list byte) :
  bytesAt i j d = Done (bs, d') ->
  0 <= i <= j /\ j <= Z.of_nat (List.length (data d))
  /\ Z.of_nat (List.length bs) = j - i.
Proof.
  unfold bytesAt.
  destruct ((i <? 0) || (j <? i) || (Z.of_nat (List.length (data d)) <? j)) eqn:E;
    [discriminate|].
  apply orb_false_iff in E as [E E3]. apply orb_false_iff in E as [E1 E2].
  apply Z.ltb_ge in E1, E2, E3.
  intros H. inversion H; subst.
  rewrite length_firstn, length_skipn. lia.
Qed.

Lemma byteAt_bound (i : Z) (d d' : decoder) (b : Z) :
  byteAt i d = Done (b, d') -> 0 <= i < Z.of_nat (List.length (data d)).
Proof.
  unfold byteAt. destruct (i <? 0) eqn:E; [discriminate|]. apply Z.ltb_ge in E.
  destruct (nth_error (data d) (Z.to_nat i)) eqn:En; [|discriminate].
  intros _. assert (Z.to_nat i < List.length (data d))%nat
    by (apply nth_error_Some; congruence). lia.
Qed.

(** A head that [getHead] returns: the type is one of the eight major
    types, the additional information is below 32, the argument is a
    [uint64] (the additional information itself when that is below 24),
    and the offset has moved over the initial byte and the argument
    bytes, which all lie inside the input. *)
Theorem getHead_bounds (d d' : decoder) (t ai val : Z) :
  getHead d = Done ((t, ai, val), d') ->
  In t majorTypes /\ 0 <= ai < 32 /\ 0 <= val < 2 ^ 64
  /\ (ai < 24 \/ 27 < ai -> val = ai)
  /\ d' = setOff d (off d + 1 + argBytes ai)
  /\ 0 <= off d /\ off d' <= Z.of_nat (List.length (data d)).
Proof.
  rewrite getHead_eq.
  destruct (byteAt (off d) d) as [[b d0]| |] eqn:Eb; try discriminate.
  pose proof (byteAt_bound _ _ _ _ Eb) as Ho.
  apply byteAt_inv in Eb as [_ Hb].
  pose proof (land_head _ Hb) as [Ht Hai].
  cbv zeta.
  destruct (Z.ltb_spec (Z.land b 0x1f) 24) as [L|L].
  - intros H. inversion H; subst. unfold argBytes.
    replace (Z.land b 31 =? 24) with false by (symmetry; apply Z.eqb_neq; lia).
    replace (Z.land b 31 =? 25) with false by (symmetry; apply Z.eqb_neq; lia).
    replace (Z.land b 31 =? 26) with false by (symmetry; apply Z.eqb_neq; lia).
    replace (Z.land b 31 =? 27) with false by (symmetry; apply Z.eqb_neq; lia).
    rewrite Z.add_0_r. cbn [off setOff]. repeat split; try lia; auto.
  - destruct (Z.eqb_spec (Z.land b 0x1f) 24) as [E24|N24].
    + destruct (byteAt (off d + 1) (setOff d (off d + 1))) as [[v d1]| |] eqn:Ev;
        try discriminate.
      pose proof (byteAt_bound _ _ _ _ Ev) as Ho1. apply byteAt_inv in Ev as [_ Hv].
      intros H. inversion H; subst. cbn [off setOff data] in *.
      rewrite E24. repeat split; try lia; auto.
    + assert (W : forall w, 0 < w <= 8 ->
                 match bytesAt (off d + 1) (off d + 1 + w) (setOff d (off d + 1)) with
                 | Done (bs, _) =>
                     Done (Z.land b 224, Z.land b 31, bigEndian bs, setOff d (off d + 1 + w))
                 | Panic => Panic
                 | OutOfFuel => OutOfFuel
                 end = Done (t, ai, val, d') ->
                 t = Z.land b 224 /\ ai = Z.land b 31 /\ 0 <= val < 2 ^ 64
                 /\ d' = setOff d (off d + 1 + w)
                 /\ off d + 1 + w <= Z.of_nat (List.length (data d))).
      { intros w Hw H.
        destruct (bytesAt (off d + 1) (off d + 1 + w) (setOff d (off d + 1)))
          as [[bs d1]| |] eqn:Es; try discriminate.
        apply bytesAt_length in Es as [_ [Hj Hl]]. cbn [data setOff] in Hj.
        inversion H; subst. pose proof (bigEndian_range bs) as Hr.
        assert (256 ^ Z.of_nat (List.length bs) <= 2 ^ 64).
        { replace (Z.of_nat (List.length bs)) with w by lia.
          change 256 with (2 ^ 8). rewrite <- Z.pow_mul_r by lia.
          apply Z.pow_le_mono_r; lia. }
        repeat split; try lia. }
      destruct (Z.eqb_spec (Z.land b 0x1f) 25) as [E25|N25];
        [intros H; apply (W 2) in H; [|lia]; destruct H as (-> & -> & Hv & -> & Hl);
         cbn [off setOff]; rewrite E25 in *; repeat split; try lia; auto|].
      destruct (Z.eqb_spec (Z.land b 0x1f) 26) as [E26|N26];
        [intros H; apply (W 4) in H; [|lia]; destruct H as (-> & -> & Hv & -> & Hl);
         cbn [off setOff]; rewrite E26 in *; repeat split; try lia; auto|].
      destruct (Z.eqb_spec (Z.land b 0x1f) 27) as [E27|N27];
        [intros H; apply (W 8) in H; [|lia]; destruct H as (-> & -> & Hv & -> & Hl);
         cbn [off setOff]; rewrite E27 in *; repeat split; try lia; auto|].
      intros H. inversion H; subst. unfold argBytes.
      rewrite (proj2 (Z.eqb_neq _ _) N24), (proj2 (Z.eqb_neq _ _) N25),
        (proj2 (Z.eqb_neq _ _) N26), (proj2 (Z.eqb_neq _ _) N27).
      rewrite Z.add_0_r. cbn [off setOff].
      repeat split; try lia; auto.
Qed.

Lemma getHead_bounds_witness :
  let d := newDecoder (hexDecode "1903e8") defaultDecMode in
  getHead d = Done ((cborTypePositiveInt, 25, 1000), setOff d 3)
  /\ In cborTypePositiveInt majorTypes /\ 0 <= 25 < 32 /\ 0 <= 1000 < 2 ^ 64
  /\ (25 < 24 \/ 27 < 25 -> 1000 = 25)
  /\ setOff d 3 = setOff d (off d + 1 + argBytes 25)
  /\ 0 <= off d /\ off (setOff d 3) <= Z.of_nat (List.length (data d)).
Proof.
  intros d.
  assert (H : getHead d = Done ((cborTypePositiveInt, 25, 1000), setOff d 3)) by reflexivity.
  exact (conj H (getHead_bounds d _ _ _ _ H)).
Defined.

(** ** Loops: invariants *)

Lemma forLoop_inv {S R : Type} (P : Z -> S -> Prop) (n : nat) (cond : Z -> S -> M bool)
    (body : Z -> S -> M (S + R)) :
  (forall i s d s' d', P i s -> body i s d = Done (inl s', d') -> P (i + 1) s') ->
  forall i s d r d',
    P i s -> forLoop n cond body i s d = Done (inl r, d') ->
    exists j, i <= j <= i + Z.of_nat n /\ P j r.
Proof.
  intros Hb. induction n as [|n IH]; intros i s d r d' HP H; cbn [forLoop] in H;
    unfold bind in H; destruct (cond i s d) as [[c d1]| |]; try discriminate;
    destruct c; cbn [negb] in H; try discriminate.
  - inversion H; subst. exists i. split; [lia | exact HP].
  - destruct (body i s d1) as [[[s'|x] d2]| |] eqn:Eb; try discriminate.
    eapply IH in H; [|eapply Hb; eassumption].
    destruct H as [j [Hj HPj]]. exists j. split; [lia | exact HPj].
  - inversion H; subst. exists i. split; [lia | exact HP].
Qed.

(** [numOfItemsUntilBreak] only looks ahead: whatever it counts, the
    decoder is afterwards exactly as it was, offset included, and the
    count is not negative. *)
Theorem numOfItemsUntilBreak_peek (f : nat) (d d' : decoder) (n : Z) :
  numOfItemsUntilBreak f d = Done (n, d') -> d' = d /\ 0 <= n <= Z.of_nat f.
Proof.
  intros H. split; [eapply numOfItemsUntilBreak_inv; exact H|].
  unfold numOfItemsUntilBreak, bind, getOff, putOff, ret in H.
  match type of H with
  | context [forLoop f ?c ?b 0 0 d] =>
      destruct (forLoop f c b 0 0 d) as [[[i|u] d1]| |] eqn:El; try discriminate
  end.
  - inversion H; subst.
    eapply (forLoop_inv (fun i s => s = i)) in El; [| |reflexivity].
    + destruct El as [j [Hj ->]]. lia.
    + intros i0 s d0 s' d0' -> Hb. unfold bind, ret in Hb.
      destruct (skip f d0) as [[u d2]| |]; try discriminate.
      inversion Hb. reflexivity.
  - inversion H; subst. lia.
Qed.

Lemma numOfItemsUntilBreak_peek_witness :
  let d := setOff (newDecoder (hexDecode "9f010203ff") defaultDecMode) 1 in
  numOfItemsUntilBreak 4 d = Done (3, d) /\ d = d /\ 0 <= 3 <= Z.of_nat 4.
Proof.
  intros d.
  assert (H : numOfItemsUntilBreak 4 d = Done (3, d)) by reflexivity.
  exact (conj H (numOfItemsUntilBreak_peek 4 d d 3 H)).
Defined.

(** ** The fill functions *)

Lemma setVal_outcome (t : Z) (v v' : rvalue) (x : goval) :
  rbind (setVal v x) (fun v1 => Done (v1, @None error)) = Done (v', None) ->
  fillOutcome t v v' None.
Proof.
  unfold setVal. destruct (canSet v) eqn:E; [|discriminate]. cbn [rbind].
  intros H. inversion H; subst. unfold fillOutcome. cbn [rtype canSet]. auto.
Qed.

Lemma setVal_noerr (v v' : rvalue) (x : goval) (e : error) :
  rbind (setVal v x) (fun v1 => Done (v1, @None error)) <> Done (v', Some e).
Proof. unfold setVal. destruct (canSet v); cbn [rbind]; discriminate. Qed.

Lemma SetFloat_outcome (t : Z) (v v' : rvalue) (bits : Z) (oe : option error) :
  rbind (SetFloat v bits) (fun v1 => Done (v1, @None error)) = Done (v', oe) ->
  fillOutcome t v v' oe.
Proof.
  unfold SetFloat. intros H.
  destruct (rKind v); destruct oe as [e|];
    solve [ exfalso; eapply setVal_noerr; exact H | eapply setVal_outcome; exact H ].
Qed.

Lemma typeErr_outcome (t : Z) (v : rvalue) (msg : string) :
  fillOutcome t v v (Some (typeErr t (rtype v) msg)).
Proof. unfold fillOutcome. repeat split. exists msg. reflexivity. Qed.

Ltac fill_tac :=
  match goal with
  | H : Done (_, Some _) = Done (_, _) |- _ => inversion H; subst; apply typeErr_outcome
  | H : rbind (SetFloat _ _) _ = Done _ |- _ => eapply SetFloat_outcome; exact H
  | H : rbind (setVal _ _) _ = Done (_, ?oe) |- _ =>
      destruct oe;
      [ exfalso; eapply setVal_noerr; exact H | eapply setVal_outcome; exact H ]
  end.

(** The fill functions change at most the value of their target, and
    not even that when they return an error: the target is then exactly
    as before and the error is an [UnmarshalTypeError] for the CBOR type
    and the target's Go type.  [fillNil] returns no error.  For
    [fillByteString] this holds unless the target's pointer type has an
    [UnmarshalBinary] method, which then decides. *)
Theorem fill_outcome (lib : golib) (t : Z) (v v' : rvalue) (oe : option error) :
  (fillNil t v = Done (v', oe) -> oe = None /\ fillOutcome t v v' oe)
  /\ (forall val, fillPositiveInt t val v = Done (v', oe) -> fillOutcome t v v' oe)
  /\ (forall val, fillNegativeInt t val v = Done (v', oe) -> fillOutcome t v v' oe)
  /\ (forall val, fillBool t val v = Done (v', oe) -> fillOutcome t v v' oe)
  /\ (forall val, fillFloat lib t val v = Done (v', oe) -> fillOutcome t v v' oe)
  /\ (forall val, fillTextString t val v = Done (v', oe) -> fillOutcome t v v' oe)
  /\ (forall val, ptrImplementsBinaryUnmarshaler (rtype v) = false ->
                  fillByteString lib t val v = Done (v', oe) -> fillOutcome t v v' oe).
Proof.
  repeat match goal with |- _ /\ _ => split end.
  - unfold fillNil. intros H.
    destruct (rKind v);
      try (inversion H; subst; split; [reflexivity|]; unfold fillOutcome; auto);
      (destruct oe as [e|]; [exfalso; eapply setVal_noerr; exact H|];
       split; [reflexivity | eapply setVal_outcome; exact H]).
  - intros val H. unfold fillPositiveInt in H.
    destruct (isIntKind (rKind v)).
    { destruct (MaxInt64 <? val); [fill_tac|].
      destruct (OverflowInt v (toInt64 val)); fill_tac. }
    destruct (isUintKind (rKind v)).
    { destruct (OverflowUint v val); fill_tac. }
    destruct (isFloatKind (rKind v)); [fill_tac|].
    destruct (gotype_eqb (rtype v) TBigInt); fill_tac.
  - intros val H. unfold fillNegativeInt in H.
    destruct (isIntKind (rKind v)).
    { destruct (OverflowInt v val); fill_tac. }
    destruct (isFloatKind (rKind v)); [fill_tac|].
    destruct (gotype_eqb (rtype v) TBigInt); fill_tac.
  - intros val H. unfold fillBool in H. destruct (rKind v); fill_tac.
  - intros val H. unfold fillFloat in H.
    destruct (isFloatKind (rKind v)); [|fill_tac].
    destruct (OverflowFloat v val); fill_tac.
  - intros val H. unfold fillTextString in H. destruct (rKind v); fill_tac.
  - intros val Hb H. unfold fillByteString in H. rewrite Hb in H.
    destruct (rKind v); try fill_tac;
      destruct (kindOf (elemOf (rtype v))); try fill_tac.
    destruct (rval v); try discriminate.
    destruct (canSet v || Nat.eqb (List.length l) 0); [|discriminate].
    inversion H; subst. unfold fillOutcome, withVal. cbn [rtype canSet]. auto.
Qed.

Lemma fill_outcome_witness :
  let v := RV (TBasic BInt8) (VInt 5) true in
  let e := typeErr cborTypePositiveInt (TBasic BInt8) "200 overflows int8" in
  fillPositiveInt cborTypePositiveInt 200 v = Done (v, Some e)
  /\ fillOutcome cborTypePositiveInt v v (Some e).
Proof.
  intros v e.
  assert (H : fillPositiveInt cborTypePositiveInt 200 v = Done (v, Some e)) by reflexivity.
  refine (conj H _).
  exact (proj1 (proj2 (fill_outcome asciiLib cborTypePositiveInt v v (Some e))) 200 H).
Defined.

Lemma toInt_small (val : Z) : 0 <= val -> val <= MaxInt64 -> toInt64 val = val.
Proof.
  intros H0 H1. unfold toInt64, toInt, MaxInt64 in *.
  destruct (Z.ltb_spec val (2 ^ 63)); [reflexivity | lia].
Qed.

Lemma fillPositiveInt_int (t val : Z) (v : rvalue) :
  0 <= val < 2 ^ 64 -> canSet v = true -> isIntKind (rKind v) = true ->
  fillPositiveInt t val v
  = if val <=? 2 ^ (kindBits (rKind v) - 1) - 1
    then Done (RV (rtype v) (VInt val) true, None)
    else Done (v, Some (overflowErr t val v)).
Proof.
  intros Hv Hs Hk. unfold fillPositiveInt, overflowErr.
  rewrite Hk. destruct (Z.ltb_spec MaxInt64 val) as [L|L].
  - replace (val <=? 2 ^ (kindBits (rKind v) - 1) - 1) with false; [reflexivity|].
    symmetry. apply Z.leb_gt. unfold MaxInt64 in L.
    destruct (rKind v); cbn [kindBits]; lia.
  - rewrite (toInt_small _ (proj1 Hv) L). unfold OverflowInt, setVal. rewrite Hs.
    assert (0 < 2 ^ (kindBits (rKind v) - 1))
      by (destruct (rKind v); cbn [kindBits]; lia).
    replace (val <? - 2 ^ (kindBits (rKind v) - 1)) with false
      by (symmetry; apply Z.ltb_ge; lia).
    cbn [orb].
    destruct (Z.leb_spec val (2 ^ (kindBits (rKind v) - 1) - 1)).
    + replace (2 ^ (kindBits (rKind v) - 1) - 1 <? val) with false
        by (symmetry; apply Z.ltb_ge; lia). reflexivity.
    + replace (2 ^ (kindBits (rKind v) - 1) - 1 <? val) with true
        by (symmetry; apply Z.ltb_lt; lia). reflexivity.
Qed.

Lemma fillPositiveInt_uint (t val : Z) (v : rvalue) :
  canSet v = true -> isUintKind (rKind v) = true ->
  fillPositiveInt t val v
  = if val <=? 2 ^ kindBits (rKind v) - 1
    then Done (RV (rtype v) (VUint val) true, None)
    else Done (v, Some (overflowErr t val v)).
Proof.
  intros Hs Hk. unfold fillPositiveInt, overflowErr.
  assert (Hi : isIntKind (rKind v) = false)
    by (destruct (rKind v); try discriminate; reflexivity).
  rewrite Hi, Hk. unfold OverflowUint, setVal. rewrite Hs.
  destruct (Z.leb_spec val (2 ^ kindBits (rKind v) - 1)).
  - replace (2 ^ kindBits (rKind v) - 1 <? val) with false
      by (symmetry; apply Z.ltb_ge; lia). reflexivity.
  - replace (2 ^ kindBits (rKind v) - 1 <? val) with true
      by (symmetry; apply Z.ltb_lt; lia). reflexivity.
Qed.

(** A CBOR unsigned integer is stored into a settable target of a signed
    or unsigned integer kind exactly when it fits the width of the kind;
    otherwise the target is left as it is and the error says that the
    value overflows the type. *)
Theorem fillPositiveInt_fits (t val : Z) (v : rvalue) :
  0 <= val < 2 ^ 64 -> canSet v = true ->
  (isIntKind (rKind v) = true ->
   fillPositiveInt t val v
   = if val <=? 2 ^ (kindBits (rKind v) - 1) - 1
     then Done (RV (rtype v) (VInt val) true, None)
     else Done (v, Some (typeErr t (rtype v)
                           (Zstr val ++ " overflows " ++ typeString (rtype v)))))
  /\ (isUintKind (rKind v) = true ->
      fillPositiveInt t val v
      = if val <=? 2 ^ kindBits (rKind v) - 1
        then Done (RV (rtype v) (VUint val) true, None)
        else Done (v, Some (typeErr t (rtype v)
                              (Zstr val ++ " overflows " ++ typeString (rtype v))))).
Proof.
  intros Hv Hs. split; intros Hk.
  - exact (fillPositiveInt_int t val v Hv Hs Hk).
  - exact (fillPositiveInt_uint t val v Hs Hk).
Qed.

Lemma fillPositiveInt_fits_witness :
  let v := RV (TBasic BUint8) (VUint 7) true in
  0 <= 256 < 2 ^ 64 /\ canSet v = true /\ isUintKind (rKind v) = true
  /\ fillPositiveInt cborTypePositiveInt 256 v
     = Done (v, Some (typeErr cborTypePositiveInt (TBasic BUint8) "256 overflows uint8")).
Proof.
  intros v.
  assert (H1 : 0 <= 256 < 2 ^ 64) by (cbv; split; congruence).
  assert (H2 : canSet v = true) by reflexivity.
  assert (H3 : isUintKind (rKind v) = true) by reflexivity.
  refine (conj H1 (conj H2 (conj H3 _))).
  rewrite (proj2 (fillPositiveInt_fits cborTypePositiveInt 256 v H1 H2) H3).
  reflexivity.
Defined.

Lemma gotype_eqb_BigInt (t : gotype) : gotype_eqb t TBigInt = true -> t = TBigInt.
Proof. destruct t; try discriminate. reflexivity. Qed.

Lemma fillNegativeInt_int (t val : Z) (v : rvalue) :
  val < 0 -> canSet v = true -> isIntKind (rKind v) = true ->
  fillNegativeInt t val v
  = if - 2 ^ (kindBits (rKind v) - 1) <=? val
    then Done (RV (rtype v) (VInt val) true, None)
    else Done (v, Some (overflowErr t val v)).
Proof.
  intros Hv Hs Hk. unfold fillNegativeInt, overflowErr.
  rewrite Hk. unfold OverflowInt, setVal. rewrite Hs.
  replace (2 ^ (kindBits (rKind v) - 1) - 1 <? val) with false.
  - rewrite orb_false_r.
    destruct (Z.leb_spec (- 2 ^ (kindBits (rKind v) - 1)) val).
    + replace (val <? - 2 ^ (kindBits (rKind v) - 1)) with false
        by (symmetry; apply Z.ltb_ge; lia). reflexivity.
    + replace (val <? - 2 ^ (kindBits (rKind v) - 1)) with true
        by (symmetry; apply Z.ltb_lt; lia). reflexivity.
  - symmetry. apply Z.ltb_ge.
    assert (0 < 2 ^ (kindBits (rKind v) - 1))
      by (destruct (rKind v); cbn [kindBits]; lia).
    lia.
Qed.

Lemma fillNegativeInt_uint (t val : Z) (v : rvalue) :
  isUintKind (rKind v) = true ->
  fillNegativeInt t val v = Done (v, Some (typeErr t (rtype v) "")).
Proof.
  intros Hk. unfold fillNegativeInt.
  assert (Hi : isIntKind (rKind v) = false)
    by (destruct (rKind v); try discriminate; reflexivity).
  assert (Hf : isFloatKind (rKind v) = false)
    by (destruct (rKind v); try discriminate; reflexivity).
  rewrite Hi, Hf.
  destruct (gotype_eqb (rtype v) TBigInt) eqn:Eb; [|reflexivity].
  apply gotype_eqb_BigInt in Eb. unfold rKind in Hk. rewrite Eb in Hk. discriminate.
Qed.

(** A CBOR negative integer is stored into a settable target of a signed
    integer kind exactly when it fits the width of the kind; into a
    target of an unsigned integer kind it is never stored: the target is
    left as it is and an [UnmarshalTypeError] is returned. *)
Theorem fillNegativeInt_fits (t val : Z) (v : rvalue) :
  val < 0 -> canSet v = true ->
  (isIntKind (rKind v) = true ->
   fillNegativeInt t val v
   = if - 2 ^ (kindBits (rKind v) - 1) <=? val
     then Done (RV (rtype v) (VInt val) true, None)
     else Done (v, Some (typeErr t (rtype v)
                           (Zstr val ++ " overflows " ++ typeString (rtype v)))))
  /\ (isUintKind (rKind v) = true ->
      fillNegativeInt t val v = Done (v, Some (typeErr t (rtype v) ""))).
Proof.
  intros Hv Hs. split; intros Hk.
  - exact (fillNegativeInt_int t val v Hv Hs Hk).
  - exact (fillNegativeInt_uint t val v Hk).
Qed.

Lemma fillNegativeInt_fits_witness :
  let v := RV (TBasic BUint16) (VUint 7) true in
  -1 < 0 /\ canSet v = true /\ isUintKind (rKind v) = true
  /\ fillNegativeInt cborTypeNegativeInt (-1) v
     = Done (v, Some (typeErr cborTypeNegativeInt (TBasic BUint16) "")).
Proof.
  intros v.
  assert (H1 : -1 < 0) by reflexivity.
  assert (H2 : canSet v = true) by reflexivity.
  assert (H3 : isUintKind (rKind v) = true) by reflexivity.
  refine (conj H1 (conj H2 (conj H3 _))).
  exact (proj2 (fillNegativeInt_fits cborTypeNegativeInt (-1) v H1 H2) H3).
Defined.

Lemma byteOfZ_u8 (b : byte) : byteOfZ (u8 b) = b.
Proof. destruct b; vm_compute; reflexivity. Qed.

Lemma bytesOfVal_bytesVal (val : list byte) : bytesOfVal (bytesVal val) = val.
Proof.
  unfold bytesOfVal, bytesVal.
  rewrite <- (length_map (fun b => VUint (u8 b)) val) at 1. rewrite firstn_all, map_map.
  induction val as [|b r IH]; cbn [map]; [reflexivity|].
  rewrite byteOfZ_u8, IH. reflexivity.
Qed.



(** ** Tags in front of an item *)

Lemma getHead_type (d d' : decoder) (t ai val t0 : Z) (d0 : decoder) :
  getHead d = Done ((t, ai, val), d') -> nextCBORType d = Done (t0, d0) -> t = t0.
Proof.
  intros Hg Hn. apply nextCBORType_inv in Hn as [_ [b [Hb ->]]].
  rewrite getHead_eq in Hg. unfold nextByte in Hb. rewrite Hb in Hg. cbv zeta in Hg.
  repeat match type of Hg with
         | context [if ?c then _ else _] => destruct c
         | context [match ?x with _ => _ end] => destruct x as [[? ?]| |]; try discriminate
         end; inversion Hg; reflexivity.
Qed.

Lemma putOff_back (d d1 : decoder) :
  data d1 = data d -> dm d1 = dm d -> putOff (off d) d1 = Done (tt, d).
Proof. intros Hd Hm. unfold putOff. rewrite (setOff_same d d1 Hd Hm). reflexivity. Qed.

Lemma skip_tag (f : nat) (d d1 : decoder) (ai val : Z) :
  getHead d = Done ((cborTypeTag, ai, val), d1) -> skip (Datatypes.S f) d = skip f d1.
Proof.
  intros Hg. cbn [skip]. unfold bind. rewrite Hg.
  change (isStringArrayMap cborTypeTag) with false. rewrite andb_false_r. reflexivity.
Qed.

(** The check of the built-in tags only looks ahead when it accepts: the
    decoder is then exactly as before.  It rejects only the tag numbers 0
    to 3, and then the whole tagged item has been skipped. *)
Theorem checkBuiltinTag_lookahead (f : nat) (d d' : decoder) (oe : option error) :
  checkBuiltinTag f d = Done (oe, d') ->
  match oe with
  | None => d' = d
  | Some e =>
      skip (Datatypes.S f) d = Done (tt, d')
      /\ exists ai tagNum d1 h,
           getHead d = Done ((cborTypeTag, ai, tagNum), d1)
           /\ nextByte d1 h /\ validBuiltinTag tagNum h = Some e /\ 0 <= tagNum <= 3
  end.
Proof.
  unfold checkBuiltinTag. unfold bind at 1.
  destruct (nextCBORType d) as [[t d0]| |] eqn:En; try discriminate.
  pose proof En as En'. apply nextCBORType_inv in En' as [-> _].
  destruct (Z.eqb_spec t cborTypeTag) as [Et|Nt].
  - unfold bind, getOff.
    destruct (getHead d) as [[[[t' ai] tagNum] d1]| |] eqn:Eg; try discriminate.
    pose proof (getHead_type _ _ _ _ _ _ _ Eg En) as Ht. subst t' t.
    destruct (byteAt (off d1) d1) as [[h d2]| |] eqn:Eh; try discriminate.
    pose proof Eh as Eh'. apply byteAt_inv in Eh' as [-> _].
    destruct (validBuiltinTag tagNum h) as [e|] eqn:Ev.
    + destruct (skip f d1) as [[[] d3]| |] eqn:Es; try discriminate.
      intros H. inversion H; subst. split.
      * rewrite (skip_tag f _ _ _ _ Eg). exact Es.
      * exists ai, tagNum, d1, h. repeat split; auto.
        -- unfold validBuiltinTag in Ev.
           destruct (Z.eqb_spec tagNum 0); [lia|].
           destruct (Z.eqb_spec tagNum 1); [lia|].
           destruct (Z.eqb_spec tagNum 2); [lia|].
           destruct (Z.eqb_spec tagNum 3); [lia|]. discriminate.
        -- unfold validBuiltinTag in Ev.
           destruct (Z.eqb_spec tagNum 0); [lia|].
           destruct (Z.eqb_spec tagNum 1); [lia|].
           destruct (Z.eqb_spec tagNum 2); [lia|].
           destruct (Z.eqb_spec tagNum 3); [lia|]. discriminate.
    + destruct (pres_getHead _ Eg) as [Hd Hm].
      rewrite (putOff_back d d1 Hd Hm). intros H. inversion H; subst. reflexivity.
  - intros H. inversion H; subst. reflexivity.
Qed.

Lemma checkBuiltinTag_lookahead_witness :
  let d := newDecoder (hexDecode "c2f5") defaultDecMode in
  let e := errorString "cbor: tag number 2 or 3 must be followed by byte string, got primitives" in
  checkBuiltinTag 2 d = Done (Some e, setOff d 2)
  /\ skip 3 d = Done (tt, setOff d 2)
  /\ exists ai tagNum d1 h,
       getHead d = Done ((cborTypeTag, ai, tagNum), d1)
       /\ nextByte d1 h /\ validBuiltinTag tagNum h = Some e /\ 0 <= tagNum <= 3.
Proof.
  intros d e.
  assert (H : checkBuiltinTag 2 d = Done (Some e, setOff d 2)) by reflexivity.
  exact (conj H (checkBuiltinTag_lookahead 2 d (setOff d 2) (Some e) H)).
Defined.

(** [Strip self-described CBOR tag number]: afterwards the input and the
    mode are unchanged, and the head that is next is not the tag number
    55799. *)
Theorem stripSelfDescribed_post (f : nat) (d d' : decoder) :
  stripSelfDescribed f d = Done (tt, d') ->
  data d' = data d /\ dm d' = dm d
  /\ forall t ai n d2, getHead d' = Done ((t, ai, n), d2) ->
                       t = cborTypeTag -> n <> selfDescribedCBORTagNum.
Proof.
  unfold stripSelfDescribed. unfold bind at 1.
  match goal with
  | |- context [forLoop f ?c ?b 0 tt d] => set (cond := c); set (body := b)
  end.
  assert (L : forall n i d0 r d1,
             forLoop n cond body i tt d0 = Done (r, d1) ->
             data d1 = data d0 /\ dm d1 = dm d0
             /\ forall t ai n d2, getHead d1 = Done ((t, ai, n), d2) ->
                                  t = cborTypeTag -> n <> selfDescribedCBORTagNum).
  { induction n as [|n IH]; intros i d0 r d1 H; cbn [forLoop] in H;
      unfold bind at 1 in H; unfold cond at 1 in H; unfold bind at 1 in H;
      destruct (nextCBORType d0) as [[t0 d0']| |] eqn:En; try discriminate;
      pose proof En as En'; apply nextCBORType_inv in En' as [-> _];
      unfold ret at 1 in H;
      destruct (Z.eqb_spec t0 cborTypeTag) as [Et|Nt]; cbn [negb] in H;
      try discriminate.
    - inversion H; subst. repeat split; auto.
      intros t ai n' d2 Hg Ht. pose proof (getHead_type _ _ _ _ _ _ _ Hg En). congruence.
    - unfold bind at 1 in H. unfold body at 1 in H. unfold bind at 1 in H.
      unfold getOff at 1 in H. unfold bind at 1 in H.
      destruct (getHead d0) as [[[[t ai] tagNum] d2]| |] eqn:Eg; try discriminate.
      destruct (pres_getHead _ Eg) as [Hd Hm].
      destruct (Z.eqb_spec tagNum selfDescribedCBORTagNum) as [Es|Ns]; cbn [negb] in H.
      + unfold ret at 1 in H. apply IH in H. destruct H as (Hd' & Hm' & Hp).
        repeat split; try congruence. exact Hp.
      + unfold bind at 1 in H. rewrite (putOff_back d0 d2 Hd Hm) in H.
        inversion H; subst. repeat split; auto.
        intros t' ai' n' d3 Hg' _. rewrite Eg in Hg'. inversion Hg'; subst. exact Ns.
    - inversion H; subst. repeat split; auto.
      intros t ai n' d2 Hg Ht. pose proof (getHead_type _ _ _ _ _ _ _ Hg En). congruence. }
  destruct (forLoop f cond body 0 tt d) as [[r d1]| |] eqn:El; try discriminate.
  intros H. inversion H; subst. exact (L _ _ _ _ _ El).
Qed.

Lemma stripSelfDescribed_post_witness :
  let d := newDecoder (hexDecode "d9d9f7d9d9f7c101") defaultDecMode in
  stripSelfDescribed 4 d = Done (tt, setOff d 6)
  /\ data (setOff d 6) = data d /\ dm (setOff d 6) = dm d
  /\ forall t ai n d2, getHead (setOff d 6) = Done ((t, ai, n), d2) ->
                       t = cborTypeTag -> n <> selfDescribedCBORTagNum.
Proof.
  intros d.
  assert (H : stripSelfDescribed 4 d = Done (tt, setOff d 6)) by reflexivity.
  exact (conj H (stripSelfDescribed_post 4 d (setOff d 6) H)).
Defined.

(** ** The decoder reads its input and its mode, and writes neither *)

Section Preservation.

Variable lib : golib.
Variable f : nat.
Variable R : Rec.
Hypothesis pres_parseToValueR : forall t v, pres (parseToValueR R t v).
Hypothesis pres_parseR : forall b, pres (parseR R b).

Ltac pres_one :=
  first
    [ apply pres_ret | apply pres_getOff | apply pres_getDm | apply pres_putOff
    | apply pres_byteAt | apply pres_bytesAt | apply pres_panic | apply pres_outOfFuel
    | apply pres_lift
    | apply pres_getHead | apply pres_foundBreak | apply pres_nextCBORType
    | apply pres_nextCBORNil | apply pres_skip | apply pres_more
    | apply pres_parseToValueR | apply pres_parseR
    | apply pres_forLoop; intros
    | apply pres_bind; [|intros]
    | apply pres_if
    | progress cbv zeta
    | match goal with
      | |- pres (let '(_, _) := ?x in _) => destruct x
      | |- pres (match ?x with _ => _ end) => destruct x
      end
    | assumption ].

Ltac pres_with tac := repeat first [ tac | pres_one ].

Ltac pres_auto := repeat pres_one.

Lemma pres_collectTagNums (l : list Z) : pres (collectTagNums f l).
Proof. unfold collectTagNums. pres_auto. Qed.

Lemma pres_stripSelfDescribed : pres (stripSelfDescribed f).
Proof. unfold stripSelfDescribed. pres_auto. Qed.

Lemma pres_checkBuiltinTag : pres (checkBuiltinTag f).
Proof. unfold checkBuiltinTag. pres_auto. Qed.

Lemma pres_parseByteString : pres (parseByteString f).
Proof. unfold parseByteString. pres_auto. Qed.

Lemma pres_parseTextString : pres (parseTextString f).
Proof. unfold parseTextString. pres_auto. Qed.

Lemma pres_parseToTime : pres (parseToTime lib f R).
Proof. unfold parseToTime. pres_auto. Qed.

Lemma pres_parseToTag (v : rvalue) : pres (parseToTag f R v).
Proof. unfold parseToTag. pres_auto. Qed.

Lemma pres_parseToUnmarshaler (v : rvalue) : pres (parseToUnmarshaler lib f v).
Proof. unfold parseToUnmarshaler. pres_auto. Qed.

Lemma pres_skipRestOfMap (hasSize : bool) (count i : Z) :
  pres (skipRestOfMap f hasSize count i).
Proof. unfold skipRestOfMap. pres_auto. Qed.

Lemma pres_numOfItemsUntilBreak (n : nat) : pres (numOfItemsUntilBreak n).
Proof. unfold numOfItemsUntilBreak. pres_auto. Qed.

Lemma pres_parseArray : pres (parseArray f R).
Proof.
  unfold parseArray, parseArrayIter.
  pres_with ltac:(apply pres_numOfItemsUntilBreak).
Qed.

Lemma pres_parseMap : pres (parseMap f R).
Proof.
  unfold parseMap, parseMapIter.
  pres_with ltac:(apply pres_skipRestOfMap).
Qed.

Lemma pres_parse (b : bool) : pres (parse lib f R b).
Proof.
  unfold parse.
  pres_with ltac:(first
    [ apply pres_stripSelfDescribed | apply pres_checkBuiltinTag
    | apply pres_parseByteString | apply pres_parseTextString | apply pres_parseToTime
    | apply pres_collectTagNums | apply pres_parseArray | apply pres_parseMap ]).
Qed.

Lemma pres_parseArrayToSlice (v : rvalue) (tInfo : gotype) :
  pres (parseArrayToSlice f R v tInfo).
Proof.
  unfold parseArrayToSlice, parseArrayToSliceIter.
  pres_with ltac:(apply pres_numOfItemsUntilBreak).
Qed.

Lemma pres_parseArrayToArray (v : rvalue) (tInfo : gotype) :
  pres (parseArrayToArray f R v tInfo).
Proof. unfold parseArrayToArray, parseArrayToArrayIter. pres_auto. Qed.

Lemma pres_parseMapToMap (v : rvalue) (tInfo : gotype) :
  pres (parseMapToMap f R v tInfo).
Proof.
  unfold parseMapToMap, parseMapToMapIter.
  pres_with ltac:(apply pres_skipRestOfMap).
Qed.

Lemma pres_decodeField (v : rvalue) (fld : field) (nm : string) (err : option error) :
  pres (decodeField f R v fld nm err).
Proof. unfold decodeField. pres_auto. Qed.

Lemma pres_parseArrayToStruct (v : rvalue) (tInfo : gotype) :
  pres (parseArrayToStruct f R v tInfo).
Proof.
  unfold parseArrayToStruct, parseArrayToStructIter.
  pres_with ltac:(first [apply pres_numOfItemsUntilBreak | apply pres_decodeField]).
Qed.

Lemma pres_parseStructKey (fields : list field) (s : mapToStructState) :
  pres (parseStructKey lib f R fields s).
Proof.
  unfold parseStructKey. pres_with ltac:(apply pres_parseTextString).
Qed.

Lemma pres_parseMapToStruct (v : rvalue) (tInfo : gotype) :
  pres (parseMapToStruct lib f R v tInfo).
Proof.
  unfold parseMapToStruct, parseMapToStructIter.
  pres_with ltac:(first [apply pres_parseStructKey | apply pres_skipRestOfMap
                        | apply pres_decodeField]).
Qed.

Lemma pres_ifaceStage (tInfo : gotype) (v : rvalue) : pres (ifaceStage lib f tInfo v).
Proof. unfold ifaceStage. pres_with ltac:(apply pres_collectTagNums). Qed.

Lemma pres_derefLoop (n : nat) (v : rvalue) (wrap : goval -> goval) :
  pres (derefLoop f n v wrap).
Proof.
  revert v wrap. induction n as [|n IH]; intros v wrap; cbn [derefLoop];
    destruct (rKind v); pres_auto; apply IH.
Qed.

Lemma pres_checkRegisteredTag (tInfo : gotype) : pres (checkRegisteredTag f tInfo).
Proof. unfold checkRegisteredTag. pres_with ltac:(apply pres_collectTagNums). Qed.

Lemma pres_parseByType (tInfo : gotype) (v : rvalue) : pres (parseByType lib f R tInfo v).
Proof.
  unfold parseByType.
  pres_with ltac:(first
    [ apply pres_parseByteString | apply pres_parseTextString
    | apply pres_parseArrayToSlice | apply pres_parseArrayToArray
    | apply pres_parseArrayToStruct | apply pres_parseMapToStruct
    | apply pres_parseMapToMap ]).
Qed.

Lemma pres_parseInto (tInfo : gotype) (v : rvalue) : pres (parseInto lib f R tInfo v).
Proof.
  unfold parseInto.
  apply pres_bind; [apply pres_stripSelfDescribed|intros _].
  apply pres_bind; [apply pres_checkBuiltinTag|intros be].
  destruct be; [apply pres_ret|].
  unfold parseSpecial. destruct (spclType tInfo);
  pres_with ltac:(first
    [ apply pres_stripSelfDescribed | apply pres_checkBuiltinTag
    | apply pres_parseToTag | apply pres_parseToTime | apply pres_parseToUnmarshaler
    | apply pres_checkRegisteredTag | apply pres_parseByType ]).
Qed.

Lemma pres_parseToValue (tInfo : gotype) (v : rvalue) : pres (parseToValue lib f R tInfo v).
Proof.
  unfold parseToValue.
  pres_with ltac:(first
    [ apply pres_ifaceStage | apply pres_derefLoop | apply pres_parseInto ]).
Qed.

End Preservation.

Lemma pres_decoders (lib : golib) (fuel : nat) :
  (forall t v, pres (parseToValueR (decoders lib fuel) t v))
  /\ (forall b, pres (parseR (decoders lib fuel) b)).
Proof.
  induction fuel as [|f [IH1 IH2]]; cbn [decoders parseToValueR parseR].
  - split; intros; apply pres_outOfFuel.
  - split; intros.
    + apply pres_parseToValue; assumption.
    + apply pres_parse; assumption.
Qed.

(** Decoding never changes the input bytes or the decoding mode: at any
    fuel, whatever the target and whatever comes out, value or error,
    [parseToValue] and [parse] only move the offset. *)
Theorem decoder_keeps_input (lib : golib) (fuel : nat) (d d' : decoder) :
  (forall t v r, parseToValueF lib fuel t v d = Done (r, d') ->
                 data d' = data d /\ dm d' = dm d)
  /\ (forall b r, parseF lib fuel b d = Done (r, d') ->
                  data d' = data d /\ dm d' = dm d).
Proof.
  split.
  - intros t v r H. exact (proj1 (pres_decoders lib fuel) t v d r d' H).
  - intros b r H. exact (proj2 (pres_decoders lib fuel) b d r d' H).
Qed.

Lemma decoder_keeps_input_witness :
  let d := newDecoder (hexDecode "a2616101616261780a") defaultDecMode in
  let r : goval * option error := (VStruct [VInt 1; VString "x"], None) in
  parseToValueF asciiLib 6 structAB (RV structAB (zeroValue structAB) true) d
  = Done (r, setOff d 8)
  /\ data (setOff d 8) = data d /\ dm (setOff d 8) = dm d.
Proof.
  intros d r.
  assert (H : parseToValueF asciiLib 6 structAB (RV structAB (zeroValue structAB) true) d
              = Done (r, setOff d 8)) by reflexivity.
  exact (conj H (proj1 (decoder_keeps_input asciiLib 6 d (setOff d 8)) _ _ _ H)).
Defined.

(** ** Strings of definite length *)

Lemma wrapInt_small (z : Z) : 0 <= z < 2 ^ 63 -> wrapInt z = z.
Proof.
  intros H. unfold wrapInt, toInt. rewrite Z.mod_small by lia.
  destruct (Z.ltb_spec z (2 ^ 63)); [reflexivity | lia].
Qed.

Lemma skip_string (f : nat) (d d1 : decoder) (t ai val : Z) :
  getHead d = Done ((t, ai, val), d1) -> ai <> 31 ->
  t = cborTypeTextString \/ t = cborTypeByteString ->
  skip (Datatypes.S f) d = Done (tt, setOff d1 (wrapInt (off d1 + toInt val))).
Proof.
  intros Hg Hai Ht. cbn [skip]. unfold bind at 1. rewrite Hg.
  replace (ai =? 31) with false by (symmetry; apply Z.eqb_neq; exact Hai).
  cbn [andb].
  replace ((t =? cborTypeByteString) || (t =? cborTypeTextString)) with true
    by (destruct Ht as [-> | ->]; reflexivity).
  reflexivity.
Qed.

(** A text string or byte string of definite length is consumed whole by
    its parser, which ends exactly where [skip] ends: the bytes returned
    are those between the head and that offset.  For a text string this
    also holds when the bytes are not valid UTF-8: the parser then
    returns a [SemanticError] and no bytes, but the offset is behind the
    string all the same. *)
Theorem definite_string_consumed (f : nat) (d d1 : decoder) (t ai val : Z) :
  Z.of_nat (List.length (data d)) < 2 ^ 63 ->
  getHead d = Done ((t, ai, val), d1) -> ai <> 31 ->
  (t = cborTypeTextString ->
   forall b oe d', parseTextString f d = Done ((b, oe), d') ->
     skip (Datatypes.S f) d = Done (tt, d')
     /\ exists bs, bytesAt (off d1) (off d') d1 = Done (bs, d1)
                   /\ ((utf8Valid bs = true /\ b = bs /\ oe = None)
                       \/ (utf8Valid bs = false /\ b = []
                           /\ oe = Some (SemanticError "cbor: invalid UTF-8 string"))))
  /\ (t = cborTypeByteString ->
      forall b d', parseByteString f d = Done (b, d') ->
        skip (Datatypes.S f) d = Done (tt, d')
        /\ bytesAt (off d1) (off d') d1 = Done (b, d1)).
Proof.
  intros Hlen Hg Hai. destruct (pres_getHead _ Hg) as [Hd _].
  split; intros Ht.
  - intros b oe d' H. unfold parseTextString in H. unfold bind at 1 in H.
    rewrite Hg in H.
    replace (ai =? 31) with false in H by (symmetry; apply Z.eqb_neq; exact Hai).
    cbn [negb] in H. unfold bind, getOff, putOff in H.
    destruct (bytesAt (off d1) (off d1 + toInt val) d1) as [[bs d2]| |] eqn:Eb;
      try discriminate.
    pose proof Eb as Eb'. apply bytesAt_inv in Eb' as ->.
    pose proof (bytesAt_length _ _ _ _ _ Eb) as (Hi & Hj & _). rewrite Hd in Hj.
    rewrite (skip_string f d d1 t ai val Hg Hai (or_introl Ht)).
    rewrite wrapInt_small by lia.
    destruct (utf8Valid bs) eqn:Eu; cbn [negb] in H; unfold ret in H;
      injection H as Hb Ho Hd'; rewrite <- Hb, <- Ho, <- Hd';
      cbn [off setOff]; (split; [reflexivity|]); exists bs; (split; [exact Eb|]).
    + left. auto.
    + right. auto.
  - intros b d' H. unfold parseByteString in H. unfold bind at 1 in H.
    rewrite Hg in H.
    replace (ai =? 31) with false in H by (symmetry; apply Z.eqb_neq; exact Hai).
    cbn [negb] in H. destruct (toInt val <? 0); [discriminate|].
    unfold bind, getOff, putOff in H.
    destruct (bytesAt (off d1) (off d1 + toInt val) d1) as [[bs d2]| |] eqn:Eb;
      try discriminate.
    pose proof Eb as Eb'. apply bytesAt_inv in Eb' as ->.
    pose proof (bytesAt_length _ _ _ _ _ Eb) as (Hi & Hj & _). rewrite Hd in Hj.
    rewrite (skip_string f d d1 t ai val Hg Hai (or_intror Ht)).
    rewrite wrapInt_small by lia.
    unfold ret in H. injection H as Hb Hd'. rewrite <- Hb, <- Hd'.
    cbn [off setOff]. split; [reflexivity | exact Eb].
Qed.

Lemma definite_string_consumed_witness :
  let d := newDecoder (hexDecode "62c32801") defaultDecMode in
  Z.of_nat (List.length (data d)) < 2 ^ 63
  /\ getHead d = Done ((cborTypeTextString, 2, 2), setOff d 1)
  /\ 2 <> 31
  /\ parseTextString 1 d
     = Done (([], Some (SemanticError "cbor: invalid UTF-8 string")), setOff d 3)
  /\ skip 2 d = Done (tt, setOff d 3).
Proof.
  intros d.
  assert (H1 : Z.of_nat (List.length (data d)) < 2 ^ 63) by reflexivity.
  assert (H2 : getHead d = Done ((cborTypeTextString, 2, 2), setOff d 1)) by reflexivity.
  assert (H3 : 2 <> 31) by discriminate.
  assert (H4 : parseTextString 1 d
               = Done (([], Some (SemanticError "cbor: invalid UTF-8 string")), setOff d 3))
    by reflexivity.
  refine (conj H1 (conj H2 (conj H3 (conj H4 _)))).
  exact (proj1 (proj1 (definite_string_consumed 1 d (setOff d 1) cborTypeTextString 2 2
                         H1 H2 H3) eq_refl _ _ _ H4)).
Defined.

(** ** The entry point and scalar targets *)

(** [Unmarshal] into nil, into a value that is no pointer, or into a nil
    pointer returns an [InvalidUnmarshalError] without running the
    well-formedness pass and without reading a byte: the result does not
    depend on the input, the mode or the pass, and the argument is
    returned as it was. *)
Theorem value_rejects_bad_target (lib : golib) (valid : M (option error)) (fuel : nat)
    (v : any) (d : decoder) :
  match v with
  | None => True
  | Some (t, x) => kindOf t <> KPtr \/ x = VPtr None
  end ->
  exists s, value lib valid fuel v d = Done ((v, Some (InvalidUnmarshalError s)), d)
            /\ Unmarshal lib valid fuel (dm d) (data d) v
               = Done (v, Some (InvalidUnmarshalError s)).
Proof.
  intros H. unfold Unmarshal, value, newDecoder.
  destruct v as [[t x]|]; [|eexists; split; reflexivity].
  unfold rKind. cbn [rtype].
  destruct (Kind_eqb (kindOf t) KPtr) eqn:Ek; cbn [negb];
    [|eexists; split; reflexivity].
  destruct H as [H| ->].
  - exfalso. apply H. destruct (kindOf t); try discriminate. reflexivity.
  - cbn [IsNil rval]. eexists; split; reflexivity.
Qed.

Lemma value_rejects_bad_target_witness :
  let d := newDecoder (hexDecode "01") defaultDecMode in
  let v : any := Some (tInt, VInt 0) in
  (kindOf tInt <> KPtr \/ VInt 0 = VPtr None)
  /\ exists s, value asciiLib panic 3 v d = Done ((v, Some (InvalidUnmarshalError s)), d)
               /\ Unmarshal asciiLib panic 3 (dm d) (data d) v
                  = Done (v, Some (InvalidUnmarshalError s)).
Proof.
  intros d v.
  assert (H : kindOf tInt <> KPtr \/ VInt 0 = VPtr None) by (left; discriminate).
  exact (conj H (value_rejects_bad_target asciiLib panic 3 v d H)).
Defined.

Lemma getHead_nextByte (d d' : decoder) (t ai val : Z) :
  getHead d = Done ((t, ai, val), d') ->
  exists b, nextByte d b /\ t = Z.land b 0xe0 /\ ai = Z.land b 0x1f.
Proof.
  intros Hg. rewrite getHead_eq in Hg.
  destruct (byteAt (off d) d) as [[b d0]| |] eqn:Eb; try discriminate.
  pose proof Eb as Eb'. apply byteAt_inv in Eb' as [-> _].
  exists b. split; [exact Eb|]. cbv zeta in Hg.
  repeat match type of Hg with
         | context [if ?c then _ else _] => destruct c
         | context [match ?x with _ => _ end] => destruct x as [[? ?]| |]; try discriminate
         end; inversion Hg; split; reflexivity.
Qed.

Lemma parseSpecial_none (lib : golib) (f : nat) (R : Rec) (tInfo : gotype) (v : rvalue) :
  spclType tInfo = specialTypeNone \/ spclType tInfo = specialTypeIface ->
  parseSpecial lib f R tInfo v = None.
Proof. unfold parseSpecial. intros [-> | ->]; reflexivity. Qed.

Lemma parseInto_plain (lib : golib) (f : nat) (R : Rec) (tInfo : gotype) (v : rvalue)
    (d : decoder) (b : Z) :
  nextByte d b -> Z.land b 0xe0 <> cborTypeTag ->
  spclType tInfo = specialTypeNone \/ spclType tInfo = specialTypeIface ->
  requiredTag (dm d) tInfo = false ->
  parseInto lib f R tInfo v d = parseByType lib f R tInfo v d.
Proof.
  intros Hb Ht Hs Hr. unfold parseInto. unfold bind at 1.
  erewrite stripSelfDescribed_notag by eassumption.
  unfold bind at 1. erewrite checkBuiltinTag_notag by eassumption.
  rewrite parseSpecial_none by exact Hs.
  unfold bind at 1. erewrite checkRegisteredTag_notag by eassumption.
  reflexivity.
Qed.

(** [parseToValue] for a target that is no pointer and of no special
    type, at an item that is neither a tag nor null. *)
Lemma parseToValue_plain (lib : golib) (f : nat) (R : Rec) (tInfo : gotype) (v : rvalue)
    (d : decoder) (b : Z) :
  nextByte d b -> Z.land b 0xe0 <> cborTypeTag -> (b =? 0xf6) || (b =? 0xf7) = false ->
  spclType tInfo = specialTypeNone -> rKind v <> KPtr ->
  requiredTag (dm d) tInfo = false ->
  parseToValue lib f R tInfo v d
  = bind (parseByType lib f R tInfo v) (fun '(v3, err) => ret (rval v3, err)) d.
Proof.
  intros Hb Ht Hn Hs Hk Hr. unfold parseToValue. unfold bind at 1.
  rewrite ifaceStage_other by (rewrite Hs; discriminate).
  unfold bind at 1. erewrite nextCBORNil_next by exact Hb. rewrite Hn. cbn [negb].
  unfold bind at 1. rewrite derefLoop_done by exact Hk.
  unfold bind.
  rewrite (parseInto_plain lib f R tInfo v d b Hb Ht (or_introl Hs) Hr).
  reflexivity.
Qed.

Lemma spclType_basic (b : basic) : spclType (TBasic b) = specialTypeNone.
Proof. destruct b; reflexivity. Qed.

Lemma parseByType_positive (lib : golib) (f : nat) (R : Rec) (tInfo : gotype) (v : rvalue)
    (d : decoder) (b : Z) :
  nextByte d b -> Z.land b 0xe0 = cborTypePositiveInt ->
  parseByType lib f R tInfo v d
  = bind getHead (fun '(_, _, val) => lift (fillPositiveInt cborTypePositiveInt val v)) d.
Proof.
  intros Hb Ht. unfold parseByType. unfold bind at 1.
  erewrite nextCBORType_next by exact Hb. rewrite Ht. reflexivity.
Qed.

(** Round trip of an unsigned integer through the header of the tests'
    encoder: the header of major type 0 for [n], decoded into a target of
    an integer type, gives [n] back exactly when [n] fits the type, and
    otherwise the overflow error with the target unchanged; either way the
    offset is behind the header. *)
Theorem unsigned_header_roundtrip (lib : golib) (fuel : nat) (b : basic) (x : goval)
    (n : Z) (rest : list byte) (m : decMode) :
  0 <= n < 2 ^ 64 -> requiredTag m (TBasic b) = false ->
  let d := newDecoder (encodeCborHeader cborTypePositiveInt n ++ rest) m in
  let d' := setOff d (Z.of_nat (List.length (encodeCborHeader cborTypePositiveInt n))) in
  let err := typeErr cborTypePositiveInt (TBasic b)
               (Zstr n ++ " overflows " ++ typeString (TBasic b)) in
  (isUintKind (basicKind b) = true ->
   parseToValueF lib (Datatypes.S fuel) (TBasic b) (RV (TBasic b) x true) d
   = if n <=? 2 ^ kindBits (basicKind b) - 1
     then Done ((VUint n, None), d') else Done ((x, Some err), d'))
  /\ (isIntKind (basicKind b) = true ->
      parseToValueF lib (Datatypes.S fuel) (TBasic b) (RV (TBasic b) x true) d
      = if n <=? 2 ^ (kindBits (basicKind b) - 1) - 1
        then Done ((VInt n, None), d') else Done ((x, Some err), d')).
Proof.
  intros Hn Hr d d' err.
  assert (Hin : In cborTypePositiveInt majorTypes) by (left; reflexivity).
  destruct (@getHead_encodeHead cborTypePositiveInt n rest m Hin Hn) as [ai Hg].
  rewrite (@encodeHead_oracle cborTypePositiveInt n Hn) in Hg. fold d in Hg. fold d' in Hg.
  destruct (getHead_nextByte _ _ _ _ _ Hg) as [b0 [Hb [Ht _]]].
  assert (Hnt : Z.land b0 0xe0 <> cborTypeTag) by (rewrite <- Ht; discriminate).
  assert (Hnn : (b0 =? 0xf6) || (b0 =? 0xf7) = false)
    by (apply notPrimitives_notNil; rewrite <- Ht; discriminate).
  assert (E : forall k, rKind (RV (TBasic b) x true) = k -> k <> KPtr ->
              parseToValueF lib (Datatypes.S fuel) (TBasic b) (RV (TBasic b) x true) d
              = match fillPositiveInt cborTypePositiveInt n (RV (TBasic b) x true) with
                | Done (v3, e) => Done ((rval v3, e), d')
                | Panic => Panic
                | OutOfFuel => OutOfFuel
                end).
  { intros k Hk Hp. unfold parseToValueF. cbn [decoders parseToValueR].
    rewrite (parseToValue_plain lib fuel (decoders lib fuel) (TBasic b)
               (RV (TBasic b) x true) d b0 Hb Hnt Hnn (spclType_basic b)
               ltac:(rewrite Hk; exact Hp) Hr).
    unfold bind at 1.
    rewrite (parseByType_positive lib fuel (decoders lib fuel) (TBasic b)
               (RV (TBasic b) x true) d b0 Hb (eq_sym Ht)).
    unfold bind at 1. rewrite Hg. unfold lift.
    destruct (fillPositiveInt cborTypePositiveInt n (RV (TBasic b) x true))
      as [[v3 e]| |]; reflexivity. }
  split; intros Hk.
  - rewrite (E (basicKind b) eq_refl) by (destruct b; discriminate).
    rewrite (fillPositiveInt_uint cborTypePositiveInt n (RV (TBasic b) x true) eq_refl Hk).
    change (rKind (RV (TBasic b) x true)) with (basicKind b).
    destruct (n <=? 2 ^ kindBits (basicKind b) - 1); reflexivity.
  - rewrite (E (basicKind b) eq_refl) by (destruct b; discriminate).
    rewrite (fillPositiveInt_int cborTypePositiveInt n (RV (TBasic b) x true) Hn eq_refl Hk).
    change (rKind (RV (TBasic b) x true)) with (basicKind b).
    destruct (n <=? 2 ^ (kindBits (basicKind b) - 1) - 1); reflexivity.
Qed.

Lemma unsigned_header_roundtrip_witness :
  let d := newDecoder (encodeCborHeader cborTypePositiveInt 70000 ++ []) defaultDecMode in
  0 <= 70000 < 2 ^ 64 /\ requiredTag defaultDecMode (TBasic BUint16) = false
  /\ isUintKind (basicKind BUint16) = true
  /\ parseToValueF asciiLib 1 (TBasic BUint16) (RV (TBasic BUint16) (VUint 3) true) d
     = Done ((VUint 3,
              Some (typeErr cborTypePositiveInt (TBasic BUint16) "70000 overflows uint16")),
             setOff d 5).
Proof.
  intros d.
  assert (H1 : 0 <= 70000 < 2 ^ 64) by (cbv; split; congruence).
  assert (H2 : requiredTag defaultDecMode (TBasic BUint16) = false) by reflexivity.
  assert (H3 : isUintKind (basicKind BUint16) = true) by reflexivity.
  refine (conj H1 (conj H2 (conj H3 _))).
  exact (proj1 (unsigned_header_roundtrip asciiLib 0 BUint16 (VUint 3) 70000 []
                  defaultDecMode H1 H2) H3).
Defined.

Lemma parseByType_negative (lib : golib) (f : nat) (R : Rec) (tInfo : gotype) (v : rvalue)
    (d : decoder) (b : Z) :
  nextByte d b -> Z.land b 0xe0 = cborTypeNegativeInt ->
  parseByType lib f R tInfo v d
  = bind getHead
      (fun '(_, _, val) =>
         if MaxInt64 <? val then
           if gotype_eqb (nonPtrType tInfo) TBigInt then
             bind (lift (setAny v TBigInt (VBigInt (- (val + 1))))) (fun v' => ret (v', None))
           else ret (v, Some (typeErr cborTypeNegativeInt (nonPtrType tInfo)
                                (Zstr (- (val + 1)) ++ " overflows Go's int64")))
         else lift (fillNegativeInt cborTypeNegativeInt (Z.lxor (-1) (toInt64 val)) v)) d.
Proof.
  intros Hb Ht. unfold parseByType. unfold bind at 1.
  erewrite nextCBORType_next by exact Hb. rewrite Ht. reflexivity.
Qed.

Lemma lxor_m1 (x : Z) : Z.lxor (-1) x = -1 - x.
Proof. rewrite Z.lxor_m1_l. unfold Z.lnot. lia. Qed.

(** Round trip of a negative integer through the header of the tests'
    encoder: the header of major type 1 with the argument [n] stands for
    [-1 - n]; decoded into a target of a signed integer type it gives
    [-1 - n] exactly when that fits the type, and otherwise an error with
    the target unchanged, which says [overflows Go's int64] when [n] is
    above the [int64] range.  Either way the offset is behind the header. *)
Theorem negative_header_roundtrip (lib : golib) (fuel : nat) (b : basic) (x : goval)
    (n : Z) (rest : list byte) (m : decMode) :
  0 <= n < 2 ^ 64 -> requiredTag m (TBasic b) = false ->
  isIntKind (basicKind b) = true ->
  let d := newDecoder (encodeCborHeader cborTypeNegativeInt n ++ rest) m in
  let d' := setOff d (Z.of_nat (List.length (encodeCborHeader cborTypeNegativeInt n))) in
  let err := typeErr cborTypeNegativeInt (TBasic b)
               (Zstr (-1 - n)
                ++ (if MaxInt64 <? n then " overflows Go's int64"
                    else " overflows " ++ typeString (TBasic b))) in
  parseToValueF lib (Datatypes.S fuel) (TBasic b) (RV (TBasic b) x true) d
  = if n <=? 2 ^ (kindBits (basicKind b) - 1) - 1
    then Done ((VInt (-1 - n), None), d') else Done ((x, Some err), d').
Proof.
  intros Hn Hr Hk d d' err.
  assert (Hin : In cborTypeNegativeInt majorTypes) by (right; left; reflexivity).
  destruct (@getHead_encodeHead cborTypeNegativeInt n rest m Hin Hn) as [ai Hg].
  rewrite (@encodeHead_oracle cborTypeNegativeInt n Hn) in Hg. fold d in Hg. fold d' in Hg.
  destruct (getHead_nextByte _ _ _ _ _ Hg) as [b0 [Hb [Ht _]]].
  assert (Hnt : Z.land b0 0xe0 <> cborTypeTag) by (rewrite <- Ht; discriminate).
  assert (Hnn : (b0 =? 0xf6) || (b0 =? 0xf7) = false)
    by (apply notPrimitives_notNil; rewrite <- Ht; discriminate).
  unfold parseToValueF. cbn [decoders parseToValueR].
  rewrite (parseToValue_plain lib fuel (decoders lib fuel) (TBasic b)
             (RV (TBasic b) x true) d b0 Hb Hnt Hnn (spclType_basic b)
             ltac:(unfold rKind; cbn [rtype kindOf]; destruct b; discriminate) Hr).
  unfold bind at 1.
  rewrite (parseByType_negative lib fuel (decoders lib fuel) (TBasic b)
             (RV (TBasic b) x true) d b0 Hb (eq_sym Ht)).
  unfold bind at 1. rewrite Hg.
  assert (Hp : 0 < 2 ^ (kindBits (basicKind b) - 1) <= 2 ^ 63)
    by (destruct b; try discriminate; cbn [basicKind kindBits]; lia).
  destruct (Z.ltb_spec MaxInt64 n) as [L|L].
  - replace (gotype_eqb (nonPtrType (TBasic b)) TBigInt) with false
      by (destruct b; reflexivity).
    unfold MaxInt64 in L.
    replace (n <=? 2 ^ (kindBits (basicKind b) - 1) - 1) with false
      by (symmetry; apply Z.leb_gt; lia).
    unfold ret, err. replace (- (n + 1)) with (-1 - n) by lia.
    replace (MaxInt64 <? n) with true by (symmetry; apply Z.ltb_lt; unfold MaxInt64; lia).
    reflexivity.
  - rewrite (toInt_small n (proj1 Hn) L), lxor_m1. unfold lift.
    rewrite (fillNegativeInt_int cborTypeNegativeInt (-1 - n) (RV (TBasic b) x true)
               ltac:(lia) eq_refl Hk).
    change (rKind (RV (TBasic b) x true)) with (basicKind b).
    unfold err. replace (MaxInt64 <? n) with false by (symmetry; apply Z.ltb_ge; exact L).
    destruct (Z.leb_spec n (2 ^ (kindBits (basicKind b) - 1) - 1)).
    + replace (- 2 ^ (kindBits (basicKind b) - 1) <=? -1 - n) with true
        by (symmetry; apply Z.leb_le; lia). reflexivity.
    + replace (- 2 ^ (kindBits (basicKind b) - 1) <=? -1 - n) with false
        by (symmetry; apply Z.leb_gt; lia). reflexivity.
Qed.

Lemma negative_header_roundtrip_witness :
  let d := newDecoder (encodeCborHeader cborTypeNegativeInt 499 ++ []) defaultDecMode in
  0 <= 499 < 2 ^ 64 /\ requiredTag defaultDecMode (TBasic BInt16) = false
  /\ isIntKind (basicKind BInt16) = true
  /\ parseToValueF asciiLib 1 (TBasic BInt16) (RV (TBasic BInt16) (VInt 3) true) d
     = Done ((VInt (-500), None), setOff d 3).
Proof.
  intros d.
  assert (H1 : 0 <= 499 < 2 ^ 64) by (cbv; split; congruence).
  assert (H2 : requiredTag defaultDecMode (TBasic BInt16) = false) by reflexivity.
  assert (H3 : isIntKind (basicKind BInt16) = true) by reflexivity.
  refine (conj H1 (conj H2 (conj H3 _))).
  exact (negative_header_roundtrip asciiLib 0 BInt16 (VInt 3) 499 [] defaultDecMode H1 H2 H3).
Defined.

(** ** Arrays and maps into targets that cannot take them *)

(** A CBOR array or map that the target cannot take (a target whose
    kind under its pointers is none of those the item can fill; a struct
    whose fields resolve and which lacks the struct-to-array option, for
    an array, or has it, for a map) is skipped whole: the target is left
    as it was, the error is an [UnmarshalTypeError] naming the CBOR type
    and the target's type under its pointers, and the decoder is where
    [skip] leaves it, ready for the next item.  A struct target whose
    fields do not resolve is different: the array or map is answered with
    the error of the resolution and is not skipped, the decoder staying
    where it was. *)
Theorem shape_mismatch_skips (lib : golib) (f : nat) (R : Rec) (tInfo : gotype)
    (v : rvalue) (d : decoder) (t : Z) :
  nextCBORType d = Done (t, d) ->
  (forall msg, shapeMismatch t tInfo = Some msg ->
     parseByType lib f R tInfo v d
     = bind (skip f) (fun _ => ret (v, Some (typeErr t (nonPtrType tInfo) msg))) d)
  /\ (forall e, t = cborTypeArray \/ t = cborTypeMap ->
        nonPtrKind tInfo = KStruct ->
        stErr (getDecodingStructType (nonPtrType tInfo)) = Some e ->
        parseByType lib f R tInfo v d = Done ((v, Some (errorString e)), d)).
Proof.
  intros Hn. split.
  2:{ intros e Ht Hk He. unfold parseByType. unfold bind at 1. rewrite Hn.
      destruct Ht as [->| ->].
      - change (cborTypeArray =? cborTypePositiveInt) with false.
        change (cborTypeArray =? cborTypeNegativeInt) with false.
        change (cborTypeArray =? cborTypeByteString) with false.
        change (cborTypeArray =? cborTypeTextString) with false.
        change (cborTypeArray =? cborTypePrimitives) with false.
        change (cborTypeArray =? cborTypeTag) with false.
        change (cborTypeArray =? cborTypeArray) with true. cbv iota.
        rewrite Hk. unfold parseArrayToStruct. rewrite He. reflexivity.
      - change (cborTypeMap =? cborTypePositiveInt) with false.
        change (cborTypeMap =? cborTypeNegativeInt) with false.
        change (cborTypeMap =? cborTypeByteString) with false.
        change (cborTypeMap =? cborTypeTextString) with false.
        change (cborTypeMap =? cborTypePrimitives) with false.
        change (cborTypeMap =? cborTypeTag) with false.
        change (cborTypeMap =? cborTypeArray) with false.
        change (cborTypeMap =? cborTypeMap) with true. cbv iota.
        rewrite Hk. unfold parseMapToStruct. rewrite He. reflexivity. }
  intros msg Hm. unfold parseByType. unfold bind at 1. rewrite Hn.
  unfold shapeMismatch in Hm.
  destruct (Z.eqb_spec t cborTypeArray) as [Ea|Na].
  - subst t.
    change (cborTypeArray =? cborTypePositiveInt) with false.
    change (cborTypeArray =? cborTypeNegativeInt) with false.
    change (cborTypeArray =? cborTypeByteString) with false.
    change (cborTypeArray =? cborTypeTextString) with false.
    change (cborTypeArray =? cborTypePrimitives) with false.
    change (cborTypeArray =? cborTypeTag) with false.
    change (cborTypeArray =? cborTypeArray) with true. cbv iota.
    destruct (nonPtrKind tInfo); try discriminate;
      try (inversion Hm; subst; reflexivity).
    unfold parseArrayToStruct.
    destruct (stErr (getDecodingStructType (nonPtrType tInfo))); [discriminate|].
    destruct (stToArray (getDecodingStructType (nonPtrType tInfo))); [discriminate|].
    inversion Hm; subst. cbn [negb]. unfold bind at 1. rewrite Hn. reflexivity.
  - destruct (Z.eqb_spec t cborTypeMap) as [Em|Nm]; [|discriminate].
    subst t.
    change (cborTypeMap =? cborTypePositiveInt) with false.
    change (cborTypeMap =? cborTypeNegativeInt) with false.
    change (cborTypeMap =? cborTypeByteString) with false.
    change (cborTypeMap =? cborTypeTextString) with false.
    change (cborTypeMap =? cborTypePrimitives) with false.
    change (cborTypeMap =? cborTypeTag) with false.
    change (cborTypeMap =? cborTypeArray) with false.
    change (cborTypeMap =? cborTypeMap) with true. cbv iota.
    destruct (nonPtrKind tInfo); try discriminate;
      try (inversion Hm; subst; reflexivity).
    unfold parseMapToStruct.
    destruct (stErr (getDecodingStructType (nonPtrType tInfo))); [discriminate|].
    destruct (stToArray (getDecodingStructType (nonPtrType tInfo))); [|discriminate].
    inversion Hm; subst. unfold bind at 1. rewrite Hn. reflexivity.
Qed.

Lemma shape_mismatch_skips_witness :
  let d := newDecoder (hexDecode "a1010203") defaultDecMode in
  let v := RV structP (zeroValue structP) true in
  let msg := "cannot decode CBOR map to struct with toarray option" in
  nextCBORType d = Done (cborTypeMap, d)
  /\ shapeMismatch cborTypeMap structP = Some msg
  /\ parseByType asciiLib 3 (decoders asciiLib 3) structP v d
     = Done ((v, Some (typeErr cborTypeMap structP msg)), setOff d 3).
Proof.
  intros d v msg.
  assert (H1 : nextCBORType d = Done (cborTypeMap, d)) by reflexivity.
  assert (H2 : shapeMismatch cborTypeMap structP = Some msg) by reflexivity.
  refine (conj H1 (conj H2 _)).
  rewrite (proj1 (shape_mismatch_skips asciiLib 3 (decoders asciiLib 3) structP v d
                    cborTypeMap H1) msg H2).
  reflexivity.
Defined.

(** An array into a struct whose fields do not resolve: the error of the
    resolution, at the offset of the array. *)
Example unresolved_struct_not_skipped :
  let d := newDecoder (hexDecode "8101") defaultDecMode in
  let v := RV structU (zeroValue structU) true in
  parseByType asciiLib 3 (decoders asciiLib 3) structU v d
  = Done ((v, Some (errorString (keyAsIntError "x"))), d).
Proof. reflexivity. Qed.

(** ** Byte strings as map keys *)

Lemma isHashableValue_bytes (x : goval) : isHashableValue typeByteSlice x = false.
Proof. destruct x; reflexivity. Qed.

Lemma isHashableValue_ByteString (x : goval) : isHashableValue TByteString x = true.
Proof. destruct x; reflexivity. Qed.

(** A byte string as the key of a map decoded into a generic value: Go
    cannot use [[]byte] as a map key.  Under [MapKeyByteStringFail] the
    entry is not stored: its value is skipped, the error
    [invalid map key type: []uint8] is recorded unless an earlier error
    is, and the loop goes on.  Under [MapKeyByteStringWrap] the key is
    stored as a [ByteString] holding the same bytes. *)
Theorem byte_string_key_policy (f : nat) (R : Rec) (hasSize : bool) (count i : Z)
    (s : parseMapState) (d d1 : decoder) (x : goval) :
  parseR R true d = Done ((Some (typeByteSlice, x), None), d1) ->
  (mapKeyByteString (dm d) = MapKeyByteStringFail ->
   parseMapIter f R hasSize count i s d
   = bind (skip f)
       (fun _ => ret (inl (PMS (pmM s)
                             (firstErr (pmErr s)
                                (Some (errorString "cbor: invalid map key type: []uint8")))
                             (pmKeyCount s)))) d1)
  /\ (mapKeyByteString (dm d) = MapKeyByteStringWrap ->
      dupMapKey (dm d) = DupMapKeyQuiet ->
      forall e d2,
        parseR R true d1 = Done ((e, None), d2) ->
        parseMapIter f R hasSize count i s d
        = Done (inl (PMS (mapInsert (pmM s)
                            (VIface (Some (TByteString,
                                           VString (string_of_list_byte (bytesOfVal x)))))
                            (VIface e))
                       (pmErr s) (pmKeyCount s)), d2)).
Proof.
  intros Hk. split.
  - intros Hm. unfold parseMapIter. unfold bind at 1. unfold getDm.
    unfold bind at 1. rewrite Hk. unfold wrapByteString. rewrite Hm.
    cbn [isHashableAny]. rewrite isHashableValue_bytes. cbn [negb]. reflexivity.
  - intros Hm Hq e d2 He. unfold parseMapIter. unfold bind at 1. unfold getDm.
    unfold bind at 1. rewrite Hk. unfold wrapByteString. rewrite Hm.
    change (gotype_eqb typeByteSlice typeByteSlice) with true. cbv iota.
    cbn [isHashableAny]. rewrite isHashableValue_ByteString. cbn [negb].
    unfold bind at 1. rewrite He. rewrite Hq. reflexivity.
Qed.

Lemma byte_string_key_policy_witness :
  let d := setOff (newDecoder (hexDecode "a1420102f5") defaultDecMode) 1 in
  let x := bytesVal (hexDecode "0102") in
  let s := PMS [] None 0 in
  parseR (decoders asciiLib 3) true d = Done ((Some (typeByteSlice, x), None), setOff d 4)
  /\ mapKeyByteString (dm d) = MapKeyByteStringFail
  /\ parseMapIter 3 (decoders asciiLib 3) true 1 0 s d
     = Done (inl (PMS [] (Some (errorString "cbor: invalid map key type: []uint8")) 0),
             setOff d 5).
Proof.
  intros d x s.
  assert (H1 : parseR (decoders asciiLib 3) true d
               = Done ((Some (typeByteSlice, x), None), setOff d 4)) by reflexivity.
  assert (H2 : mapKeyByteString (dm d) = MapKeyByteStringFail) by reflexivity.
  refine (conj H1 (conj H2 _)).
  rewrite (proj1 (byte_string_key_policy 3 (decoders asciiLib 3) true 1 0 s d (setOff d 4) x
                    H1) H2).
  reflexivity.
Defined.

(** ** Arrays into slices and arrays *)

Lemma forLoop_post {S R : Type} (P : Z -> S -> Prop) (Q : R -> Prop) (n : nat)
    (cond : Z -> S -> M bool) (body : Z -> S -> M (S + R)) :
  (forall i s d s' d', P i s -> body i s d = Done (inl s', d') -> P (i + 1) s') ->
  (forall i s d r d', P i s -> body i s d = Done (inr r, d') -> Q r) ->
  forall i s d x d',
    P i s -> forLoop n cond body i s d = Done (x, d') ->
    match x with
    | inl s' => exists j, i <= j /\ P j s'
    | inr r => Q r
    end.
Proof.
  intros Hl Hr. induction n as [|n IH]; intros i s d x d' HP H; cbn [forLoop] in H;
    unfold bind in H; destruct (cond i s d) as [[c d1]| |]; try discriminate;
    destruct c; cbn [negb] in H; try discriminate.
  - inversion H; subst. exists i. split; [lia | exact HP].
  - destruct (body i s d1) as [[[s'|r] d2]| |] eqn:Eb; try discriminate.
    + apply IH in H; [|eapply Hl; eassumption].
      destruct x as [s''|r]; [|exact H].
      destruct H as [j [Hj HPj]]. exists j. split; [lia | exact HPj].
    + inversion H; subst. eapply Hr; eassumption.
  - inversion H; subst. exists i. split; [lia | exact HP].
Qed.

Lemma forLoop_definite {S R : Type} (P : Z -> S -> Prop) (n : nat) (count : Z)
    (body : Z -> S -> M (S + R)) :
  (forall i s d s' d', P i s -> body i s d = Done (inl s', d') -> P (i + 1) s') ->
  forall i s d s' d',
    P i s -> forLoop n (fun i _ => more true count i) body i s d = Done (inl s', d') ->
    P (Z.max i count) s'.
Proof.
  intros Hl. induction n as [|n IH]; intros i s d s' d' HP H; cbn [forLoop] in H;
    unfold bind at 1 in H; cbn [more] in H; unfold ret at 1 in H;
    destruct (Z.ltb_spec i count) as [L|L]; cbn [negb] in H; try discriminate.
  - inversion H; subst. rewrite Z.max_l by lia. exact HP.
  - unfold bind in H. destruct (body i s d) as [[[s1|r] d2]| |] eqn:Eb; try discriminate.
    apply IH in H; [|eapply Hl; eassumption].
    rewrite Z.max_r in H by lia. rewrite Z.max_r by lia. exact H.
  - inversion H; subst. rewrite Z.max_l by lia. exact HP.
Qed.

Lemma length_setNth {A : Type} (i : nat) (x : A) (l : list A) :
  List.length (setNth i x l) = List.length l.
Proof.
  revert i. induction l as [|a r IH]; intros i; [destruct i; reflexivity|].
  destruct i; cbn [setNth List.length]; [reflexivity|]. rewrite IH. reflexivity.
Qed.

Lemma arrayLoopInv_step (f : nat) (R : Rec) (tInfo : gotype) (v0 : rvalue) (n : nat)
    (i : Z) (s s' : rvalue * nat * option error) (d d' : decoder) :
  arrayLoopInv v0 n i s ->
  parseArrayToArrayIter f R tInfo i s d = Done (inl s', d') ->
  arrayLoopInv v0 n (i + 1) s'.
Proof.
  intros HP H. destruct s as [[v gi] err].
  destruct HP as (Hi & (l & Hl & Hn) & Ht & Hc & Hg).
  unfold parseArrayToArrayIter in H. unfold arrayLen in H. rewrite Hl, Hn in H.
  destruct (Nat.ltb_spec gi n) as [L|L].
  - unfold bind, lift in H. destruct (arrayIndex v gi) as [e| |]; try discriminate.
    destruct (parseToValueR R _ e d) as [[[x le] d1]| |]; try discriminate.
    unfold ret in H. inversion H; subst s' d'. unfold arrayLoopInv, arrayStore.
    rewrite Hl. cbn [withVal rval rtype canSet].
    split; [lia|]. split; [|repeat split; auto; rewrite Z2Nat.inj_add by lia; lia].
    eexists. split; [reflexivity|]. rewrite length_setNth. exact Hn.
  - unfold bind in H. destruct (skip f d) as [[u d1]| |]; try discriminate.
    unfold ret in H. inversion H; subst s' d'. unfold arrayLoopInv.
    split; [lia|]. split; [|repeat split; auto; rewrite Z2Nat.inj_add by lia; lia].
    eexists. split; [exact Hl | exact Hn].
Qed.

Lemma arrayLoop_end (tInfo : gotype) (v0 v v' : rvalue) (n gi c : nat)
    (err err' : option error) (d d' : decoder) :
  (exists l, rval v = VArray l /\ List.length l = n) ->
  rtype v = rtype v0 -> (gi = Nat.min c n) ->
  (if (gi <? arrayLen v)%nat then
     match rval v with
     | VArray l =>
         if canSet v then
           ret (withVal v (VArray (firstn gi l
                                   ++ repeat (zeroValue (elemOf (nonPtrType tInfo)))
                                        (arrayLen v - gi))), err)
         else panic
     | _ => panic
     end
   else ret (v, err)) d = Done ((v', err'), d') ->
  exists l', rval v' = VArray l' /\ List.length l' = n /\ rtype v' = rtype v0
             /\ forall j, (c <= j < n)%nat ->
                          nth_error l' j = Some (zeroValue (elemOf (nonPtrType tInfo))).
Proof.
  intros (l & Hl & Hn) Ht Hg H. unfold arrayLen in H. rewrite Hl, Hn in H.
  destruct (Nat.ltb_spec gi n) as [L|L].
  - destruct (canSet v); [|discriminate]. unfold ret in H. inversion H; subst v' err' d'.
    cbn [withVal rval rtype]. eexists. split; [reflexivity|].
    split; [|split; [exact Ht|]].
    + rewrite length_app, length_firstn, repeat_length. lia.
    + intros j Hj. rewrite nth_error_app2 by (rewrite length_firstn; lia).
      rewrite length_firstn. apply nth_error_repeat. lia.
  - unfold ret in H. inversion H; subst v' err' d'.
    exists l. repeat split; auto. intros j Hj. lia.
Qed.

(** Whenever the decode of an array into a Go array returns, the Go
    array has the length and the type it had, however many items the CBOR
    array has and whether or not they decode; and when the CBOR array has
    a definite length, the elements of the Go array from the item count
    on are then the zero value of the element type. *)
Theorem array_target_keeps_length (f : nat) (R : Rec) (v v' : rvalue) (tInfo : gotype)
    (l : list goval) (err : option error) (d d1 d' : decoder) (t ai val : Z) :
  rval v = VArray l ->
  getHead d = Done ((t, ai, val), d1) ->
  parseArrayToArray f R v tInfo d = Done ((v', err), d') ->
  exists l', rval v' = VArray l' /\ List.length l' = List.length l /\ rtype v' = rtype v
             /\ (ai <> 31 ->
                 forall j, (Z.to_nat (toInt val) <= j < List.length l)%nat ->
                           nth_error l' j = Some (zeroValue (elemOf (nonPtrType tInfo)))).
Proof.
  intros Hl Hg H. unfold parseArrayToArray in H. unfold bind at 1 in H. rewrite Hg in H.
  unfold bind at 1 in H.
  match type of H with
  | context [forLoop f ?c ?b 0 ?s d1] =>
      destruct (forLoop f c b 0 s d1) as [[[[[v2 gi] e2]|u] d2]| |] eqn:El;
        try discriminate
  end.
  assert (P0 : arrayLoopInv v (List.length l) 0 (v, O, @None error)).
  { unfold arrayLoopInv. repeat split; auto; try lia. exists l. auto. }
  assert (SL : forall i s d0 s' d0',
             arrayLoopInv v (List.length l) i s ->
             parseArrayToArrayIter f R tInfo i s d0 = Done (inl s', d0') ->
             arrayLoopInv v (List.length l) (i + 1) s')
    by (intros; eapply arrayLoopInv_step; eassumption).
  destruct (Z.eqb_spec ai 31) as [E31|N31]; cbn [negb] in El.
  - assert (SR : forall i s d0 (r : unit) d0',
               arrayLoopInv v (List.length l) i s ->
               parseArrayToArrayIter f R tInfo i s d0 = Done (inr r, d0') -> False).
    { intros i s d0 r d0' _ Hb. destruct s as [[v3 g3] e3].
      unfold parseArrayToArrayIter in Hb.
      destruct (g3 <? arrayLen v3)%nat; unfold bind, lift in Hb.
      - destruct (arrayIndex v3 g3) as [e0| |]; try discriminate.
        destruct (parseToValueR R _ e0 d0) as [[[x le] d3]| |]; discriminate.
      - destruct (skip f d0) as [[u0 d3]| |]; discriminate. }
    pose proof (forLoop_post (arrayLoopInv v (List.length l)) (fun _ : unit => False)
                  f _ _ SL SR 0 _ d1 _ d2 P0 El) as [j [Hj HP]].
    destruct HP as (_ & Ha & Ht & _ & Hgi).
    destruct (arrayLoop_end tInfo v v2 v' _ gi (Z.to_nat j) e2 err d2 d' Ha Ht Hgi H)
      as (l' & H1 & H2 & H3 & _).
    exists l'. repeat split; auto. intros Hc. contradiction.
  - pose proof (forLoop_definite (arrayLoopInv v (List.length l)) f (toInt val)
                  _ SL 0 _ d1 _ d2 P0 El) as HP.
    destruct HP as (_ & Ha & Ht & _ & Hgi).
    destruct (arrayLoop_end tInfo v v2 v' _ gi (Z.to_nat (Z.max 0 (toInt val))) e2 err
                d2 d' Ha Ht Hgi H) as (l' & H1 & H2 & H3 & H4).
    exists l'. repeat split; auto. intros _ j Hj. apply H4. lia.
Qed.

Lemma array_target_keeps_length_witness :
  let d := newDecoder (hexDecode "8101") defaultDecMode in
  let v := RV (TArray 3 tInt) (VArray [VInt 7; VInt 8; VInt 9]) true in
  let v' := RV (TArray 3 tInt) (VArray [VInt 1; VInt 0; VInt 0]) true in
  rval v = VArray [VInt 7; VInt 8; VInt 9]
  /\ getHead d = Done ((cborTypeArray, 1, 1), setOff d 1)
  /\ parseArrayToArray 3 (decoders asciiLib 3) v (TArray 3 tInt) d
     = Done ((v', None), setOff d 2)
  /\ exists l', rval v' = VArray l' /\ List.length l' = 3%nat /\ rtype v' = rtype v
                /\ (1 <> 31 ->
                    forall j, (Z.to_nat (toInt 1) <= j < 3)%nat ->
                              nth_error l' j = Some (zeroValue (elemOf (nonPtrType
                                                                           (TArray 3 tInt))))).
Proof.
  intros d v v'.
  assert (H1 : rval v = VArray [VInt 7; VInt 8; VInt 9]) by reflexivity.
  assert (H2 : getHead d = Done ((cborTypeArray, 1, 1), setOff d 1)) by reflexivity.
  assert (H3 : parseArrayToArray 3 (decoders asciiLib 3) v (TArray 3 tInt) d
               = Done ((v', None), setOff d 2)) by reflexivity.
  refine (conj H1 (conj H2 (conj H3 _))).
  exact (array_target_keeps_length 3 (decoders asciiLib 3) v v' (TArray 3 tInt) _ None
           d (setOff d 1) (setOff d 2) cborTypeArray 1 1 H1 H2 H3).
Defined.

Lemma sliceLoopInv_step (R : Rec) (tInfo : gotype) (t : gotype) (c n : nat) (i : Z)
    (s s' : rvalue * option error) (d d' : decoder) :
  sliceLoopInv t c n s ->
  parseArrayToSliceIter R tInfo i s d = Done (inl s', d') ->
  sliceLoopInv t c n s'.
Proof.
  intros ((l & Hl & Hc) & Ht) H. destruct s as [v err]. cbn [fst] in *.
  unfold parseArrayToSliceIter, bind, lift in H.
  destruct (sliceIndex v i) as [e| |]; try discriminate.
  destruct (parseToValueR R _ e d) as [[[x le] d1]| |]; try discriminate.
  unfold ret in H. inversion H; subst s' d'. unfold sliceLoopInv, sliceStore. cbn [fst].
  rewrite Hl. cbn [withVal rval rtype]. split; [|exact Ht].
  eexists. split; [reflexivity|]. rewrite length_setNth. exact Hc.
Qed.

Lemma sliceIter_continues (R : Rec) (tInfo : gotype) (i : Z) (s : rvalue * option error)
    (d d' : decoder) (u : unit) :
  parseArrayToSliceIter R tInfo i s d <> Done (inr u, d').
Proof.
  destruct s as [v err]. unfold parseArrayToSliceIter, bind, lift. intros H.
  destruct (sliceIndex v i) as [e| |]; try discriminate.
  destruct (parseToValueR R _ e d) as [[[x le] d1]| |]; discriminate.
Qed.

(** Whenever the decode of an array into a slice returns, the target is
    a slice that is not nil, whose length is the number of items of the
    CBOR array and whose type is the target's, whether or not the items
    decode; an empty array gives an empty slice, whatever the target
    held.  The decode need not return: when an item of an array of
    indefinite length is left unread, the loop indexes past the slice and
    panics. *)
Theorem slice_target_length (f : nat) (R : Rec) (v v' : rvalue) (tInfo : gotype)
    (err : option error) (d d1 d' : decoder) (count : Z) :
  arrayCount f d = Done (count, d1) ->
  parseArrayToSlice f R v tInfo d = Done ((v', err), d') ->
  0 <= count /\ rtype v' = rtype v
  /\ exists l', rval v' = VSlice (Some (l', Z.to_nat count))
                /\ (Z.to_nat count <= List.length l')%nat
                /\ (count = 0 -> l' = []).
Proof.
  intros Hc H. unfold arrayCount in Hc. unfold parseArrayToSlice in H.
  unfold bind at 1 in Hc. unfold bind at 1 in H.
  destruct (getHead d) as [[[[t ai] val] d0]| |]; try discriminate.
  unfold bind at 1 in H.
  assert (Hc' : (if negb (ai =? 31) then ret (toInt val) else numOfItemsUntilBreak f) d0
                = Done (count, d1)) by exact Hc.
  rewrite Hc' in H. clear Hc Hc'.
  assert (V : exists v1 l1,
             0 <= count /\ rtype v1 = rtype v
             /\ rval v1 = VSlice (Some (l1, Z.to_nat count))
             /\ (Z.to_nat count <= List.length l1)%nat
             /\ (count = 0 -> l1 = [])
             /\ bind (forLoop f (fun i _ => more (negb (ai =? 31)) count i)
                        (parseArrayToSliceIter R tInfo) 0 (v1, None))
                  (fun r => match r with
                            | inl s => ret s
                            | inr _ => panic
                            end) d1 = Done ((v', err), d')).
  { unfold bind at 1 in H.
    destruct (IsNil v || (sliceCap v <? count) || (count =? 0)) eqn:En.
    - destruct (Z.ltb_spec count 0) as [L|L]; [discriminate|].
      unfold lift, setVal in H. destruct (canSet v); [|discriminate].
      unfold bind at 1 in H. unfold lift, SetLen in H. cbn [rval canSet] in H.
      rewrite repeat_length in H.
      replace (0 <=? count) with true in H by (symmetry; apply Z.leb_le; lia).
      replace (count <=? Z.of_nat (Z.to_nat count)) with true in H
        by (symmetry; apply Z.leb_le; lia).
      cbn [andb withVal rtype canSet] in H.
      eexists. eexists. split; [exact L|]. split; [|split; [|split; [|split; [|exact H]]]].
      + reflexivity.
      + reflexivity.
      + rewrite repeat_length. lia.
      + intros ->. reflexivity.
    - apply orb_false_iff in En as [En E0]. apply orb_false_iff in En as [En Ecap].
      unfold ret at 1 in H. unfold bind at 1 in H. unfold lift, SetLen in H.
      destruct (rval v) as [| | | | | | |[[l n]|]| | | | | | |] eqn:Ev; try discriminate.
      + destruct (canSet v && (0 <=? count) && (count <=? Z.of_nat (List.length l)))
          eqn:Eb; [|discriminate].
        apply andb_prop in Eb as [Eb E2]. apply andb_prop in Eb as [_ E1].
        apply Z.leb_le in E1, E2. apply Z.eqb_neq in E0.
        eexists. eexists. split; [exact E1|].
        split; [|split; [|split; [|split; [|exact H]]]].
        * reflexivity.
        * reflexivity.
        * lia.
        * intros. contradiction.
      + unfold IsNil in En. rewrite Ev in En. discriminate. }
  destruct V as (v1 & l1 & H0 & Ht & Hv & Hle & Hz & HL).
  unfold bind in HL.
  match type of HL with
  | context [forLoop f ?c ?b 0 ?s d1] =>
      destruct (forLoop f c b 0 s d1) as [[[s2|u] d2]| |] eqn:El; try discriminate
  end.
  unfold ret in HL. inversion HL; subst s2 d2.
  assert (P0 : sliceLoopInv (rtype v) (List.length l1) (Z.to_nat count) (v1, @None error)).
  { unfold sliceLoopInv. cbn [fst]. split; [|exact Ht]. exists l1. auto. }
  pose proof (forLoop_post
                (fun _ => sliceLoopInv (rtype v) (List.length l1) (Z.to_nat count))
                (fun _ : unit => False) f _ _
                (fun i s d0' s' d0'' => sliceLoopInv_step R tInfo _ _ _ i s s' d0' d0'')
                (fun i s d0' r d0'' _ Hb => sliceIter_continues R tInfo i s d0' d0'' r Hb)
                0 _ d1 _ d' P0 El) as [j [_ ((l' & Hl' & Hlen) & Ht')]].
  cbn [fst] in *. split; [exact H0|]. split; [exact Ht'|].
  exists l'. split; [exact Hl'|]. split; [lia|].
  intros Hc0. specialize (Hz Hc0). subst l1. cbn [List.length] in Hlen.
  destruct l'; [reflexivity | discriminate].
Qed.

Lemma slice_target_length_witness :
  let d := newDecoder (hexDecode "83616102f5") defaultDecMode in
  let v := RV (TSlice tInt) (VSlice None) true in
  let v' := RV (TSlice tInt) (VSlice (Some ([VInt 0; VInt 2; VInt 0], 3%nat))) true in
  let err := Some (UnmarshalTypeError "UTF-8 text string" "int" "" "") in
  arrayCount 3 d = Done (3, setOff d 1)
  /\ parseArrayToSlice 3 (decoders asciiLib 3) v (TSlice tInt) d
     = Done ((v', err), setOff d 5)
  /\ 0 <= 3 /\ rtype v' = rtype v
  /\ exists l', rval v' = VSlice (Some (l', Z.to_nat 3))
                /\ (Z.to_nat 3 <= List.length l')%nat
                /\ (3 = 0 -> l' = []).
Proof.
  intros d v v' err.
  assert (H1 : arrayCount 3 d = Done (3, setOff d 1)) by reflexivity.
  assert (H2 : parseArrayToSlice 3 (decoders asciiLib 3) v (TSlice tInt) d
               = Done ((v', err), setOff d 5)) by reflexivity.
  refine (conj H1 (conj H2 _)).
  exact (slice_target_length 3 (decoders asciiLib 3) v v' (TSlice tInt) err d
           (setOff d 1) (setOff d 5) 3 H1 H2).
Defined.

(** An array of indefinite length whose item is left unread, the fields
    of the element type not resolving: the decode panics. *)
Example slice_of_unresolved_panics :
  parseArrayToSlice 3 (decoders asciiLib 3) (RV (TSlice structU) (VSlice None) true)
    (TSlice structU) (newDecoder (hexDecode "9fa0ff") defaultDecMode)
  = Panic.
Proof. reflexivity. Qed.

(** ** Maps into maps *)

Lemma SetMapIndex_inv (t : gotype) (m0 : list (goval * goval)) (v v1 : rvalue)
    (k e : goval) :
  mapInv t m0 v -> SetMapIndex v k e = Done v1 -> mapInv t m0 v1.
Proof.
  intros (m & Hm & Ht & Hk) H. unfold SetMapIndex in H. rewrite Hm in H.
  inversion H; subst v1. unfold mapInv. cbn [withVal rval rtype].
  eexists. split; [reflexivity|]. split; [exact Ht|].
  intros k0 Hk0. apply mapInsert_has. apply Hk. exact Hk0.
Qed.

Lemma parseMapToMapIter_inv (f : nat) (R : Rec) (tInfo : gotype) (hasSize : bool)
    (count i : Z) (t : gotype) (m0 : list (goval * goval)) (s : mapToMapState)
    (d d' : decoder) (x : mapToMapState + rvalue * option error) :
  mapInv t m0 (mmV s) ->
  parseMapToMapIter f R tInfo hasSize count i s d = Done (x, d') ->
  match x with
  | inl s' => mapInv t m0 (mmV s')
  | inr r => mapInv t m0 (fst r)
  end.
Proof.
  intros HP H. unfold parseMapToMapIter, bind, getDm, ret, lift in H.
  destruct (parseToValueR R _ _ d) as [[[kx le] d1]| |]; try discriminate.
  destruct le.
  { destruct (skip f d1) as [[u d2]| |]; try discriminate.
    inversion H; subst. exact HP. }
  match type of H with context [if unhashableKey ?a ?b ?c then _ else _] =>
    destruct (unhashableKey a b c) end.
  { destruct (skip f d1) as [[u d2]| |]; try discriminate.
    inversion H; subst. exact HP. }
  destruct (parseToValueR R _ _ d1) as [[[ex le] d2]| |]; try discriminate.
  destruct le; [inversion H; subst; exact HP|].
  match type of H with context [SetMapIndex ?a ?b ?c] =>
    destruct (SetMapIndex a b c) as [v1| |] eqn:E1 end; try discriminate.
  pose proof (SetMapIndex_inv t m0 _ _ _ _ HP E1) as HP1.
  destruct (dupMapKey (dm d)); [inversion H; subst; exact HP1|].
  match type of H with context [if ?c then _ else _] => destruct c end;
    [|inversion H; subst; exact HP1].
  match type of H with context [if ?c then _ else _] => destruct c end;
    [|inversion H; subst; exact HP1].
  match type of H with context [SetMapIndex ?a ?b ?c] =>
    destruct (SetMapIndex a b c) as [v2| |] eqn:E2 end; try discriminate.
  pose proof (SetMapIndex_inv t m0 _ _ _ _ HP1 E2) as HP2.
  destruct (skipRestOfMap f hasSize count (i + 1) d2) as [[u d3]| |]; try discriminate.
  inversion H; subst. exact HP2.
Qed.

(** Whenever the decode of a map into a Go map returns, no entry of the
    Go map has been removed: every key the target had is there, also when
    entries failed to decode or the decode stopped at a duplicate key;
    the target is then not nil, a nil map having been replaced by an
    empty one, and it has the type it had. *)
Theorem map_target_keeps_entries (f : nat) (R : Rec) (v v' : rvalue) (tInfo : gotype)
    (m0 : option (list (goval * goval))) (err : option error) (d d' : decoder) :
  rval v = VMap m0 ->
  parseMapToMap f R v tInfo d = Done ((v', err), d') ->
  exists m', rval v' = VMap (Some m') /\ rtype v' = rtype v
             /\ forall k, mapHas (match m0 with Some m => m | None => [] end) k = true ->
                          mapHas m' k = true.
Proof.
  intros Hv H. unfold parseMapToMap in H. unfold bind at 1 in H.
  destruct (getHead d) as [[[[t ai] val] d1]| |]; try discriminate.
  unfold bind at 1 in H.
  set (m00 := match m0 with Some m => m | None => [] end).
  assert (V : forall v1 d2,
             (if IsNil v then lift (setVal v (VMap (Some []))) else ret v) d1
             = Done (v1, d2) -> mapInv (rtype v) m00 v1).
  { intros v1 d2 E. unfold IsNil in E. rewrite Hv in E. unfold mapInv.
    destruct m0 as [m|].
    - inversion E; subst. exists m. repeat split; auto.
    - unfold lift, setVal in E. destruct (canSet v); [|discriminate].
      inversion E; subst. cbn [rval rtype]. exists []. repeat split; auto. }
  destruct ((if IsNil v then lift (setVal v (VMap (Some []))) else ret v) d1)
    as [[v1 d2]| |] eqn:E1; try discriminate.
  specialize (V v1 d2 eq_refl).
  unfold bind at 1 in H. unfold getDm in H. unfold bind at 1 in H.
  match type of H with
  | context [forLoop f ?c ?b 0 ?s d2] =>
      destruct (forLoop f c b 0 s d2) as [[x d3]| |] eqn:El; try discriminate
  end.
  match type of El with
  | forLoop _ _ _ _ ?s0 _ = _ =>
  pose proof (forLoop_post
                (fun _ s => mapInv (rtype v) m00 (mmV s))
                (fun r : rvalue * option error => mapInv (rtype v) m00 (fst r))
                f _ _
                (fun i s d0 s' d0' HP Hb =>
                   parseMapToMapIter_inv f R tInfo (negb (ai =? 31)) (toInt val) i
                     (rtype v) m00 s d0 d0' (inl s') HP Hb)
                (fun i s d0 r d0' HP Hb =>
                   parseMapToMapIter_inv f R tInfo (negb (ai =? 31)) (toInt val) i
                     (rtype v) m00 s d0 d0' (inr r) HP Hb)
                0 s0 d2 x d3 V El) as HX
  end.
  destruct x as [s|r]; unfold ret in H; inversion H; subst.
  - destruct HX as [j [_ (m' & H1 & H2 & H3)]]. exists m'. auto.
  - destruct HX as (m' & H1 & H2 & H3). exists m'. auto.
Qed.

Lemma map_target_keeps_entries_witness :
  let d := newDecoder (hexDecode "a2616101616102") enforcedDecMode in
  let t := TMap typeString_ tInt in
  let v := RV t (VMap (Some [(VString "z", VInt 9)])) true in
  let v' := RV t (VMap (Some [(VString "z", VInt 9); (VString "a", VInt 0)])) true in
  let err := Some (DupMapKeyError (Some (typeString_, VString "a")) 1) in
  rval v = VMap (Some [(VString "z", VInt 9)])
  /\ parseMapToMap 3 (decoders asciiLib 3) v t d = Done ((v', err), setOff d 7)
  /\ exists m', rval v' = VMap (Some m') /\ rtype v' = rtype v
                /\ forall k, mapHas [(VString "z", VInt 9)] k = true -> mapHas m' k = true.
Proof.
  intros d t v v' err.
  assert (H1 : rval v = VMap (Some [(VString "z", VInt 9)])) by reflexivity.
  assert (H2 : parseMapToMap 3 (decoders asciiLib 3) v t d = Done ((v', err), setOff d 7))
    by reflexivity.
  refine (conj H1 (conj H2 _)).
  exact (map_target_keeps_entries 3 (decoders asciiLib 3) v v' t _ err d (setOff d 7)
           H1 H2).
Defined.

(** ** Text strings are valid UTF-8 *)

Lemma utf8Valid_cons (b0 : byte) (r : list byte) :
  utf8Valid (b0 :: r)
  = let cont (b : byte) (lo hi : Z) : bool := (lo <=? u8 b) && (u8 b <=? hi) in
    let x := u8 b0 in
    if x <? 0x80 then utf8Valid r
    else if (0xC2 <=? x) && (x <=? 0xDF) then
      match r with
      | b1 :: r1 => cont b1 0x80 0xBF && utf8Valid r1
      | _ => false
      end
    else if (0xE0 <=? x) && (x <=? 0xEF) then
      match r with
      | b1 :: b2 :: r2 =>
          cont b1 (if x =? 0xE0 then 0xA0 else 0x80) (if x =? 0xED then 0x9F else 0xBF)
          && cont b2 0x80 0xBF && utf8Valid r2
      | _ => false
      end
    else if (0xF0 <=? x) && (x <=? 0xF4) then
      match r with
      | b1 :: b2 :: b3 :: r3 =>
          cont b1 (if x =? 0xF0 then 0x90 else 0x80) (if x =? 0xF4 then 0x8F else 0xBF)
          && cont b2 0x80 0xBF && cont b3 0x80 0xBF && utf8Valid r3
      | _ => false
      end
    else false.
Proof. reflexivity. Qed.

Lemma utf8Valid_app_n (n : nat) (a b : list byte) :
  (List.length a <= n)%nat ->
  utf8Valid a = true -> utf8Valid b = true -> utf8Valid (a ++ b) = true.
Proof.
  revert a. induction n as [|n IH]; intros a Hl Ha Hb.
  - destruct a; [exact Hb | cbn [List.length] in Hl; lia].
  - destruct a as [|b0 r]; [exact Hb|].
    cbn [app]. rewrite utf8Valid_cons in Ha |- *. cbv zeta in Ha |- *.
    cbn [List.length] in Hl.
    destruct (u8 b0 <? 128); [apply IH; [lia | exact Ha | exact Hb]|].
    destruct ((194 <=? u8 b0) && (u8 b0 <=? 223)).
    { destruct r as [|b1 r1]; [discriminate|]. cbn [app List.length] in *.
      apply andb_prop in Ha as [H1 H2]. rewrite H1. cbn [andb].
      apply IH; [lia | exact H2 | exact Hb]. }
    destruct ((224 <=? u8 b0) && (u8 b0 <=? 239)).
    { destruct r as [|b1 [|b2 r2]]; try discriminate. cbn [app List.length] in *.
      apply andb_prop in Ha as [H1 H2]. rewrite H1. cbn [andb].
      apply IH; [lia | exact H2 | exact Hb]. }
    destruct ((240 <=? u8 b0) && (u8 b0 <=? 244)); [|discriminate].
    destruct r as [|b1 [|b2 [|b3 r3]]]; try discriminate. cbn [app List.length] in *.
    apply andb_prop in Ha as [H1 H2]. rewrite H1. cbn [andb].
    apply IH; [lia | exact H2 | exact Hb].
Qed.

Lemma utf8Valid_app (a b : list byte) :
  utf8Valid a = true -> utf8Valid b = true -> utf8Valid (a ++ b) = true.
Proof. apply (utf8Valid_app_n (List.length a)). lia. Qed.

(** The bytes [parseTextString] returns without an error are valid UTF-8,
    for a string of definite length and for one made of chunks alike;
    with an error it returns no bytes, and the error is the
    [SemanticError] for invalid UTF-8. *)
Theorem text_string_is_utf8 (f : nat) (d d' : decoder) (b : list byte)
    (oe : option error) :
  parseTextString f d = Done ((b, oe), d') ->
  match oe with
  | None => utf8Valid b = true
  | Some e => b = [] /\ e = SemanticError "cbor: invalid UTF-8 string"
  end.
Proof.
  unfold parseTextString. unfold bind at 1.
  destruct (getHead d) as [[[[t ai] val] d1]| |]; try discriminate.
  destruct (negb (ai =? 31)).
  - unfold bind, getOff, putOff.
    destruct (bytesAt (off d1) (off d1 + toInt val) d1) as [[bs d2]| |]; try discriminate.
    destruct (utf8Valid bs) eqn:Eu; cbn [negb]; unfold ret; intros H; inversion H; subst.
    + exact Eu.
    + split; reflexivity.
  - unfold bind at 1.
    match goal with
    | |- context [forLoop f ?c ?bd 0 [] d1] =>
        destruct (forLoop f c bd 0 [] d1) as [[x d2]| |] eqn:El; try discriminate;
        pose proof (forLoop_post (fun _ acc => utf8Valid acc = true)
                      (fun e => e = SemanticError "cbor: invalid UTF-8 string")
                      f c bd) as LP
    end.
    assert (HX : match x with
                 | inl acc => exists j : Z, 0 <= j /\ utf8Valid acc = true
                 | inr e => e = SemanticError "cbor: invalid UTF-8 string"
                 end).
    { eapply LP; cycle 3; [exact El| | |reflexivity].
      - intros i acc d0 acc' d0' Hacc Hb. unfold bind at 1 in Hb.
        destruct (getHead d0) as [[[[t' ai'] val'] d3]| |]; try discriminate.
        unfold bind, getOff, putOff in Hb.
        destruct (bytesAt (off d3) (off d3 + toInt val') d3) as [[xs d4]| |];
          try discriminate.
        destruct (utf8Valid xs) eqn:Eu; cbn [negb] in Hb.
        + unfold ret in Hb. inversion Hb; subst. apply utf8Valid_app; assumption.
        + destruct (forLoop f _ _ 0 tt _) as [[y d5]| |]; discriminate.
      - intros i acc d0 e d0' Hacc Hb. unfold bind at 1 in Hb.
        destruct (getHead d0) as [[[[t' ai'] val'] d3]| |]; try discriminate.
        unfold bind, getOff, putOff in Hb.
        destruct (bytesAt (off d3) (off d3 + toInt val') d3) as [[xs d4]| |];
          try discriminate.
        destruct (utf8Valid xs) eqn:Eu; cbn [negb] in Hb; [discriminate|].
        destruct (forLoop f _ _ 0 tt _) as [[y d5]| |]; try discriminate.
        unfold ret in Hb. inversion Hb. reflexivity. }
    unfold ret. intros H. destruct x as [acc|e]; inversion H; subst.
    + destruct HX as [j [_ Hv]]. exact Hv.
    + split; reflexivity.
Qed.

Lemma text_string_is_utf8_witness :
  let d := newDecoder (hexDecode "7f61c3ff") defaultDecMode in
  parseTextString 3 d
  = Done (([], Some (SemanticError "cbor: invalid UTF-8 string")), setOff d 4)
  /\ (@nil byte = [] /\ SemanticError "cbor: invalid UTF-8 string"
                        = SemanticError "cbor: invalid UTF-8 string").
Proof.
  intros d.
  assert (H : parseTextString 3 d
              = Done (([], Some (SemanticError "cbor: invalid UTF-8 string")), setOff d 4))
    by reflexivity.
  exact (conj H (text_string_is_utf8 3 d (setOff d 4) []
                   (Some (SemanticError "cbor: invalid UTF-8 string")) H)).
Defined.

(** ** Round trips of strings *)

Lemma nextByte_fun (d : decoder) (b b' : Z) : nextByte d b -> nextByte d b' -> b = b'.
Proof. unfold nextByte. intros H H'. rewrite H in H'. inversion H'. reflexivity. Qed.

Lemma header_first (t n : Z) :
  0 <= n ->
  exists a tl, encodeCborHeader t n = byteOfZ (Z.lor t a) :: tl /\ 0 <= a <= 27.
Proof.
  intros Hn. unfold encodeCborHeader.
  destruct (Z.leb_spec n 23); [exists n; eexists; split; [reflexivity | lia]|].
  destruct (n <=? 255); [exists 24; eexists; split; [reflexivity | lia]|].
  destruct (n <=? 65535); [exists 25; eexists; split; [reflexivity | lia]|].
  destruct (n <=? 4294967295); [exists 26; eexists; split; [reflexivity | lia]|].
  exists 27; eexists; split; [reflexivity | lia].
Qed.

(** The head of the tests' encoder, read back: the type and the argument,
    an additional information that is not the indefinite-length mark, and
    the offset behind the header. *)
Lemma getHead_header (t n : Z) (rest : list byte) (m : decMode) :
  In t majorTypes -> 0 <= n < 2 ^ 64 ->
  let d := newDecoder (encodeCborHeader t n ++ rest) m in
  exists ai b,
    getHead d = Done ((t, ai, n), setOff d (Z.of_nat (List.length (encodeCborHeader t n))))
    /\ ai <> 31 /\ nextByte d b /\ Z.land b 0xe0 = t.
Proof.
  intros Ht Hn d.
  destruct (@getHead_encodeHead t n rest m Ht Hn) as [ai Hg].
  rewrite (@encodeHead_oracle t n Hn) in Hg. fold d in Hg.
  destruct (getHead_nextByte _ _ _ _ _ Hg) as [b [Hb [Hbt Hba]]].
  exists ai, b. split; [exact Hg|]. split; [|split; [exact Hb | symmetry; exact Hbt]].
  destruct (header_first t n (proj1 Hn)) as (a & tl & Eh & Ha).
  assert (Hb' : nextByte d (u8 (byteOfZ (Z.lor t a)))).
  { unfold nextByte. apply byteAt_nth; [cbn [off d newDecoder]; lia|].
    unfold d. cbn [data off newDecoder]. rewrite Eh. reflexivity. }
  pose proof (nextByte_fun d _ _ Hb Hb') as ->.
  destruct (@head_byte t a Ht ltac:(lia)) as [_ H2]. rewrite H2 in Hba. lia.
Qed.

Lemma bytesAt_payload (hdr bs rest : list byte) (m : decMode) :
  let d := newDecoder (hdr ++ bs ++ rest) m in
  let d1 := setOff d (Z.of_nat (List.length hdr)) in
  bytesAt (off d1) (off d1 + Z.of_nat (List.length bs)) d1 = Done (bs, d1).
Proof.
  intros d d1. apply (@bytesAt_mid d1 hdr bs rest); reflexivity.
Qed.

Lemma toInt_length (n : Z) : 0 <= n < 2 ^ 63 -> toInt n = n.
Proof. intros H. unfold toInt. destruct (Z.ltb_spec n (2 ^ 63)); [reflexivity | lia]. Qed.

(** Round trip of strings through the header of the tests' encoder.  A
    text string decoded into a string target gives the string of its
    bytes when they are valid UTF-8, and otherwise a [SemanticError] with
    the target unchanged; a byte string decoded into a byte slice gives
    the slice of its bytes.  Either way the offset is behind the string. *)
Theorem string_header_roundtrip (lib : golib) (fuel : nat) (x : goval)
    (bs rest : list byte) (m : decMode) :
  Z.of_nat (List.length bs) < 2 ^ 63 ->
  let n := Z.of_nat (List.length bs) in
  let after (t : Z) (d : decoder) :=
    setOff d (Z.of_nat (List.length (encodeCborHeader t n)) + n) in
  (requiredTag m typeString_ = false ->
   let d := newDecoder (encodeCborHeader cborTypeTextString n ++ bs ++ rest) m in
   parseToValueF lib (Datatypes.S fuel) typeString_ (RV typeString_ x true) d
   = if utf8Valid bs
     then Done ((VString (string_of_list_byte bs), None), after cborTypeTextString d)
     else Done ((x, Some (SemanticError "cbor: invalid UTF-8 string")),
                after cborTypeTextString d))
  /\ (requiredTag m typeByteSlice = false ->
      let d := newDecoder (encodeCborHeader cborTypeByteString n ++ bs ++ rest) m in
      parseToValueF lib (Datatypes.S fuel) typeByteSlice (RV typeByteSlice x true) d
      = Done ((bytesVal bs, None), after cborTypeByteString d)
      /\ bytesOfVal (bytesVal bs) = bs).
Proof.
  intros Hlen n after.
  assert (Hn : 0 <= n < 2 ^ 64) by (unfold n; lia).
  split.
  - intros Hr d.
    assert (Hin : In cborTypeTextString majorTypes) by (do 3 right; left; reflexivity).
    destruct (getHead_header cborTypeTextString n (bs ++ rest) m Hin Hn)
      as (ai & b & Hg & Hai & Hb & Ht).
    fold d in Hg, Hb.
    unfold parseToValueF. cbn [decoders parseToValueR].
    rewrite (parseToValue_plain lib fuel (decoders lib fuel) typeString_
               (RV typeString_ x true) d b Hb
               ltac:(rewrite Ht; discriminate)
               ltac:(apply notPrimitives_notNil; rewrite Ht; discriminate)
               eq_refl ltac:(discriminate) Hr).
    unfold bind at 1. unfold parseByType. unfold bind at 1.
    erewrite nextCBORType_next by exact Hb. rewrite Ht.
    change (cborTypeTextString =? cborTypePositiveInt) with false.
    change (cborTypeTextString =? cborTypeNegativeInt) with false.
    change (cborTypeTextString =? cborTypeByteString) with false.
    change (cborTypeTextString =? cborTypeTextString) with true. cbv iota.
    unfold bind at 1. unfold parseTextString. unfold bind at 1. rewrite Hg.
    replace (ai =? 31) with false by (symmetry; apply Z.eqb_neq; exact Hai).
    cbn [negb]. unfold bind at 1. unfold getOff. unfold bind at 1.
    rewrite (toInt_length n ltac:(unfold n; lia)).
    pose proof (bytesAt_payload (encodeCborHeader cborTypeTextString n) bs rest m) as Hp.
    cbv zeta in Hp. fold d in Hp. unfold n at 3. rewrite Hp.
    unfold bind at 1. unfold putOff, after. cbn [off setOff].
    destruct (utf8Valid bs); cbn [negb]; reflexivity.
  - intros Hr d.
    assert (Hin : In cborTypeByteString majorTypes) by (do 2 right; left; reflexivity).
    destruct (getHead_header cborTypeByteString n (bs ++ rest) m Hin Hn)
      as (ai & b & Hg & Hai & Hb & Ht).
    fold d in Hg, Hb. split; [|apply bytesOfVal_bytesVal].
    unfold parseToValueF. cbn [decoders parseToValueR].
    rewrite (parseToValue_plain lib fuel (decoders lib fuel) typeByteSlice
               (RV typeByteSlice x true) d b Hb
               ltac:(rewrite Ht; discriminate)
               ltac:(apply notPrimitives_notNil; rewrite Ht; discriminate)
               eq_refl ltac:(discriminate) Hr).
    unfold bind at 1. unfold parseByType. unfold bind at 1.
    erewrite nextCBORType_next by exact Hb. rewrite Ht.
    change (cborTypeByteString =? cborTypePositiveInt) with false.
    change (cborTypeByteString =? cborTypeNegativeInt) with false.
    change (cborTypeByteString =? cborTypeByteString) with true. cbv iota.
    unfold bind at 1. unfold parseByteString. unfold bind at 1. rewrite Hg.
    replace (ai =? 31) with false by (symmetry; apply Z.eqb_neq; exact Hai).
    cbn [negb]. rewrite (toInt_length n ltac:(unfold n; lia)).
    replace (n <? 0) with false by (symmetry; apply Z.ltb_ge; lia).
    unfold bind at 1. unfold getOff. unfold bind at 1.
    pose proof (bytesAt_payload (encodeCborHeader cborTypeByteString n) bs rest m) as Hp.
    cbv zeta in Hp. fold d in Hp. unfold n at 3. rewrite Hp.
    unfold bind at 1. unfold putOff, after. cbn [off setOff]. reflexivity.
Qed.

Lemma string_header_roundtrip_witness :
  let bs := hexDecode "c328" in
  let d := newDecoder (encodeCborHeader cborTypeTextString 2 ++ bs ++ []) defaultDecMode in
  Z.of_nat (List.length bs) < 2 ^ 63
  /\ requiredTag defaultDecMode typeString_ = false
  /\ parseToValueF asciiLib 1 typeString_ (RV typeString_ (VString "old") true) d
     = Done ((VString "old", Some (SemanticError "cbor: invalid UTF-8 string")),
             setOff d 3).
Proof.
  intros bs d.
  assert (H1 : Z.of_nat (List.length bs) < 2 ^ 63) by reflexivity.
  assert (H2 : requiredTag defaultDecMode typeString_ = false) by reflexivity.
  refine (conj H1 (conj H2 _)).
  exact (proj1 (string_header_roundtrip asciiLib 0 (VString "old") bs [] defaultDecMode
                  H1) H2).
Defined.

(** ** Integer keys of a map decoded into a struct *)

(** An integer key of a map decoded into a struct selects the first
    field not matched earlier in this map that has the [keyasint] option
    and the key as its number, and marks it; otherwise it selects no
    field.  The number of an unsigned key is its argument converted to
    [int64] without a check, so an argument above the [int64] range
    stands for the negative number it wraps to; the key is read with
    [getHead] alone and leaves no error. *)
Theorem int_key_selection (lib : golib) (f : nat) (R : Rec) (fields : list field)
    (s : mapToStructState) (d d1 : decoder) (ai val : Z) :
  List.length (msFound s) = List.length fields ->
  nextCBORType d = Done (cborTypePositiveInt, d) ->
  getHead d = Done ((cborTypePositiveInt, ai, val), d1) ->
  let n := if val <? 2 ^ 63 then val else val - 2 ^ 64 in
  let r := matchIntKey fields (msFound s) n in
  intKeySelection fields (msFound s) n r
  /\ parseStructKey lib f R fields s d
     = Done (inr (fst r,
                  match dupMapKey (dm d) with
                  | DupMapKeyEnforcedAPF => Some (typeInt64, VInt n)
                  | DupMapKeyQuiet => None
                  end, snd r, msErr s), d1).
Proof.
  intros Hlen Hn Hg n r. split.
  - unfold r, matchIntKey, intKeySelection.
    pose proof (findFld_first (intMatch n) fields (msFound s)) as Hf.
    destruct (findFld (intMatch n) fields (msFound s) O) as [[i fld]|].
    + exists i. split; [reflexivity|]. split.
      * apply nth_setNth. rewrite Hlen. apply nth_error_Some.
        destruct Hf as [Hi _]. rewrite Hi. discriminate.
      * split; [exact Hf|]. destruct Hf as (_ & _ & Hc & _).
        unfold intMatch in Hc. apply andb_prop in Hc as [H1 H2].
        apply Z.eqb_eq in H2. auto.
    + split; [reflexivity | exact Hf].
  - unfold parseStructKey. unfold bind at 1. unfold getDm. unfold bind at 1.
    rewrite Hn.
    change (cborTypePositiveInt =? cborTypeTextString) with false.
    change (cborTypePositiveInt <=? cborTypeNegativeInt) with true. cbv iota.
    unfold bind at 1. rewrite Hg.
    change (cborTypePositiveInt =? cborTypePositiveInt) with true.
    cbn [negb andb]. cbv iota.
    change (toInt64 val) with n. fold r.
    destruct r as [fo found']. cbn [fst snd]. unfold ret.
    destruct (dupMapKey (dm d)); reflexivity.
Qed.

Lemma int_key_selection_witness :
  let fields := [Field "N" (-1) true [O] tInt] in
  let s := MSS (RV tInt (VInt 0) true) [false] [] 0 None in
  let d := setOff (newDecoder (hexDecode "a11bffffffffffffffff01") defaultDecMode) 1 in
  List.length (msFound s) = List.length fields
  /\ nextCBORType d = Done (cborTypePositiveInt, d)
  /\ getHead d = Done ((cborTypePositiveInt, 27, 18446744073709551615), setOff d 10)
  /\ parseStructKey asciiLib 2 (decoders asciiLib 2) fields s d
     = Done (inr (Some (Field "N" (-1) true [O] tInt), None, [true], None), setOff d 10).
Proof.
  intros fields s d.
  assert (H1 : List.length (msFound s) = List.length fields) by reflexivity.
  assert (H2 : nextCBORType d = Done (cborTypePositiveInt, d)) by reflexivity.
  assert (H3 : getHead d
               = Done ((cborTypePositiveInt, 27, 18446744073709551615), setOff d 10))
    by reflexivity.
  refine (conj H1 (conj H2 (conj H3 _))).
  exact (proj2 (int_key_selection asciiLib 2 (decoders asciiLib 2) fields s d (setOff d 10)
                  27 18446744073709551615 H1 H2 H3)).
Defined.

(** ** Tags and typed targets *)

Lemma eqTagNums_eq (a b : list Z) : eqTagNums a b = true <-> a = b.
Proof.
  revert b. induction a as [|x r IH]; intros [|y r']; cbn [eqTagNums];
    try (split; [discriminate | intros H; inversion H]); [tauto|].
  rewrite andb_true_iff, Z.eqb_eq, IH. split.
  - intros [-> ->]. reflexivity.
  - intros H. inversion H. auto.
Qed.

(** A target whose type is registered with tag numbers, at an item that
    starts with tags: the item is accepted exactly when the numbers of
    all the tags in front of the content are the registered numbers, in
    their order, and the decoder is then at the content; otherwise the
    content is skipped and the [WrongTagError] carries the registered
    type, the registered numbers and the numbers found. *)
Theorem registered_tag_check (f : nat) (tInfo : gotype) (d d1 : decoder)
    (tp : tagProvider) (item : tagItem) (nums : list Z) :
  tags (dm d) = Some tp ->
  getTagItemFromType tp (nonPtrType tInfo) = Some item ->
  nextCBORType d = Done (cborTypeTag, d) ->
  collectTagNums f [] d = Done (nums, d1) ->
  (nums = num item -> checkRegisteredTag f tInfo d = Done (None, d1))
  /\ (nums <> num item ->
      checkRegisteredTag f tInfo d
      = bind (skip f)
          (fun _ => ret (Some (WrongTagError (contentType item) (num item) nums))) d1).
Proof.
  intros Ht Hi Hn Hc.
  assert (E : checkRegisteredTag f tInfo d
              = (if equalTagNum item nums then ret None
                 else bind (skip f)
                        (fun _ => ret (Some (WrongTagError (contentType item) (num item)
                                               nums)))) d1).
  { unfold checkRegisteredTag. unfold bind at 1. unfold getDm. rewrite Ht, Hi.
    unfold bind at 1. rewrite Hn.
    change (cborTypeTag =? cborTypeTag) with true. cbn [negb].
    unfold bind at 1. rewrite Hc. reflexivity. }
  rewrite E. unfold equalTagNum. split; intros H.
  - replace (eqTagNums (num item) nums) with true
      by (symmetry; apply eqTagNums_eq; symmetry; exact H).
    reflexivity.
  - destruct (eqTagNums (num item) nums) eqn:Eq; [|reflexivity].
    apply eqTagNums_eq in Eq. congruence.
Qed.

Lemma registered_tag_check_witness :
  let d := newDecoder (hexDecode "d865a0") requiredTagDecMode in
  let tp := tagSetOf (TagItem [100] structAB DecTagRequired) in
  let item := TagItem [100] structAB DecTagRequired in
  tags (dm d) = Some tp
  /\ getTagItemFromType tp (nonPtrType structAB) = Some item
  /\ nextCBORType d = Done (cborTypeTag, d)
  /\ collectTagNums 3 [] d = Done ([101], setOff d 2)
  /\ [101] <> num item
  /\ checkRegisteredTag 3 structAB d
     = Done (Some (WrongTagError structAB [100] [101]), setOff d 3).
Proof.
  intros d tp item.
  assert (H1 : tags (dm d) = Some tp) by reflexivity.
  assert (H2 : getTagItemFromType tp (nonPtrType structAB) = Some item) by reflexivity.
  assert (H3 : nextCBORType d = Done (cborTypeTag, d)) by reflexivity.
  assert (H4 : collectTagNums 3 [] d = Done ([101], setOff d 2)) by reflexivity.
  assert (H5 : [101] <> num item) by discriminate.
  refine (conj H1 (conj H2 (conj H3 (conj H4 (conj H5 _))))).
  rewrite (proj2 (registered_tag_check 3 structAB d (setOff d 2) tp item [101]
                    H1 H2 H3 H4) H5).
  reflexivity.
Defined.

(** A tag that is neither a built-in one (0 to 3), nor the self-described
    tag, nor registered, is transparent for a typed target: the content
    is decoded into the target as if the tag were not there. *)
Theorem unknown_tag_transparent (lib : golib) (f : nat) (R : Rec) (tInfo : gotype)
    (v : rvalue) (d d1 : decoder) (ai tagNum h : Z) :
  tags (dm d) = None ->
  spclType tInfo = specialTypeNone ->
  getHead d = Done ((cborTypeTag, ai, tagNum), d1) ->
  nextByte d1 h ->
  3 < tagNum -> tagNum <> selfDescribedCBORTagNum ->
  parseInto lib (Datatypes.S f) R tInfo v d
  = bind (parseToValueR R tInfo v) (fun '(x, err) => ret (withVal v x, err)) d1.
Proof.
  intros Ht Hs Hg Hh H3 Hsd.
  destruct (getHead_nextByte _ _ _ _ _ Hg) as [b [Hb [Hbt _]]].
  assert (Hn : nextCBORType d = Done (cborTypeTag, d))
    by (erewrite nextCBORType_next by exact Hb; rewrite <- Hbt; reflexivity).
  destruct (pres_getHead _ Hg) as [Hd Hm].
  assert (S1 : stripSelfDescribed (Datatypes.S f) d = Done (tt, d)).
  { unfold stripSelfDescribed. unfold bind at 1. cbn [forLoop]. unfold bind at 1.
    unfold bind at 1. rewrite Hn. change (cborTypeTag =? cborTypeTag) with true.
    unfold ret at 1. cbn [negb]. unfold bind at 1. unfold bind at 1. unfold getOff.
    unfold bind at 1. rewrite Hg.
    replace (tagNum =? selfDescribedCBORTagNum) with false
      by (symmetry; apply Z.eqb_neq; exact Hsd).
    cbn [negb]. unfold bind at 1. rewrite (putOff_back d d1 Hd Hm). reflexivity. }
  assert (S2 : checkBuiltinTag (Datatypes.S f) d = Done (None, d)).
  { unfold checkBuiltinTag. unfold bind at 1. rewrite Hn.
    change (cborTypeTag =? cborTypeTag) with true. cbv iota.
    unfold bind at 1. unfold getOff. unfold bind at 1. rewrite Hg.
    unfold bind at 1. unfold bind at 1. unfold nextByte in Hh. rewrite Hh.
    unfold validBuiltinTag.
    replace (tagNum =? 0) with false by (symmetry; apply Z.eqb_neq; lia).
    replace (tagNum =? 1) with false by (symmetry; apply Z.eqb_neq; lia).
    replace (tagNum =? 2) with false by (symmetry; apply Z.eqb_neq; lia).
    replace (tagNum =? 3) with false by (symmetry; apply Z.eqb_neq; lia).
    cbn [orb]. unfold bind at 1. rewrite (putOff_back d d1 Hd Hm). reflexivity. }
  unfold parseInto. unfold bind at 1. rewrite S1. unfold bind at 1. rewrite S2.
  rewrite parseSpecial_none by (left; exact Hs).
  unfold bind at 1. unfold checkRegisteredTag. unfold bind at 1. unfold getDm.
  rewrite Ht. unfold ret at 1.
  unfold parseByType. unfold bind at 1. rewrite Hn.
  change (cborTypeTag =? cborTypePositiveInt) with false.
  change (cborTypeTag =? cborTypeNegativeInt) with false.
  change (cborTypeTag =? cborTypeByteString) with false.
  change (cborTypeTag =? cborTypeTextString) with false.
  change (cborTypeTag =? cborTypePrimitives) with false.
  change (cborTypeTag =? cborTypeTag) with true. cbv iota.
  unfold bind at 1. rewrite Hg.
  replace (tagNum =? 2) with false by (symmetry; apply Z.eqb_neq; lia).
  replace (tagNum =? 3) with false by (symmetry; apply Z.eqb_neq; lia).
  reflexivity.
Qed.

Lemma unknown_tag_transparent_witness :
  let d := newDecoder (hexDecode "d86418c8") defaultDecMode in
  let v := RV tInt (VInt 0) true in
  tags (dm d) = None /\ spclType tInt = specialTypeNone
  /\ getHead d = Done ((cborTypeTag, 24, 100), setOff d 2)
  /\ nextByte (setOff d 2) 0x18
  /\ 3 < 100 /\ 100 <> selfDescribedCBORTagNum
  /\ parseInto asciiLib 2 (decoders asciiLib 2) tInt v d
     = Done ((RV tInt (VInt 200) true, None), setOff d 4).
Proof.
  intros d v.
  assert (H1 : tags (dm d) = None) by reflexivity.
  assert (H2 : spclType tInt = specialTypeNone) by reflexivity.
  assert (H3 : getHead d = Done ((cborTypeTag, 24, 100), setOff d 2)) by reflexivity.
  assert (H4 : nextByte (setOff d 2) 0x18) by reflexivity.
  assert (H5 : 3 < 100) by reflexivity.
  assert (H6 : 100 <> selfDescribedCBORTagNum) by discriminate.
  refine (conj H1 (conj H2 (conj H3 (conj H4 (conj H5 (conj H6 _)))))).
  rewrite (unknown_tag_transparent asciiLib 1 (decoders asciiLib 2) tInt v d (setOff d 2)
             24 100 0x18 H1 H2 H3 H4 H5 H6).
  reflexivity.
Defined.

(** ** Decoding options *)

Lemma checkLimit_inr (what : string) (x def lo hi : Z) (range : string) (r : Z) :
  lo <= def <= hi -> 0 < lo ->
  checkLimit what x def lo hi range = inr r ->
  lo <= r <= hi /\ r = (if x =? 0 then def else x).
Proof.
  intros Hd Hl. unfold checkLimit. destruct (Z.eqb_spec x 0) as [E|E].
  - intros H. inversion H; subst. auto.
  - destruct (Z.ltb_spec x lo) as [L1|L1]; cbn [orb]; [discriminate|].
    destruct (Z.ltb_spec hi x) as [L2|L2]; [discriminate|].
    intros Hx. inversion Hx; subst. split; [lia | reflexivity].
Qed.

Lemma checkLimit_again (what : string) (r def lo hi : Z) (range : string) :
  0 < lo -> lo <= r <= hi -> checkLimit what r def lo hi range = inr r.
Proof.
  intros Hl Hr. unfold checkLimit.
  replace (r =? 0) with false by (symmetry; apply Z.eqb_neq; lia).
  replace (r <? lo) with false by (symmetry; apply Z.ltb_ge; lia).
  replace (hi <? r) with false by (symmetry; apply Z.ltb_ge; lia).
  reflexivity.
Qed.

(** What [DecOptions_decMode] has checked when it returns a mode. *)
Lemma decMode_checked (tv : Z -> bool) (opts : DecOptions) (dm : decModeFields) :
  DecOptions_decMode tv opts = inr dm ->
  (modeValid maxDupMapKeyMode (DupMapKey opts) = true
   /\ tv (TimeTag opts) = true
   /\ modeValid maxIndefLengthMode (IndefLength opts) = true
   /\ modeValid maxTagsMode (TagsMd opts) = true
   /\ modeValid maxIntDec (IntDec opts) = true
   /\ modeValid maxMapKeyByteString (MapKeyByteString opts) = true
   /\ modeValid maxExtraDecError (ExtraReturnErrors opts) = true)
  /\ (4 <= fMaxNestedLevels dm <= 256
      /\ fMaxNestedLevels dm
         = (if MaxNestedLevels opts =? 0 then 32 else MaxNestedLevels opts))
  /\ (16 <= fMaxArrayElements dm <= 2147483647
      /\ fMaxArrayElements dm
         = (if MaxArrayElements opts =? 0 then 131072 else MaxArrayElements opts))
  /\ (16 <= fMaxMapPairs dm <= 2147483647
      /\ fMaxMapPairs dm = (if MaxMapPairs opts =? 0 then 131072 else MaxMapPairs opts))
  /\ match DefaultMapType opts with
     | Some t => kindOf t = KMap
     | None => True
     end
  /\ (fDupMapKey dm = DupMapKey opts /\ fTimeTag dm = TimeTag opts
      /\ fIndefLength dm = IndefLength opts /\ fTagsMd dm = TagsMd opts
      /\ fIntDec dm = IntDec opts /\ fMapKeyByteString dm = MapKeyByteString opts
      /\ fExtraReturnErrors dm = ExtraReturnErrors opts
      /\ fDefaultMapType dm = DefaultMapType opts).
Proof.
  unfold DecOptions_decMode.
  destruct (modeValid maxDupMapKeyMode (DupMapKey opts)); [|discriminate].
  destruct (tv (TimeTag opts)); [|discriminate].
  destruct (modeValid maxIndefLengthMode (IndefLength opts)); [|discriminate].
  destruct (modeValid maxTagsMode (TagsMd opts)); [|discriminate].
  destruct (modeValid maxIntDec (IntDec opts)); [|discriminate].
  destruct (modeValid maxMapKeyByteString (MapKeyByteString opts)); [|discriminate].
  cbn [negb].
  destruct (checkLimit "MaxNestedLevels" _ _ _ _ _) as [e|nested] eqn:E1; [discriminate|].
  destruct (checkLimit "MaxArrayElements" _ _ _ _ _) as [e|elements] eqn:E2;
    [discriminate|].
  destruct (checkLimit "MaxMapPairs" _ _ _ _ _) as [e|pairs] eqn:E3; [discriminate|].
  destruct (modeValid maxExtraDecError (ExtraReturnErrors opts)); [|discriminate].
  cbn [negb].
  apply checkLimit_inr in E1; [|lia|lia].
  apply checkLimit_inr in E2;
    [|unfold defaultMaxArrayElements, minMaxArrayElements, maxMaxArrayElements; lia
     |unfold minMaxArrayElements; lia].
  apply checkLimit_inr in E3;
    [|unfold defaultMaxMapPairs, minMaxMapPairs, maxMaxMapPairs; lia
     |unfold minMaxMapPairs; lia].
  unfold defaultMaxArrayElements, minMaxArrayElements, maxMaxArrayElements in E2.
  unfold defaultMaxMapPairs, minMaxMapPairs, maxMaxMapPairs in E3.
  destruct (DefaultMapType opts) as [t|].
  - destruct (Kind_eqb (kindOf t) KMap) eqn:Ek; [|discriminate]. cbn [negb].
    intros H. inversion H; subst dm.
    cbn [fMaxNestedLevels fMaxArrayElements fMaxMapPairs fDupMapKey fIndefLength fTagsMd
           fIntDec fMapKeyByteString fExtraReturnErrors fDefaultMapType fTimeTag].
    repeat split; try tauto.
    destruct (kindOf t); try discriminate. reflexivity.
  - intros H. inversion H; subst dm.
    cbn [fMaxNestedLevels fMaxArrayElements fMaxMapPairs fDupMapKey fIndefLength fTagsMd
           fIntDec fMapKeyByteString fExtraReturnErrors fDefaultMapType fTimeTag].
    repeat split; tauto.
Qed.

(** When [DecOptions.decMode] accepts the options, the limits of the mode
    lie in their ranges, a limit left at zero having been replaced by its
    default (32 nested levels, 131072 array elements and map pairs) and
    every other one kept; each mode is below the bound of its type, a
    negative mode included, since the modes are only checked from above;
    and a default map type is of map kind. *)
Theorem decMode_limits (tv : Z -> bool) (opts : DecOptions) (dm : decModeFields) :
  DecOptions_decMode tv opts = inr dm ->
  4 <= fMaxNestedLevels dm <= 256
  /\ 16 <= fMaxArrayElements dm <= 2147483647
  /\ 16 <= fMaxMapPairs dm <= 2147483647
  /\ fMaxNestedLevels dm = (if MaxNestedLevels opts =? 0 then 32 else MaxNestedLevels opts)
  /\ fMaxArrayElements dm
     = (if MaxArrayElements opts =? 0 then 131072 else MaxArrayElements opts)
  /\ fMaxMapPairs dm = (if MaxMapPairs opts =? 0 then 131072 else MaxMapPairs opts)
  /\ fDupMapKey dm < 2 /\ fIndefLength dm < 2 /\ fTagsMd dm < 2 /\ fIntDec dm < 2
  /\ fMapKeyByteString dm < 2 /\ fExtraReturnErrors dm < 2
  /\ match fDefaultMapType dm with
     | Some t => kindOf t = KMap
     | None => True
     end.
Proof.
  intros H. apply decMode_checked in H.
  destruct H as ((V1 & _ & V3 & V4 & V5 & V6 & V7) & (N1 & N2) & (A1 & A2) & (P1 & P2)
                 & Hm & (E1 & _ & E3 & E4 & E5 & E6 & E7 & E8)).
  unfold modeValid, maxDupMapKeyMode, maxIndefLengthMode, maxTagsMode, maxIntDec,
    maxMapKeyByteString, maxExtraDecError in *.
  apply Z.ltb_lt in V1, V3, V4, V5, V6, V7.
  rewrite E1, E3, E4, E5, E6, E7, E8.
  repeat split; try lia; try assumption.
Qed.

Lemma decMode_limits_witness :
  let opts := MkDecOptions (-1) 0 0 100 0 0 0 1 0 1 None in
  let dm := MkDecModeFields (-1) 0 32 100 131072 0 0 1 0 1 None in
  DecOptions_decMode (fun m => m <? 3) opts = inr dm
  /\ 4 <= fMaxNestedLevels dm <= 256
  /\ 16 <= fMaxArrayElements dm <= 2147483647
  /\ 16 <= fMaxMapPairs dm <= 2147483647
  /\ fMaxNestedLevels dm = (if MaxNestedLevels opts =? 0 then 32 else MaxNestedLevels opts)
  /\ fMaxArrayElements dm
     = (if MaxArrayElements opts =? 0 then 131072 else MaxArrayElements opts)
  /\ fMaxMapPairs dm = (if MaxMapPairs opts =? 0 then 131072 else MaxMapPairs opts)
  /\ fDupMapKey dm < 2 /\ fIndefLength dm < 2 /\ fTagsMd dm < 2 /\ fIntDec dm < 2
  /\ fMapKeyByteString dm < 2 /\ fExtraReturnErrors dm < 2
  /\ match fDefaultMapType dm with
     | Some t => kindOf t = KMap
     | None => True
     end.
Proof.
  intros opts dm.
  assert (H : DecOptions_decMode (fun m => m <? 3) opts = inr dm) by reflexivity.
  exact (conj H (decMode_limits (fun m => m <? 3) opts dm H)).
Defined.

(** Round trip of the options: a mode made from options gives, through
    [DecOptions], options from which [decMode] makes the same mode again,
    except that the default map type is lost, which [DecOptions] does not
    give back.  The defaults filled in are not filled in twice. *)
Theorem decMode_options_roundtrip (tv : Z -> bool) (opts : DecOptions)
    (dm : decModeFields) :
  DecOptions_decMode tv opts = inr dm ->
  DecOptions_decMode tv (decMode_DecOptions dm)
  = inr (MkDecModeFields (fDupMapKey dm) (fTimeTag dm) (fMaxNestedLevels dm)
           (fMaxArrayElements dm) (fMaxMapPairs dm) (fIndefLength dm) (fTagsMd dm)
           (fIntDec dm) (fMapKeyByteString dm) (fExtraReturnErrors dm) None).
Proof.
  intros H. apply decMode_checked in H.
  destruct H as ((V1 & V2 & V3 & V4 & V5 & V6 & V7) & (N1 & _) & (A1 & _) & (P1 & _)
                 & _ & (E1 & E2 & E3 & E4 & E5 & E6 & E7 & _)).
  unfold DecOptions_decMode, decMode_DecOptions.
  cbn [DupMapKey TimeTag MaxNestedLevels MaxArrayElements MaxMapPairs IndefLength TagsMd
         IntDec MapKeyByteString ExtraReturnErrors DefaultMapType].
  rewrite <- E1 in V1. rewrite <- E2 in V2. rewrite <- E3 in V3. rewrite <- E4 in V4.
  rewrite <- E5 in V5. rewrite <- E6 in V6. rewrite <- E7 in V7.
  rewrite V1, V2, V3, V4, V5, V6, V7. cbn [negb].
  rewrite checkLimit_again by lia.
  rewrite checkLimit_again by (unfold minMaxArrayElements, maxMaxArrayElements; lia).
  rewrite checkLimit_again by (unfold minMaxMapPairs, maxMaxMapPairs; lia).
  reflexivity.
Qed.

Lemma decMode_options_roundtrip_witness :
  let opts := MkDecOptions 1 0 0 0 0 0 0 0 0 0 (Some (TMap typeString_ tInt)) in
  let dm := MkDecModeFields 1 0 32 131072 131072 0 0 0 0 0 (Some (TMap typeString_ tInt)) in
  DecOptions_decMode (fun m => m <? 3) opts = inr dm
  /\ DecOptions_decMode (fun m => m <? 3) (decMode_DecOptions dm)
     = inr (MkDecModeFields 1 0 32 131072 131072 0 0 0 0 0 None).
Proof.
  intros opts dm.
  assert (H : DecOptions_decMode (fun m => m <? 3) opts = inr dm) by reflexivity.
  exact (conj H (decMode_options_roundtrip (fun m => m <? 3) opts dm H)).
Defined.
(** * The well-formedness pass and the input of [Unmarshal] *)

(** ** The well-formedness pass *)

Lemma slice_nil (bs : list byte) (o : Z) : slice bs o o = [].
Proof. unfold slice. rewrite Z.sub_diag. reflexivity. Qed.

Lemma slice_length (bs : list byte) (o o' : Z) :
  0 <= o <= o' -> o' <= Z.of_nat (List.length bs) ->
  Z.of_nat (List.length (slice bs o o')) = o' - o.
Proof.
  intros H1 H2. unfold slice. rewrite length_firstn, length_skipn. lia.
Qed.

Lemma firstn_plus (a b : nat) (l : list byte) :
  firstn (a + b) l = firstn a l ++ firstn b (skipn a l).
Proof.
  revert l. induction a as [|a IH]; intros l; [reflexivity|].
  destruct l as [|x l]; [destruct b; reflexivity|].
  simpl. rewrite IH. reflexivity.
Qed.

Lemma slice_app (bs : list byte) (o o1 o2 : Z) :
  0 <= o <= o1 -> o1 <= o2 ->
  slice bs o o2 = slice bs o o1 ++ slice bs o1 o2.
Proof.
  intros H1 H2. unfold slice.
  replace (Z.to_nat (o2 - o)) with (Z.to_nat (o1 - o) + Z.to_nat (o2 - o1))%nat by lia.
  rewrite firstn_plus. f_equal. rewrite skipn_skipn.
  replace (Z.to_nat (o1 - o) + Z.to_nat o)%nat with (Z.to_nat o1) by lia. reflexivity.
Qed.

Lemma slice_one (bs : list byte) (o : Z) (b : byte) :
  0 <= o -> nth_error bs (Z.to_nat o) = Some b -> slice bs o (o + 1) = [b].
Proof.
  intros Ho Hn. unfold slice. replace (Z.to_nat (o + 1 - o)) with 1%nat by lia.
  revert Hn. generalize (Z.to_nat o). clear. intros n. revert bs.
  induction n as [|n IH]; intros [|a bs] Hn; try discriminate.
  - inversion Hn. reflexivity.
  - simpl in Hn. simpl. apply IH. exact Hn.
Qed.

Lemma slice_from_0 (bs : list byte) (o' : Z) : slice bs 0 o' = firstn (Z.to_nat o') bs.
Proof. unfold slice. rewrite Z.sub_0_r. reflexivity. Qed.

Lemma byteAt_total (o : Z) (d : decoder) :
  0 <= o < Z.of_nat (List.length (data d)) ->
  exists b, nth_error (data d) (Z.to_nat o) = Some b /\ byteAt o d = Done (u8 b, d).
Proof.
  intros H. unfold byteAt. destruct (Z.ltb_spec o 0); [lia|].
  destruct (nth_error (data d) (Z.to_nat o)) as [b|] eqn:En.
  - exists b. split; reflexivity.
  - apply nth_error_None in En. lia.
Qed.

Lemma bytesAt_slice (i j : Z) (d : decoder) :
  0 <= i <= j -> j <= Z.of_nat (List.length (data d)) ->
  bytesAt i j d = Done (slice (data d) i j, d).
Proof.
  intros H1 H2. unfold bytesAt.
  destruct (Z.ltb_spec i 0); [lia|]. destruct (Z.ltb_spec j i); [lia|].
  destruct (Z.ltb_spec (Z.of_nat (List.length (data d))) j); [lia|]. reflexivity.
Qed.

(** The head that [getHead] reads when its bytes are there. *)
Lemma getHead_total (d : decoder) (b : byte) :
  0 <= off d ->
  nth_error (data d) (Z.to_nat (off d)) = Some b ->
  let ai := Z.land (u8 b) 0x1f in
  off d + 1 + argBytes ai <= Z.of_nat (List.length (data d)) ->
  getHead d
  = Done ((Z.land (u8 b) 0xe0, ai,
           if (ai <? 24) || (27 <? ai) then ai
           else bigEndian (slice (data d) (off d + 1) (off d + 1 + argBytes ai))),
          setOff d (off d + 1 + argBytes ai)).
Proof.
  intros Ho Hn ai Hlen. rewrite getHead_eq.
  assert (Hb : byteAt (off d) d = Done (u8 b, d)).
  { unfold byteAt. destruct (Z.ltb_spec (off d) 0); [lia|]. rewrite Hn. reflexivity. }
  rewrite Hb. cbv zeta. fold ai. unfold argBytes in *.
  destruct (Z.ltb_spec ai 24) as [H24|H24].
  { assert (E : (ai =? 24) = false) by (apply Z.eqb_neq; lia).
    assert (E1 : (ai =? 25) = false) by (apply Z.eqb_neq; lia).
    assert (E2 : (ai =? 26) = false) by (apply Z.eqb_neq; lia).
    assert (E3 : (ai =? 27) = false) by (apply Z.eqb_neq; lia).
    rewrite E, E1, E2, E3. cbn [orb]. rewrite Z.add_0_r. reflexivity. }
  cbn [orb].
  destruct (Z.eqb_spec ai 24) as [E24|N24].
  { destruct (byteAt_total (off d + 1) (setOff d (off d + 1))) as (b1 & Hn1 & Hb1).
    { cbn [data setOff]. lia. }
    rewrite Hb1. destruct (Z.ltb_spec 27 ai); [lia|].
    rewrite (slice_one (data d) (off d + 1) b1 ltac:(lia) Hn1).
    unfold bigEndian. cbn [fold_left]. rewrite Z.mul_0_l, Z.add_0_l. reflexivity. }
  destruct (Z.eqb_spec ai 25) as [E25|N25].
  { rewrite bytesAt_slice; [|lia|cbn [data setOff]; lia].
    destruct (Z.ltb_spec 27 ai); [lia|]. reflexivity. }
  destruct (Z.eqb_spec ai 26) as [E26|N26].
  { rewrite bytesAt_slice; [|lia|cbn [data setOff]; lia].
    destruct (Z.ltb_spec 27 ai); [lia|]. reflexivity. }
  destruct (Z.eqb_spec ai 27) as [E27|N27].
  { rewrite bytesAt_slice; [|lia|cbn [data setOff]; lia].
    destruct (Z.ltb_spec 27 ai); [lia|]. reflexivity. }
  destruct (Z.ltb_spec 27 ai); [|lia]. rewrite Z.add_0_r. reflexivity.
Qed.

(** What [validHead] returns: an error, or the head of an item whose
    bytes are all there, or the initial byte of an item of indefinite
    length. *)
Lemma validHead_spec (d : decoder) :
  0 <= off d <= Z.of_nat (List.length (data d)) ->
  exists r d', validHead d = Done (r, d') /\
    match r with
    | inl _ => True
    | inr (t, ai, val) =>
        exists b,
          nth_error (data d) (Z.to_nat (off d)) = Some b
          /\ t = Z.land (u8 b) 0xe0 /\ ai = Z.land (u8 b) 0x1f
          /\ ~ (t = cborTypePrimitives /\ ai = 24 /\ val < 32)
          /\ ((isHead b (slice (data d) (off d + 1) (off d + 1 + argBytes ai)) t ai val
               /\ d' = setOff d (off d + 1 + argBytes ai)
               /\ off d + 1 + argBytes ai <= Z.of_nat (List.length (data d)))
              \/ (ai = 31 /\ d' = setOff d (off d + 1)
                  /\ (t = cborTypeByteString \/ t = cborTypeTextString
                      \/ t = cborTypeArray \/ t = cborTypeMap)))
    end.
Proof.
  intros Ho. unfold validHead. unfold bind at 1. unfold remaining.
  destruct (Z.leb_spec (Z.of_nat (List.length (data d)) - off d) 0) as [Hr|Hr].
  { eexists. eexists. split; [reflexivity|exact I]. }
  unfold bind at 1. unfold getOff. unfold bind at 1.
  destruct (byteAt_total (off d) d ltac:(lia)) as (b & Hn & Hb). rewrite Hb.
  cbv zeta.
  set (t := Z.land (u8 b) 224). set (ai := Z.land (u8 b) 31).
  pose proof (land_head (u8 b) (u8_range b)) as [Ht Hai]. fold t in Ht. fold ai in Hai.
  match goal with
  | |- context [if ?c then ret (inl errUnexpectedEOF) else _] => destruct c eqn:Eneed
  end.
  { eexists. eexists. split; [reflexivity|exact I]. }
  assert (Hneed : off d + 1 + argBytes ai <= Z.of_nat (List.length (data d))).
  { apply Z.ltb_ge in Eneed. revert Eneed. unfold argBytes. clearbody ai t.
    destruct (Z.ltb_spec ai 24);
      destruct (Z.eqb_spec ai 24); destruct (Z.eqb_spec ai 25);
      destruct (Z.eqb_spec ai 26); destruct (Z.eqb_spec ai 27); cbv iota; lia. }
  destruct ((28 <=? ai) && (ai <=? 30)) eqn:E28.
  { eexists. eexists. split; [reflexivity|exact I]. }
  destruct ((ai =? 31) && ((t =? cborTypePositiveInt) || (t =? cborTypeNegativeInt)
                           || (t =? cborTypeTag))) eqn:E31.
  { eexists. eexists. split; [reflexivity|exact I]. }
  destruct ((ai =? 31) && (t =? cborTypePrimitives)) eqn:E31p.
  { eexists. eexists. split; [reflexivity|exact I]. }
  unfold bind at 1.
  rewrite (getHead_total d b ltac:(lia) Hn Hneed). fold t. fold ai.
  cbv iota beta.
  match goal with
  | |- context [if ?c then ret (inl ?e) else _] => destruct c eqn:Esv
  end.
  { eexists. eexists. split; [reflexivity|exact I]. }
  eexists. eexists. split; [reflexivity|]. cbv iota beta.
  exists b. split; [exact Hn|]. split; [reflexivity|]. split; [reflexivity|].
  split.
  { intros (H1 & H2 & H3). rewrite H1, H2 in Esv. rewrite H2 in H3.
    change (cborTypePrimitives =? cborTypePrimitives) with true in Esv.
    change (24 =? 24) with true in Esv.
    change (24 <? 24) with false in Esv, H3. change (27 <? 24) with false in Esv, H3.
    cbn [andb orb] in Esv, H3. cbv iota in Esv, H3.
    apply Z.ltb_ge in Esv. lia. }
  destruct (Z.eqb_spec ai 31) as [Eai|Nai].
  - right. split; [exact Eai|]. split.
    { rewrite Eai. change (argBytes 31) with 0. rewrite Z.add_0_r. reflexivity. }
    cbn [andb] in E31, E31p.
    apply orb_false_iff in E31 as [E31 Etag]. apply orb_false_iff in E31 as [Epos Eneg].
    apply Z.eqb_neq in Epos, Eneg, Etag, E31p.
    simpl in Ht. intuition congruence.
  - left. split; [|split; [reflexivity|exact Hneed]].
    assert (Hlt : ai < 28).
    { apply andb_false_iff in E28 as [E|E]; [apply Z.leb_gt in E; lia|].
      apply Z.leb_gt in E. lia. }
    unfold isHead. split; [reflexivity|]. split; [reflexivity|]. split; [exact Hlt|].
    split.
    { rewrite slice_length; [lia| |lia]. unfold argBytes.
      destruct (ai =? 24); [lia|]. destruct (ai =? 25); [lia|].
      destruct (ai =? 26); [lia|]. destruct (ai =? 27); lia. }
    destruct (Z.ltb_spec ai 24); [reflexivity|].
    destruct (Z.ltb_spec 27 ai); [lia|]. reflexivity.
Qed.

(** The loops of the pass: every round that goes on has read a piece of
    the input with the property [P], so a loop that ends has read a
    sequence of such pieces; and with more fuel than bytes left a loop
    returns. *)
Section PassLoops.

Variable S : Type.
Variable d : decoder.
Variable P : list byte -> Prop.
Variable Inv : Z -> S -> Prop.
Variable body : Z -> S -> M (S + error).
Variable omin : Z.

Let len := Z.of_nat (List.length (data d)).

Hypothesis Homin : 0 <= omin.

Hypothesis Hbody :
  forall i st o, omin <= o <= len -> Inv i st ->
    exists r d', body i st (setOff d o) = Done (r, d') /\
      match r with
      | inl st' =>
          exists o', d' = setOff d o' /\ o < o' <= len /\ P (slice (data d) o o')
                     /\ Inv (i + 1) st'
      | inr _ => True
      end.

Lemma counted_loop (total : Z) (n : nat) :
  forall i st o,
    omin <= o <= len -> len - o < Z.of_nat n -> Inv i st ->
    exists r d',
      forLoop n (fun i _ => ret (i <? total)) body i st (setOff d o) = Done (r, d') /\
      match r with
      | inl st' =>
          exists o' items,
            d' = setOff d o' /\ o <= o' <= len
            /\ slice (data d) o o' = List.concat items /\ Forall P items
            /\ Z.of_nat (List.length items) = Z.max 0 (total - i)
      | inr _ => True
      end.
Proof.
  induction n as [|n IH]; intros i st o Ho Hn HI; [lia|].
  cbn [forLoop]. unfold bind at 1. unfold ret at 1.
  destruct (Z.ltb_spec i total) as [Hlt|Hge]; cbn [negb].
  - destruct (Hbody i st o Ho HI) as (r & d1 & Eb & Hr).
    unfold bind at 1. rewrite Eb. destruct r as [st'|e].
    + destruct Hr as (o1 & -> & Ho1 & HP & HI').
      destruct (IH (i + 1) st' o1 ltac:(lia) ltac:(lia) HI') as (r & d2 & El & Hr).
      exists r, d2. split; [exact El|]. destruct r as [st2|e]; [|exact I].
      destruct Hr as (o2 & items & -> & Ho2 & Hs & Hall & Hlen).
      exists o2, (slice (data d) o o1 :: items). split; [reflexivity|]. split; [lia|].
      split; [rewrite (slice_app (data d) o o1 o2) by lia; cbn [List.concat]; rewrite Hs;
              reflexivity|].
      split; [constructor; assumption|]. cbn [List.length]. lia.
    + eexists. eexists. split; [reflexivity|exact I].
  - eexists. eexists. split; [reflexivity|].
    exists o, []. split; [reflexivity|]. split; [lia|]. split; [apply slice_nil|].
    split; [constructor|]. cbn [List.length]. lia.
Qed.

Lemma break_loop (n : nat) :
  forall i st o,
    omin <= o <= len -> len - o < Z.of_nat n -> Inv i st ->
    exists r d',
      forLoop n (@untilBreak S) body i st (setOff d o) = Done (r, d') /\
      match r with
      | inl st' =>
          exists o' items,
            d' = setOff d o' /\ o < o' <= len
            /\ slice (data d) o o' = List.concat items ++ [breakCode] /\ Forall P items
            /\ Inv (i + Z.of_nat (List.length items)) st'
      | inr _ => True
      end.
Proof.
  induction n as [|n IH]; intros i st o Ho Hn HI; [lia|].
  cbn [forLoop]. unfold bind at 1.
  assert (Hc : exists c : bool, @untilBreak S i st (setOff d o)
                         = Done (c, if c then setOff d o else setOff d (o + 1))
                         /\ (c = false ->
                             o < len /\ slice (data d) o (o + 1) = [breakCode])).
  { unfold untilBreak, bind at 1, remaining. cbn [data off setOff]. fold len.
    destruct (Z.leb_spec (len - o) 0) as [Hr|Hr].
    { exists true. split; [reflexivity|discriminate]. }
    unfold foundBreak, bind, getOff, putOff, ret. cbn [off setOff].
    destruct (byteAt_total o (setOff d o)) as (b & Hb & Eb); [cbn [data setOff]; lia|].
    rewrite Eb. cbn [data setOff] in Hb.
    destruct (Z.eqb_spec (u8 b) 255) as [E|E].
    - exists false. split; [reflexivity|]. intros _. split; [lia|].
      rewrite (slice_one (data d) o b ltac:(lia) Hb). f_equal.
      rewrite <- (byteOfZ_u8 b), E. reflexivity.
    - exists true. split; [reflexivity|discriminate]. }
  destruct Hc as (c & Ec & Hc). rewrite Ec. destruct c; cbn [negb].
  - destruct (Hbody i st o Ho HI) as (r & d1 & Eb & Hr).
    unfold bind at 1. rewrite Eb. destruct r as [st'|e].
    + destruct Hr as (o1 & -> & Ho1 & HP & HI').
      destruct (IH (i + 1) st' o1 ltac:(lia) ltac:(lia) HI') as (r & d2 & El & Hr).
      exists r, d2. split; [exact El|]. destruct r as [st2|e]; [|exact I].
      destruct Hr as (o2 & items & -> & Ho2 & Hs & Hall & HI2).
      exists o2, (slice (data d) o o1 :: items). split; [reflexivity|]. split; [lia|].
      split; [rewrite (slice_app (data d) o o1 o2) by lia; cbn [List.concat]; rewrite Hs;
              rewrite app_assoc; reflexivity|].
      split; [constructor; assumption|]. cbn [List.length].
      replace (i + Z.of_nat (Datatypes.S (List.length items)))
        with (i + 1 + Z.of_nat (List.length items)) by lia. exact HI2.
    + eexists. eexists. split; [reflexivity|exact I].
  - destruct (Hc eq_refl) as [Hlt Hs].
    eexists. eexists. split; [reflexivity|].
    exists (o + 1), []. split; [reflexivity|]. split; [lia|]. split; [exact Hs|].
    split; [constructor|]. cbn [List.length]. rewrite Z.add_0_r. exact HI.
Qed.

End PassLoops.

Lemma argBytes_nonneg (ai : Z) : 0 <= argBytes ai <= 8.
Proof.
  unfold argBytes. destruct (ai =? 24); [lia|]. destruct (ai =? 25); [lia|].
  destruct (ai =? 26); [lia|]. destruct (ai =? 27); lia.
Qed.

Lemma slice_head (bs : list byte) (o o' : Z) (b : byte) :
  0 <= o -> o + 1 <= o' -> nth_error bs (Z.to_nat o) = Some b ->
  slice bs o o' = b :: slice bs (o + 1) o'.
Proof.
  intros Ho Ho' Hn. rewrite (slice_app bs o (o + 1) o') by lia.
  rewrite (slice_one bs o b Ho Hn). reflexivity.
Qed.

Lemma isHead_val (b : byte) (args : list byte) (t ai val : Z) :
  isHead b args t ai val -> 0 <= val < 2 ^ 64 /\ 0 <= ai < 28.
Proof.
  intros (_ & Hai & Hlt & Hlen & ->).
  pose proof (land_head (u8 b) (u8_range b)) as [_ H]. rewrite <- Hai in H.
  destruct (ai <? 24); [lia|]. pose proof (bigEndian_range args) as Hb.
  pose proof (argBytes_nonneg ai) as Ha.
  assert (256 ^ Z.of_nat (List.length args) <= 256 ^ 8)
    by (apply Z.pow_le_mono_r; lia).
  change (256 ^ 8) with (2 ^ 64) in *. lia.
Qed.

(** A head with the bytes it announces, [val] of them, from the offset
    [o]: the bytes from [o] on are the initial byte, the argument bytes
    and the payload. *)
Lemma head_slices (bs : list byte) (o : Z) (b : byte) (t ai val o' : Z) :
  0 <= o -> nth_error bs (Z.to_nat o) = Some b ->
  isHead b (slice bs (o + 1) (o + 1 + argBytes ai)) t ai val ->
  o + 1 + argBytes ai <= o' ->
  slice bs o o'
  = b :: slice bs (o + 1) (o + 1 + argBytes ai) ++ slice bs (o + 1 + argBytes ai) o'.
Proof.
  intros Ho Hn Hh Ho'. pose proof (argBytes_nonneg ai).
  rewrite (slice_head bs o o' b Ho ltac:(lia) Hn). f_equal.
  apply slice_app; lia.
Qed.

(** One chunk of a string of indefinite length. *)
Lemma validChunk_spec (d : decoder) (t : Z) (i : Z) (u : unit) (o : Z) :
  0 <= o <= Z.of_nat (List.length (data d)) ->
  exists r d', validChunk t i u (setOff d o) = Done (r, d') /\
    match r with
    | inl _ =>
        exists o', d' = setOff d o' /\ o < o' <= Z.of_nat (List.length (data d))
                   /\ isChunk t (slice (data d) o o') /\ True
    | inr _ => True
    end.
Proof.
  intros Ho. unfold validChunk. unfold bind at 1.
  destruct (validHead_spec (setOff d o) Ho) as (r & d1 & Eh & Hh). rewrite Eh.
  destruct r as [e|[[t' ai'] val']].
  { eexists. eexists. split; [reflexivity|exact I]. }
  cbn [data off setOff] in Hh.
  destruct Hh as (b & Hn & Et & Eai & Hsv & Hcase).
  unfold bind at 1. unfold remaining.
  destruct (Z.eqb_spec t' t) as [E|E]; cbn [negb];
    [|eexists; eexists; split; [reflexivity|exact I]].
  destruct (Z.eqb_spec ai' 31) as [E31|N31];
    [eexists; eexists; split; [reflexivity|exact I]|].
  destruct Hcase as [(Hh & -> & Hlen)|(E31 & _)]; [|contradiction].
  cbn [data off setOff].
  destruct (isHead_val _ _ _ _ _ Hh) as [Hval Hai]. pose proof (argBytes_nonneg ai') as Harg.
  destruct ((toInt val' <? 0) || _) eqn:Ec;
    [eexists; eexists; split; [reflexivity|exact I]|].
  apply orb_false_iff in Ec as [E1 E2]. apply Z.ltb_ge in E1, E2.
  assert (Hv : toInt val' = val').
  { unfold toInt in *. destruct (Z.ltb_spec val' (2 ^ 63)); [reflexivity|lia]. }
  rewrite Hv in *.
  eexists. eexists. split; [reflexivity|].
  exists (o + 1 + argBytes ai' + val'). split; [reflexivity|]. split; [lia|].
  split; [|exact I].
  exists b, (slice (data d) (o + 1) (o + 1 + argBytes ai')), ai', val',
    (slice (data d) (o + 1 + argBytes ai') (o + 1 + argBytes ai' + val')).
  split; [apply (head_slices (data d) o b t' ai' val'); [lia|exact Hn|exact Hh|lia]|].
  split; [rewrite <- E; exact Hh|].
  rewrite slice_length; lia.
Qed.

(** One item of an array or map, given what the check of an item gives. *)
Section ItemRounds.

Variable d : decoder.
Variable f : nat.
Variable depth : Z.
Variable omin : Z.

Hypothesis Hitem :
  forall o, omin <= o <= Z.of_nat (List.length (data d)) ->
    exists r d', validInternal f depth (setOff d o) = Done (r, d') /\
      match r with
      | inl _ => True
      | inr _ =>
          exists o', d' = setOff d o' /\ o < o' <= Z.of_nat (List.length (data d))
                     /\ wellFormed (dm d) depth (slice (data d) o o')
      end.

Lemma validItem_spec (i maxDepth o : Z) :
  omin <= o <= Z.of_nat (List.length (data d)) -> True ->
  exists r d', validItem (validInternal f depth) i maxDepth (setOff d o) = Done (r, d') /\
    match r with
    | inl _ =>
        exists o', d' = setOff d o' /\ o < o' <= Z.of_nat (List.length (data d))
                   /\ wellFormed (dm d) depth (slice (data d) o o') /\ True
    | inr _ => True
    end.
Proof.
  intros Ho _. unfold validItem, bind.
  destruct (Hitem o Ho) as (r & d1 & Ei & Hi). rewrite Ei. destruct r as [e|dpt].
  - eexists. eexists. split; [reflexivity|exact I].
  - eexists. eexists. split; [reflexivity|].
    destruct Hi as (o' & -> & Ho' & Hw). exists o'. auto.
Qed.

Lemma validItemIndef_spec (most : Z) (tooMany : error) (i : Z) (st : Z * Z) (o : Z) :
  omin <= o <= Z.of_nat (List.length (data d)) ->
  (snd st = i /\ 0 <= i <= most) ->
  exists r d',
    validItemIndef (validInternal f depth) most tooMany i st (setOff d o) = Done (r, d') /\
    match r with
    | inl st' =>
        exists o', d' = setOff d o' /\ o < o' <= Z.of_nat (List.length (data d))
                   /\ wellFormed (dm d) depth (slice (data d) o o')
                   /\ (snd st' = i + 1 /\ 0 <= i + 1 <= most)
    | inr _ => True
    end.
Proof.
  intros Ho [Hs Hi]. unfold validItemIndef.
  destruct (Z.leb_spec most i) as [Hm|Hm];
    [eexists; eexists; split; [reflexivity|exact I]|].
  unfold bind.
  destruct (Hitem o Ho) as (r & d1 & Ei & Hr). rewrite Ei. destruct r as [e|dpt].
  - eexists. eexists. split; [reflexivity|exact I].
  - eexists. eexists. split; [reflexivity|].
    destruct Hr as (o' & -> & Ho' & Hw). exists o'. cbn [snd]. repeat split; auto; lia.
Qed.

End ItemRounds.

(** The pass on one item: with more fuel than bytes it returns, and when
    it reports no error the bytes it has read are a well-formed item
    within the limits. *)
Lemma validInternal_spec (fuel : nat) :
  forall depth d,
    limitsValid (dm d) ->
    0 <= off d <= Z.of_nat (List.length (data d)) ->
    Z.of_nat (List.length (data d)) - off d < Z.of_nat fuel ->
    exists r d', validInternal fuel depth d = Done (r, d') /\
      match r with
      | inl _ => True
      | inr _ =>
          exists o', d' = setOff d o' /\ off d < o' <= Z.of_nat (List.length (data d))
                     /\ wellFormed (dm d) depth (slice (data d) (off d) o')
      end.
Proof.
  induction fuel as [|f IH]; intros depth d Hlim Ho Hf; [lia|].
  cbn [validInternal]. unfold bind at 1.
  destruct (validHead_spec d Ho) as (r & d1 & Eh & Hh). rewrite Eh.
  unfold bind at 1. unfold getDm at 1.
  destruct r as [e|[[t ai] val]].
  { eexists. eexists. split; [reflexivity|exact I]. }
  destruct Hh as (b & Hn & Et & Eai & Hsv & Hcase).
  pose proof (land_head (u8 b) (u8_range b)) as [Ht Hai]. rewrite <- Et in Ht.
  rewrite <- Eai in Hai. pose proof (argBytes_nonneg ai) as Harg.
  assert (Hm1 : dm d1 = dm d) by (destruct Hcase as [(_ & -> & _)|(_ & -> & _)]; reflexivity).
  rewrite Hm1.
  assert (Hlt : off d < Z.of_nat (List.length (data d))).
  { assert (Z.to_nat (off d) < List.length (data d))%nat
      by (apply nth_error_Some; congruence). lia. }
  set (len := Z.of_nat (List.length (data d))) in *.
  (* what the check of an item gives at the offsets behind the head *)
  assert (Hitem : forall depth' o, off d + 1 <= o <= len ->
            exists r d', validInternal f depth' (setOff d o) = Done (r, d') /\
              match r with
              | inl _ => True
              | inr _ =>
                  exists o', d' = setOff d o' /\ o < o' <= len
                             /\ wellFormed (dm d) depth' (slice (data d) o o')
              end).
  { intros depth' o Hoo. apply (IH depth' (setOff d o)); cbn [data off dm setOff];
      [exact Hlim|lia|fold len; lia]. }
  destruct ((t =? cborTypeByteString) || (t =? cborTypeTextString)) eqn:Estr.
  { assert (Hts : t = cborTypeByteString \/ t = cborTypeTextString).
    { apply orb_true_iff in Estr as [E|E]; apply Z.eqb_eq in E; auto. }
    destruct (Z.eqb_spec ai 31) as [E31|N31].
    - (* a string of indefinite length *)
      destruct Hcase as [(Hh & _)|(_ & -> & _)];
        [destruct (isHead_val _ _ _ _ _ Hh); lia|].
      destruct (indefLength (dm d)) eqn:Ei;
        [|eexists; eexists; split; [reflexivity|exact I]].
      unfold bind at 1.
      assert (Hchunk : forall i (st : unit) o, off d + 1 <= o <= len -> True ->
                exists r d', validChunk t i st (setOff d o) = Done (r, d') /\
                  match r with
                  | inl _ =>
                      exists o', d' = setOff d o' /\ o < o' <= len
                                 /\ isChunk t (slice (data d) o o') /\ True
                  | inr _ => True
                  end).
      { intros i st o Hoo _. apply validChunk_spec. fold len. lia. }
      destruct (break_loop unit d (isChunk t) (fun _ _ => True) (validChunk t) (off d + 1)
                  ltac:(lia) Hchunk
                  f 0 tt (off d + 1) ltac:(fold len; lia) ltac:(fold len; lia) I)
        as (r & d2 & El & Hr).
      rewrite El. destruct r as [u|e];
        [|eexists; eexists; split; [reflexivity|exact I]].
      destruct Hr as (o2 & chunks & -> & Ho2 & Hs & Hall & _).
      eexists. eexists. split; [reflexivity|].
      exists o2. split; [reflexivity|]. split; [fold len in Ho2; lia|].
      rewrite (slice_head (data d) (off d) o2 b ltac:(lia) ltac:(lia) Hn), Hs.
      apply (@wf_chunks (dm d) depth b t chunks); auto.
      split; [exact Et | rewrite <- Eai; exact E31].
    - (* a string of definite length *)
      destruct Hcase as [(Hh & -> & Hlen)|(E31 & _)]; [|contradiction].
      destruct (isHead_val _ _ _ _ _ Hh) as [Hval _].
      unfold bind at 1. unfold remaining. cbn [data off setOff]. fold len.
      destruct (Z.ltb_spec (toInt val) 0);
        [eexists; eexists; split; [reflexivity|exact I]|].
      destruct (Z.ltb_spec (len - (off d + 1 + argBytes ai)) (toInt val));
        [eexists; eexists; split; [reflexivity|exact I]|].
      assert (Hv : toInt val = val).
      { unfold toInt in *. destruct (Z.ltb_spec val (2 ^ 63)); [reflexivity|lia]. }
      rewrite Hv in *.
      eexists. eexists. split; [reflexivity|].
      exists (off d + 1 + argBytes ai + val). split; [reflexivity|]. split; [lia|].
      rewrite (head_slices (data d) (off d) b t ai val (off d + 1 + argBytes ai + val)
                 ltac:(lia) Hn Hh ltac:(lia)).
      apply (@wf_string (dm d) depth b _ t ai val); auto.
      rewrite slice_length; fold len; lia. }
  destruct ((t =? cborTypeArray) || (t =? cborTypeMap)) eqn:Earr.
  { assert (Hta : t = cborTypeArray \/ t = cborTypeMap).
    { apply orb_true_iff in Earr as [E|E]; apply Z.eqb_eq in E; auto. }
    cbv zeta.
    destruct (Z.ltb_spec (maxNestedLevels (dm d)) (depth + 1)) as [Hdeep|Hdeep];
      [eexists; eexists; split; [reflexivity|exact I]|].
    destruct Hlim as (Hl1 & Hl2 & Hl3).
    set (limit := if t =? cborTypeArray then maxArrayElements (dm d)
                  else maxMapPairs (dm d)).
    set (per := if t =? cborTypeArray then 1 else 2).
    assert (Harr : t = cborTypeArray -> limit = maxArrayElements (dm d) /\ per = 1).
    { intros E. unfold limit, per. rewrite E. split; reflexivity. }
    assert (Hmap : t = cborTypeMap -> limit = maxMapPairs (dm d) /\ per = 2).
    { intros E. unfold limit, per. rewrite E. split; reflexivity. }
    assert (Hlimit : 0 <= limit) by (unfold limit; destruct (t =? cborTypeArray); lia).
    assert (Hper : 1 <= per <= 2) by (unfold per; destruct (t =? cborTypeArray); lia).
    destruct (Z.eqb_spec ai 31) as [E31|N31].
    - (* an array or map of indefinite length *)
      destruct Hcase as [(Hh & _)|(_ & -> & _)];
        [destruct (isHead_val _ _ _ _ _ Hh); lia|].
      destruct (indefLength (dm d)) eqn:Ei;
        [|eexists; eexists; split; [reflexivity|exact I]].
      unfold bind at 1.
      destruct (break_loop (Z * Z) d (wellFormed (dm d) (depth + 1))
                  (fun i st => snd st = i /\ 0 <= i <= limit * per)
                  (validItemIndef (validInternal f (depth + 1)) (limit * per)
                     (exceededElements (dm d) t))
                  (off d + 1) ltac:(lia)
                  (validItemIndef_spec d f (depth + 1) (off d + 1) (Hitem (depth + 1))
                     (limit * per) (exceededElements (dm d) t))
                  f 0 (depth + 1, 0) (off d + 1) ltac:(fold len; lia) ltac:(fold len; lia)
                  ltac:(cbn [snd]; nia))
        as (r & d2 & El & Hr).
      rewrite El. destruct r as [[dpt n]|e];
        [|eexists; eexists; split; [reflexivity|exact I]].
      destruct Hr as (o2 & items & -> & Ho2 & Hs & Hall & Hcount & Hmost).
      cbn [snd] in Hcount. fold len in Ho2.
      destruct ((t =? cborTypeMap) && Z.odd n) eqn:Eodd;
        [eexists; eexists; split; [reflexivity|exact I]|].
      eexists. eexists. split; [reflexivity|].
      exists o2. split; [reflexivity|]. split; [lia|].
      rewrite (slice_head (data d) (off d) o2 b ltac:(lia) ltac:(lia) Hn), Hs.
      destruct Hta as [Ea|Em].
      + apply (@wf_array_indef (dm d) depth b items); auto.
        * split; [rewrite <- Ea; exact Et | rewrite <- Eai; exact E31].
        * destruct (Harr Ea) as [E1 E2]. rewrite E1, E2 in Hmost. lia.
      + rewrite Em in Eodd. change (cborTypeMap =? cborTypeMap) with true in Eodd.
        cbn [andb] in Eodd.
        apply (@wf_map_indef (dm d) depth b (n / 2) items); auto.
        * split; [rewrite <- Em; exact Et | rewrite <- Eai; exact E31].
        * pose proof (Z.div_mod n 2 ltac:(lia)) as Hdm.
          assert (Hev : n mod 2 = 0) by (rewrite Zmod_odd, Eodd; reflexivity).
          lia.
        * destruct (Hmap Em) as [E1 E2]. rewrite E1, E2 in Hmost.
          apply Z.div_le_upper_bound; lia.
    - (* an array or map of definite length *)
      destruct Hcase as [(Hh & -> & Hlen)|(E31 & _)]; [|contradiction].
      destruct (isHead_val _ _ _ _ _ Hh) as [Hval _].
      destruct (Z.ltb_spec (toInt val) 0);
        [eexists; eexists; split; [reflexivity|exact I]|].
      destruct (Z.ltb_spec limit (toInt val));
        [eexists; eexists; split; [reflexivity|exact I]|].
      assert (Hv : toInt val = val).
      { unfold toInt in *. destruct (Z.ltb_spec val (2 ^ 63)); [reflexivity|lia]. }
      rewrite Hv in *.
      unfold bind at 1.
      destruct (counted_loop Z d (wellFormed (dm d) (depth + 1)) (fun _ _ => True)
                  (validItem (validInternal f (depth + 1))) (off d + 1) ltac:(lia)
                  (validItem_spec d f (depth + 1) (off d + 1) (Hitem (depth + 1)))
                  (val * per) f 0 (depth + 1) (off d + 1 + argBytes ai)
                  ltac:(fold len; lia) ltac:(fold len; lia) I)
        as (r & d2 & El & Hr).
      rewrite El. destruct r as [dpt|e];
        [|eexists; eexists; split; [reflexivity|exact I]].
      destruct Hr as (o2 & items & -> & Ho2 & Hs & Hall & Hcount).
      fold len in Ho2.
      eexists. eexists. split; [reflexivity|].
      exists o2. split; [reflexivity|]. split; [lia|].
      rewrite (head_slices (data d) (off d) b t ai val o2 ltac:(lia) Hn Hh ltac:(lia)), Hs.
      destruct Hta as [Ea|Em].
      + rewrite Ea in Hh.
        apply (@wf_array (dm d) depth b _ ai val items); auto.
        * destruct (Harr Ea) as [E1 E2]. rewrite E2 in Hcount. lia.
        * destruct (Harr Ea) as [E1 E2]. rewrite E1 in *. lia.
      + rewrite Em in Hh.
        apply (@wf_map (dm d) depth b _ ai val items); auto.
        * destruct (Hmap Em) as [E1 E2]. rewrite E2 in Hcount. lia.
        * destruct (Hmap Em) as [E1 E2]. rewrite E1 in *. lia. }
  destruct (Z.eqb_spec t cborTypeTag) as [Etag|Ntag].
  { destruct Hcase as [(Hh & -> & Hlen)|(_ & _ & Hc)];
      [|rewrite Etag in Hc; destruct Hc as [Hc|[Hc|[Hc|Hc]]]; discriminate].
    destruct (tagsMd (dm d)) eqn:Etm;
      [|eexists; eexists; split; [reflexivity|exact I]].
    cbv zeta.
    destruct (Z.ltb_spec (maxNestedLevels (dm d)) (depth + 1)) as [Hdeep|Hdeep];
      [eexists; eexists; split; [reflexivity|exact I]|].
    destruct (Hitem (depth + 1) (off d + 1 + argBytes ai) ltac:(lia))
      as (r & d2 & Ei & Hr).
    rewrite Ei. exists r, d2. split; [reflexivity|].
    destruct r as [e|dpt]; [exact I|].
    destruct Hr as (o2 & -> & Ho2 & Hw).
    exists o2. split; [reflexivity|]. split; [lia|].
    rewrite (head_slices (data d) (off d) b t ai val o2 ltac:(lia) Hn Hh ltac:(lia)).
    rewrite Etag in Hh. apply (@wf_tag (dm d) depth b _ ai val); auto. }
  (* integers, simple values and floats *)
  apply orb_false_iff in Estr as [Eb Etx]. apply orb_false_iff in Earr as [Ea Em].
  apply Z.eqb_neq in Eb, Etx, Ea, Em.
  destruct Hcase as [(Hh & -> & Hlen)|(_ & _ & Hc)]; [|intuition congruence].
  eexists. eexists. split; [reflexivity|].
  exists (off d + 1 + argBytes ai). split; [reflexivity|]. split; [lia|].
  rewrite (head_slices (data d) (off d) b t ai val (off d + 1 + argBytes ai)
             ltac:(lia) Hn Hh ltac:(lia)).
  rewrite slice_nil, app_nil_r.
  apply (@wf_scalar (dm d) depth b _ t ai val); auto.
  simpl in Ht. intuition congruence.
Qed.

(** The pass of [Unmarshal], from the start of the input. *)
Lemma valid_spec (fuel : nat) (bs : list byte) (m : decMode) :
  limitsValid m -> (List.length bs < fuel)%nat ->
  exists r d', valid fuel (newDecoder bs m) = Done (r, d') /\
    match r with
    | Some _ => True
    | None =>
        exists n, (0 < n <= List.length bs)%nat /\ wellFormed m 0 (firstn n bs)
    end.
Proof.
  intros Hlim Hf. unfold valid. unfold bind at 1. unfold remaining.
  cbn [data off newDecoder]. rewrite Z.sub_0_r.
  destruct (Z.eqb_spec (Z.of_nat (List.length bs)) 0) as [E|E].
  { eexists. eexists. split; [reflexivity|exact I]. }
  unfold bind.
  destruct (validInternal_spec fuel 0 (newDecoder bs m) Hlim) as (r & d' & Ev & Hr);
    [cbn [data off newDecoder]; lia | cbn [data off newDecoder]; lia |].
  rewrite Ev. destruct r as [e|dpt].
  { eexists. eexists. split; [reflexivity|exact I]. }
  eexists. eexists. split; [reflexivity|].
  destruct Hr as (o' & _ & Ho' & Hw). cbn [data off dm newDecoder] in Ho', Hw.
  rewrite slice_from_0 in Hw.
  exists (Z.to_nat o'). split; [lia | exact Hw].
Qed.

(** C1 (amended).  [Unmarshal] runs the well-formedness pass on the first
    data item of the input before it decodes anything.  When no leading
    part of the input is a data item that is complete, well-formed and
    within the limits of the mode, [Unmarshal] returns an error and the
    target is as it was; so it does whenever the pass reports an error.
    Only when the pass succeeds, and then a leading part of the input is
    such an item, is the target, a non-nil pointer, decoded into, from the
    start of the input. *)
Theorem value_validates_first (lib : golib) (fuel k : nat) (m : decMode) (bs : list byte)
    (v : any) :
  limitsValid m -> (List.length bs < fuel)%nat ->
  ((forall n, ~ wellFormed m 0 (firstn n bs)) ->
   exists e, Unmarshal lib (valid fuel) k m bs v = Done (v, Some e))
  /\ (forall e d1, valid fuel (newDecoder bs m) = Done (Some e, d1) ->
        exists e', Unmarshal lib (valid fuel) k m bs v = Done (v, Some e'))
  /\ (forall d1, valid fuel (newDecoder bs m) = Done (None, d1) ->
        (exists n, (0 < n <= List.length bs)%nat /\ wellFormed m 0 (firstn n bs))
        /\ forall t x, v = Some (t, VPtr (Some x)) -> kindOf t = KPtr ->
             Unmarshal lib (valid fuel) k m bs v
             = match parseToValueF lib k (elemOf t) (RV (elemOf t) x true)
                       (newDecoder bs m) with
               | Done ((x', err), _) => Done (Some (t, VPtr (Some x')), err)
               | Panic => Panic
               | OutOfFuel => OutOfFuel
               end).
Proof.
  intros Hlim Hf.
  assert (Hrej : forall e d1, valid fuel (newDecoder bs m) = Done (Some e, d1) ->
            exists e', Unmarshal lib (valid fuel) k m bs v = Done (v, Some e')).
  { intros e d1 Hv. unfold Unmarshal, value.
    destruct v as [[t x]|]; [|eexists; reflexivity].
    destruct (negb (Kind_eqb (rKind (RV t x false)) KPtr)); [eexists; reflexivity|].
    destruct (IsNil (RV t x false)); [eexists; reflexivity|].
    unfold bind, getOff, putOff. rewrite Hv. exists e. reflexivity. }
  destruct (valid_spec fuel bs m Hlim Hf) as (r & d' & Ev & Hr).
  split; [|split].
  - intros Hno. destruct r as [e|].
    + exact (Hrej e d' Ev).
    + destruct Hr as (n & _ & Hw). exfalso. exact (Hno n Hw).
  - exact Hrej.
  - intros d1 Hv. rewrite Hv in Ev. inversion Ev; subst r d'. split; [exact Hr|].
    intros t x -> Hk. unfold Unmarshal, value.
    unfold rKind. cbn [rtype]. rewrite Hk. cbn [Kind_eqb negb IsNil rval].
    unfold bind at 1. unfold getOff. unfold bind at 1. rewrite Hv.
    unfold bind at 1. unfold putOff. cbn [Elem rval rtype rewrap].
    assert (Ed : setOff d1 (off (newDecoder bs m)) = newDecoder bs m).
    { unfold valid in Hv. unfold bind at 1 in Hv. unfold remaining in Hv.
      destruct (_ =? 0); [discriminate|]. unfold bind in Hv.
      destruct (validInternal_spec fuel 0 (newDecoder bs m) Hlim) as (r & d' & Ev' & Hr');
        [cbn [data off newDecoder]; lia | cbn [data off newDecoder]; lia |].
      rewrite Ev' in Hv. destruct r as [e|dpt]; [discriminate|].
      destruct Hr' as (o' & -> & _). inversion Hv; subst d1. reflexivity. }
    rewrite Ed. unfold bind.
    destruct (parseToValueF lib k (elemOf t) (RV (elemOf t) x true) (newDecoder bs m))
      as [[[x' err] d2]| |]; reflexivity.
Qed.

(** A well-formed item is not empty, and a sequence of items has at
    least as many bytes as items. *)
Lemma wellFormed_nonempty (m : decMode) (depth : Z) (bs : list byte) :
  wellFormed m depth bs -> (1 <= List.length bs)%nat.
Proof. intros H. destruct H; cbn [List.length]; lia. Qed.

Lemma concat_items_length (m : decMode) (depth : Z) (items : list (list byte)) :
  Forall (wellFormed m depth) items ->
  (List.length items <= List.length (List.concat items))%nat.
Proof.
  induction 1 as [|x l Hx _ IH]; [reflexivity|].
  cbn [List.concat List.length]. rewrite length_app.
  pose proof (wellFormed_nonempty m depth x Hx). lia.
Qed.

Lemma argBytes_small (ai : Z) : ai < 24 -> argBytes ai = 0.
Proof.
  intros H. unfold argBytes.
  destruct (Z.eqb_spec ai 24); [lia|]. destruct (Z.eqb_spec ai 25); [lia|].
  destruct (Z.eqb_spec ai 26); [lia|]. destruct (Z.eqb_spec ai 27); [lia|]. reflexivity.
Qed.

(** The cases of [wellFormed] for an initial byte of known major type
    and additional information. *)
Ltac wf_head Ht :=
  repeat match goal with
         | Hh : isHead _ _ _ _ _ |- _ =>
             let E := fresh "Et" in
             destruct Hh as (E & ? & ? & ? & ?); rewrite Ht in E
         | Hi : isIndefinite _ _ |- _ => destruct Hi as (? & ?)
         | Hk : _ \/ _ |- _ => destruct Hk
         end;
  subst; try discriminate; try lia.

(** The items of an array of definite length whose count stands in its
    initial byte. *)
Lemma wellFormed_small_array (m : decMode) (depth : Z) (b : byte) (rest : list byte) :
  Z.land (u8 b) 0xe0 = cborTypeArray -> Z.land (u8 b) 0x1f < 24 ->
  wellFormed m depth (b :: rest) ->
  exists items, rest = List.concat items
                /\ Z.of_nat (List.length items) = Z.land (u8 b) 0x1f
                /\ Forall (wellFormed m (depth + 1)) items.
Proof.
  intros Ht Hai H. inversion H; subst; clear H; wf_head Ht.
  match goal with
  | Hl : Z.of_nat (List.length ?args) = argBytes _ |- _ =>
      rewrite (argBytes_small _ Hai) in Hl; destruct args;
      [|cbn [List.length] in Hl; lia]
  end.
  match goal with
  | Hall : Forall _ ?items |- _ => exists items
  end.
  split; [reflexivity|]. split; [|assumption].
  destruct (Z.ltb_spec (Z.land (u8 b) 31) 24); [assumption|lia].
Qed.

(** An integer whose value stands in its initial byte is that byte alone. *)
Lemma wellFormed_small_int (m : decMode) (depth : Z) (b : byte) (rest : list byte) :
  Z.land (u8 b) 0xe0 = cborTypePositiveInt -> Z.land (u8 b) 0x1f < 24 ->
  wellFormed m depth (b :: rest) -> rest = [].
Proof.
  intros Ht Hai H. inversion H; subst; clear H; wf_head Ht.
  match goal with
  | Hl : Z.of_nat (List.length ?args) = argBytes _ |- _ =>
      rewrite (argBytes_small _ Hai) in Hl; destruct args;
      [reflexivity|cbn [List.length] in Hl; lia]
  end.
Qed.

Lemma limitsValid_default : limitsValid defaultDecMode.
Proof.
  unfold limitsValid, defaultDecMode, defaultMaxArrayElements, defaultMaxMapPairs.
  cbn [maxNestedLevels maxArrayElements maxMapPairs]. lia.
Qed.

(** The array [[1, 2, _]] cut short behind its second item: no leading
    part of the input is a well-formed item. *)
Lemma truncated_array_malformed (n : nat) :
  ~ wellFormed defaultDecMode 0 (firstn n (hexDecode "830102")).
Proof.
  intros H. change (hexDecode "830102") with ["131"%byte; "001"%byte; "002"%byte] in H.
  destruct n as [|n]; [apply wellFormed_nonempty in H; cbn in H; lia|].
  cbn [firstn] in H.
  apply wellFormed_small_array in H; [|reflexivity|cbn; lia].
  destruct H as (items & Hr & Hl & Hall).
  apply concat_items_length in Hall. rewrite <- Hr in Hall.
  change (Z.land (u8 "131") 31) with 3 in Hl.
  assert (List.length (firstn n ["001"%byte; "002"%byte]) <= 2)%nat
    by (rewrite length_firstn; cbn; lia).
  lia.
Qed.

Lemma value_validates_first_witness :
  let v : any := Some (TPtr (TSlice tInt), VPtr (Some (VSlice None))) in
  limitsValid defaultDecMode
  /\ (List.length (hexDecode "830102") < 64)%nat
  /\ (forall n, ~ wellFormed defaultDecMode 0 (firstn n (hexDecode "830102")))
  /\ exists e, Unmarshal asciiLib (valid 64) 64 defaultDecMode (hexDecode "830102") v
               = Done (v, Some e).
Proof.
  intros v.
  assert (H1 : limitsValid defaultDecMode) by exact limitsValid_default.
  assert (H2 : (List.length (hexDecode "830102") < 64)%nat) by (cbn; lia).
  refine (conj H1 (conj H2 (conj truncated_array_malformed _))).
  exact (proj1 (value_validates_first asciiLib 64 64 defaultDecMode (hexDecode "830102") v
                  H1 H2) truncated_array_malformed).
Defined.

(** C1 as stated fails for bytes behind the first data item: the input
    [01 ff], the integer 1 and a break code, is no well-formed item, and
    the break code alone is rejected by the pass; yet [Unmarshal] returns
    no error and sets the target to 1.  Likewise for [01 02]. *)
Lemma trailing_bytes_not_checked :
  ~ wellFormed defaultDecMode 0 (hexDecode "01ff")
  /\ valid 64 (setOff (newDecoder (hexDecode "01ff") defaultDecMode) 1)
     = Done (Some (errorString "cbor: unexpected break code"),
             setOff (newDecoder (hexDecode "01ff") defaultDecMode) 1)
  /\ unmarshalInto defaultDecMode "01ff" tInt (VInt 7)
     = Done (Some (TPtr tInt, VPtr (Some (VInt 1))), None)
  /\ unmarshalInto defaultDecMode "0102" tInt (VInt 7)
     = Done (Some (TPtr tInt, VPtr (Some (VInt 1))), None).
Proof.
  split; [|repeat split; vm_compute; reflexivity].
  intros H. change (hexDecode "01ff") with ["001"%byte; "255"%byte] in H.
  apply wellFormed_small_int in H; [discriminate|reflexivity|cbn; lia].
Qed.
